(* ===== verification/_CoqProject ===== *)
-Q . S2P
Prelude.v
Platform.v
WTFString.v
UTF8.v
UTF8Facts.v
UTF8Theorems.v
StringBuilders.v
StringBuilderFacts.v
StringBuilderOps.v
StringBuilderTheorems.v
DecimalNumber.v
DecimalFacts.v
JSONValues.v
JSONObject.v
JSONParser.v
JSONParserFacts.v
JSONGrammar.v
NumberText.v
DecimalTheorems.v
JSONRoundTrip.v
JSONWriting.v
InspectorState.v
InspectorStateFacts.v
Dispatcher.v
Commands.v
DispatcherFacts.v
StringSearch.v
HashTables.v
HashTableFacts.v
HashMaps.v
StringHashing.v
NativeTables.v
ContentSearch.v
ContentSearchFacts.v
Engine.v
CallStacks.v
NativeObjects.v
NativeRefinement.v
ModelEngine.v
JSValues.v
InjectedHost.v
InjectedObjects.v
InjectedCalls.v
JSRules.v
ModelJS.v
InjectedFacts.v
InjectedCallFacts.v
World.v
ScriptEngine.v
Triples.v
DebuggerOps.v
InjectedScripts.v
AgentState.v
Breakpoints.v
AsyncCalls.v
Promises.v
Pausing.v
Evaluation.v
RuntimeAgent.v
PauseLoop.v
ObjectIds.v
Machine.v
Session.v
Server.v
PauseInvariant.v
PauseSafety.v
EvaluationSafety.v
MachineSafety.v
Answers.v
SessionFacts.v
DebuggerTheorems.v
SessionTheorems.v
ServerFacts.v
ServerTheorems.v
BreakpointRegistry.v
ScriptTheorems.v
