(* ===== verification/Prelude.v ===== *)
(** * V8 inspector backend: a verification development

    The program is the DevTools backend of a JavaScript shell: a frontend connects
    to [src/Source/v8inspector], sends JSON commands, and receives responses and
    notifications; the backend drives V8's debugger.

    ** Parts and files

    Text and data.
    - [Platform]: doubles, and the parameters for code that is linked in
      (number conversion, Unicode); [WTFString], [StringSearch]: the string
      operations of [wtf/text] that are used, a string being the list of its UTF-16
      units; [UTF8] ([wtf/unicode/UTF8.cpp], [wtf/text/ASCIIFastPath.h],
      [String::utf8], [String::fromUTF8]): the conversions between UTF-16 and UTF-8
      with their buffers, with [UTF8Facts] and [UTF8Theorems].
    - [DecimalNumber] ([platform/Decimal.cpp]), with [DecimalFacts], [NumberText]
      and [DecimalTheorems].
    - [HashTables] ([wtf/HashTable.h], [wtf/HashMap.h]): the hash tables with their
      probes, rehashing and marks for empty and deleted buckets; [HashTableFacts],
      [HashMaps].  [StringHashing] ([wtf/StringHasher.h]): hashes of strings, and
      strings as keys.
    - [StringBuilders] ([wtf/text/StringBuilder.cpp]): builders on a memory of strings
      with references; [StringBuilderFacts], [StringBuilderOps],
      [StringBuilderTheorems].
    - [JSONValues], [JSONObject] ([platform/JSONValues.cpp]) and [JSONParser]
      ([core/inspector/JSONParser.cpp]), with [JSONParserFacts], [JSONGrammar] and
      [JSONRoundTrip]; [JSONWriting] has the calls that writing makes on a string
      builder.

    Protocol.
    - [Dispatcher] and [Commands] ([core/InspectorBackendDispatcher.cpp]): dispatch
      of a message to a handler, the 231 handlers as a table of data, responses,
      errors and asynchronous callbacks, over an interface [Backend] of the agents;
      [DispatcherFacts].
    - [InspectorState] ([core/inspector/InspectorState.cpp]): the agents' persistent
      state, with the objects that it shares with the composite state as addresses
      in a store; [InspectorStateFacts].

    Debugger and runtime agents.
    - [Engine]: V8's debug interface and the functions of the injected script as the
      class [V8Engine]; what V8 documents of breakpoint numbers as [V8Laws], that the
      scripts read from files load as [ScriptsLoad], and what the injected script
      answers as [ScriptAnswers]; [ModelEngine] is an instance of all of them.
    - The injected script, which runs inside V8.  [JSValues]: JavaScript values, the
      monad [JSM] of code that returns, throws or does not end and that asks the
      inspector for objects, and the class [JSEngine] of the operations of V8, any of
      which can run code of the program.  [InjectedHost]
      ([bindings/core/v8/inspector/V8InjectedScriptHost.cpp], [ScriptValue.cpp]),
      [InjectedObjects] and [InjectedCalls] ([core/inspector/InjectedScriptSource.js]):
      describing values, with previews and custom formatters, and the functions that
      the inspector calls.  [JSRules] has rules for such code and the laws of an
      engine, [ModelJS] an instance of them; [InjectedFacts], [InjectedCallFacts].
      [ScriptEngine] makes a [V8Engine] out of V8 and the script, and proves
      [V8Laws], [ScriptsLoad] and [ScriptAnswers] of it, so that the theorems about
      the inspector hold with the script that it really uses.
    - [World]: the fields of the agents, the debugger, its client and the managers,
      as records; a method is a function in the monad [M] of this file, which threads
      the [World] and crashes where the code dereferences a null pointer.
    - [DebuggerOps] ([bindings/core/v8/V8Debugger.cpp], [DebuggerScript.js]),
      [CallStacks] ([ScriptCallStackFactory.cpp], [ScriptCallFrame.cpp]),
      [NativeObjects] ([core/inspector/InjectedScriptNative.cpp], on finite maps;
      [NativeTables] has it on hash tables, and [V8GlobalValueMap.h]), [InjectedScripts]
      ([InjectedScriptManager.cpp], [InjectedScriptBase.cpp], [InjectedScript.cpp],
      and the notifications of [core/InspectorFrontend.cpp] that are sent),
      [AgentState], [Breakpoints], [AsyncCalls], [Promises], [Pausing],
      [Evaluation] ([core/inspector/InspectorDebuggerAgent.cpp] with
      [AsyncCallChain.cpp], [V8AsyncCallTracker.cpp] and [PromiseTracker.cpp]),
      [RuntimeAgent] ([InspectorRuntimeAgent.cpp], [WorkerRuntimeAgent.cpp]),
      [ContentSearch] ([ContentSearchUtils.cpp], [ScriptRegexp.cpp]).
    - [PauseLoop]: enabling, restoring, connecting ([v8inspector/V8Inspector.cpp]),
      V8's events and the nested message loop of a pause.  [Machine] puts everything
      together as a state machine: [Request] lists the commands, [Input] what can
      happen, [run] is what the code does, [allowed] when it can happen.
    - [Session]: the dispatcher on top of that machine ([sessionBackend] is the
      [Backend] of the two agents), with the handlers that wait.
    - [Server] ([v8inspector/RemoteDebuggingServer.cc]): the web socket server on its
      own thread, with the queues of tasks between it and the thread of the session;
      a step is one callback or task of either thread, in any order.  [ServerFacts].

    The inspector runs on one thread, but a command can run JavaScript, which can hit
    a breakpoint, whose message loop handles further commands.  The calls that wait
    are the list [activations] of the [World], the innermost first: a method that runs
    JavaScript is cut at that place into a part that pushes its call, with the local
    variables that it needs afterwards, and a part that runs when JavaScript returns
    ([JSReturns]) or, for a pause, when its loop has quit ([LoopExit]).

    ** Theorems

    - The parser accepts exactly a declarative grammar and returns what it denotes,
      terminates, and reads back what the writer wrote ([JSONRoundTrip]); the
      representation of objects refines an ordered list of members ([JSONObject]).
    - A hash map implements a finite map for the keys that it allows, which is why the
      other files model maps with integer and string keys by finite maps; with the
      empty key, which only an assertion excludes, it stops working ([HashMaps]).
      The registry of objects on its tables refines the one on finite maps
      ([NativeRefinement]), except that [NativeObjects] models releasing the object
      ids 0 and -1, the marks of such a table, as releasing nothing.  Hashes do not
      depend on how a string is cut into pieces ([StringHashing]).
    - A string builder is the text that was appended to it, and never changes a string
      that others have; four uses of it, which are stated, break this
      ([StringBuilderTheorems]).  The writer of JSON uses one without them, and makes
      the text as 8-bit characters ([JSONWriting]).
    - Decimal arithmetic keeps its representation, is exact or rounds as stated, and
      its texts are JSON numbers ([DecimalTheorems]).
    - Every request gets exactly one response, invalid ones the stated errors
      ([DispatcherFacts]); the persistent state stays coherent and survives its
      cookie ([InspectorStateFacts]).
    - Searches return the first or last occurrence, by lines or in magic comments
      ([ContentSearchFacts]).
    - No reachable state of the inspector crashes on an input, but for one that is
      stated, and pausing is consistent: [PauseInvariant] has the invariant and the
      symbolic execution tactics [wstep] and [wcall], [PauseSafety],
      [EvaluationSafety] and [MachineSafety] one lemma per method,
      [DebuggerTheorems] the theorems.  [BreakpointRegistry]: the registry of
      breakpoints agrees with V8, proved with the partial-correctness triples of
      [Triples], whose tactic [keeps] follows the code of a method.
    - Every message of the frontend is handled and every request is answered once
      ([SessionTheorems]): [Answers] shows that each method assigns the outputs that
      its response needs, [SessionFacts] that arguments that pass the checks are those
      of the method, and the invariant of a session.  Commands that run JavaScript
      restore the pauses on exceptions.
    - The injected script describes any value without an exception, within limits of
      size and time, answers what the inspector expects, and keeps its own state
      ([ScriptTheorems]); the identifier of an object leads back to it
      ([ObjectIds]).  An argument that throws an empty string breaks this, which is
      stated.
    - The server drives a session and delivers what it sends once and in order, though
      not always to the client that it is for ([ServerTheorems]).
    - UTF-8 is written as the standard has it, read back, and what the reader accepts
      is characterized, ill-formed sequences included ([UTF8Theorems]).

    ** Fuel and bounds

    Loops that are not structural carry fuel: the JSON loops as much as the text is
    long (theorem [parseJSON_terminates]), the decimal loops as much as the numbers
    have digits, [allBlackboxedFrom] one more than there are frames (out of fuel is
    a crash there, so the safety theorem covers it), [magicLoop] and
    [lineEndingsLoop] the length of the text, [unusedOperationId] one more than
    there are operations.  The probes of a hash table have one step per bucket, after
    which they are back at their start; that they do not need more is part of
    [hashMap_refines].  [convertUTF8Loop] has a step per byte of its source, the loop
    over machine words and [utf8ReplacingLoop] one per character; that this is enough
    is part of the theorems on UTF-8.  In the injected script [n] bounds the loops over
    objects of the program, [remoteObjectLevels] the nesting of descriptions and
    [maxCustomPreviewRecursionDepth], which is the script's own limit, that of custom
    previews; code that needs more does not end in the model, and [JSLimits] states when
    that cannot happen: [wrapObject_describes] shows that it then ends.  Machine integers are [Z] with [wrapS] and [wrapU] where
    the code can overflow.

    ** Not modelled, and why

    - [src/Source/chrome] (Chromium, V8, their tools): third-party; V8 is a
      parameter.  The other [wtf] containers, allocation, threads and [platform/heap]:
      ownership and threads have no counterpart here; vectors and sets are lists and
      finite sets.  Hash tables with the garbage-collected allocator, which builds
      without Oilpan do not use.  [wtf/dtoa]: a parameter.  [platform/weborigin] is
      not used by the inspector.
    - Of [InjectedScriptSource.js] the command line API ([CommandLineAPIImpl]), modules
      and the functions for nodes: the evaluated expression calls them, which is part of
      what V8 does.  Calls of the script by the code that it runs (custom formatters,
      the function of [callFunctionOn] with [bindRemoteObject]), and debugging it, are
      left out.  Allowing [eval] during these calls and muting the console, which does
      nothing in a worker, have no counterpart.
    - [V8InspectorMain.cpp], and of the server opening its socket and starting its
      thread: the command line and the operating system.
    - [InspectorDebuggerAgent::reset] and [resetModifiedSources] are never called by
      the program.  Not yet: the notifications of domains without an agent, and
      the protocol types. *)

From Stdlib Require Export ZArith Lia SpecFloat.
From stdpp Require Export base gmap strings list fin_maps sets.

#[global] Open Scope Z_scope.

(** ** Strings of UTF-16 code units

    [WTF::String] holds a sequence of 8- or 16-bit code units; a unit is a [Z]
    and a string the list of its units.  [u "..."] writes an ASCII literal. *)

Abbreviation ustring := (list Z).

Fixpoint u (s : string) : ustring :=
  match s with
  | EmptyString => []
  | String a s' => Z.of_N (Ascii.N_of_ascii a) :: u s'
  end.

(** Code-unit literals of the C++ sources: [ch "x"] is the number 'x'. *)
Definition chr (s : string) : Z := hd 0 (u s).

Notation "'ch' a" :=
  (ltac:(let x := eval vm_compute in (chr a) in exact x))
  (at level 10, a at level 0, only parsing).

(** A unit of a 16-bit string. *)
Definition is_unit (c : Z) : Prop := 0 <= c < 65536.
Definition is_ustring (s : ustring) : Prop := Forall is_unit s.

(** ** Machine integers *)

Definition wrapU (w z : Z) : Z := z mod 2 ^ w.
Definition wrapS (w z : Z) : Z :=
  let r := z mod 2 ^ w in if r <? 2 ^ (w - 1) then r else r - 2 ^ w.

Abbreviation int32_max := 2147483647.
Abbreviation int32_min := (-2147483648).

Definition is_int32 (z : Z) : Prop := int32_min <= z <= int32_max.

(** ** Outcomes of code that can dereference a null pointer *)

Inductive outcome (A : Type) : Type :=
  | Done (a : A)
  | Crash.
Arguments Done {A} a.
Arguments Crash {A}.

(** ** Stateful code

    A method that reads and changes the state [W], and can dereference a null
    pointer, is a function [M W A]; stdpp's monad notations sequence them. *)

Definition M (W A : Type) : Type := W -> outcome (A * W).

#[export] Instance M_ret W : MRet (M W) := fun A a w => Done (a, w).
#[export] Instance M_bind W : MBind (M W) := fun A B k m w =>
  match m w with
  | Done (a, w') => k a w'
  | Crash => Crash
  end.

Definition crash {W A} : M W A := fun _ => Crash.
Definition gets {W A} (f : W -> A) : M W A := fun w => Done (f w, w).
Definition modify {W} (f : W -> W) : M W unit := fun w => Done (tt, f w).

(** [if (c) { m }]. *)
Definition when {W} (c : bool) (m : M W unit) : M W unit := if c then m else mret tt.

(** A loop over the elements of a collection. *)
Fixpoint forEach {W A} (f : A -> M W unit) (l : list A) : M W unit :=
  match l with
  | [] => mret tt
  | a :: l' => f a ;; forEach f l'
  end.

(** [wp m Q w]: [m] started in [w] does not crash, and ends with a result and a
    state in [Q]. *)
Definition wp {W A} (m : M W A) (Q : A -> W -> Prop) (w : W) : Prop :=
  match m w with
  | Done (a, w') => Q a w'
  | Crash => False
  end.

(** ** Record update

    [r <| f := v |>] is [r] with the field [f] set to [v].  The class [Fields]
    holds, for a record type, the record rebuilt from its fields; the setter of a
    field is found in it. *)

Class Fields (R : Type) := fields : R -> R.

Class Setter {R T : Type} (f : R -> T) := setField : (T -> T) -> R -> R.

Ltac findSetter :=
  match goal with
  | |- @Setter ?R ?T ?f =>
      let e := eval cbv [fields] in (@fields R _) in
      let e := eval hnf in e in
      lazymatch eval pattern f in e with
      | ?update f => let s := eval cbv beta in (fun (g : T -> T) (r : R) => update (fun r' => g (f r')) r) in exact s
      end
  end.

#[export] Hint Extern 1 (Setter _) => findSetter : typeclass_instances.

Notation "r <| f := v |>" := (setField (f := f) (fun _ => v) r)
  (at level 1, f at level 200, left associativity, format "r  <| f  :=  v |>").

(** ** Tactics *)

(** Case analysis on the boolean comparisons of [Z] in sight. *)
Ltac zcases :=
  repeat match goal with
  | |- context [Z.eqb ?a ?b] => destruct (Z.eqb_spec a b)
  | |- context [Z.leb ?a ?b] => destruct (Z.leb_spec a b)
  | |- context [Z.ltb ?a ?b] => destruct (Z.ltb_spec a b)
  | H : context [Z.eqb ?a ?b] |- _ => destruct (Z.eqb_spec a b)
  | H : context [Z.leb ?a ?b] |- _ => destruct (Z.leb_spec a b)
  | H : context [Z.ltb ?a ?b] |- _ => destruct (Z.ltb_spec a b)
  end.

(** Turns a hypothesis about a boolean conjunction or disjunction of [Z]
    comparisons into arithmetic. *)
Ltac zprop :=
  repeat match goal with
  | H : andb _ _ = true |- _ => apply andb_prop in H as [? ?]
  | H : orb _ _ = false |- _ => apply orb_false_elim in H as [? ?]
  | H : orb _ _ = true |- _ => apply orb_prop in H
  | H : andb _ _ = false |- _ => apply andb_false_iff in H
  | H : negb _ = true |- _ => apply negb_true_iff in H
  | H : negb _ = false |- _ => apply negb_false_iff in H
  | H : Z.eqb _ _ = true |- _ => apply Z.eqb_eq in H
  | H : Z.eqb _ _ = false |- _ => apply Z.eqb_neq in H
  | H : Z.leb _ _ = true |- _ => apply Z.leb_le in H
  | H : Z.leb _ _ = false |- _ => apply Z.leb_gt in H
  | H : Z.ltb _ _ = true |- _ => apply Z.ltb_lt in H
  | H : Z.ltb _ _ = false |- _ => apply Z.ltb_ge in H
  end.

Create HintDb insp.

(** ** Generic lemmas *)

Lemma wrapU_bounds w z : 0 <= w -> 0 <= wrapU w z < 2 ^ w.
Proof. intros. apply Z.mod_pos_bound, Z.pow_pos_nonneg; lia. Qed.

Lemma wrapU_small w z : 0 <= z < 2 ^ w -> wrapU w z = z.
Proof. apply Z.mod_small. Qed.

Lemma wrapS_small w z : 1 <= w -> - 2 ^ (w - 1) <= z < 2 ^ (w - 1) -> wrapS w z = z.
Proof.
  intros Hw Hz. unfold wrapS.
  assert (2 ^ w = 2 * 2 ^ (w - 1)) as E.
  { rewrite <- Z.pow_succ_r by lia. f_equal; lia. }
  destruct (decide (0 <= z)).
  - rewrite Z.mod_small by lia. zcases; lia.
  - rewrite <- (Z_mod_plus_full z 1), Z.mod_small by lia. zcases; lia.
Qed.

Lemma wrapS_bounds w z : 1 <= w -> - 2 ^ (w - 1) <= wrapS w z < 2 ^ (w - 1).
Proof.
  intros Hw. unfold wrapS.
  assert (2 ^ w = 2 * 2 ^ (w - 1)) as E.
  { rewrite <- Z.pow_succ_r by lia. f_equal; lia. }
  pose proof (Z.mod_pos_bound z (2 ^ w)). zcases; lia.
Qed.

#[export] Hint Resolve wrapU_small wrapS_small : insp.

(** ** Rules for [wp] *)

Section Wp.
Context {W : Type}.

Lemma wp_ret {A} (a : A) Q (w : W) : Q a w -> wp (mret a) Q w.
Proof. done. Qed.

Lemma wp_bind {A B} (m : M W A) (k : A -> M W B) Q w :
  wp m (fun a w' => wp (k a) Q w') w -> wp (m ≫= k) Q w.
Proof. unfold wp, mbind, M_bind. by destruct (m w) as [[a w']|]. Qed.

Lemma wp_gets {A} (f : W -> A) Q w : Q (f w) w -> wp (gets f) Q w.
Proof. done. Qed.

Lemma wp_modify (f : W -> W) Q w : Q tt (f w) -> wp (modify f) Q w.
Proof. done. Qed.

Lemma wp_when c (m : M W unit) Q w :
  (c = true -> wp m Q w) -> (c = false -> Q tt w) -> wp (when c m) Q w.
Proof. destruct c; intros H1 H2; [by apply H1|by apply H2]. Qed.

Lemma wp_mono {A} (m : M W A) (Q1 Q2 : A -> W -> Prop) w :
  wp m Q1 w -> (forall a w', Q1 a w' -> Q2 a w') -> wp m Q2 w.
Proof. unfold wp. destruct (m w) as [[a w']|]; auto. Qed.

Lemma wp_forEach {A} (f : A -> M W unit) (I : W -> Prop) l w :
  I w -> (forall a w, a ∈ l -> I w -> wp (f a) (fun _ => I) w) -> wp (forEach f l) (fun _ => I) w.
Proof.
  revert w. induction l as [|a l IH]; intros w Hw Hf; cbn [forEach]; [done|].
  apply wp_bind. eapply wp_mono; [apply Hf; [left|done]|].
  intros [] w' Hw'. apply IH; [done|]. intros. apply Hf; [by right|done].
Qed.

Lemma wp_done {A} (m : M W A) Q w : wp m Q w <-> exists a w', m w = Done (a, w') /\ Q a w'.
Proof.
  unfold wp. destruct (m w) as [[a w']|].
  - split; [eauto|]. by intros (? & ? & [= -> ->] & ?).
  - split; [done|]. by intros (? & ? & ? & ?).
Qed.

End Wp.
