(* ===== verification/Platform.v ===== *)
(** * Doubles and the code the inspector links against

    IEEE 754 binary64 values are the Standard Library's [spec_float]; the
    conversions between [double] and the integer types are the language's.
    [Platform] gathers what the sources take from third-party code: ICU's
    character data and the double-conversion routines behind [wtf/dtoa.h]. *)

From S2P Require Import Prelude.

Abbreviation double := spec_float.

#[export] Instance double_eq_dec : EqDecision double.
Proof. solve_decision. Defined.

Module Double.

(** The conversion [(double)z] of an integer: round to nearest even. *)
Definition of_Z (z : Z) : double := binary_normalize 53 1024 z 0 false.

Definition isfinite (d : double) : bool :=
  match d with
  | S754_zero _ | S754_finite _ _ _ => true
  | _ => false
  end.

(** The integral part of a finite value, toward zero. *)
Definition trunc (d : double) : Z :=
  match d with
  | S754_finite s m e =>
      let a := if 0 <=? e then Zpos m * 2 ^ e else Zpos m / 2 ^ (- e) in
      if s then - a else a
  | _ => 0
  end.

(** ** Integers of at most 53 bits are represented exactly *)

Lemma digits2_iter_xO n p :
  Zpos (digits2_pos (Pos.iter xO p n)) = Zpos (digits2_pos p) + Zpos n.
Proof.
  revert n. apply Pos.peano_ind; [simpl; lia|].
  intros n IH. rewrite Pos.iter_succ. simpl. rewrite Pos2Z.inj_succ, IH. lia.
Qed.

Lemma iter_xO_equiv n p : Zpos (Pos.iter xO p n) = Zpos p * 2 ^ Zpos n.
Proof.
  revert n. apply Pos.peano_ind; [simpl; lia|].
  intros n IH. rewrite Pos.iter_succ, Pos2Z.inj_succ, Z.pow_succ_r by lia.
  rewrite (Pos2Z.inj_xO (Pos.iter _ _ _)), IH. lia.
Qed.

Lemma digits2_pos_bounds p :
  2 ^ (Zpos (digits2_pos p) - 1) <= Zpos p < 2 ^ Zpos (digits2_pos p).
Proof.
  induction p as [p IH|p IH|]; simpl digits2_pos; [| |simpl; lia].
  all: rewrite Pos2Z.inj_succ.
  all: replace (Z.succ (Zpos (digits2_pos p)) - 1) with (Z.succ (Zpos (digits2_pos p) - 1)) by lia.
  all: rewrite !Z.pow_succ_r by lia; lia.
Qed.

(** A mantissa already at full precision is left alone by the rounding. *)
Lemma binary_round_aux_exact s m e :
  Zpos (digits2_pos m) = 53 -> -1074 <= e <= 0 ->
  binary_round_aux 53 1024 s (Zpos m) e loc_Exact = S754_finite s m e.
Proof.
  intros Hd He. unfold binary_round_aux, shr_fexp, fexp, emin, Zdigits2. rewrite Hd.
  replace (Z.max (53 + e - 53) (3 - 1024 - 53) - e) with 0 by lia. simpl shr.
  cbn [shr_m shr_record_of_loc loc_of_shr_record round_nearest_even]. rewrite Hd.
  replace (Z.max (53 + e - 53) (3 - 1024 - 53) - e) with 0 by lia. simpl.
  zcases; [done|lia].
Qed.

Lemma binary_round_small s p :
  Zpos p < 2 ^ 53 ->
  exists m k, 0 <= k /\ Zpos m = Zpos p * 2 ^ k /\
    binary_round 53 1024 s p 0 = S754_finite s m (- k).
Proof.
  intros Hp. unfold binary_round, fexp, emin. rewrite Z.add_0_r.
  pose proof (digits2_pos_bounds p) as [Hlo Hhi].
  assert (Zpos (digits2_pos p) <= 53) as Hd.
  { destruct (Z.le_gt_cases (Zpos (digits2_pos p)) 53); [done|].
    assert (2 ^ 53 <= 2 ^ (Zpos (digits2_pos p) - 1)) by (apply Z.pow_le_mono_r; lia). lia. }
  rewrite Z.max_l by lia. unfold shl_align. rewrite Z.sub_0_r.
  destruct (Zpos (digits2_pos p) - 53) as [|q|q] eqn:E; [|lia|].
  - exists p, 0. rewrite binary_round_aux_exact by lia. split_and!; [lia|lia|done].
  - exists (Pos.iter xO p q), (Zpos q).
    rewrite binary_round_aux_exact; [|rewrite digits2_iter_xO; lia|lia].
    rewrite iter_xO_equiv. split_and!; [lia|lia|done].
Qed.

Lemma trunc_of_Z z : - 2 ^ 53 < z < 2 ^ 53 -> trunc (of_Z z) = z.
Proof.
  intros Hz. unfold of_Z. destruct z as [|p|p]; [done| |].
  all: unfold binary_normalize.
  - destruct (binary_round_small false p) as (m & k & Hk & Hm & ->); [lia|].
    unfold trunc. zcases.
    + assert (k = 0) as -> by lia. rewrite Hm. simpl. lia.
    + rewrite Z.opp_involutive, Hm. apply Z.div_mul. lia.
  - destruct (binary_round_small true p) as (m & k & Hk & Hm & ->); [lia|].
    unfold trunc. zcases.
    + assert (k = 0) as -> by lia. rewrite Hm. simpl. lia.
    + rewrite Z.opp_involutive, Hm, Z.div_mul by lia. done.
Qed.

Lemma isfinite_of_Z z : - 2 ^ 53 < z < 2 ^ 53 -> isfinite (of_Z z) = true.
Proof.
  intros Hz. unfold of_Z. destruct z as [|p|p]; [done| |]; unfold binary_normalize.
  - destruct (binary_round_small false p) as (m & k & Hk & Hm & ->); [lia|done].
  - destruct (binary_round_small true p) as (m & k & Hk & Hm & ->); [lia|done].
Qed.

End Double.

(** ** Third-party code

    - [whiteSpaceNeutral c]: ICU's [u_charDirection(c) == U_WHITE_SPACE_NEUTRAL];
    - [parseDouble s]: the value and the number of units consumed by
      [double_conversion::StringToDoubleConverter::StringToDouble];
    - [toShortest d]: the text of [DoubleToStringConverter::ToShortest] with the
      ECMAScript settings;
    - [castOverflow w d]: what the compiled conversion of [d] to a [w]-bit signed
      integer yields when [d] does not fit (undefined behaviour in C++);
    - [pastEnd]: the unit stored in memory right after a string's last one. *)
Class Platform := {
  whiteSpaceNeutral : Z -> bool;
  parseDouble : ustring -> double * nat;
  toShortest : double -> ustring;
  castOverflow : Z -> double -> Z;
  pastEnd : Z;
}.

Section Casts.
Context {P : Platform}.

(** [static_cast<int>(d)] and [static_cast<long>(d)] (64 bits on Linux). *)
Definition static_cast_S (w : Z) (d : double) : Z :=
  let z := Double.trunc d in
  if Double.isfinite d && (- 2 ^ (w - 1) <=? z) && (z <? 2 ^ (w - 1)) then z
  else castOverflow w d.

(** [static_cast<unsigned>(d)] and [static_cast<unsigned long>(d)]. *)
Definition static_cast_U (w : Z) (d : double) : Z :=
  let z := Double.trunc d in
  if Double.isfinite d && (0 <=? z) && (z <? 2 ^ w) then z
  else castOverflow w d.

Lemma static_cast_int_of_Z z : is_int32 z -> static_cast_S 32 (Double.of_Z z) = z.
Proof.
  unfold is_int32, static_cast_S. intros Hz.
  rewrite Double.trunc_of_Z, Double.isfinite_of_Z by lia.
  simpl. zcases; simpl; lia.
Qed.

Lemma static_cast_long_of_Z z :
  - 2 ^ 53 < z < 2 ^ 53 -> static_cast_S 64 (Double.of_Z z) = z.
Proof.
  unfold static_cast_S. intros Hz.
  rewrite Double.trunc_of_Z, Double.isfinite_of_Z by lia.
  zcases; simpl; lia.
Qed.

End Casts.

#[export] Hint Resolve static_cast_int_of_Z static_cast_long_of_Z : insp.
