(* ===== verification/WTFString.v ===== *)
(** * The string operations of WTF that the inspector relies on

    [wtf/ASCIICType.h], [wtf/text/StringImpl.h], [wtf/text/WTFString.cpp] and
    [wtf/text/IntegerToStringConversion.h]. *)

From S2P Require Import Prelude Platform.

(** ** Character classes *)

Definition isASCIISpace (c : Z) : bool :=
  (c <=? ch " ") && ((c =? ch " ") || ((c <=? 13) && (9 <=? c))).

Definition isSpaceOrNewline `{Platform} (c : Z) : bool :=
  if c <=? 127 then isASCIISpace c else whiteSpaceNeutral c.

(** ** Integers to text

    [numberToStringImpl] fills its buffer from the right, one digit per turn of
    the do-while loop; the accumulator is the part already written. *)
Fixpoint numberToStringLoop (fuel : nat) (number : Z) (acc : ustring) : ustring :=
  match fuel with
  | O => acc
  | S fuel' =>
      let acc' := (number mod 10 + ch "0") :: acc in
      if number / 10 =? 0 then acc' else numberToStringLoop fuel' (number / 10) acc'
  end.

(** A number of [n] bits has at most [n] decimal digits. *)
Definition digitFuel (number : Z) : nat := S (Z.to_nat (Z.log2 number)).

Definition numberToStringImpl (negative : bool) (number : Z) : ustring :=
  let digits := numberToStringLoop (digitFuel number) number [] in
  if negative then ch "-" :: digits else digits.

Definition numberToStringSigned (number : Z) : ustring :=
  if number <? 0 then numberToStringImpl true (- number)
  else numberToStringImpl false number.

Definition numberToStringUnsigned (number : Z) : ustring :=
  numberToStringImpl false number.

(** [String::number]. *)
Definition String_number (number : Z) : ustring := numberToStringSigned number.

(** ** Text to doubles *)

Inductive TrailingJunkPolicy := DisallowTrailingJunk | AllowTrailingJunk.

Fixpoint leadingSpaces (data : ustring) : nat :=
  match data with
  | c :: data' => if isASCIISpace c then S (leadingSpaces data') else O
  | [] => O
  end.

(** The value with the [ok] flag. *)
Definition toDoubleType `{Platform} (policy : TrailingJunkPolicy) (data : ustring) : double * bool :=
  let leadingSpacesLength := leadingSpaces data in
  let '(number, parsedLength) := parseDouble (drop leadingSpacesLength data) in
  if Nat.eqb parsedLength 0 then (S754_zero false, false)
  else
    let parsedLength := (parsedLength + leadingSpacesLength)%nat in
    (number, match policy with
             | AllowTrailingJunk => true
             | DisallowTrailingJunk => Nat.eqb parsedLength (length data)
             end).

Definition charactersToDouble `{Platform} (data : ustring) : double * bool :=
  toDoubleType DisallowTrailingJunk data.

(** ** Digits *)

Definition isDigit (c : Z) : bool := (ch "0" <=? c) && (c <=? ch "9").

(** The number a digit string denotes. *)
Fixpoint digitsValue (acc : Z) (s : ustring) : Z :=
  match s with
  | [] => acc
  | c :: s' => digitsValue (acc * 10 + (c - ch "0")) s'
  end.

Lemma digitsValue_app acc s1 s2 :
  digitsValue acc (s1 ++ s2) = digitsValue (digitsValue acc s1) s2.
Proof. revert acc. induction s1; intros; simpl; auto. Qed.

Lemma digitsValue_shift acc s :
  digitsValue acc s = acc * 10 ^ Z.of_nat (length s) + digitsValue 0 s.
Proof.
  revert acc. induction s as [|c s IH]; intros acc; [simpl; lia|].
  cbn [digitsValue length]. rewrite IH, (IH (0 * 10 + (c - 48))).
  rewrite Nat2Z.inj_succ, Z.pow_succ_r by lia. lia.
Qed.

(** The loop writes the decimal expansion in front of what is there. *)
Lemma numberToStringLoop_spec fuel n acc :
  0 <= n -> (Z.to_nat (Z.log2 n) < fuel)%nat ->
  exists ds, numberToStringLoop fuel n acc = ds ++ acc
    /\ Forall (fun c => isDigit c = true) ds
    /\ digitsValue 0 ds = n
    /\ (0 < length ds)%nat
    /\ (0 < n -> forall c, head ds = Some c -> c <> ch "0").
Proof.
  revert n acc. induction fuel as [|fuel IH]; intros n acc Hn Hf; [lia|].
  cbn [numberToStringLoop].
  pose proof (Z.mod_pos_bound n 10 ltac:(lia)) as Hm.
  pose proof (Z.div_mod n 10 ltac:(lia)) as Hdm.
  assert (isDigit (n mod 10 + 48) = true) as Hdig.
  { unfold isDigit. apply andb_true_intro. split; apply Z.leb_le; lia. }
  destruct (Z.eqb_spec (n / 10) 0) as [E|E].
  - exists [n mod 10 + 48]. split_and!; [done|by constructor|simpl; lia|simpl; lia|].
    intros Hpos c [= <-]. lia.
  - assert (0 < n / 10) as Hq by (pose proof (Z.div_pos n 10); lia).
    assert (Z.log2 (n / 10) < Z.log2 n) as Hlog.
    { assert (2 * (n / 10) <= n) as Hle by lia.
      apply Z.log2_le_mono in Hle. rewrite Z.log2_double in Hle by lia. lia. }
    destruct (IH (n / 10) ((n mod 10 + 48) :: acc)) as (ds & -> & Hds & Hv & Hl & Hh).
    { lia. } { pose proof (Z.log2_nonneg (n / 10)). lia. }
    exists (ds ++ [n mod 10 + 48]). rewrite <- app_assoc. split_and!; [done| | | |].
    + apply Forall_app. split; [done|by constructor].
    + rewrite digitsValue_app, Hv. cbn [digitsValue]. lia.
    + rewrite length_app. simpl. lia.
    + intros _ c Hc. destruct ds as [|d ds]; [simpl in Hl; lia|]. apply Hh; [lia|done].
Qed.

Lemma numberToStringUnsigned_spec n :
  0 <= n ->
  Forall (fun c => isDigit c = true) (numberToStringUnsigned n)
  /\ digitsValue 0 (numberToStringUnsigned n) = n
  /\ (0 < length (numberToStringUnsigned n))%nat
  /\ (0 < n -> forall c, head (numberToStringUnsigned n) = Some c -> c <> ch "0").
Proof.
  intros Hn. unfold numberToStringUnsigned, numberToStringImpl.
  destruct (numberToStringLoop_spec (digitFuel n) n []) as (ds & -> & ?); [done|unfold digitFuel; lia|].
  rewrite app_nil_r. tauto.
Qed.

Lemma numberToStringUnsigned_value n :
  0 <= n -> digitsValue 0 (numberToStringUnsigned n) = n.
Proof. intros. by apply numberToStringUnsigned_spec. Qed.

(** Distinct integers have distinct texts. *)
Lemma String_number_inj a b : String_number a = String_number b -> a = b.
Proof.
  unfold String_number, numberToStringSigned. intros E.
  assert (forall n, numberToStringImpl false n = numberToStringUnsigned n) as Eu by done.
  assert (forall n, numberToStringImpl true n = ch "-" :: numberToStringUnsigned n) as En by done.
  rewrite !Eu, !En in E.
  assert (forall n m, 0 <= n -> ch "-" :: m <> numberToStringUnsigned n) as Hneq.
  { intros n m Hn Heq. destruct (numberToStringUnsigned_spec n Hn) as (Hf & _).
    rewrite <- Heq in Hf. apply Forall_cons in Hf as [Hd _]. done. }
  destruct (Z.ltb_spec a 0), (Z.ltb_spec b 0).
  - injection E as E. apply (f_equal (digitsValue 0)) in E.
    rewrite !numberToStringUnsigned_value in E by lia. lia.
  - exfalso. eapply Hneq; [|exact E]. lia.
  - exfalso. eapply Hneq; [|symmetry; exact E]. lia.
  - apply (f_equal (digitsValue 0)) in E.
    rewrite !numberToStringUnsigned_value in E by lia. done.
Qed.

(** ** A platform that knows the integers

    A small instance for evaluating the definitions on concrete inputs: its
    number texts are the decimal integers. *)
Module IntegerPlatform.

Fixpoint digitsPrefix (s : ustring) : ustring :=
  match s with
  | c :: s' => if isDigit c then c :: digitsPrefix s' else []
  | [] => []
  end.

Definition parseInteger (s : ustring) : double * nat :=
  let '(neg, body) := match s with
                      | c :: s' => if c =? ch "-" then (true, s') else (false, s)
                      | [] => (false, s)
                      end in
  let ds := digitsPrefix body in
  match ds with
  | [] => (S754_zero false, O)
  | _ => (Double.of_Z (if neg : bool then - digitsValue 0 ds else digitsValue 0 ds),
          ((if neg then 1 else 0) + length ds)%nat)
  end.

Definition platform : Platform := {|
  whiteSpaceNeutral _ := false;
  parseDouble := parseInteger;
  toShortest d := String_number (Double.trunc d);
  castOverflow w _ := - 2 ^ (w - 1);
  pastEnd := 0;
|}.

End IntegerPlatform.
