(* ===== verification/UTF8.v ===== *)
(** * Conversions between UTF-16 and UTF-8

    [wtf/unicode/UTF8.cpp], [wtf/text/ASCIIFastPath.h], [String::utf8] and
    [String::fromUTF8] of [wtf/text/WTFString.cpp], and [wtf/text/StringUTF8Adaptor.h].
    A byte is a number below 256.  A conversion reads a list and has room for a number
    of units in its target; it returns what it has not read and what it has written. *)

From S2P Require Import Prelude.

Abbreviation bytes := (list Z).

Inductive ConversionResult := conversionOK | sourceExhausted | targetExhausted | sourceIllegal.

Abbreviation replacementCharacter := 0xFFFD.

(** ** The macros of ICU ([unicode/utf.h], [unicode/utf16.h]) *)

Definition U_IS_BMP (c : Z) : bool := wrapU 32 c <=? 0xffff.
Definition U_IS_SUPPLEMENTARY (c : Z) : bool := wrapU 32 (c - 0x10000) <=? 0xfffff.
Definition U_IS_SURROGATE (c : Z) : bool := Z.land (wrapU 32 c) 0xfffff800 =? 0xd800.
Definition U16_LEAD (supplementary : Z) : Z := wrapU 16 (Z.shiftr supplementary 10 + 0xd7c0).
Definition U16_TRAIL (supplementary : Z) : Z := wrapU 16 (Z.lor (Z.land supplementary 0x3ff) 0xdc00).

(** ** To UTF-8 *)

Definition inlineUTF8SequenceLengthNonASCII (b0 : Z) : nat :=
  if negb (Z.land b0 0xC0 =? 0xC0) then 0
  else if Z.land b0 0xE0 =? 0xC0 then 2
  else if Z.land b0 0xF0 =? 0xE0 then 3
  else if Z.land b0 0xF8 =? 0xF0 then 4
  else 0.

Definition inlineUTF8SequenceLength (b0 : Z) : nat :=
  if b0 <? 0x80 then 1 else inlineUTF8SequenceLengthNonASCII b0.

Definition firstByteMark : list Z := [0x00; 0x00; 0xC0; 0xE0; 0xF0; 0xF8; 0xFC].

(** The cases of the switch write the bytes from the last to the first. *)
Fixpoint writeTrailing (n : nat) (c : Z) (written : bytes) : Z * bytes :=
  match n with
  | O => (c, written)
  | S n' => writeTrailing n' (Z.shiftr c 6) (wrapU 8 (Z.land (Z.lor c 0x80) 0xBF) :: written)
  end.

Definition writeSequence (bytesToWrite : nat) (c : Z) : bytes :=
  let '(c, written) := writeTrailing (bytesToWrite - 1) c [] in
  wrapU 8 (Z.lor c (nth bytesToWrite firstByteMark 0)) :: written.

Fixpoint convertLatin1ToUTF8 (source : list Z) (room : Z) : ConversionResult * list Z * bytes :=
  match source with
  | [] => (conversionOK, [], [])
  | c :: source' =>
      let bytesToWrite := if c <? 0x80 then 1%nat else 2%nat in
      if room <? Z.of_nat bytesToWrite then (targetExhausted, source, [])
      else
        let '(result, rest, target) := convertLatin1ToUTF8 source' (room - Z.of_nat bytesToWrite) in
        (result, rest, writeSequence bytesToWrite c ++ target)
  end.

(** Writes one character read from [oldSource]; [continue] converts the rest. *)
Definition writeCharacter (c : Z) (oldSource : ustring) (room : Z) (continue : Z -> ConversionResult * ustring * bytes)
    : ConversionResult * ustring * bytes :=
  let '(bytesToWrite, c) :=
    if c <? 0x80 then (1%nat, c)
    else if c <? 0x800 then (2%nat, c)
    else if c <? 0x10000 then (3%nat, c)
    else if c <? 0x110000 then (4%nat, c)
    else (3%nat, replacementCharacter) in
  if room <? Z.of_nat bytesToWrite then (targetExhausted, oldSource, [])
  else
    let '(result, rest, target) := continue (room - Z.of_nat bytesToWrite) in
    (result, rest, writeSequence bytesToWrite c ++ target).

Fixpoint convertUTF16ToUTF8 (strict : bool) (source : ustring) (room : Z) : ConversionResult * ustring * bytes :=
  match source with
  | [] => (conversionOK, [], [])
  | c :: source1 =>
      if (0xD800 <=? c) && (c <=? 0xDBFF) then
        match source1 with
        | c2 :: source2 =>
            if (0xDC00 <=? c2) && (c2 <=? 0xDFFF)
            then writeCharacter (Z.shiftl (c - 0xD800) 10 + (c2 - 0xDC00) + 0x0010000) source room (convertUTF16ToUTF8 strict source2)
            else if strict then (sourceIllegal, source, [])
            else writeCharacter c source room (convertUTF16ToUTF8 strict source1)
        | [] => (sourceExhausted, source, [])
        end
      else if strict && ((0xDC00 <=? c) && (c <=? 0xDFFF)) then (sourceIllegal, source, [])
      else writeCharacter c source room (convertUTF16ToUTF8 strict source1)
  end.

(** ** From UTF-8 *)

(** [source[i]]; the callers have checked that there are [length] bytes. *)
Abbreviation byteAt source i := (nth i source 0).

Definition isLegalUTF8 (source : bytes) (length : nat) : bool :=
  let trailing i := let a := byteAt source i in negb ((a <? 0x80) || (0xBF <? a)) in
  let second :=
    let a := byteAt source 1 in
    negb (0xBF <? a) &&
    negb (if byteAt source 0 =? 0xE0 then a <? 0xA0
          else if byteAt source 0 =? 0xED then 0x9F <? a
          else if byteAt source 0 =? 0xF0 then a <? 0x90
          else if byteAt source 0 =? 0xF4 then 0x8F <? a
          else a <? 0x80) in
  let first := negb ((0x80 <=? byteAt source 0) && (byteAt source 0 <? 0xC2)) in
  match length with
  | 1%nat => first
  | 2%nat => second && first
  | 3%nat => trailing 2%nat && second && first
  | 4%nat => trailing 3%nat && trailing 2%nat && second && first
  | _ => false
  end && negb (0xF4 <? byteAt source 0).

Definition offsetsFromUTF8 : list Z := [0x00000000; 0x00003080; 0x000E2080; 0x03C82080; wrapS 32 0xFA082080; wrapS 32 0x82082080].

Fixpoint readSequence (sequence : bytes) (length : nat) (character : Z) {struct length} : Z :=
  match length, sequence with
  | S length', b :: sequence' => readSequence sequence' length' (wrapS 32 (Z.shiftl character 6 + b))
  | _, _ => character
  end.

Definition readUTF8Sequence (sequence : bytes) (length : nat) : Z :=
  wrapS 32 (readSequence sequence length 0 - nth (length - 1) offsetsFromUTF8 0).

(** Every turn but the last reads a byte; the last result is [orAllData]. *)
Fixpoint convertUTF8Loop (fuel : nat) (strict : bool) (source : bytes) (room orAllData : Z)
    : ConversionResult * bytes * ustring * Z :=
  match fuel, source with
  | _, [] => (conversionOK, [], [], orAllData)
  | O, _ => (sourceExhausted, source, [], orAllData)
  | S fuel', b0 :: _ =>
      let utf8SequenceLength := inlineUTF8SequenceLength b0 in
      if (length source <? utf8SequenceLength)%nat then (sourceExhausted, source, [], orAllData)
      else if negb (isLegalUTF8 source utf8SequenceLength) then (sourceIllegal, source, [], orAllData)
      else
        let character := readUTF8Sequence source utf8SequenceLength in
        let write units orAllData :=
          let '(result, rest, target, all) :=
            convertUTF8Loop fuel' strict (drop utf8SequenceLength source) (room - Z.of_nat (length units)) orAllData in
          (result, rest, units ++ target, all) in
        if room <=? 0 then (targetExhausted, source, [], orAllData)
        else if U_IS_BMP character then
          if U_IS_SURROGATE character then
            if strict then (sourceIllegal, source, [], orAllData)
            else write [replacementCharacter] (Z.lor orAllData replacementCharacter)
          else write [wrapU 16 character] (wrapU 16 (Z.lor orAllData character))
        else if U_IS_SUPPLEMENTARY character then
          if room <=? 1 then (targetExhausted, source, [], orAllData)
          else write [U16_LEAD character; U16_TRAIL character] 0xffff
        else if strict then (sourceIllegal, source, [], orAllData)
        else write [replacementCharacter] (Z.lor orAllData replacementCharacter)
  end.

(** With [sourceAllASCII]. *)
Definition convertUTF8ToUTF16 (strict : bool) (source : bytes) (room : Z) : ConversionResult * bytes * ustring * bool :=
  let '(result, rest, target, orAllData) := convertUTF8Loop (length source) strict source room 0 in
  (result, rest, target, Z.land orAllData (Z.lnot 0x7f) =? 0).

(** ** Texts of ASCII characters

    [charactersAreAllASCII] for 8-bit characters, at an address, on a little-endian
    machine with words of 64 bits. *)

Definition isAlignedToMachineWord (pointer : Z) : bool := Z.land pointer 7 =? 0.
Definition alignToMachineWord (pointer : Z) : Z := Z.land pointer (Z.lnot 7).

Fixpoint alignLoop (pointer : Z) (characters : bytes) (allCharBits : Z) : Z * bytes * Z :=
  match characters with
  | [] => (pointer, [], allCharBits)
  | c :: characters' =>
      if isAlignedToMachineWord pointer then (pointer, characters, allCharBits)
      else alignLoop (pointer + 1) characters' (Z.lor allCharBits c)
  end.

(** A word in memory. *)
Definition wordOf (l : bytes) : Z := foldr (fun b w => b + Z.shiftl w 8) 0 l.

(** Reading a word past the end is a crash. *)
Fixpoint wordLoop (fuel : nat) (pointer wordEnd : Z) (characters : bytes) (allCharBits : Z) : outcome (bytes * Z) :=
  if pointer <? wordEnd then
    match fuel with
    | O => Crash
    | S fuel' =>
        if (length characters <? 8)%nat then Crash
        else wordLoop fuel' (pointer + 8) wordEnd (drop 8 characters) (Z.lor allCharBits (wordOf (take 8 characters)))
    end
  else Done (characters, allCharBits).

Definition charactersAreAllASCII (pointer : Z) (characters : bytes) : outcome bool :=
  let end_ := pointer + Z.of_nat (length characters) in
  let '(pointer, rest, allCharBits) := alignLoop pointer characters 0 in
  match wordLoop (length rest) pointer (alignToMachineWord end_) rest allCharBits with
  | Done (rest, allCharBits) => Done (Z.land (foldl Z.lor allCharBits rest) 0x8080808080808080 =? 0)
  | Crash => Crash
  end.

(** ** Strings *)

(** [StringImpl] holds 8-bit or 16-bit characters, at an address. *)
Record StringImpl := mkStringImpl {
  is8Bit : bool;
  characters : ustring;
  address : Z;
}.

Inductive UTF8ConversionMode :=
  | LenientUTF8Conversion
  | StrictUTF8Conversion
  | StrictUTF8ConversionReplacingUnpairedSurrogatesWithFFFD.

Definition putUTF8Triple (c : Z) : bytes :=
  [wrapU 8 (Z.lor (Z.land (Z.shiftr c 12) 0x0F) 0xE0);
   wrapU 8 (Z.lor (Z.land (Z.shiftr c 6) 0x3F) 0x80);
   wrapU 8 (Z.lor (Z.land c 0x3F) 0x80)].

(** Writing past the end of the buffer is a crash. *)
Fixpoint utf8ReplacingLoop (fuel : nat) (characters : ustring) (room : Z) (written : bytes) : outcome bytes :=
  match fuel, characters with
  | _, [] => Done written
  | O, _ => Crash
  | S fuel', _ =>
      let '(result, rest, target) := convertUTF16ToUTF8 true characters room in
      let room := room - Z.of_nat (length target) in
      match result, rest with
      | conversionOK, _ => utf8ReplacingLoop fuel' rest room (written ++ target)
      | _, _ :: rest' =>
          if room <? 3 then Crash
          else utf8ReplacingLoop fuel' rest' (room - 3) (written ++ target ++ putUTF8Triple replacementCharacter)
      | _, [] => Crash
      end
  end.

(** [None] is the null [CString]. *)
Definition utf8 (mode : UTF8ConversionMode) (s : StringImpl) : outcome (option bytes) :=
  let length := Z.of_nat (length (characters s)) in
  if length =? 0 then Done (Some [])
  else if 4294967295 / 3 <? length then Done None
  else
    let room := length * 3 in
    if is8Bit s then
      let '(_, _, target) := convertLatin1ToUTF8 (characters s) room in Done (Some target)
    else
      match mode with
      | StrictUTF8ConversionReplacingUnpairedSurrogatesWithFFFD =>
          match utf8ReplacingLoop (List.length (characters s)) (characters s) room [] with
          | Done target => Done (Some target)
          | Crash => Crash
          end
      | _ =>
          let strict := match mode with StrictUTF8Conversion => true | _ => false end in
          let '(result, rest, target) := convertUTF16ToUTF8 strict (characters s) room in
          match result with
          | sourceIllegal => Done None
          | sourceExhausted =>
              if strict then Done None
              else if room - Z.of_nat (List.length target) <? 3 then Crash
              else Done (Some (target ++ putUTF8Triple (hd 0 rest)))
          | _ => Done (Some target)
          end
      end.

(** [None] is the null string; the [RELEASE_ASSERT] stops the program. *)
Definition fromUTF8 (stringStart : Z) (string : bytes) : outcome (option ustring) :=
  let length := Z.of_nat (length string) in
  if 4294967295 <? length then Crash
  else if length =? 0 then Done (Some [])
  else
    match charactersAreAllASCII stringStart string with
    | Done true => Done (Some string)
    | Done false =>
        match convertUTF8ToUTF16 true string length with
        | (conversionOK, _, target, _) => Done (Some target)
        | _ => Done None
        end
    | Crash => Crash
    end.

(** [StringUTF8Adaptor] without normalization; a null [CString] has no bytes. *)
Definition StringUTF8Adaptor (s : StringImpl) : outcome bytes :=
  match characters s with
  | [] => Done []
  | _ =>
      match if is8Bit s then charactersAreAllASCII (address s) (characters s) else Done false with
      | Done true => Done (characters s)
      | Done false =>
          match utf8 LenientUTF8Conversion s with
          | Done data => Done (default [] data)
          | Crash => Crash
          end
      | Crash => Crash
      end
  end.
