(* ===== verification/UTF8Facts.v ===== *)
(** * UTF-8 as the Unicode standard has it

    The conversions of [UTF8] against the encodings of code points in the standard,
    which are given by arithmetic: writing encodes the code points of a string in
    every mode, within the buffer; reading accepts exactly the encodings of sequences
    of scalar values; strings without unpaired surrogates survive both. *)

From S2P Require Import Prelude UTF8.

(** ** The encodings *)

Definition surrogate (c : Z) : bool := (0xD800 <=? c) && (c <=? 0xDFFF).
Definition scalar (c : Z) : Prop := 0 <= c < 0xD800 \/ 0xE000 <= c < 0x110000.

Definition encode (c : Z) : bytes :=
  if c <? 0x80 then [c]
  else if c <? 0x800 then [0xC0 + c / 64; 0x80 + c mod 64]
  else if c <? 0x10000 then [0xE0 + c / 4096; 0x80 + c / 64 mod 64; 0x80 + c mod 64]
  else [0xF0 + c / 262144; 0x80 + c / 4096 mod 64; 0x80 + c / 64 mod 64; 0x80 + c mod 64].

Definition utf16 (c : Z) : ustring :=
  if c <? 0x10000 then [c] else [0xD800 + (c - 0x10000) / 1024; 0xDC00 + (c - 0x10000) mod 1024].

Definition encodes (cs : list Z) : bytes := concat (map encode cs).
Definition utf16s (cs : list Z) : ustring := concat (map utf16 cs).

Definition lead (c : Z) : bool := (0xD800 <=? c) && (c <=? 0xDBFF).
Definition trail (c : Z) : bool := (0xDC00 <=? c) && (c <=? 0xDFFF).

(** The code points of a string; an unpaired surrogate stands for itself. *)
Fixpoint codePoints (s : ustring) : list Z :=
  match s with
  | [] => []
  | c :: s1 =>
      match s1 with
      | c2 :: s2 => if lead c && trail c2 then (c - 0xD800) * 1024 + (c2 - 0xDC00) + 0x10000 :: codePoints s2 else c :: codePoints s1
      | [] => [c]
      end
  end.

Definition byte (b : Z) : Prop := 0 <= b < 256.

(** ** Bits *)

Lemma below (P : Z -> bool) n x : forallb P (seqZ 0 n) = true -> 0 <= x < n -> P x = true.
Proof. intros Hf Hx. rewrite forallb_forall in Hf. apply Hf, list_elem_of_In, elem_of_seqZ. lia. Qed.

(** An equation about numbers below [n], by trying them. *)
Ltac by_cases_below n x :=
  apply Z.eqb_eq;
  match goal with
  | |- ?e = true => let f := eval pattern x in e in
      match f with ?P x => apply (below P n x); [vm_compute; reflexivity|lia] end
  end.

Lemma trailing_byte c : 0 <= c -> wrapU 8 (Z.land (Z.lor c 0x80) 0xBF) = 0x80 + c mod 64.
Proof.
  intros Hc. replace (Z.land (Z.lor c 0x80) 0xBF) with (Z.lor (Z.land (c mod 256) 0xBF) 0x80).
  - replace (c mod 64) with ((c mod 256) mod 64) by (Z.div_mod_to_equations; lia).
    assert (0 <= c mod 256 < 256) as Hx by (apply Z.mod_pos_bound; lia). revert Hx. generalize (c mod 256). clear. intros x Hx.
    by_cases_below 256 x.
  - change 256 with (2 ^ 8). rewrite <- Z.land_ones by done. rewrite Z.land_lor_distr_l, <- Z.land_assoc. done.
Qed.

Lemma first_byte mark n c :
  (mark, n) ∈ [(0x00, 128); (0xC0, 32); (0xE0, 16); (0xF0, 8)] -> 0 <= c < n -> wrapU 8 (Z.lor c mark) = mark + c.
Proof.
  intros Hm Hc. assert (forallb (fun c => wrapU 8 (Z.lor c mark) =? mark + c) (seqZ 0 n) = true) as Hall.
  { repeat (apply elem_of_cons in Hm as [[= -> ->]|Hm]; [by vm_compute|]). by apply not_elem_of_nil in Hm. }
  apply Z.eqb_eq. exact (below _ n c Hall Hc).
Qed.

Lemma shift6 c : Z.shiftr c 6 = c / 64.
Proof. by rewrite Z.shiftr_div_pow2. Qed.

Definition encodedLength (c : Z) : nat :=
  if c <? 0x80 then 1%nat else if c <? 0x800 then 2%nat else if c <? 0x10000 then 3%nat else 4%nat.

(** What the switch writes is the encoding. *)
Lemma writeSequence_encode n c :
  0 <= c < 0x110000 ->
  n = encodedLength c -> writeSequence n c = encode c.
Proof.
  intros Hc ->. unfold encode, encodedLength. zcases; try lia; unfold writeSequence; cbn [writeTrailing Nat.sub nth firstByteMark]; rewrite ?shift6.
  - by rewrite (first_byte 0 128) by (set_solver || lia).
  - rewrite (first_byte 0xC0 32) by (set_solver || (split; [apply Z.div_pos|apply Z.div_lt_upper_bound]; lia)).
    by rewrite trailing_byte by lia.
  - rewrite !Z.div_div by lia.
    rewrite (first_byte 0xE0 16) by (set_solver || (split; [apply Z.div_pos|apply Z.div_lt_upper_bound]; lia)).
    by rewrite !trailing_byte by (try apply Z.div_pos; lia).
  - rewrite !Z.div_div by lia.
    rewrite (first_byte 0xF0 8) by (set_solver || (split; [apply Z.div_pos|apply Z.div_lt_upper_bound]; lia)).
    by rewrite !trailing_byte by (try apply Z.div_pos; lia).
Qed.

Lemma encode_length c : length (encode c) = encodedLength c.
Proof. unfold encode, encodedLength. by zcases. Qed.

Lemma putUTF8Triple_encode c : 0x800 <= c < 0x10000 -> putUTF8Triple c = encode c.
Proof.
  intros Hc. unfold putUTF8Triple, encode. rewrite !Z.shiftr_div_pow2 by done. change (2 ^ 12) with 4096. change (2 ^ 6) with 64.
  change 0x0F with (Z.ones 4). change 0x3F with (Z.ones 6). rewrite !Z.land_ones by done.
  rewrite (first_byte 0xE0 16) by (set_solver || (apply Z.mod_pos_bound; lia)).
  assert (forall x, 0 <= x < 64 -> wrapU 8 (Z.lor x 0x80) = 0x80 + x) as Ht by (intros x Hx; by_cases_below 64 x).
  rewrite !Ht by (apply Z.mod_pos_bound; lia). zcases; try lia. rewrite (Z.mod_small (c / 4096)); [done|].
  split; [apply Z.div_pos|apply Z.div_lt_upper_bound]; lia.
Qed.

(** ** Writing *)

Lemma encodes_cons c cs : encodes (c :: cs) = encode c ++ encodes cs.
Proof. done. Qed.

Lemma encodes_app cs ds : encodes (cs ++ ds) = encodes cs ++ encodes ds.
Proof. unfold encodes. by rewrite map_app, concat_app. Qed.

Lemma writeCharacter_encode c old room k result rest target :
  0 <= c < 0x110000 -> Z.of_nat (encodedLength c) <= room ->
  k (room - Z.of_nat (encodedLength c)) = (result, rest, target) ->
  writeCharacter c old room k = (result, rest, encode c ++ target).
Proof.
  intros Hc Hr Hk. unfold writeCharacter.
  rewrite <- (writeSequence_encode (encodedLength c) c) by done. unfold encodedLength in *. zcases; try lia; by rewrite Hk.
Qed.

Lemma codePoints_pair c c2 s :
  lead c = true -> trail c2 = true -> codePoints (c :: c2 :: s) = (c - 0xD800) * 1024 + (c2 - 0xDC00) + 0x10000 :: codePoints s.
Proof. intros H1 H2. cbn [codePoints]. by rewrite H1, H2. Qed.

Lemma codePoints_single c s :
  (lead c = true -> match s with c2 :: _ => trail c2 = false | [] => True end) -> codePoints (c :: s) = c :: codePoints s.
Proof. intros Hc. destruct s as [|c2 s]; [done|]. cbn [codePoints]. destruct (lead c); [by rewrite Hc|done]. Qed.

(** Where a conversion of [s] stops. *)
Record stopsAt (strict : bool) (s : ustring) (result : ConversionResult) (rest : ustring) (cs : list Z) : Prop := {
  stops_split : codePoints s = cs ++ codePoints rest;
  stops_range : Forall (fun c => 0 <= c < 0x110000) cs;
  stops_scalar : strict = true -> Forall (fun c => surrogate c = false) cs;
  stops_length : (length (encodes cs) + 3 * length rest <= 3 * length s)%nat;
  stops_units : is_ustring rest;
  stops_why : match result with
    | conversionOK => rest = []
    | sourceExhausted => exists c, rest = [c] /\ lead c = true
    | sourceIllegal => strict = true /\ exists c rest', rest = c :: rest' /\ surrogate c = true /\ codePoints rest = c :: codePoints rest'
    | targetExhausted => False
    end;
}.

Lemma stopsAt_cons strict s c s' result rest cs :
  codePoints s = c :: codePoints s' -> 0 <= c < 0x110000 -> (strict = true -> surrogate c = false) ->
  (encodedLength c + 3 * length s' <= 3 * length s)%nat ->
  stopsAt strict s' result rest cs -> stopsAt strict s result rest (c :: cs).
Proof.
  intros Hs Hc Hsur Hl [H1 H2 H3 H4 H5 H6]. split; try done.
  - by rewrite Hs, H1.
  - by constructor.
  - intros Hst. constructor; auto.
  - rewrite encodes_cons, length_app, encode_length. lia.
Qed.

Lemma encodedLength_unit c : c < 0x10000 -> (encodedLength c <= 3)%nat.
Proof. unfold encodedLength. zcases; lia. Qed.

Lemma encodedLength_max c : (encodedLength c <= 4)%nat.
Proof. unfold encodedLength. zcases; lia. Qed.

(** One unit that is a character of its own. *)
Lemma convert_unit strict c s room :
  is_unit c -> (lead c = true -> match s with c2 :: _ => trail c2 = false | [] => True end) -> (strict = true -> surrogate c = false) ->
  3 * Z.of_nat (S (length s)) <= room ->
  (forall room, 3 * Z.of_nat (length s) <= room ->
     exists result rest cs, convertUTF16ToUTF8 strict s room = (result, rest, encodes cs) /\ stopsAt strict s result rest cs) ->
  exists result rest cs, writeCharacter c (c :: s) room (convertUTF16ToUTF8 strict s) = (result, rest, encodes cs) /\
    stopsAt strict (c :: s) result rest cs.
Proof.
  unfold is_unit. intros Hc Hl Hsur Hr IH. pose proof (encodedLength_unit c ltac:(lia)).
  destruct (IH (room - Z.of_nat (encodedLength c)) ltac:(lia)) as (result & rest & cs & Hcv & Hst).
  exists result, rest, (c :: cs). rewrite (writeCharacter_encode c _ room _ _ _ _ ltac:(lia) ltac:(lia) Hcv). split; [done|].
  eapply stopsAt_cons; [by apply codePoints_single|lia|done|cbn [length]; lia|done].
Qed.

(** A pair of surrogates. *)
Lemma convert_pair strict c c2 s old room :
  lead c = true -> trail c2 = true -> 3 * Z.of_nat (S (S (length s))) <= room ->
  (forall room, 3 * Z.of_nat (length s) <= room ->
     exists result rest cs, convertUTF16ToUTF8 strict s room = (result, rest, encodes cs) /\ stopsAt strict s result rest cs) ->
  exists result rest cs,
    writeCharacter (Z.shiftl (c - 0xD800) 10 + (c2 - 0xDC00) + 0x0010000) old room (convertUTF16ToUTF8 strict s) = (result, rest, encodes cs) /\
    stopsAt strict (c :: c2 :: s) result rest cs.
Proof.
  intros Hl Ht Hr IH. rewrite Z.shiftl_mul_pow2 by done. change (2 ^ 10) with 1024.
  pose proof (codePoints_pair c c2 s Hl Ht) as Hcp. unfold lead, trail in *. zprop. set (x := _ + _ + _) in *.
  assert (0x10000 <= x < 0x110000) by lia. pose proof (encodedLength_max x).
  destruct (IH (room - Z.of_nat (encodedLength x)) ltac:(lia)) as (result & rest & cs & Hcv & Hst).
  exists result, rest, (x :: cs). rewrite (writeCharacter_encode x _ room _ _ _ _ ltac:(lia) ltac:(lia) Hcv). split; [done|].
  eapply stopsAt_cons; [done|lia| |cbn [length]; lia|done]. intros _. unfold surrogate. zcases; lia || done.
Qed.

Lemma convertUTF16ToUTF8_stops strict s room :
  is_ustring s -> 3 * Z.of_nat (length s) <= room ->
  exists result rest cs, convertUTF16ToUTF8 strict s room = (result, rest, encodes cs) /\ stopsAt strict s result rest cs.
Proof.
  remember (length s) as n eqn:Hn. revert s room Hn. induction (lt_wf n) as [n _ IH]. intros s room -> Hs Hr.
  destruct s as [|c s1]; [exists conversionOK, [], []; by split|]. apply Forall_cons in Hs as Hs1. destruct Hs1 as [Hc Hs1].
  cbn [length] in *. assert (forall room, 3 * Z.of_nat (length s1) <= room -> exists result rest cs,
    convertUTF16ToUTF8 strict s1 room = (result, rest, encodes cs) /\ stopsAt strict s1 result rest cs) as IH1 by (intros; eapply IH; eauto).
  cbn [convertUTF16ToUTF8]. fold (lead c). destruct (lead c) eqn:El.
  - destruct s1 as [|c2 s2]; [exists sourceExhausted, [c], []; split; [done|]; split; try done; eauto|]. fold (trail c2). destruct (trail c2) eqn:Et.
    + apply Forall_cons in Hs1 as [_ Hs2]. apply convert_pair; try done. intros room' Hr'. eapply IH; [|done..]. cbn. lia.
    + destruct strict; [|apply convert_unit; try done; by rewrite Et].
      exists sourceIllegal, (c :: c2 :: s2), []. split; [done|]. split; try done. split; [done|].
      exists c, (c2 :: s2). split; [done|]. split; [unfold lead, surrogate in *; zprop; zcases; lia || done|]. apply codePoints_single. by rewrite Et.
  - fold (trail c). destruct (strict && trail c) eqn:Est.
    + apply andb_prop in Est as [-> Et]. exists sourceIllegal, (c :: s1), []. split; [done|]. split; try done. split; [done|].
      exists c, s1. split; [done|]. split; [unfold trail, surrogate in *; zprop; zcases; lia || done|]. apply codePoints_single. by rewrite El.
    + apply convert_unit; try done; [by rewrite El|]. intros ->. cbn in Est. unfold lead, trail, surrogate in *. zcases; try done; lia.
Qed.

(** ** Modes *)

Definition replaceSurrogate (c : Z) : Z := if surrogate c then replacementCharacter else c.

(** What [utf8] promises. *)
Definition specUTF8 (mode : UTF8ConversionMode) (s : ustring) : option bytes :=
  match mode with
  | LenientUTF8Conversion => Some (encodes (codePoints s))
  | StrictUTF8Conversion => if existsb surrogate (codePoints s) then None else Some (encodes (codePoints s))
  | StrictUTF8ConversionReplacingUnpairedSurrogatesWithFFFD => Some (encodes (map replaceSurrogate (codePoints s)))
  end.

Lemma replace_none cs : Forall (fun c => surrogate c = false) cs -> map replaceSurrogate cs = cs.
Proof. induction 1 as [|c cs Hc _ IH]; [done|]. cbn. unfold replaceSurrogate at 1. by rewrite Hc, IH. Qed.

Lemma existsb_none cs : Forall (fun c => surrogate c = false) cs -> existsb surrogate cs = false.
Proof. induction 1 as [|c cs Hc _ IH]; [done|]. cbn. by rewrite Hc, IH. Qed.

Lemma lead_surrogate c : lead c = true -> surrogate c = true.
Proof. unfold lead, surrogate. intros Hc. zprop. zcases; lia || done. Qed.

Lemma surrogate_range c : surrogate c = true -> 0xD800 <= c <= 0xDFFF.
Proof. unfold surrogate. intros Hc. zprop. lia. Qed.

Lemma utf8ReplacingLoop_replaces fuel s room written :
  (length s <= fuel)%nat -> is_ustring s -> 3 * Z.of_nat (length s) <= room ->
  utf8ReplacingLoop fuel s room written = Done (written ++ encodes (map replaceSurrogate (codePoints s))).
Proof.
  revert s room written. induction fuel as [|fuel IH]; intros s room written Hf Hs Hr.
  { destruct s; [|cbn in Hf; lia]. cbn. by rewrite app_nil_r. }
  destruct s as [|c0 s0] eqn:Es; [cbn; by rewrite app_nil_r|]. rewrite <- Es in *. assert (length s = S (length s0)) as Hlen by by rewrite Es.
  destruct (convertUTF16ToUTF8_stops true s room Hs Hr) as (result & rest & cs & Hcv & [H1 H2 H3 H4 H5 H6]).
  replace (utf8ReplacingLoop (S fuel) s room written) with
    (match result, rest with
     | conversionOK, _ => utf8ReplacingLoop fuel rest (room - Z.of_nat (length (encodes cs))) (written ++ encodes cs)
     | _, _ :: rest' => if room - Z.of_nat (length (encodes cs)) <? 3 then Crash
         else utf8ReplacingLoop fuel rest' (room - Z.of_nat (length (encodes cs)) - 3) (written ++ encodes cs ++ putUTF8Triple replacementCharacter)
     | _, [] => Crash
     end) by (rewrite Es in *; cbn [utf8ReplacingLoop]; by rewrite Hcv).
  assert (forall c rest', rest = c :: rest' -> surrogate c = true -> codePoints rest = c :: codePoints rest' ->
    (if room - Z.of_nat (length (encodes cs)) <? 3 then Crash
     else utf8ReplacingLoop fuel rest' (room - Z.of_nat (length (encodes cs)) - 3) (written ++ encodes cs ++ putUTF8Triple replacementCharacter)) =
    Done (written ++ encodes (map replaceSurrogate (codePoints s)))) as Hstep.
  { intros c rest' -> Hc Hcp. cbn [length] in H4. rewrite (proj2 (Z.ltb_ge _ _)) by lia. apply Forall_cons in H5 as [_ H5].
    rewrite IH by (done || lia). rewrite H1, Hcp, map_app, encodes_app, (replace_none cs) by auto. cbn [map]. rewrite encodes_cons.
    unfold replaceSurrogate at 2. by rewrite Hc, <- !app_assoc. }
  destruct result.
  - subst rest. rewrite IH by (done || cbn; lia). rewrite H1. cbn [codePoints map].
    rewrite (app_nil_r cs), (replace_none cs) by auto. by rewrite app_nil_r.
  - destruct H6 as (c & -> & Hc). by apply (Hstep c []); [|apply lead_surrogate|].
  - done.
  - destruct H6 as (_ & c & rest' & -> & Hc & Hcp). by apply (Hstep c rest').
Qed.

Lemma latin1_codePoints s : Forall byte s -> codePoints s = s.
Proof.
  induction 1 as [|c s Hc _ IH]; [done|]. rewrite codePoints_single, IH; [done|]. unfold lead, byte in *. intros Hl. zprop. lia.
Qed.

Lemma convertLatin1ToUTF8_encodes s room :
  Forall byte s -> 2 * Z.of_nat (length s) <= room -> convertLatin1ToUTF8 s room = (conversionOK, [], encodes s).
Proof.
  intros Hs. revert room. induction Hs as [|c s Hc _ IH]; intros room Hr; [done|]. cbn [convertLatin1ToUTF8 length] in *. unfold byte in Hc.
  assert ((if c <? 0x80 then 1%nat else 2%nat) = encodedLength c) as -> by (unfold encodedLength; zcases; lia || done).
  assert (encodedLength c <= 2)%nat by (unfold encodedLength; zcases; lia).
  rewrite (proj2 (Z.ltb_ge _ _)) by lia. rewrite IH by lia. by rewrite writeSequence_encode by (done || lia).
Qed.

Definition wfString (s : StringImpl) : Prop := is_ustring (characters s) /\ (is8Bit s = true -> Forall byte (characters s)).

(** Every mode, within the buffer. *)
Lemma utf8_meets_spec mode s :
  wfString s -> Z.of_nat (length (characters s)) <= 4294967295 / 3 -> utf8 mode s = Done (specUTF8 mode (characters s)).
Proof.
  intros [Hs H8] Hlen. unfold utf8. destruct (characters s) as [|c0 s0] eqn:Es; [by destruct mode|]. rewrite <- Es in *.
  rewrite (proj2 (Z.eqb_neq _ _)) by (rewrite Es; cbn; lia). rewrite (proj2 (Z.ltb_ge _ _)) by lia. destruct (is8Bit s).
  - rewrite convertLatin1ToUTF8_encodes by (auto; lia). assert (Forall (fun c => surrogate c = false) (characters s)) as Hn.
    { apply (Forall_impl _ _ _ (H8 eq_refl)). unfold byte, surrogate. intros c Hc. zcases; lia || done. }
    unfold specUTF8. rewrite latin1_codePoints by auto. by destruct mode; rewrite ?existsb_none, ?replace_none.
  - destruct mode.
    + destruct (convertUTF16ToUTF8_stops false (characters s) (Z.of_nat (length (characters s)) * 3)) as (result & rest & cs & -> & [H1 _ _ H4 H5 H6]); [done|lia|].
      unfold specUTF8. rewrite H1. destruct result; try done; [| |by destruct H6].
      * subst rest. by rewrite app_nil_r.
      * destruct H6 as (c & -> & Hc%lead_surrogate%surrogate_range). cbn [length] in H4. rewrite (proj2 (Z.ltb_ge _ _)) by lia. cbn [hd].
        rewrite putUTF8Triple_encode, encodes_app by lia. change (encodes (codePoints [c])) with (encode c ++ []). by rewrite app_nil_r.
    + destruct (convertUTF16ToUTF8_stops true (characters s) (Z.of_nat (length (characters s)) * 3)) as (result & rest & cs & -> & [H1 _ H3 H4 H5 H6]); [done|lia|].
      unfold specUTF8. rewrite H1, existsb_app. destruct result; try done.
      * subst rest. by rewrite existsb_none, app_nil_r by auto.
      * destruct H6 as (c & -> & Hc%lead_surrogate). cbn. by rewrite Hc, orb_true_r.
      * destruct H6 as (_ & c & rest' & -> & Hc & ->). cbn. by rewrite Hc, orb_true_r.
    + by rewrite utf8ReplacingLoop_replaces by (done || lia).
Qed.

(** ** Reading *)

(** The length of a sequence, by its first byte. *)
Definition lengthOf (b0 : Z) : nat :=
  if b0 <? 0x80 then 1%nat else if b0 <? 0xC0 then 0%nat else if b0 <? 0xE0 then 2%nat
  else if b0 <? 0xF0 then 3%nat else if b0 <? 0xF8 then 4%nat else 0%nat.

Lemma inlineUTF8SequenceLength_of b0 : byte b0 -> inlineUTF8SequenceLength b0 = lengthOf b0.
Proof.
  intros Hb. apply Nat.eqb_eq. apply (below (fun b0 => Nat.eqb (inlineUTF8SequenceLength b0) (lengthOf b0)) 256 b0); [vm_compute; reflexivity|done].
Qed.

Lemma readSequence_step b l n c : byte b -> 0 <= c < 2 ^ 24 -> readSequence (b :: l) (S n) c = readSequence l n (c * 64 + b).
Proof. unfold byte. intros Hb Hc. cbn [readSequence]. by rewrite Z.shiftl_mul_pow2, wrapS_small by lia. Qed.

Ltac read_bytes :=
  unfold readUTF8Sequence; rewrite !readSequence_step by (unfold byte in *; lia); cbn [readSequence nth offsetsFromUTF8 Nat.sub];
  unfold byte in *; rewrite wrapS_small; lia.

Lemma read_one b0 r : byte b0 -> readUTF8Sequence (b0 :: r) 1 = b0.
Proof. intros. read_bytes. Qed.

Lemma read_two b0 b1 r : byte b0 -> byte b1 -> readUTF8Sequence (b0 :: b1 :: r) 2 = b0 * 64 + b1 - 0x3080.
Proof. intros. read_bytes. Qed.

Lemma read_three b0 b1 b2 r : byte b0 -> byte b1 -> byte b2 ->
  readUTF8Sequence (b0 :: b1 :: b2 :: r) 3 = (b0 * 64 + b1) * 64 + b2 - 0xE2080.
Proof. intros. read_bytes. Qed.

Lemma read_four b0 b1 b2 b3 r : byte b0 -> byte b1 -> byte b2 -> byte b3 ->
  readUTF8Sequence (b0 :: b1 :: b2 :: b3 :: r) 4 = ((b0 * 64 + b1) * 64 + b2) * 64 + b3 - 0x3C82080.
Proof. intros. read_bytes. Qed.

(** The encoding of a number from its bytes. *)
Lemma encode_one b0 : 0 <= b0 < 0x80 -> encode b0 = [b0].
Proof. intros. unfold encode. by zcases; try lia. Qed.

Lemma encode_two x y : 2 <= x < 32 -> 0 <= y < 64 -> encode (x * 64 + y) = [0xC0 + x; 0x80 + y].
Proof. intros. unfold encode. zcases; try lia. repeat f_equal; Z.div_mod_to_equations; lia. Qed.

Lemma encode_three x y z : 0 <= x < 16 -> 0 <= y < 64 -> 0 <= z < 64 -> 0x800 <= (x * 64 + y) * 64 + z ->
  encode ((x * 64 + y) * 64 + z) = [0xE0 + x; 0x80 + y; 0x80 + z].
Proof. intros. unfold encode. zcases; try lia. repeat f_equal; Z.div_mod_to_equations; lia. Qed.

Lemma encode_four x y z w : 0 <= x < 8 -> 0 <= y < 64 -> 0 <= z < 64 -> 0 <= w < 64 -> 0x10000 <= ((x * 64 + y) * 64 + z) * 64 + w ->
  encode (((x * 64 + y) * 64 + z) * 64 + w) = [0xF0 + x; 0x80 + y; 0x80 + z; 0x80 + w].
Proof. intros. unfold encode. zcases; try lia. repeat f_equal; Z.div_mod_to_equations; lia. Qed.

(** Besides the encodings, sequences with a second byte below 0x80 after 0xED or 0xF4
    are read. *)
Definition irregular (c : Z) : bytes :=
  if c <? 0x10000 then [0xED; c / 64 - 704; 0x80 + c mod 64]
  else [0xF4; c / 4096 - 128; 0x80 + c / 64 mod 64; 0x80 + c mod 64].

Definition irregularValue (c : Z) : Prop := 0xB000 <= c < 0xD000 \/ 0x80000 <= c < 0x100000.

(** A code point with how it is written. *)
Definition form (x : Z * bool) : bytes := if x.2 then irregular x.1 else encode x.1.
Definition readable (x : Z * bool) : Prop := if x.2 then irregularValue x.1 else scalar x.1.

Lemma irregular_three y z : 0 <= y < 128 -> 0 <= z < 64 -> irregular ((y + 704) * 64 + z) = [0xED; y; 0x80 + z].
Proof. intros. unfold irregular. zcases; try lia. repeat f_equal; Z.div_mod_to_equations; lia. Qed.

Lemma irregular_four y z w : 0 <= y < 128 -> 0 <= z < 64 -> 0 <= w < 64 ->
  irregular (((y + 128) * 64 + z) * 64 + w) = [0xF4; y; 0x80 + z; 0x80 + w].
Proof. intros. unfold irregular. zcases; try lia. repeat f_equal; Z.div_mod_to_equations; lia. Qed.

(** What the checks say of the bytes. *)
Ltac legal_ranges H :=
  unfold isLegalUTF8 in H; cbn [nth] in H; zprop;
  repeat match goal with H : context [if ?b then _ else _] |- _ => destruct b eqn:?; zprop end.

(** The first sequence of a source, and what is after it. *)
Definition startsWith (source : bytes) (n : nat) : Prop :=
  exists x, readable x /\ source = form x ++ drop n source /\ readUTF8Sequence source n = x.1 /\ n = length (form x).

Lemma legal_three b0 b1 b2 r :
  byte b0 -> byte b1 -> byte b2 -> 0xE0 <= b0 < 0xF0 -> isLegalUTF8 (b0 :: b1 :: b2 :: r) 3 = true -> startsWith (b0 :: b1 :: b2 :: r) 3.
Proof.
  unfold byte. intros H0 H1 H2 Hb Hlegal. unfold startsWith. rewrite read_three by (unfold byte; lia).
  destruct (decide (b0 = 0xED /\ b1 < 0x80)) as [[-> Hlow]|Hreg].
  - assert (0x80 <= b2 <= 0xBF) by (legal_ranges Hlegal; lia). exists ((b1 + 704) * 64 + (b2 - 0x80), true).
    unfold form, readable, irregularValue. cbn [fst snd]. rewrite irregular_three by lia. repeat split; [lia|cbn; repeat f_equal; lia|lia].
  - assert (0x80 <= b1 <= 0xBF /\ 0x80 <= b2 <= 0xBF /\ (b0 = 0xE0 -> 0xA0 <= b1) /\ (b0 = 0xED -> b1 <= 0x9F)) by (legal_ranges Hlegal; lia).
    exists (((b0 - 0xE0) * 64 + (b1 - 0x80)) * 64 + (b2 - 0x80), false).
    unfold form, readable, scalar. cbn [fst snd]. rewrite encode_three by lia. repeat split; [lia|cbn; repeat f_equal; lia|lia].
Qed.

Lemma legal_four b0 b1 b2 b3 r :
  byte b0 -> byte b1 -> byte b2 -> byte b3 -> 0xF0 <= b0 -> isLegalUTF8 (b0 :: b1 :: b2 :: b3 :: r) 4 = true ->
  startsWith (b0 :: b1 :: b2 :: b3 :: r) 4.
Proof.
  unfold byte. intros H0 H1 H2 H3 Hb Hlegal. unfold startsWith. rewrite read_four by (unfold byte; lia).
  assert (0x80 <= b2 <= 0xBF /\ 0x80 <= b3 <= 0xBF /\ b0 <= 0xF4) by (legal_ranges Hlegal; lia).
  destruct (decide (b0 = 0xF4 /\ b1 < 0x80)) as [[-> Hlow]|Hreg].
  - exists (((b1 + 128) * 64 + (b2 - 0x80)) * 64 + (b3 - 0x80), true).
    unfold form, readable, irregularValue. cbn [fst snd]. rewrite irregular_four by lia. repeat split; [lia|cbn; repeat f_equal; lia|lia].
  - assert (0x80 <= b1 <= 0xBF /\ (b0 = 0xF0 -> 0x90 <= b1) /\ (b0 = 0xF4 -> b1 <= 0x8F)) by (legal_ranges Hlegal; lia).
    exists ((((b0 - 0xF0) * 64 + (b1 - 0x80)) * 64 + (b2 - 0x80)) * 64 + (b3 - 0x80), false).
    unfold form, readable, scalar. cbn [fst snd]. rewrite encode_four by lia. repeat split; [lia|cbn; repeat f_equal; lia|lia].
Qed.

(** A sequence that passes the checks. *)
Lemma legal_startsWith b0 r :
  Forall byte (b0 :: r) -> (lengthOf b0 <= length (b0 :: r))%nat -> isLegalUTF8 (b0 :: r) (lengthOf b0) = true ->
  startsWith (b0 :: r) (lengthOf b0).
Proof.
  intros Hb Hl Hlegal. apply Forall_cons in Hb as [Hb0 Hr]. pose proof Hb0 as Hb0'. unfold byte in Hb0'. unfold lengthOf in *.
  repeat case_match; zprop; cbn [length] in Hl; try (by legal_ranges Hlegal).
  - exists (b0, false). unfold form, readable, scalar. cbn [fst snd]. rewrite read_one, encode_one by (unfold byte; lia). repeat split; lia.
  - destruct r as [|b1 r]; [cbn in Hl; lia|]. apply Forall_cons in Hr as [Hb1 _].
    assert (0xC2 <= b0 /\ 0x80 <= b1 <= 0xBF) by (legal_ranges Hlegal; lia).
    exists ((b0 - 0xC0) * 64 + (b1 - 0x80), false). unfold form, readable, scalar. cbn [fst snd]. rewrite read_two, encode_two by (done || lia).
    repeat split; [lia|cbn; repeat f_equal; lia|lia].
  - destruct r as [|b1 [|b2 r]]; [cbn in Hl; lia..|]. apply Forall_cons in Hr as [Hb1 [Hb2 _]%Forall_cons]. by apply legal_three.
  - destruct r as [|b1 [|b2 [|b3 r]]]; [cbn in Hl; lia..|]. apply Forall_cons in Hr as [Hb1 [Hb2 [Hb3 _]%Forall_cons]%Forall_cons]. by apply legal_four.
Qed.

Ltac legal :=
  unfold isLegalUTF8; cbn [nth]; repeat (apply andb_true_intro; split); apply negb_true_iff; first
  [ apply orb_false_intro; apply Z.ltb_ge; lia
  | apply andb_false_iff; rewrite Z.leb_gt, Z.ltb_ge; lia
  | repeat case_match; zprop; apply Z.ltb_ge; lia ].

Lemma form_legal x r :
  readable x ->
  exists b0 r', form x ++ r = b0 :: r' /\ byte b0 /\ lengthOf b0 = length (form x) /\
    isLegalUTF8 (form x ++ r) (lengthOf b0) = true /\ readUTF8Sequence (form x ++ r) (lengthOf b0) = x.1.
Proof.
  destruct x as [c []]; unfold readable, form; cbn [fst snd]; intros Hc.
  - destruct Hc as [Hc|Hc].
    + assert (exists y z, 0 <= y < 128 /\ 0 <= z < 64 /\ c = (y + 704) * 64 + z) as (y & z & Hy & Hz & ->)
        by (exists (c / 64 - 704), (c mod 64); Z.div_mod_to_equations; lia).
      rewrite irregular_three by lia. eexists _, _. split; [done|]. cbn [app]. split; [done|]. split; [done|]. split; [legal|].
      change (lengthOf 0xED) with 3%nat. rewrite read_three by (unfold byte; lia). lia.
    + assert (exists y z w, 0 <= y < 128 /\ 0 <= z < 64 /\ 0 <= w < 64 /\ c = ((y + 128) * 64 + z) * 64 + w) as (y & z & w & Hy & Hz & Hw & ->)
        by (exists (c / 4096 - 128), (c / 64 mod 64), (c mod 64); Z.div_mod_to_equations; lia).
      rewrite irregular_four by lia. eexists _, _. split; [done|]. cbn [app]. split; [done|]. split; [done|]. split; [legal|].
      change (lengthOf 0xF4) with 4%nat. rewrite read_four by (unfold byte; lia). lia.
  - unfold scalar in Hc. destruct (decide (c < 0x80)); [|destruct (decide (c < 0x800)); [|destruct (decide (c < 0x10000))]].
    + rewrite encode_one by lia. eexists _, _. split; [done|]. assert (lengthOf c = 1%nat) as -> by (unfold lengthOf; by zcases; try lia).
      cbn [app]. split; [unfold byte; lia|]. split; [done|]. split; [legal|]. apply read_one. unfold byte; lia.
    + assert (exists x y, 2 <= x < 32 /\ 0 <= y < 64 /\ c = x * 64 + y) as (x & y & Hx & Hy & ->)
        by (exists (c / 64), (c mod 64); Z.div_mod_to_equations; lia).
      rewrite encode_two by lia. eexists _, _. split; [done|]. assert (lengthOf (0xC0 + x) = 2%nat) as -> by (unfold lengthOf; by zcases; try lia).
      cbn [app]. split; [unfold byte; lia|]. split; [done|]. split; [legal|]. rewrite read_two by (unfold byte; lia). lia.
    + assert (exists x y z, 0 <= x < 16 /\ 0 <= y < 64 /\ 0 <= z < 64 /\ c = (x * 64 + y) * 64 + z) as (x & y & z & Hx & Hy & Hz & ->)
        by (exists (c / 4096), (c / 64 mod 64), (c mod 64); Z.div_mod_to_equations; lia).
      rewrite encode_three by lia. eexists _, _. split; [done|]. assert (lengthOf (0xE0 + x) = 3%nat) as -> by (unfold lengthOf; by zcases; try lia).
      cbn [app]. split; [unfold byte; lia|]. split; [done|]. split; [legal|]. rewrite read_three by (unfold byte; lia). lia.
    + assert (exists x y z w, 0 <= x < 8 /\ 0 <= y < 64 /\ 0 <= z < 64 /\ 0 <= w < 64 /\ c = ((x * 64 + y) * 64 + z) * 64 + w) as (x & y & z & w & Hx & Hy & Hz & Hw & ->)
        by (exists (c / 262144), (c / 4096 mod 64), (c / 64 mod 64), (c mod 64); Z.div_mod_to_equations; lia).
      rewrite encode_four by lia. eexists _, _. split; [done|]. assert (lengthOf (0xF0 + x) = 4%nat) as -> by (unfold lengthOf; by zcases; try lia).
      cbn [app]. split; [unfold byte; lia|]. split; [done|]. split; [legal|]. rewrite read_four by (unfold byte; lia). lia.
Qed.

(** *** Sequences of code points *)

Definition forms (xs : list (Z * bool)) : bytes := concat (map form xs).

Lemma surrogate_bits c : 0 <= c < 0x10000 -> U_IS_SURROGATE c = surrogate c.
Proof.
  intros Hc. unfold U_IS_SURROGATE, surrogate. rewrite wrapU_small by lia.
  change 0xfffff800 with (Z.land (Z.ones 32) (Z.lnot (Z.ones 11))). rewrite Z.land_assoc, Z.land_ones, Z.mod_small by lia.
  rewrite <- Z.ldiff_land, Z.ldiff_ones_r, Z.shiftl_mul_pow2, Z.shiftr_div_pow2 by done. change (2 ^ 11) with 2048.
  zcases; cbn; try done; Z.div_mod_to_equations; lia.
Qed.

Lemma bmp_bits c : 0 <= c < 0x110000 -> U_IS_BMP c = (c <? 0x10000).
Proof. intros Hc. unfold U_IS_BMP. rewrite wrapU_small by lia. zcases; lia || done. Qed.

Lemma supplementary_bits c : 0x10000 <= c < 0x110000 -> U_IS_SUPPLEMENTARY c = true.
Proof. intros Hc. unfold U_IS_SUPPLEMENTARY. rewrite wrapU_small by lia. zcases; lia || done. Qed.

Lemma supplementary_units c : 0x10000 <= c < 0x110000 -> [U16_LEAD c; U16_TRAIL c] = utf16 c.
Proof.
  intros Hc. unfold utf16, U16_LEAD, U16_TRAIL. rewrite (proj2 (Z.ltb_ge _ _)) by lia. rewrite Z.shiftr_div_pow2 by done. change (2 ^ 10) with 1024.
  change 0x3ff with (Z.ones 10). rewrite Z.land_ones by done. change (2 ^ 10) with 1024. f_equal; [|f_equal].
  - rewrite wrapU_small by (Z.div_mod_to_equations; lia). Z.div_mod_to_equations; lia.
  - replace ((c - 0x10000) mod 1024) with (c mod 1024) by (Z.div_mod_to_equations; lia).
    assert (Z.land (c mod 1024) 0xdc00 = 0) as Hland
      by (change 1024 with (2 ^ 10); rewrite <- Z.land_ones, <- Z.land_assoc by done; apply Z.land_0_r).
    pose proof (Z.mod_pos_bound c 1024 ltac:(lia)). rewrite <- (Z.add_nocarry_lor _ _ Hland), wrapU_small by lia. lia.
Qed.

Lemma readable_range x : readable x -> 0 <= x.1 < 0x110000 /\ surrogate x.1 = false.
Proof. destruct x as [c []]; unfold readable, irregularValue, scalar, surrogate; cbn [fst snd]; intros Hc; (split; [lia|]); zcases; lia || done. Qed.

Lemma form_room x : readable x -> (1 <= length (utf16 x.1) <= length (form x))%nat.
Proof.
  destruct x as [c []]; unfold readable, irregularValue, scalar, form, utf16, irregular, encode; cbn [fst snd]; intros Hc; zcases; cbn; lia.
Qed.

(** One turn of the loop. *)
Lemma convertUTF8Loop_turn fuel source b0 r x room all :
  source = b0 :: r -> byte b0 -> lengthOf b0 = length (form x) -> (length (form x) <= length source)%nat ->
  isLegalUTF8 source (lengthOf b0) = true -> readUTF8Sequence source (lengthOf b0) = x.1 -> readable x -> Z.of_nat (length (utf16 x.1)) <= room ->
  exists all', convertUTF8Loop (S fuel) true source room all =
    let '(result, rest, target, or) := convertUTF8Loop fuel true (drop (length (form x)) source) (room - Z.of_nat (length (utf16 x.1))) all' in
    (result, rest, utf16 x.1 ++ target, or).
Proof.
  intros Es Hb Hn Hl Hlegal Hread Hx Hroom. destruct (readable_range x Hx) as [Hr Hs]. pose proof (form_room x Hx) as [Hu _].
  rewrite Es in *. cbn [convertUTF8Loop]. rewrite inlineUTF8SequenceLength_of, Hlegal, Hread, Hn by done.
  rewrite (proj2 (Nat.ltb_ge _ _)) by lia. cbn [negb]. rewrite (proj2 (Z.leb_gt room 0)) by lia. rewrite bmp_bits by done.
  destruct (Z.ltb_spec x.1 0x10000) as [Hbmp|Hsup].
  - rewrite surrogate_bits, Hs by lia. unfold utf16 in *. rewrite (proj2 (Z.ltb_lt _ _)) in * by lia. rewrite (wrapU_small 16 x.1) by lia. eauto.
  - rewrite supplementary_bits, supplementary_units by lia. unfold utf16 in *. rewrite (proj2 (Z.ltb_ge _ _)) in * by lia. cbn [length] in Hroom.
    rewrite (proj2 (Z.leb_gt room 1)) by lia. eauto.
Qed.

Lemma convertUTF8Loop_reads xs fuel room all :
  Forall readable xs -> (length (forms xs) <= fuel)%nat -> Z.of_nat (length (forms xs)) <= room ->
  exists all', convertUTF8Loop fuel true (forms xs) room all = (conversionOK, [], utf16s (map fst xs), all').
Proof.
  intros Hxs. revert fuel room all. induction Hxs as [|x xs Hx _ IH]; intros fuel room all Hf Hr; [by destruct fuel; eauto|].
  change (forms (x :: xs)) with (form x ++ forms xs) in *. pose proof (form_room x Hx). rewrite length_app in *. destruct fuel as [|fuel]; [lia|].
  destruct (form_legal x (forms xs) Hx) as (b0 & r & Es & Hb & Hn & Hlegal & Hread).
  destruct (convertUTF8Loop_turn fuel (form x ++ forms xs) b0 r x room all) as (all1 & ->); try done; [rewrite length_app; lia|lia|].
  rewrite drop_app_length. destruct (IH fuel (room - Z.of_nat (length (utf16 x.1))) all1) as (all' & ->); [lia|lia|]. by exists all'.
Qed.

Lemma convertUTF8Loop_sound fuel source room all rest target all' :
  Forall byte source -> Z.of_nat (length source) <= room ->
  convertUTF8Loop fuel true source room all = (conversionOK, rest, target, all') ->
  exists xs, Forall readable xs /\ source = forms xs.
Proof.
  revert source room all target. induction fuel as [|fuel IH]; intros source room all target Hb Hr Hcv; (destruct source as [|b0 r] eqn:Es; [by exists []|]).
  - done.
  - rewrite <- Es in *. assert (byte b0) as Hb0 by (rewrite Es in Hb; by apply Forall_cons in Hb as [? _]).
    assert ((lengthOf b0 <= length source)%nat /\ isLegalUTF8 source (lengthOf b0) = true) as [Hl Hlegal].
    { rewrite Es in Hcv. cbn [convertUTF8Loop] in Hcv. rewrite inlineUTF8SequenceLength_of, <- Es in Hcv by done.
      destruct (Nat.ltb_spec (length source) (lengthOf b0)); [done|]. by destruct (isLegalUTF8 source (lengthOf b0)). }
    assert (startsWith source (lengthOf b0)) as (x & Hx & Hform & Hread & Hn) by (rewrite Es in *; by apply legal_startsWith).
    pose proof (form_room x Hx). destruct (convertUTF8Loop_turn fuel source b0 r x room all) as (all1 & Ht); try done; [congruence|lia|].
    rewrite Ht in Hcv. rewrite <- Hn in *. destruct (convertUTF8Loop fuel true (drop (lengthOf b0) source) _ all1) as [[[result rest1] target1] or] eqn:Erec.
    injection Hcv as -> -> _ ->. apply IH in Erec as (xs & Hxs & Hd); [|by apply Forall_drop|rewrite length_drop; lia].
    exists (x :: xs). split; [by constructor|]. rewrite Hform, Hd. done.
Qed.
