(* ===== verification/UTF8Theorems.v ===== *)
(** * Theorems about texts on the wire

    [charactersAreAllASCII] looks at whole words but finds what looking at every
    byte finds; [fromUTF8], [utf8] and [StringUTF8Adaptor] against the encodings of
    [UTF8Facts]. *)

From S2P Require Import Prelude UTF8 UTF8Facts.

(** ** Words of bytes *)

Definition ascii (b : Z) : bool := b <? 0x80.

Fixpoint highBits (n : nat) : Z :=
  match n with
  | O => 0
  | S n' => 0x80 + 256 * highBits n'
  end.

Lemma byte_bits x i : byte x -> 8 <= i -> Z.testbit x i = false.
Proof.
  unfold byte. intros Hx Hi. rewrite Z.testbit_false by lia. rewrite Z.div_small; [done|]. split; [lia|].
  apply Z.lt_le_trans with (2 ^ 8); [lia|]. apply Z.pow_le_mono_r; lia.
Qed.

Lemma byte_lor x y : byte x -> x + 256 * y = Z.lor x (Z.shiftl y 8).
Proof.
  intros Hx. rewrite <- (Z.add_nocarry_lor x (Z.shiftl y 8)); [rewrite Z.shiftl_mul_pow2; lia|].
  apply Z.bits_inj'. intros i Hi. rewrite Z.land_spec, Z.bits_0. destruct (decide (i < 8)).
  - rewrite Z.shiftl_spec_low by lia. apply andb_false_r.
  - by rewrite byte_bits by (done || lia).
Qed.

Lemma byte_land x y : byte x -> byte y -> byte (Z.land x y).
Proof.
  unfold byte. intros Hx Hy. rewrite <- (Z.mod_small y (2 ^ 8)), <- Z.land_ones, Z.land_assoc, Z.land_ones by lia.
  apply Z.mod_pos_bound. lia.
Qed.

Lemma land_step b w m n : byte b -> byte n -> Z.land (b + 256 * w) (n + 256 * m) = Z.land b n + 256 * Z.land w m.
Proof.
  intros Hb Hn. rewrite !byte_lor by auto using byte_land. rewrite Z.shiftl_land. apply Z.bits_inj'. intros i Hi.
  rewrite !Z.lor_spec, !Z.land_spec, !Z.lor_spec. destruct (decide (i < 8)).
  - by rewrite !(Z.shiftl_spec_low _ 8 i), !orb_false_r by lia.
  - by rewrite (byte_bits b), (byte_bits n) by (done || lia).
Qed.

Lemma land_high b : byte b -> Z.land b 0x80 = 0 <-> ascii b = true.
Proof.
  intros Hb. assert ((Z.land b 0x80 =? 0) = ascii b) as <-; [|by rewrite Z.eqb_eq].
  apply eqb_prop. apply (below (fun b => eqb (Z.land b 0x80 =? 0) (ascii b)) 256 b); [vm_compute; reflexivity|done].
Qed.

(** A word has none of the bits of the mask when its bytes are ASCII. *)
Lemma wordOf_ascii l n :
  Forall byte l -> (length l <= n)%nat -> Z.land (wordOf l) (highBits n) = 0 <-> forallb ascii l = true.
Proof.
  intros Hl. revert n. induction Hl as [|b l Hb _ IH]; intros n Hn; [by cbn; rewrite Z.land_0_l|].
  destruct n as [|n]; [cbn in Hn; lia|]. cbn [wordOf foldr highBits forallb]. fold (wordOf l). rewrite Z.shiftl_mul_pow2, Z.mul_comm by done.
  change (2 ^ 8) with 256. rewrite land_step, andb_true_iff, <- (land_high b Hb), <- (IH n) by (done || cbn in Hn; lia).
  assert (0 <= Z.land b 0x80) by (apply Z.land_nonneg; right; lia).
  assert (0 <= Z.land (wordOf l) (highBits n)); [|lia]. apply Z.land_nonneg. right. clear. induction n; cbn [highBits]; lia.
Qed.

Abbreviation nonASCIIBitMask := 0x8080808080808080.

Lemma bits_word allCharBits l :
  Forall byte l -> (length l <= 8)%nat ->
  Z.land (Z.lor allCharBits (wordOf l)) nonASCIIBitMask = 0 <-> Z.land allCharBits nonASCIIBitMask = 0 /\ forallb ascii l = true.
Proof.
  intros Hl Hn. rewrite Z.land_lor_distr_l, Z.lor_eq_0_iff. change nonASCIIBitMask with (highBits 8). by rewrite (wordOf_ascii l 8).
Qed.

Lemma bits_byte allCharBits b :
  byte b -> Z.land (Z.lor allCharBits b) nonASCIIBitMask = 0 <-> Z.land allCharBits nonASCIIBitMask = 0 /\ ascii b = true.
Proof.
  intros Hb. replace b with (wordOf [b]) at 1 by (unfold wordOf; cbn [foldr]; rewrite Z.shiftl_0_l; lia).
  rewrite bits_word by (cbn; auto; lia). cbn. by rewrite andb_true_r.
Qed.

Lemma bits_bytes l allCharBits :
  Forall byte l -> Z.land (foldl Z.lor allCharBits l) nonASCIIBitMask = 0 <-> Z.land allCharBits nonASCIIBitMask = 0 /\ forallb ascii l = true.
Proof.
  intros Hl. revert allCharBits. induction Hl as [|b l Hb _ IH]; intros bits; cbn; [by rewrite andb_true_r || tauto|].
  rewrite IH, bits_byte, andb_true_iff by done. tauto.
Qed.

(** ** The loops over words *)

Lemma aligned_mod pointer : isAlignedToMachineWord pointer = (pointer mod 8 =? 0).
Proof. unfold isAlignedToMachineWord. change 7 with (Z.ones 3). by rewrite Z.land_ones. Qed.

Lemma align_div pointer : alignToMachineWord pointer = pointer / 8 * 8.
Proof.
  unfold alignToMachineWord. change 7 with (Z.ones 3). by rewrite <- Z.ldiff_land, Z.ldiff_ones_r, Z.shiftl_mul_pow2, Z.shiftr_div_pow2.
Qed.

(** A loop has looked at the characters before [rest]. *)
Definition lookedAt (characters rest : bytes) (bits bits' : Z) : Prop :=
  exists seen, characters = seen ++ rest /\
    (Z.land bits' nonASCIIBitMask = 0 <-> Z.land bits nonASCIIBitMask = 0 /\ forallb ascii seen = true).

Lemma lookedAt_none characters bits : lookedAt characters characters bits bits.
Proof. exists []. cbn. tauto. Qed.

Lemma lookedAt_more seen characters rest bits bits1 bits' :
  (Z.land bits1 nonASCIIBitMask = 0 <-> Z.land bits nonASCIIBitMask = 0 /\ forallb ascii seen = true) ->
  lookedAt characters rest bits1 bits' -> lookedAt (seen ++ characters) rest bits bits'.
Proof.
  intros H1 (seen' & -> & H2). exists (seen ++ seen'). rewrite app_assoc, forallb_app, andb_true_iff. split; [done|]. tauto.
Qed.

Lemma alignLoop_looks characters pointer bits :
  Forall byte characters ->
  exists pointer' rest bits', alignLoop pointer characters bits = (pointer', rest, bits') /\ lookedAt characters rest bits bits' /\
    pointer' + Z.of_nat (length rest) = pointer + Z.of_nat (length characters) /\ (rest = [] \/ pointer' mod 8 = 0).
Proof.
  intros Hc. revert pointer bits. induction Hc as [|c characters Hc _ IH]; intros pointer bits; cbn [alignLoop].
  - exists pointer, [], bits. auto using lookedAt_none.
  - rewrite aligned_mod. destruct (Z.eqb_spec (pointer mod 8) 0).
    + exists pointer, (c :: characters), bits. auto using lookedAt_none.
    + destruct (IH (pointer + 1) (Z.lor bits c)) as (pointer' & rest & bits' & -> & Hl & He & Ha).
      exists pointer', rest, bits'. split; [done|]. split; [|split; [cbn [length]; lia|done]].
      apply (lookedAt_more [c] characters rest bits (Z.lor bits c)); [|done]. rewrite bits_byte by done. cbn. by rewrite andb_true_r.
Qed.

Lemma wordLoop_looks fuel pointer wordEnd characters bits :
  Forall byte characters -> (length characters <= fuel)%nat -> characters = [] \/ pointer mod 8 = 0 ->
  wordEnd = (pointer + Z.of_nat (length characters)) / 8 * 8 ->
  exists rest bits', wordLoop fuel pointer wordEnd characters bits = Done (rest, bits') /\ lookedAt characters rest bits bits'.
Proof.
  revert pointer characters bits. induction fuel as [|fuel IH]; intros pointer characters bits Hc Hf Ha He; cbn [wordLoop];
    (destruct (Z.ltb_spec pointer wordEnd) as [Hlt|Hge]; [|exists characters, bits; auto using lookedAt_none]);
    (assert (8 <= length characters)%nat by (destruct Ha as [->|Ha]; cbn [length] in *; Z.div_mod_to_equations; lia)); [lia|].
  rewrite (proj2 (Nat.ltb_ge _ _)) by lia. destruct (IH (pointer + 8) (drop 8 characters) (Z.lor bits (wordOf (take 8 characters)))) as (rest & bits' & -> & Hl).
  - by apply Forall_drop.
  - rewrite length_drop. lia.
  - right. destruct Ha as [->|Ha]; [cbn in *; lia|]. Z.div_mod_to_equations; lia.
  - rewrite length_drop, He. do 2 f_equal. lia.
  - exists rest, bits'. split; [done|]. rewrite <- (take_drop 8 characters). eapply lookedAt_more; [|done].
    apply bits_word; [by apply Forall_take|]. rewrite length_take. lia.
Qed.

(** The words are within the text, and the answer is that for every byte. *)
Lemma charactersAreAllASCII_forall pointer characters :
  Forall byte characters -> charactersAreAllASCII pointer characters = Done (forallb ascii characters).
Proof.
  intros Hc. unfold charactersAreAllASCII.
  destruct (alignLoop_looks characters pointer 0 Hc) as (pointer' & rest & bits & -> & (seen & -> & H1) & He & Ha).
  apply Forall_app in Hc as [_ Hr].
  destruct (wordLoop_looks (length rest) pointer' (alignToMachineWord (pointer + Z.of_nat (length (seen ++ rest)))) rest bits)
    as (rest' & bits' & -> & (seen' & -> & H2)); [done|done|done|by rewrite align_div, He|].
  apply Forall_app in Hr as [_ Hr']. f_equal. apply Bool.eq_iff_eq_true. rewrite Z.eqb_eq, bits_bytes, H2, H1 by done.
  rewrite !forallb_app, !andb_true_iff, Z.land_0_l. tauto.
Qed.

(** ** Strings of code points *)

Lemma codePoints_units s : is_ustring s -> utf16s (codePoints s) = s /\ Forall (fun c => 0 <= c < 0x110000) (codePoints s).
Proof.
  remember (length s) as n eqn:Hn. revert s Hn. induction (lt_wf n) as [n _ IH]. intros s -> Hs.
  destruct s as [|c s1]; [done|]. apply Forall_cons in Hs as [Hc Hs1]. unfold is_unit in Hc.
  destruct (IH (length s1) ltac:(cbn; lia) s1 eq_refl Hs1) as [Hu Hf].
  assert (codePoints (c :: s1) = c :: codePoints s1 -> utf16s (codePoints (c :: s1)) = c :: s1 /\ Forall (fun c => 0 <= c < 0x110000) (codePoints (c :: s1))) as Hone.
  { intros ->. split; [|constructor; [lia|done]]. change (utf16s (c :: codePoints s1)) with (utf16 c ++ utf16s (codePoints s1)).
    rewrite Hu. unfold utf16. by rewrite (proj2 (Z.ltb_lt _ _)) by lia. }
  destruct s1 as [|c2 s2]; [by apply Hone|]. destruct (lead c && trail c2) eqn:E.
  - apply andb_prop in E as [E1 E2]. rewrite codePoints_pair by done. apply Forall_cons in Hs1 as [_ Hs2]. unfold lead, trail in *. zprop.
    destruct (IH (length s2) ltac:(cbn; lia) s2 eq_refl Hs2) as [Hu2 Hf2]. set (x := _ + _ + _). split; [|constructor; [lia|done]].
    change (utf16s (x :: codePoints s2)) with (utf16 x ++ utf16s (codePoints s2)). rewrite Hu2. unfold utf16.
    rewrite (proj2 (Z.ltb_ge _ _)) by lia. cbn [app]. f_equal; [|f_equal]; subst x; Z.div_mod_to_equations; lia.
  - apply Hone, codePoints_single. intros Hl. rewrite Hl in E. done.
Qed.

(** No surrogate stands alone. *)
Definition wellFormed (s : ustring) : Prop := existsb surrogate (codePoints s) = false.

Lemma wellFormed_scalars s : is_ustring s -> wellFormed s -> Forall scalar (codePoints s).
Proof.
  intros Hs Hw. destruct (codePoints_units s Hs) as [_ Hr]. unfold wellFormed in Hw. induction Hr as [|c cs Hc _ IH]; [done|].
  cbn in Hw. apply orb_false_elim in Hw as [H1 H2]. constructor; [|auto]. unfold surrogate in H1. unfold scalar. zprop. lia.
Qed.

Lemma forms_encodes cs : forms (map (fun c => (c, false)) cs) = encodes cs.
Proof. unfold forms, encodes. by rewrite map_map. Qed.

Lemma ascii_forms l : Forall byte l -> forallb ascii l = true -> forms (map (fun c => (c, false)) l) = l /\ utf16s l = l /\ Forall readable (map (fun c => (c, false)) l).
Proof.
  induction 1 as [|b l Hb _ IH]; [done|]. cbn. intros [Ha Hl]%andb_prop. destruct (IH Hl) as (H1 & H2 & H3). unfold ascii, byte in *. zprop.
  split; [|split; [|constructor; [left; cbn; lia|done]]].
  - unfold forms in *. cbn. rewrite H1. unfold form. cbn [fst snd]. by rewrite encode_one by lia.
  - unfold utf16s in *. cbn. rewrite H2. unfold utf16. by rewrite (proj2 (Z.ltb_lt _ _)) by lia.
Qed.

Lemma forms_ascii xs : forallb ascii (forms xs) = true -> Forall readable xs -> xs = map (fun c => (c, false)) (forms xs).
Proof.
  induction xs as [|[c irr] xs IH]; [done|]. change (forms ((c, irr) :: xs)) with (form (c, irr) ++ forms xs). rewrite forallb_app, map_app.
  intros [Ha Hl]%andb_prop [Hr Hx]%Forall_cons. rewrite <- IH by done. unfold form, readable, scalar, irregularValue in *. cbn [fst snd] in *.
  destruct irr; unfold irregular, encode in *; repeat case_match; cbn in Ha; unfold ascii in Ha; zprop; try (Z.div_mod_to_equations; lia); done.
Qed.

(** What [fromUTF8] reads. *)
Lemma fromUTF8_forms pointer xs :
  Forall readable xs -> Z.of_nat (length (forms xs)) <= 4294967295 -> Forall byte (forms xs) ->
  fromUTF8 pointer (forms xs) = Done (Some (utf16s (map fst xs))).
Proof.
  intros Hxs Hl Hb. unfold fromUTF8. rewrite (proj2 (Z.ltb_ge _ _)) by lia. destruct (Z.eqb_spec (Z.of_nat (length (forms xs))) 0) as [E|_].
  - destruct xs as [|x xs]; [done|]. change (forms (x :: xs)) with (form x ++ forms xs) in E. apply Forall_cons in Hxs as [Hx _].
    pose proof (form_room x Hx). rewrite length_app in E. lia.
  - rewrite charactersAreAllASCII_forall by done. destruct (forallb ascii (forms xs)) eqn:Ea.
    + destruct (ascii_forms (forms xs) Hb Ea) as (_ & Hu & _). rewrite (forms_ascii xs Ea Hxs) at 2. rewrite map_map. cbn. by rewrite map_id, Hu.
    + unfold convertUTF8ToUTF16. by destruct (convertUTF8Loop_reads xs (length (forms xs)) (Z.of_nat (length (forms xs))) 0) as (all & ->).
Qed.

Lemma form_bytes x : readable x -> Forall byte (form x).
Proof.
  destruct x as [c []]; unfold readable, irregularValue, scalar, form, irregular, encode; cbn [fst snd]; intros Hc; repeat case_match; zprop;
    repeat constructor; unfold byte; Z.div_mod_to_equations; lia.
Qed.

Lemma forms_bytes xs : Forall readable xs -> Forall byte (forms xs).
Proof. induction 1 as [|x xs Hx _ IH]; [constructor|]. apply Forall_app. split; [by apply form_bytes|done]. Qed.

Lemma encodes_length s : is_ustring s -> (length (encodes (codePoints s)) <= 3 * length s)%nat.
Proof.
  intros Hs. destruct (convertUTF16ToUTF8_stops false s (3 * Z.of_nat (length s)) Hs ltac:(lia)) as (result & rest & cs & _ & [H1 _ _ H4 _ H6]).
  rewrite H1, encodes_app, length_app. destruct result.
  - subst rest. cbn. lia.
  - destruct H6 as (c & -> & Hc%lead_surrogate%surrogate_range). cbn [codePoints]. rewrite encodes_cons, length_app, encode_length.
    pose proof (encodedLength_unit c ltac:(lia)). cbn in *. lia.
  - done.
  - by destruct H6.
Qed.

(** C23 [fromUTF8] accepts exactly the concatenations of two kinds of sequences, and
    returns the UTF-16 units of their code points: the encodings of the Unicode scalar
    values, and sequences that are not UTF-8, those that start with ED or F4 and go on
    with a byte below 80 where one from 80 on is due.  For everything else it returns the
    null string; it reads and writes within its buffers. *)
Theorem fromUTF8_accepts pointer string :
  Forall byte string -> Z.of_nat (length string) <= 4294967295 ->
  exists result, fromUTF8 pointer string = Done result /\
    forall s, result = Some s <-> exists xs, Forall readable xs /\ string = forms xs /\ s = utf16s (map fst xs).
Proof.
  intros Hb Hl. destruct (fromUTF8 pointer string) as [result|] eqn:E.
  - exists result. split; [done|]. intros s. split.
    + intros ->. assert (exists xs, Forall readable xs /\ string = forms xs) as (xs & Hxs & ->).
      { unfold fromUTF8, convertUTF8ToUTF16 in E. rewrite charactersAreAllASCII_forall, (proj2 (Z.ltb_ge _ _)) in E by (done || lia).
        destruct (Z.of_nat (length string) =? 0) eqn:El; [zprop; destruct string; [by exists []|cbn in El; lia]|].
        destruct (forallb ascii string) eqn:Ea; [destruct (ascii_forms string Hb Ea) as (Hf & _ & Hr); eauto|].
        destruct (convertUTF8Loop _ _ _ _ _) as [[[[] rest] target] all] eqn:Ec; try done. eapply convertUTF8Loop_sound; [done|apply Z.le_refl|exact Ec]. }
      exists xs. split; [done|]. split; [done|]. rewrite fromUTF8_forms in E by done. by injection E.
    + intros (xs & Hxs & -> & ->). rewrite fromUTF8_forms in E by done. by injection E.
  - unfold fromUTF8 in E. rewrite charactersAreAllASCII_forall in E by done. repeat case_match; try done. zprop. lia.
Qed.

(** The text U+20AC and the bytes ED 41 80, which are not UTF-8. *)
Lemma fromUTF8_accepts_witness : exists result, fromUTF8 3 [0xE2; 0x82; 0xAC; 0xED; 0x41; 0x80] = Done result /\ result = Some [0x20AC; 0xC040].
Proof.
  destruct (fromUTF8_accepts 3 [0xE2; 0x82; 0xAC; 0xED; 0x41; 0x80]) as (result & Hr & Hs); [by repeat constructor|done|].
  exists result. split; [exact Hr|]. apply Hs. exists [(0x20AC, false); (0xC040, true)]. split; [|done].
  repeat constructor; cbn; lia.
Defined.

(** C25 A string converted to UTF-8 in any mode: the leniently converted text encodes
    every code point, also unpaired surrogates; the strict one is null if there are any; the
    replacing one encodes U+FFFD for them.  The buffer of three bytes for each unit is
    enough, in 8-bit and in 16-bit strings. *)
Theorem utf8_encodes mode s :
  wfString s -> Z.of_nat (length (characters s)) <= 1431655765 -> utf8 mode s = Done (specUTF8 mode (characters s)).
Proof. intros Hs Hl. by apply utf8_meets_spec. Qed.

(** A pair of surrogates and an unpaired one. *)
Lemma utf8_encodes_witness :
  utf8 StrictUTF8ConversionReplacingUnpairedSurrogatesWithFFFD (mkStringImpl false [0xD83D; 0xDE00; 0xD800; 0x41] 0) =
    Done (Some [0xF0; 0x9F; 0x98; 0x80; 0xEF; 0xBF; 0xBD; 0x41]).
Proof.
  apply (utf8_encodes StrictUTF8ConversionReplacingUnpairedSurrogatesWithFFFD (mkStringImpl false [0xD83D; 0xDE00; 0xD800; 0x41] 0)); [|done].
  split; [|done]. by repeat constructor.
Defined.

(** C24 A string without unpaired surrogates, in either representation, converted to
    UTF-8 in any mode and read back is the string. *)
Theorem utf8_roundtrip mode s pointer :
  wfString s -> wellFormed (characters s) -> Z.of_nat (length (characters s)) <= 1431655765 ->
  exists b, utf8 mode s = Done (Some b) /\ fromUTF8 pointer b = Done (Some (characters s)).
Proof.
  intros Hs Hw Hl. exists (encodes (codePoints (characters s))). pose proof (proj1 Hs) as Hu. pose proof (wellFormed_scalars _ Hu Hw) as Hsc. split.
  - rewrite utf8_meets_spec by done. unfold wellFormed in Hw. unfold specUTF8. rewrite Hw. destruct mode; try done.
    rewrite replace_none; [done|]. apply Forall_forall. intros c Hc. destruct (surrogate c) eqn:Ec; [|done].
    rewrite <- Hw. symmetry. apply existsb_exists. exists c. by rewrite <- list_elem_of_In.
  - pose proof (encodes_length _ Hu). assert (Forall readable (map (fun c => (c, false)) (codePoints (characters s)))) as Hr by (by apply Forall_map).
    rewrite <- forms_encodes, fromUTF8_forms; [|done|rewrite forms_encodes; lia|by apply forms_bytes].
    rewrite map_map. cbn. rewrite map_id. by rewrite (proj1 (codePoints_units _ Hu)).
Qed.

Lemma utf8_roundtrip_witness :
  exists b, utf8 LenientUTF8Conversion (mkStringImpl false [0x41; 0x20AC; 0xD83D; 0xDE00] 0) = Done (Some b) /\
    fromUTF8 5 b = Done (Some [0x41; 0x20AC; 0xD83D; 0xDE00]).
Proof.
  apply (utf8_roundtrip LenientUTF8Conversion (mkStringImpl false [0x41; 0x20AC; 0xD83D; 0xDE00] 0) 5); [split; [|done]|done|done].
  by repeat constructor.
Defined.
