(* ===== verification/StringBuilders.v ===== *)
(** * Building strings

    [wtf/text/StringBuilder.h] and [StringBuilder.cpp].  A builder appends to a buffer
    that is itself a [StringImpl], and gives it away as the string when asked for it; who
    refers to a buffer decides whether it may still be written to.  So strings are cells
    of a memory here, with the references that the builder and its clients have. *)

From S2P Require Import Prelude WTFString UTF8.

(** ** Memory *)

(** A [StringImpl].  Characters that were not written yet are [None]. *)
Record StringCell := mkCell {
  c_is8Bit : bool;
  c_characters : list (option Z);
}.

Definition c_length (c : StringCell) : Z := Z.of_nat (length (c_characters c)).

(** [m_bufferCharacters] is the union of the pointers to the characters of the buffer; a
    pointer is the address of the cell that it points into, null is [None]. *)
Record Builder := mkBuilder {
  m_string : option nat;
  m_buffer : option nat;
  m_bufferCharacters : option nat;
  m_length : Z;
  m_is8Bit : bool;
}.

(** [held]: the references that are not the builder's; a dropped one is [None]. *)
Record BuilderWorld := mkBuilderWorld {
  builder : Builder;
  cells : gmap nat StringCell;
  nextCell : nat;
  held : list (option nat);
}.

#[export] Instance Builder_fields : Fields Builder := fun b =>
  mkBuilder (m_string b) (m_buffer b) (m_bufferCharacters b) (m_length b) (m_is8Bit b).
#[export] Instance BuilderWorld_fields : Fields BuilderWorld := fun w => mkBuilderWorld (builder w) (cells w) (nextCell w) (held w).

Abbreviation Building := (M BuilderWorld).

(** [StringImpl::empty()], which its own static variable refers to. *)
Definition emptyString : nat := 0.

Definition references (a : nat) (w : BuilderWorld) : nat :=
  ((if decide (m_string (builder w) = Some a) then 1 else 0) + (if decide (m_buffer (builder w) = Some a) then 1 else 0) +
   length (filter (fun h => h = Some a) (held w)) + (if decide (a = emptyString) then 1 else 0))%nat.

Module StringBuilder.

Definition newBuilder : Builder := mkBuilder None None None 0 true.

Definition new : BuilderWorld := mkBuilderWorld newBuilder {[ emptyString := mkCell true [] ]} 1 [].

Definition setBuilder (f : Builder -> Builder) : Building unit := modify (fun w => w <| builder := f (builder w) |>).

Definition get {A} (f : Builder -> A) : Building A := gets (fun w => f (builder w)).

Definition hasOneRef (a : nat) : Building bool := gets (fun w => bool_decide (references a w = 1%nat)).

(** A cell that nothing refers to is freed. *)
Definition cell (a : nat) : Building StringCell := fun w =>
  match cells w !! a with
  | Some c => if decide (references a w = 0%nat) then Crash else Done (c, w)
  | None => Crash
  end.

Definition isNull (p : option nat) : bool := match p with None => true | Some _ => false end.

(** What a null pointer would be dereferenced for. *)
Definition nonNull (p : option nat) : Building nat := match p with Some a => mret a | None => crash end.

(** *** What is used of [StringImpl] *)

(** [allocationSize], with the twelve bytes of the object itself. *)
Definition allocationFits (is8 : bool) (length : Z) : bool := length <=? (4294967295 - 12) / (if is8 then 1 else 2).

(** [createUninitialized], whose first characters are then copied from [characters]. *)
Definition createFrom (is8 : bool) (characters : list (option Z)) (len : Z) : Building (nat * option nat) :=
  if len <? Z.of_nat (length characters) then crash
  else if len =? 0 then mret (emptyString, None)
  else if negb (allocationFits is8 len) then crash
  else
    a ← gets nextCell;
    modify (fun w =>
      w <| cells := <[a := mkCell is8 (characters ++ replicate (Z.to_nat len - length characters) None)]> (cells w) |>
        <| nextCell := S a |>);;
    mret (a, Some a).

(** The moved characters have a new address. *)
Definition reallocate (a : nat) (len : Z) : Building nat :=
  if len =? 0 then mret emptyString
  else
    c ← cell a;
    p ← createFrom (c_is8Bit c) (take (Z.to_nat len) (c_characters c)) len;
    mret p.1.

Definition substringImpl (a : nat) (start len : Z) : Building nat :=
  c ← cell a;
  if c_length c <=? start then mret emptyString
  else
    let maxLength := c_length c - start in
    if (maxLength <=? len) && (start =? 0) then mret a
    else
      let len := if maxLength <=? len then maxLength else len in
      p ← createFrom (c_is8Bit c) (take (Z.to_nat len) (drop (Z.to_nat start) (c_characters c))) len;
      mret p.1.

(** Reads characters of 8 or of 16 bits. *)
Definition read (is8 : bool) (p : option nat) (len : Z) : Building (list (option Z)) :=
  if len =? 0 then mret []
  else
    a ← nonNull p;
    c ← cell a;
    if Bool.eqb (c_is8Bit c) is8 && (len <=? c_length c) then mret (take (Z.to_nat len) (c_characters c)) else crash.

(** Writes through [m_bufferCharacters8] or [m_bufferCharacters16]. *)
Definition write (is8 : bool) (index : Z) (characters : list Z) : Building unit :=
  p ← get m_bufferCharacters;
  a ← nonNull p;
  c ← cell a;
  if Bool.eqb (c_is8Bit c) is8 && (index + Z.of_nat (length characters) <=? c_length c)
  then
    let i := Z.to_nat index in
    let written := take i (c_characters c) ++ map Some characters ++ drop (i + length characters) (c_characters c) in
    modify (fun w => w <| cells := <[a := mkCell is8 written]> (cells w) |>)
  else crash.

(** *** Buffers *)

Definition expandedCapacity (capacity requiredLength : Z) : Z :=
  Z.max requiredLength (Z.max 16 (wrapU 32 (capacity * 2))).

Definition capacity : Building Z :=
  buffer ← get m_buffer;
  match buffer with
  | Some b => c ← cell b; mret (c_length c)
  | None => get m_length
  end.

Definition allocateBuffer (is8 : bool) (currentCharacters : option nat) (requiredLength : Z) : Building unit :=
  len ← get m_length;
  characters ← read is8 currentCharacters len;
  p ← createFrom is8 characters requiredLength;
  setBuilder (fun b => b <| m_bufferCharacters := p.2 |> <| m_buffer := Some p.1 |> <| m_string := None |>).

Definition allocateBufferUpConvert (currentCharacters : option nat) (requiredLength : Z) : Building unit :=
  len ← get m_length;
  characters ← read true currentCharacters len;
  p ← createFrom false characters requiredLength;
  setBuilder (fun b => b <| m_bufferCharacters := p.2 |> <| m_is8Bit := false |> <| m_buffer := Some p.1 |> <| m_string := None |>).

(** For [LChar] and for [UChar]. *)
Definition reallocateBuffer (is8 : bool) (requiredLength : Z) : Building unit :=
  setBuilder (fun b => b <| m_string := None |>);;
  buffer ← get m_buffer;
  a ← nonNull buffer;
  c ← cell a;
  one ← hasOneRef a;
  if negb is8 && c_is8Bit c then allocateBufferUpConvert (Some a) requiredLength
  else if one : bool then
    a' ← reallocate a requiredLength;
    setBuilder (fun b => b <| m_buffer := Some a' |> <| m_bufferCharacters := Some a' |>)
  else allocateBuffer is8 (Some a) requiredLength.

Definition reserveCapacity (newCapacity : Z) : Building unit :=
  buffer ← get m_buffer;
  len ← get m_length;
  match buffer with
  | Some b =>
      c ← cell b;
      when (c_length c <? newCapacity) (reallocateBuffer (c_is8Bit c) newCapacity)
  | None =>
      when (len <? newCapacity)
        (if len =? 0 then allocateBuffer true None newCapacity
         else
           string ← get m_string;
           s ← nonNull string;
           c ← cell s;
           allocateBuffer (c_is8Bit c) (Some s) newCapacity)
  end.

(** *** Appending *)

(** The index of the new room. *)
Definition appendUninitializedSlow (is8 : bool) (requiredLength : Z) : Building Z :=
  buffer ← get m_buffer;
  len ← get m_length;
  cap ← capacity;
  match buffer with
  | Some _ => reallocateBuffer is8 (expandedCapacity cap requiredLength)
  | None =>
      string ← get m_string;
      allocateBuffer is8 (if len =? 0 then None else string) (expandedCapacity cap requiredLength)
  end;;
  setBuilder (fun b => b <| m_length := requiredLength |>);;
  mret len.

Definition appendUninitialized (is8 : bool) (length : Z) : Building Z :=
  len ← get m_length;
  let requiredLength := wrapU 32 (length + len) in
  if requiredLength <? length then crash
  else
    buffer ← get m_buffer;
    room ← match buffer with Some b => c ← cell b; mret (requiredLength <=? c_length c) | None => mret false end;
    if room : bool then
      setBuilder (fun b => b <| m_string := None |> <| m_length := requiredLength |>);;
      mret len
    else appendUninitializedSlow is8 requiredLength.

(** [append(const LChar*, unsigned)], and of literals. *)
Definition append8 (characters : list Z) : Building unit :=
  match characters with
  | [] => mret tt
  | _ =>
      is8 ← get m_is8Bit;
      dest ← appendUninitialized is8 (Z.of_nat (length characters));
      write is8 dest characters
  end.

(** [append(const UChar*, unsigned)]. *)
Definition append16 (characters : list Z) : Building unit :=
  match characters with
  | [] => mret tt
  | c :: rest =>
      is8 ← get m_is8Bit;
      if is8 : bool then
        if match rest with [] => Z.land c (Z.lnot 0xff) =? 0 | _ => false end then append8 [c]
        else
          let n := Z.of_nat (length characters) in
          len ← get m_length;
          let requiredLength := wrapU 32 (n + len) in
          if requiredLength <? n then crash
          else
            cap ← capacity;
            buffer ← get m_buffer;
            string ← get m_string;
            allocateBufferUpConvert (if isNull buffer then string else buffer) (expandedCapacity cap requiredLength);;
            write false len characters;;
            setBuilder (fun b => b <| m_length := requiredLength |>)
      else
        dest ← appendUninitialized false (Z.of_nat (length characters));
        write false dest characters
  end.

(** Whether the buffer has room for a character. *)
Definition hasRoom : Building bool :=
  buffer ← get m_buffer;
  string ← get m_string;
  len ← get m_length;
  match buffer with
  | Some b => c ← cell b; mret ((len <? c_length c) && isNull string)
  | None => mret false
  end.

Definition push (is8 : bool) (c : Z) : Building unit :=
  len ← get m_length;
  write is8 len [c];;
  setBuilder (fun b => b <| m_length := wrapU 32 (len + 1) |>).

(** [append(UChar)]. *)
Definition appendUChar (c : Z) : Building unit :=
  room ← hasRoom;
  is8 ← get m_is8Bit;
  if (room : bool) && negb is8 then push false c
  else if room && (Z.land c (Z.lnot 0xff) =? 0) then push true c
  else append16 [c].

(** [append(LChar)] and [append(char)]. *)
Definition appendLChar (c : Z) : Building unit :=
  room ← hasRoom;
  is8 ← get m_is8Bit;
  if (room : bool) then push is8 c else append8 [c].

(** [append(UChar32)]. *)
Definition appendUChar32 (c : Z) : Building unit :=
  if U_IS_BMP c then appendUChar (wrapU 16 c)
  else appendUChar (U16_LEAD c);; appendUChar (U16_TRAIL c).

(** The characters of a string that is initialized. *)
Definition charactersOf (c : StringCell) : list Z := map (default 0) (c_characters c).

(** [append(const String&)]; a null string has no characters. *)
Definition appendString (string : option nat) : Building unit :=
  match string with
  | None => mret tt
  | Some s =>
      c ← cell s;
      len ← get m_length;
      buffer ← get m_buffer;
      if c_length c =? 0 then mret tt
      else if (len =? 0) && isNull buffer
      then setBuilder (fun b => b <| m_string := Some s |> <| m_length := c_length c |> <| m_is8Bit := c_is8Bit c |>)
      else if c_is8Bit c then append8 (charactersOf c) else append16 (charactersOf c)
  end.

(** [append(const String&, unsigned, unsigned)]. *)
Definition appendRange (string : option nat) (offset length : Z) : Building unit :=
  match string with
  | None => mret tt
  | Some s =>
      c ← cell s;
      let extent := wrapU 32 (offset + length) in
      let part := take (Z.to_nat length) (drop (Z.to_nat offset) (charactersOf c)) in
      if c_length c =? 0 then mret tt
      else if (extent <? offset) || (c_length c <? extent) then mret tt
      else if c_is8Bit c then append8 part else append16 part
  end.

(** [append(const StringBuilder&)]; the other builder's references are in [held]. *)
Definition appendBuilder (other : Builder) : Building unit :=
  len ← get m_length;
  buffer ← get m_buffer;
  if m_length other =? 0 then mret tt
  else if (len =? 0) && isNull buffer && negb (isNull (m_string other))
  then setBuilder (fun b => b <| m_string := m_string other |> <| m_length := m_length other |>)
  else
    let source := if isNull (m_string other) then m_buffer other else m_string other in
    characters ← read (m_is8Bit other) source (m_length other);
    let characters := map (default 0) characters in
    if m_is8Bit other then append8 characters else append16 characters.

(** [appendNumber] of an integer. *)
Definition appendNumber (number : Z) : Building unit := append8 (String_number number).

Definition NumberToStringBufferLength : Z := 96.

(** [appendNumber] of a double: [result] is what [numberToFixedPrecisionString] wrote. *)
Definition appendDouble (result : list Z) : Building unit :=
  is8 ← get m_is8Bit;
  dest ← appendUninitialized is8 NumberToStringBufferLength;
  write is8 dest result;;
  setBuilder (fun b =>
    b <| m_length := wrapU 32 (wrapU 32 (m_length b - NumberToStringBufferLength) + Z.of_nat (length result)) |>).

(** *** Shortening *)

Definition resize (newSize : Z) : Building unit :=
  len ← get m_length;
  if newSize =? len then mret tt
  else
    buffer ← get m_buffer;
    match buffer with
    | Some b =>
        setBuilder (fun b => b <| m_string := None |>);;
        one ← hasOneRef b;
        c ← cell b;
        when (negb one) (allocateBuffer (c_is8Bit c) (Some b) (c_length c));;
        setBuilder (fun b => b <| m_length := newSize |>)
    | None =>
        string ← get m_string;
        s ← nonNull string;
        one ← hasOneRef s;
        a ← (if one : bool then mret s else substringImpl s 0 newSize);
        setBuilder (fun b => b <| m_length := newSize |> <| m_string := None |> <| m_buffer := Some a |>)
    end.

Definition clear : Building unit := setBuilder (fun _ => newBuilder).

Definition canShrink : Building bool :=
  buffer ← get m_buffer;
  len ← get m_length;
  match buffer with
  | Some b => c ← cell b; mret (wrapU 32 (len + Z.shiftr len 2) <? c_length c)
  | None => mret false
  end.

Definition shrinkToFit : Building unit :=
  can ← canShrink;
  is8 ← get m_is8Bit;
  len ← get m_length;
  when can
    (reallocateBuffer is8 len;;
     setBuilder (fun b => b <| m_string := m_buffer b |> <| m_buffer := None |>)).

(** *** The string *)

Definition reifyString : Building unit :=
  string ← get m_string;
  len ← get m_length;
  if negb (isNull string) then mret tt
  else if len =? 0 then setBuilder (fun b => b <| m_string := Some emptyString |>)
  else
    buffer ← get m_buffer;
    a ← nonNull buffer;
    c ← cell a;
    one ← hasOneRef a;
    if len =? c_length c then setBuilder (fun b => b <| m_string := Some a |> <| m_buffer := None |>)
    else if one : bool then
      modify (fun w => w <| cells := <[a := mkCell (c_is8Bit c) (take (Z.to_nat len) (c_characters c))]> (cells w) |>);;
      setBuilder (fun b => b <| m_string := Some a |> <| m_buffer := None |>)
    else
      s ← substringImpl a 0 len;
      setBuilder (fun b => b <| m_string := Some s |>).

(** A new reference to a string, for a client. *)
Definition hold (a : nat) : Building unit := modify (fun w => w <| held := held w ++ [Some a] |>).

Definition toString : Building unit :=
  shrinkToFit;;
  string ← get m_string;
  when (isNull string) reifyString;;
  string ← get m_string;
  s ← nonNull string;
  hold s.

Definition substring (position length : Z) : Building unit :=
  len ← get m_length;
  string ← get m_string;
  if len =? 0 then hold emptyString
  else
    match string with
    | Some s => a ← substringImpl s position length; hold a
    | None =>
        buffer ← get m_buffer;
        b ← nonNull buffer;
        a ← substringImpl b position (Z.min length (wrapU 32 (len - position)));
        hold a
    end.

(** [operator[]]. *)
Definition at_ (i : Z) : Building (option Z) :=
  is8 ← get m_is8Bit;
  string ← get m_string;
  buffer ← get m_buffer;
  characters ← read is8 (if isNull string then buffer else string) (i + 1);
  mret (mjoin (characters !! Z.to_nat i)).

(** *** Clients *)

(** A string of a client, and a client that lets go of a string. *)
Definition newString (is8 : bool) (characters : list Z) : Building unit :=
  p ← createFrom is8 (map Some characters) (Z.of_nat (length characters));
  hold p.1.

Definition dropString (i : nat) : Building unit := modify (fun w => w <| held := <[i := None]> (held w) |>).

End StringBuilder.
