(* ===== verification/StringBuilderFacts.v ===== *)
(** * Invariants of a builder

    What the fields of a builder mean: the text is in the string or at the start of the
    buffer, and a buffer with room is the builder's alone. *)

From S2P Require Import Prelude WTFString UTF8 StringBuilders.

(** ** Bounds *)

(** Lengths of texts, of buffers of 8-bit characters, and of others. *)
Definition maxText : Z := 2 ^ 28.
Definition maxCapacity (is8 : bool) : Z := if is8 then 2 ^ 29 else 2 ^ 30.

(** ** Memory *)

Definition latin1 (text : ustring) : Prop := Forall (fun c => 0 <= c < 256) text.

(** A complete string. *)
Definition stringAt (w : BuilderWorld) (a : nat) (is8 : bool) (text : ustring) : Prop :=
  cells w !! a = Some (mkCell is8 (map Some text)) /\ (if is8 then latin1 text else is_ustring text) /\ Z.of_nat (length text) <= maxText.

Definition heldText (w : BuilderWorld) (h : option nat) (t : option ustring) : Prop :=
  match h, t with
  | Some a, Some text => exists is8, stringAt w a is8 text
  | None, None => True
  | _, _ => False
  end.

Record memoryOk (w : BuilderWorld) (texts : list (option ustring)) : Prop := {
  memory_fresh : forall a, (nextCell w <= a)%nat -> cells w !! a = None;
  memory_empty : cells w !! emptyString = Some (mkCell true []);
  memory_held : Forall2 (heldText w) (held w) texts;
}.

(** Nobody but the buffer refers to the cell. *)
Definition sole (a : nat) (w : BuilderWorld) : Prop :=
  m_string (builder w) <> Some a /\ (Some a ∉ held w) /\ a <> emptyString.

Record bufferOf (w : BuilderWorld) (text : ustring) (a : nat) (c : StringCell) (rest : list (option Z)) : Prop := {
  buffer_cell : cells w !! a = Some c;
  buffer_text : c_characters c = map Some text ++ rest;
  buffer_room : rest <> [] -> sole a w /\ m_string (builder w) = None /\ m_bufferCharacters (builder w) = Some a;
  buffer_width : c_is8Bit c = m_is8Bit (builder w) \/ c = mkCell true [];
  buffer_capacity : c_length c <= maxCapacity (c_is8Bit c);
}.

Record builderOk (w : BuilderWorld) (text : ustring) (texts : list (option ustring)) : Prop := {
  ok_memory : memoryOk w texts;
  ok_length : m_length (builder w) = Z.of_nat (length text);
  ok_bound : Z.of_nat (length text) <= maxText;
  ok_units : if m_is8Bit (builder w) then latin1 text else is_ustring text;
  ok_string : forall a, m_string (builder w) = Some a ->
    exists is8, cells w !! a = Some (mkCell is8 (map Some text)) /\ (text = [] \/ is8 = m_is8Bit (builder w));
  ok_buffer : forall a, m_buffer (builder w) = Some a -> exists c rest, bufferOf w text a c rest;
  ok_somewhere : m_string (builder w) = None -> m_buffer (builder w) = None -> text = [];
}.

(** A buffer with room for [n] characters after the text. *)
Record openFor (w : BuilderWorld) (is8 : bool) (text : ustring) (n : nat) (texts : list (option ustring)) : Prop := {
  open_memory : memoryOk w texts;
  open_string : m_string (builder w) = None;
  open_width : m_is8Bit (builder w) = is8;
  open_buffer : exists a rest, m_buffer (builder w) = Some a /\ m_bufferCharacters (builder w) = Some a /\ sole a w /\
    cells w !! a = Some (mkCell is8 (map Some text ++ rest)) /\ (n <= length rest)%nat /\
    Z.of_nat (length text + length rest) <= maxCapacity is8;
}.

(** ** References *)

Lemma held_count a (l : list (option nat)) : length (filter (fun h => h = Some a) l) = 0%nat <-> Some a ∉ l.
Proof.
  rewrite length_zero_iff_nil. split.
  - intros He Hin. assert (Some a ∈ filter (fun h => h = Some a) l) as Hf by (by apply list_elem_of_filter). rewrite He in Hf. by apply not_elem_of_nil in Hf.
  - intros Hn. destruct (filter _ l) as [|h l'] eqn:E; [done|]. assert (h ∈ filter (fun h => h = Some a) l) as [-> Hin]%list_elem_of_filter by (rewrite E; left).
    done.
Qed.

Lemma references_sole a w : m_buffer (builder w) = Some a -> (references a w = 1%nat <-> sole a w).
Proof.
  intros Hb. unfold references, sole. rewrite Hb, <- held_count. rewrite (decide_True (P := Some a = Some a)) by done.
  destruct (decide (m_string _ = _)), (decide (a = emptyString)); split; intros; split_and?; try lia; tauto.
Qed.

Lemma references_buffer a w : m_buffer (builder w) = Some a -> references a w <> 0%nat.
Proof. intros Hb. unfold references. rewrite Hb, (decide_True (P := Some a = Some a)) by done. lia. Qed.

Lemma references_string a w : m_string (builder w) = Some a -> references a w <> 0%nat.
Proof. intros Hb. unfold references. rewrite Hb, (decide_True (P := Some a = Some a)) by done. lia. Qed.

Lemma references_held a w : Some a ∈ held w -> references a w <> 0%nat.
Proof. intros Hin Hr. apply (held_count a (held w)); [unfold references in Hr; lia|done]. Qed.

(** ** Rules *)

Lemma wp_cell a c w (Q : StringCell -> BuilderWorld -> Prop) :
  cells w !! a = Some c -> references a w <> 0%nat -> Q c w -> wp (StringBuilder.cell a) Q w.
Proof. intros Hc Hr HQ. unfold wp, StringBuilder.cell. by rewrite Hc, decide_False. Qed.

Lemma wp_get {A} (f : Builder -> A) w Q : Q (f (builder w)) w -> wp (StringBuilder.get f) Q w.
Proof. done. Qed.

Lemma wp_set f w (Q : unit -> BuilderWorld -> Prop) : Q tt (w <| builder := f (builder w) |>) -> wp (StringBuilder.setBuilder f) Q w.
Proof. done. Qed.

Lemma wp_read is8 a c len w Q :
  cells w !! a = Some c -> references a w <> 0%nat -> c_is8Bit c = is8 -> len <= c_length c ->
  Q (take (Z.to_nat len) (c_characters c)) w -> wp (StringBuilder.read is8 (Some a) len) Q w.
Proof.
  intros Hc Hr Hi Hl HQ. unfold StringBuilder.read. destruct (Z.eqb_spec len 0) as [->|]; [done|]. apply wp_bind, wp_ret, wp_bind.
  apply (wp_cell a c); try done. rewrite Hi, eqb_reflx, (proj2 (Z.leb_le _ _)) by done. done.
Qed.

(** Cells that are not given to anyone else. *)
Lemma heldText_insert w a c f h t :
  Some a <> h -> heldText w h t -> heldText (w <| cells := <[a := c]> (cells w) |> <| nextCell := f |>) h t.
Proof.
  destruct h as [b|], t as [text|]; try done. intros Hn (is8 & H1 & H2). exists is8. split; [|done]. cbn.
  rewrite lookup_insert_ne by congruence. done.
Qed.

Lemma memory_builder w texts b : memoryOk w texts -> memoryOk (w <| builder := b |>) texts.
Proof. by intros [H1 H2 H3]. Qed.

Lemma memory_change w texts a c f :
  memoryOk w texts -> Some a ∉ held w -> a <> emptyString -> (a < f)%nat -> (nextCell w <= f)%nat ->
  memoryOk (w <| cells := <[a := c]> (cells w) |> <| nextCell := f |>) texts.
Proof.
  intros [H1 H2 H3] Hn He Hlt Hf. split; cbn.
  - intros a' Ha'. rewrite lookup_insert_ne by lia. apply H1. lia.
  - by rewrite lookup_insert_ne.
  - apply Forall2_same_length_lookup in H3 as [Hl H3]. apply Forall2_same_length_lookup. split; [done|]. intros i h t Hh Ht.
    apply heldText_insert; [|by apply (H3 i)]. intros <-. by apply Hn, (list_elem_of_lookup_2 _ i).
Qed.

Lemma fresh_unheld w texts a : memoryOk w texts -> (nextCell w <= a)%nat -> Some a ∉ held w.
Proof.
  intros [H1 _ H3] Ha [i Hi]%list_elem_of_lookup. destruct (Forall2_lookup_l _ _ _ _ _ H3 Hi) as ([text|] & _ & Ht); [|done].
  destruct Ht as (is8 & Hc & _). by rewrite H1 in Hc.
Qed.

Lemma fresh_not_empty w texts : memoryOk w texts -> (emptyString < nextCell w)%nat.
Proof. intros [H1 H2 _]. destruct (le_lt_dec (nextCell w) emptyString) as [Hl|]; [by rewrite H1 in H2|done]. Qed.

Lemma cell_old w texts a c : memoryOk w texts -> cells w !! a = Some c -> (a < nextCell w)%nat.
Proof. intros [H1 _ _] Hc. destruct (le_lt_dec (nextCell w) a) as [Hl|]; [by rewrite H1 in Hc|done]. Qed.

Lemma wp_createFrom is8 characters len w (Q : nat * option nat -> BuilderWorld -> Prop) :
  0 < len -> Z.of_nat (length characters) <= len -> len <= maxCapacity is8 ->
  Q (nextCell w, Some (nextCell w))
    (w <| cells := <[nextCell w := mkCell is8 (characters ++ replicate (Z.to_nat len - length characters) None)]> (cells w) |>
       <| nextCell := S (nextCell w) |>) ->
  wp (StringBuilder.createFrom is8 characters len) Q w.
Proof.
  intros H0 Hl Hm HQ. unfold StringBuilder.createFrom. rewrite (proj2 (Z.ltb_ge _ _)), (proj2 (Z.eqb_neq _ _)) by lia.
  assert (StringBuilder.allocationFits is8 len = true) as ->; [|by apply wp_bind, wp_gets, wp_bind, wp_modify].
  apply Z.leb_le. unfold maxCapacity in Hm. destruct is8; [change (_ / 1) with 4294967283|change (_ / 2) with 2147483641]; lia.
Qed.

(** ** Buffers *)

(** Where the text can be copied from. *)
Definition sourceOf (w : BuilderWorld) (is8 : bool) (text : ustring) (p : option nat) : Prop :=
  text = [] \/ exists a c rest, p = Some a /\ cells w !! a = Some c /\ references a w <> 0%nat /\ c_is8Bit c = is8 /\
    c_characters c = map Some text ++ rest.

Lemma wp_read_text w is8 text p Q :
  sourceOf w is8 text p -> Q (map Some text) w -> wp (StringBuilder.read is8 p (Z.of_nat (length text))) Q w.
Proof.
  intros [->|(a & c & rest & -> & Hc & Hr & Hi & Ht)] HQ; [done|]. apply (wp_read is8 a c); try done.
  - unfold c_length. rewrite Ht, length_app, length_map. lia.
  - rewrite Nat2Z.id, Ht, take_app_length' by (by rewrite length_map). done.
Qed.

Definition capacityIs (w : BuilderWorld) (len : Z) : Prop :=
  exists a c, m_buffer (builder w) = Some a /\ cells w !! a = Some c /\ c_length c = len.

(** What a new buffer gives. *)
Definition opened (w : BuilderWorld) (is8 : bool) (text : ustring) (n : nat) (texts : list (option ustring)) (len : Z) (w' : BuilderWorld) : Prop :=
  openFor w' is8 text n texts /\ m_length (builder w') = m_length (builder w) /\ capacityIs w' len.

(** A new buffer with the text. *)
Lemma created_open w is8 text rest n texts b :
  memoryOk w texts -> m_string b = None -> m_is8Bit b = is8 -> m_buffer b = Some (nextCell w) -> m_bufferCharacters b = Some (nextCell w) ->
  (n <= length rest)%nat -> Z.of_nat (length text + length rest) <= maxCapacity is8 ->
  openFor (w <| cells := <[nextCell w := mkCell is8 (map Some text ++ rest)]> (cells w) |>
             <| nextCell := S (nextCell w) |> <| builder := b |>) is8 text n texts.
Proof.
  intros Hm Hs Hi Hb Hp Hn Hl. pose proof (fresh_unheld w texts (nextCell w) Hm ltac:(lia)) as Hu. pose proof (fresh_not_empty w texts Hm) as He.
  split; try done.
  - apply memory_builder, memory_change; try done; lia.
  - exists (nextCell w), rest. split; [done|]. split; [done|]. split; [split; cbn; [by rewrite Hs|split; [done|lia]]|]. cbn.
    rewrite lookup_insert_eq. done.
Qed.

Lemma allocateBuffer_opens w is8 text p len n texts :
  memoryOk w texts -> m_length (builder w) = Z.of_nat (length text) -> m_is8Bit (builder w) = is8 -> sourceOf w is8 text p ->
  0 < len -> Z.of_nat (length text + n) <= len -> len <= maxCapacity is8 ->
  wp (StringBuilder.allocateBuffer is8 p len) (fun _ w' => opened w is8 text n texts len w') w.
Proof.
  intros Hm Hl Hi Hs H0 Hn Hc. unfold StringBuilder.allocateBuffer. apply wp_bind, wp_get, wp_bind. rewrite Hl. apply wp_read_text; [done|].
  apply wp_bind, wp_createFrom; [done|rewrite length_map; lia|done|]. apply wp_set. split; [|split; [done|]].
  - apply created_open; rewrite ?length_replicate, ?length_map; try done; lia.
  - eexists _, _. split; [done|]. split; [apply lookup_insert_eq|]. unfold c_length. cbn. rewrite length_app, length_replicate, length_map. lia.
Qed.

Lemma allocateBufferUpConvert_opens w text p len n texts :
  memoryOk w texts -> m_length (builder w) = Z.of_nat (length text) -> sourceOf w true text p ->
  0 < len -> Z.of_nat (length text + n) <= len -> len <= maxCapacity false ->
  wp (StringBuilder.allocateBufferUpConvert p len)
    (fun _ w' => opened w false text n texts len w') w.
Proof.
  intros Hm Hl Hs H0 Hn Hc. unfold StringBuilder.allocateBufferUpConvert. apply wp_bind, wp_get, wp_bind. rewrite Hl.
  apply wp_read_text; [done|]. apply wp_bind, wp_createFrom; [done|rewrite length_map; lia|done|]. apply wp_set. split; [|split; [done|]].
  - apply created_open; rewrite ?length_replicate, ?length_map; try done; lia.
  - eexists _, _. split; [done|]. split; [apply lookup_insert_eq|]. unfold c_length. cbn. rewrite length_app, length_replicate, length_map. lia.
Qed.

Lemma reallocateBuffer_opens w is8 text a c rest len n texts :
  memoryOk w texts -> m_length (builder w) = Z.of_nat (length text) -> m_is8Bit (builder w) = is8 ->
  m_buffer (builder w) = Some a -> bufferOf w text a c rest ->
  0 < len -> Z.of_nat (length text + n) <= len -> len <= maxCapacity is8 ->
  wp (StringBuilder.reallocateBuffer is8 len) (fun _ w' => opened w is8 text n texts len w') w.
Proof.
  intros Hm Hl Hi Hb [Hc Ht _ Hw _] H0 Hn Hcap. unfold StringBuilder.reallocateBuffer. apply wp_bind, wp_set.
  set (w1 := w <| builder := _ |>). change (opened w) with (opened w1). assert (memoryOk w1 texts) as Hm1 by (by apply memory_builder).
  assert (m_buffer (builder w1) = Some a) as Hb1 by done. pose proof (references_buffer a w1 Hb1) as Hr.
  apply wp_bind, wp_get. rewrite Hb1. apply wp_bind, wp_ret, wp_bind. apply (wp_cell a c); [done..|]. apply wp_bind, wp_gets.
  destruct (negb is8 && c_is8Bit c) eqn:Eup.
  - apply andb_prop in Eup as [E1%negb_true_iff E2]. destruct Hw as [Hw| ->]; [congruence|].
    assert (text = []) as -> by (by destruct text). subst is8. rewrite E1 in *. apply allocateBufferUpConvert_opens; try done. by left.
  - assert (c_is8Bit c = is8) as Hci. { destruct Hw as [Hw| ->]; [congruence|]. destruct is8; done. }
    destruct (bool_decide _).
    + apply wp_bind. unfold StringBuilder.reallocate. rewrite (proj2 (Z.eqb_neq _ _)) by lia. apply wp_bind. apply (wp_cell a c); [done..|].
      rewrite Hci. apply wp_bind, wp_createFrom; [done|rewrite length_take; lia|done|]. apply wp_ret, wp_set. split; [|split; [done|]].
      * rewrite Ht, take_app, take_ge by (rewrite length_map; lia). rewrite <- app_assoc.
        apply created_open; try done; rewrite ?length_app, ?length_take, ?length_replicate, ?length_app, ?length_take, ?length_map; lia.
      * eexists _, _. split; [done|]. split; [apply lookup_insert_eq|]. unfold c_length. cbn. rewrite length_app, length_replicate, length_take. lia.
    + apply allocateBuffer_opens; try done. right. by exists a, c, rest.
Qed.

(** ** Writing *)

Lemma write_open w is8 text n texts characters :
  openFor w is8 text n texts -> (length characters <= n)%nat ->
  wp (StringBuilder.write is8 (Z.of_nat (length text)) characters)
    (fun _ w' => openFor w' is8 (text ++ characters) (n - length characters) texts /\ builder w' = builder w) w.
Proof.
  intros [Hm Hs Hi (a & rest & Hb & Hp & Hso & Hc & Hn & Hcap)] Hl. unfold StringBuilder.write. apply wp_bind, wp_get. rewrite Hp.
  apply wp_bind, wp_ret, wp_bind. apply (wp_cell a _ _ _ Hc); [by apply references_buffer|]. cbn [c_is8Bit c_characters]. rewrite eqb_reflx.
  unfold c_length. cbn [c_characters]. rewrite length_app, length_map, (proj2 (Z.leb_le _ _)) by lia. apply wp_modify. split; [|done].
  rewrite Nat2Z.id, take_app_length' by (by rewrite length_map). rewrite <- (length_map Some text), drop_app_add, app_assoc, <- map_app.
  pose proof Hso as (Hso1 & Hso2 & Hso3). pose proof (cell_old w texts a _ Hm Hc) as Hlt. split; try done.
  - replace (nextCell w) with (nextCell (w <| cells := ∅ |>)) in Hlt by done.
    pose proof (memory_change w texts a (mkCell is8 (map Some (text ++ characters) ++ drop (length characters) rest)) (nextCell w) Hm Hso2 Hso3 Hlt ltac:(lia)) as Hm'.
    by destruct Hm'.
  - exists a, (drop (length characters) rest). cbn. rewrite lookup_insert_eq. repeat split; try done; rewrite ?length_drop, ?length_app; lia.
Qed.

Lemma open_ok w is8 text n texts :
  openFor w is8 text n texts -> m_length (builder w) = Z.of_nat (length text) -> Z.of_nat (length text) <= maxText ->
  (if is8 then latin1 text else is_ustring text) -> builderOk w text texts.
Proof.
  intros [Hm Hs Hi (a & rest & Hb & Hp & Hso & Hc & Hn & Hcap)] Hl Hmax Hu. split; try done.
  - by rewrite Hi.
  - intros a' Ha'. congruence.
  - intros a' Ha'. assert (a' = a) as -> by congruence. exists (mkCell is8 (map Some text ++ rest)), rest.
    split; cbn; try done; [by left|]. unfold c_length. cbn. rewrite length_app, length_map. lia.
  - congruence.
Qed.

(** ** Appending *)

Lemma expandedCapacity_bounds cap required :
  0 <= cap <= 2 ^ 29 -> 0 < required <= maxText ->
  required <= StringBuilder.expandedCapacity cap required <= Z.max maxText (2 * cap) /\ 0 < StringBuilder.expandedCapacity cap required.
Proof. intros Hc Hr. unfold StringBuilder.expandedCapacity, maxText in *. rewrite wrapU_small by lia. lia. Qed.

Lemma string_source w text texts is8 :
  builderOk w text texts -> is8 = m_is8Bit (builder w) -> m_buffer (builder w) = None -> sourceOf w is8 text (m_string (builder w)).
Proof.
  intros Hok -> Hb. destruct (m_string (builder w)) as [a|] eqn:Es; [|left; by apply (ok_somewhere _ _ _ Hok)].
  destruct (ok_string _ _ _ Hok a Es) as (is8 & Hc & [->|Hi]); [by left|]. right.
  exists a, (mkCell is8 (map Some text)), []. rewrite app_nil_r. split_and!; try done. by apply references_string.
Qed.

Lemma sourceOf_nonempty w is8 text p : sourceOf w is8 text p -> sourceOf w is8 text (if Z.of_nat (length text) =? 0 then None else p).
Proof. destruct text; [by left|done]. Qed.

Lemma open_length w is8 text n texts len : openFor w is8 text n texts -> openFor (w <| builder := (builder w) <| m_length := len |> |>) is8 text n texts.
Proof. intros [H1 H2 H3 H4]. split; try done. by apply memory_builder. Qed.

Lemma buffer_length w text a c rest : bufferOf w text a c rest -> c_length c = Z.of_nat (length text + length rest).
Proof. intros [_ Ht _ _ _]. unfold c_length. by rewrite Ht, length_app, length_map. Qed.

Lemma capacity_value w text texts :
  builderOk w text texts -> exists cap, StringBuilder.capacity w = Done (cap, w) /\ Z.of_nat (length text) <= cap /\
    match m_buffer (builder w) with
    | Some b => exists c rest, bufferOf w text b c rest /\ cap = c_length c
    | None => cap = Z.of_nat (length text)
    end.
Proof.
  intros [_ Hl _ _ _ Hbuf _]. unfold StringBuilder.capacity, mbind, M_bind, StringBuilder.get, gets.
  destruct (m_buffer (builder w)) as [b|] eqn:Eb.
  - destruct (Hbuf b eq_refl) as (c & rest & Hc). unfold StringBuilder.cell. rewrite (buffer_cell _ _ _ _ _ Hc), decide_False by (by apply references_buffer).
    exists (c_length c). split; [done|]. split; [rewrite (buffer_length _ _ _ _ _ Hc); lia|]. by exists c, rest.
  - exists (m_length (builder w)). split; [done|]. rewrite Hl. split; [lia|done].
Qed.

Lemma appendUninitializedSlow_opens w text texts is8 n :
  builderOk w text texts -> is8 = m_is8Bit (builder w) -> (0 < n)%nat -> Z.of_nat (length text + n) <= maxText ->
  (forall b c rest, m_buffer (builder w) = Some b -> bufferOf w text b c rest -> c_length c < Z.of_nat (length text + n)) ->
  wp (StringBuilder.appendUninitializedSlow is8 (Z.of_nat (length text + n))) (fun i w' => i = Z.of_nat (length text) /\
    m_length (builder w') = Z.of_nat (length text + n) /\ openFor w' is8 text n texts) w.
Proof.
  intros Hok Hi Hn Hmax Hfull. pose proof Hok as [Hm Hl _ _ _ _ _]. unfold StringBuilder.appendUninitializedSlow.
  apply wp_bind, wp_get, wp_bind, wp_get, wp_bind. destruct (capacity_value w text texts Hok) as (cap & Hcap & Hlow & Hb). unfold wp at 1. rewrite Hcap.
  assert (cap <= maxText) as Hhigh.
  { destruct (m_buffer (builder w)) as [b|]; [|unfold maxText in *; lia]. destruct Hb as (c & rest & Hc & ->). specialize (Hfull b c rest eq_refl Hc). lia. }
  unfold maxText in *. destruct (expandedCapacity_bounds cap (Z.of_nat (length text + n))) as [Hx H0]; [lia|unfold maxText; lia|].
  set (len := StringBuilder.expandedCapacity _ _) in *. unfold maxText in Hx.
  assert (len <= maxCapacity is8) by (unfold maxCapacity; destruct is8; lia). rewrite Hl. apply wp_bind.
  eapply (wp_mono _ (fun _ w' => opened w is8 text n texts len w')).
  - destruct (m_buffer (builder w)) as [b|] eqn:Eb.
    + destruct Hb as (c & rest & Hc & _). apply (reallocateBuffer_opens w is8 text b c rest); try done; lia.
    + apply wp_bind, wp_get, allocateBuffer_opens; try done; [|lia]. by apply sourceOf_nonempty, (string_source w text texts).
  - intros _ w' (Ho & _ & _). apply wp_bind, wp_set, wp_ret. split; [done|]. split; [done|]. by apply open_length.
Qed.

Lemma appendUninitialized_opens w text texts is8 n :
  builderOk w text texts -> is8 = m_is8Bit (builder w) -> (0 < n)%nat -> Z.of_nat (length text + n) <= maxText ->
  wp (StringBuilder.appendUninitialized is8 (Z.of_nat n)) (fun i w' => i = Z.of_nat (length text) /\
    m_length (builder w') = Z.of_nat (length text + n) /\ openFor w' is8 text n texts) w.
Proof.
  intros Hok Hi Hn Hmax. pose proof Hok as [Hm Hl _ _ _ Hbuf _]. unfold StringBuilder.appendUninitialized. apply wp_bind, wp_get.
  rewrite Hl. rewrite wrapU_small by (unfold maxText in Hmax; lia).
  replace (Z.of_nat n + Z.of_nat (length text)) with (Z.of_nat (length text + n)) by lia.
  rewrite (proj2 (Z.ltb_ge _ _)) by lia. apply wp_bind, wp_get. destruct (m_buffer (builder w)) as [b|] eqn:Eb.
  - destruct (Hbuf b eq_refl) as (c & rest & Hc). pose proof Hc as [Hcell Htext Hroom Hwidth Hcap]. pose proof (buffer_length _ _ _ _ _ Hc) as Hlen.
    apply wp_bind, wp_bind, (wp_cell b c); [done|by apply references_buffer|]. apply wp_ret.
    destruct (Z.leb_spec (Z.of_nat (length text + n)) (c_length c)) as [Hfit|Hfull].
    + apply wp_bind, wp_set, wp_ret. split; [done|]. split; [done|]. destruct Hroom as (Hso & Hs & Hp); [intros ->; cbn in *; lia|].
      assert (c_is8Bit c = is8) as Hci. { destruct Hwidth as [->| ->]; [done|]. unfold c_length in *. cbn in *. lia. }
      split; cbn; try done; [by apply memory_builder|]. exists b, rest. split_and!; try done; [by destruct Hso| |lia|rewrite <- Hci; lia].
      rewrite Hcell, <- Htext, <- Hci. by destruct c.
    + apply appendUninitializedSlow_opens; try done. intros b' c' rest' Hb' Hc'. assert (b' = b) as -> by congruence.
      assert (c' = c) as -> by (pose proof (buffer_cell _ _ _ _ _ Hc'); congruence). done.
  - apply wp_bind, wp_ret, appendUninitializedSlow_opens; try done. intros b'. by rewrite Eb.
Qed.

Lemma byte_mask c : 0 <= c -> (Z.land c (Z.lnot 0xff) =? 0) = (c <? 256).
Proof.
  intros Hc. change (Z.land c (Z.lnot 0xff)) with (Z.land c (Z.lnot (Z.ones 8))). rewrite <- Z.ldiff_land, Z.ldiff_ones_r by done.
  rewrite Z.shiftl_mul_pow2, Z.shiftr_div_pow2 by done. change (2 ^ 8) with 256.
  destruct (Z.eqb_spec (c / 256 * 256) 0), (Z.ltb_spec c 256); try done; Z.div_mod_to_equations; lia.
Qed.

Lemma latin1_ustring text : latin1 text -> is_ustring text.
Proof. intros Ht. apply (Forall_impl _ _ _ Ht). unfold is_unit. lia. Qed.

(** The characters that the builder can have, by its width. *)
Definition unitsOf (is8 : bool) (text : ustring) : Prop := if is8 then latin1 text else is_ustring text.

Lemma unitsOf_app is8 text text' : unitsOf is8 text -> unitsOf is8 text' -> unitsOf is8 (text ++ text').
Proof. destruct is8; apply Forall_app_2. Qed.

Lemma latin1_units is8 text : latin1 text -> unitsOf is8 text.
Proof. destruct is8; [done|apply latin1_ustring]. Qed.

Lemma unitsOf_ustring is8 text : unitsOf is8 text -> is_ustring text.
Proof. destruct is8; [apply latin1_ustring|done]. Qed.

(** What every operation that changes the text does. *)
Definition becomes (w : BuilderWorld) (text : ustring) (texts : list (option ustring)) (w' : BuilderWorld) : Prop :=
  builderOk w' text texts /\ m_is8Bit (builder w') = m_is8Bit (builder w).

(** The end of an appending operation. *)
Lemma append_open w is8 text n texts characters len :
  openFor w is8 text n texts -> (length characters <= n)%nat -> m_length (builder w) = len -> Z.of_nat (length text + length characters) <= maxText ->
  unitsOf is8 (text ++ characters) ->
  wp (StringBuilder.write is8 (Z.of_nat (length text)) characters) (fun _ w' => m_length (builder w') = len /\ m_is8Bit (builder w') = is8 /\
    builderOk (w' <| builder := (builder w') <| m_length := Z.of_nat (length text + length characters) |> |>) (text ++ characters) texts) w.
Proof.
  intros Ho Hn Hl Hmax Hu. eapply wp_mono; [by apply write_open|]. intros _ w' [Ho' Hb]. rewrite Hb, (open_width _ _ _ _ _ Ho). split; [done|].
  split; [done|]. rewrite <- Hb. eapply open_ok; [by apply open_length| | |done]; rewrite length_app; done.
Qed.

Lemma same_length w len : m_length (builder w) = len -> w <| builder := (builder w) <| m_length := len |> |> = w.
Proof. intros <-. by destruct w as [[]]. Qed.

Lemma appendAt_ok w text texts characters is8 :
  builderOk w text texts -> is8 = m_is8Bit (builder w) -> unitsOf is8 characters -> characters <> [] -> Z.of_nat (length text + length characters) <= maxText ->
  wp (dest ← StringBuilder.appendUninitialized is8 (Z.of_nat (length characters)); StringBuilder.write is8 dest characters)
    (fun _ w' => becomes w (text ++ characters) texts w') w.
Proof.
  intros Hok Hi Hu Hne Hmax. apply wp_bind. eapply wp_mono.
  - apply appendUninitialized_opens; [done..| |done]. destruct characters; [done|cbn; lia].
  - intros i w1 (-> & Hl & Ho). eapply wp_mono; [eapply append_open; try done; apply unitsOf_app; [|done]|].
    + pose proof (ok_units _ _ _ Hok) as Hw. by rewrite <- Hi in Hw.
    + intros _ w' (Hl' & Hi' & Hok'). split; [|congruence]. by rewrite same_length in Hok'.
Qed.

Lemma append8_ok w text texts characters :
  builderOk w text texts -> latin1 characters -> Z.of_nat (length text + length characters) <= maxText ->
  wp (StringBuilder.append8 characters) (fun _ w' => becomes w (text ++ characters) texts w') w.
Proof.
  intros Hok Hu Hmax. unfold StringBuilder.append8. destruct characters as [|c characters]; [by apply wp_ret; rewrite app_nil_r|].
  apply wp_bind, wp_get, appendAt_ok; try done. by apply latin1_units.
Qed.

(** The text, with its characters of 8 bits. *)
Lemma text_source w text texts :
  builderOk w text texts -> sourceOf w (m_is8Bit (builder w)) text
    (if StringBuilder.isNull (m_buffer (builder w)) then m_string (builder w) else m_buffer (builder w)).
Proof.
  intros Hok. destruct (m_buffer (builder w)) as [b|] eqn:Eb; [|by apply (string_source w text texts)].
  destruct (ok_buffer _ _ _ Hok b Eb) as (c & rest & [Hc Ht _ Hw _]). destruct Hw as [Hw| ->].
  - right. exists b, c, rest. split_and!; try done. by apply references_buffer.
  - left. by destruct text.
Qed.

Lemma append16_ok w text texts characters :
  builderOk w text texts -> is_ustring characters -> Z.of_nat (length text + length characters) <= maxText ->
  wp (StringBuilder.append16 characters) (fun _ w' => builderOk w' (text ++ characters) texts /\
    (match characters with [] => True | [c] => c < 256 | _ => False end -> m_is8Bit (builder w') = m_is8Bit (builder w))) w.
Proof.
  intros Hok Hu Hmax. unfold StringBuilder.append16. destruct characters as [|c rest]; [by apply wp_ret; rewrite app_nil_r|].
  apply wp_bind, wp_get. destruct (m_is8Bit (builder w)) eqn:Ei.
  - assert (0 <= c) as Hc by (apply Forall_cons in Hu as [[Hc _] _]; done).
    destruct (match rest with [] => Z.land c (Z.lnot 0xff) =? 0 | _ => false end) eqn:Em.
    + destruct rest; [|done]. rewrite byte_mask in Em by done. zprop. eapply wp_mono; [apply append8_ok; [done|by repeat constructor|done]|].
      intros _ w' [Hok' Hi']. split; [done|]. congruence.
    + apply wp_bind, wp_get. rewrite (ok_length _ _ _ Hok). set (cs := c :: rest) in *. unfold maxText in Hmax.
      rewrite wrapU_small by lia. rewrite (proj2 (Z.ltb_ge _ _)) by lia. apply wp_bind.
      destruct (capacity_value w text texts Hok) as (cap & Hcap & Hlow & Hb). unfold wp at 1. rewrite Hcap.
      assert (cap <= 2 ^ 29) as Hhigh.
      { destruct (m_buffer (builder w)) as [b|]; [|lia]. destruct Hb as (c' & r & Hc' & ->). pose proof (buffer_capacity _ _ _ _ _ Hc') as Hx.
        destruct (buffer_width _ _ _ _ _ Hc') as [Hw| ->]; [|done]. by rewrite Hw, Ei in Hx. }
      apply wp_bind, wp_get, wp_bind, wp_get, wp_bind. replace (Z.of_nat (length cs) + Z.of_nat (length text)) with (Z.of_nat (length text + length cs)) by lia.
      destruct (expandedCapacity_bounds cap (Z.of_nat (length text + length cs))) as [Hx H0]; [lia|subst cs; cbn in *; unfold maxText; lia|].
      unfold maxText in Hx. eapply wp_mono; [eapply (allocateBufferUpConvert_opens w text _ _ (length cs)); try apply Hok; try done|].
      * pose proof (text_source w text texts Hok) as Hs. by rewrite Ei in Hs.
      * lia.
      * unfold maxCapacity. lia.
      * intros _ w1 (Ho & Hl & _). apply wp_bind. eapply wp_mono; [eapply append_open; try done; apply unitsOf_app; [|done]|].
        -- pose proof (ok_units _ _ _ Hok) as Hw. rewrite Ei in Hw. by apply latin1_ustring.
        -- intros _ w' (_ & _ & Hok'). apply wp_set. split; [done|]. subst cs. destruct rest; [|done]. rewrite byte_mask in Em by done. zprop. lia.
  - eapply wp_mono; [apply appendAt_ok; try done; by rewrite Ei|]. intros _ w' [Hok' Hi']. split; [done|]. congruence.
Qed.

Lemma hasRoom_value w text texts :
  builderOk w text texts -> exists room, StringBuilder.hasRoom w = Done (room, w) /\
    (room = true -> openFor w (m_is8Bit (builder w)) text 1 texts).
Proof.
  intros [Hm Hl _ _ _ Hbuf _]. unfold StringBuilder.hasRoom, mbind, M_bind, StringBuilder.get, gets.
  destruct (m_buffer (builder w)) as [b|] eqn:Eb; [|by exists false].
  destruct (Hbuf b eq_refl) as (c & rest & Hc). pose proof Hc as [Hcell Htext Hroom Hwidth Hcap]. unfold StringBuilder.cell.
  rewrite Hcell, decide_False by (by apply references_buffer). eexists. split; [done|]. intros [Hlt%Z.ltb_lt Hs]%andb_prop.
  pose proof (buffer_length _ _ _ _ _ Hc) as Hlen. destruct Hroom as (Hso & Hs' & Hp); [intros ->; cbn in Hlen; lia|].
  assert (c_is8Bit c = m_is8Bit (builder w)) as Hci. { destruct Hwidth as [->| ->]; [done|]. unfold c_length in *. cbn in *. lia. }
  split; try done. exists b, rest. rewrite <- Hci, Hcell, <- Htext. split_and!; try done; try lia; by destruct c.
Qed.

Lemma push_ok w is8 text texts c :
  openFor w is8 text 1 texts -> m_length (builder w) = Z.of_nat (length text) -> Z.of_nat (length text + 1) <= maxText -> unitsOf is8 (text ++ [c]) ->
  wp (StringBuilder.push is8 c) (fun _ w' => becomes w (text ++ [c]) texts w') w.
Proof.
  intros Ho Hl Hmax Hu. unfold StringBuilder.push. apply wp_bind, wp_get, wp_bind. rewrite Hl. eapply wp_mono; [by eapply append_open|].
  intros _ w' (_ & Hi' & Hok'). apply wp_set. split; [|cbn; rewrite Hi'; by rewrite (open_width _ _ _ _ _ Ho)].
  unfold maxText in Hmax. rewrite wrapU_small by lia. cbn [length] in Hok'. rewrite Nat2Z.inj_add in Hok'. done.
Qed.

Lemma appendUChar_ok w text texts c :
  builderOk w text texts -> is_unit c -> Z.of_nat (length text + 1) <= maxText ->
  wp (StringBuilder.appendUChar c) (fun _ w' => builderOk w' (text ++ [c]) texts /\
    (c < 256 -> m_is8Bit (builder w') = m_is8Bit (builder w))) w.
Proof.
  intros Hok Hc Hmax. unfold StringBuilder.appendUChar. apply wp_bind. destruct (hasRoom_value w text texts Hok) as (room & Hr & Ho).
  unfold wp at 1. rewrite Hr. apply wp_bind, wp_get. pose proof (ok_units _ _ _ Hok) as Hu. fold (unitsOf (m_is8Bit (builder w)) text) in Hu.
  destruct (room && negb (m_is8Bit (builder w))) eqn:E1; [|destruct (room && (Z.land c (Z.lnot 0xff) =? 0)) eqn:E2].
  - apply andb_prop in E1 as [-> E1%negb_true_iff]. specialize (Ho eq_refl). rewrite E1 in *.
    eapply wp_mono; [apply push_ok; [done|by apply (ok_length _ _ _ Hok)|done|]|by intros _ w' [Hok' Hi']; rewrite E1 in Hi'].
    apply unitsOf_app; [done|by apply Forall_singleton].
  - apply andb_prop in E2 as [-> E2]. specialize (Ho eq_refl). cbn in E1. apply negb_false_iff in E1. rewrite E1 in *.
    rewrite byte_mask in E2 by apply Hc. zprop.
    eapply wp_mono; [apply push_ok; [done|by apply (ok_length _ _ _ Hok)|done|]|by intros _ w' [Hok' Hi']; rewrite E1 in Hi'].
    apply unitsOf_app; [done|]. apply Forall_singleton. unfold is_unit in Hc. lia.
  - eapply wp_mono; [apply append16_ok; [done|by apply Forall_singleton|done]|]. done.
Qed.

Lemma appendLChar_ok w text texts c :
  builderOk w text texts -> 0 <= c < 256 -> Z.of_nat (length text + 1) <= maxText ->
  wp (StringBuilder.appendLChar c) (fun _ w' => becomes w (text ++ [c]) texts w') w.
Proof.
  intros Hok Hc Hmax. unfold StringBuilder.appendLChar. apply wp_bind. destruct (hasRoom_value w text texts Hok) as (room & Hr & Ho).
  unfold wp at 1. rewrite Hr. apply wp_bind, wp_get. destruct room.
  - apply push_ok; [by apply Ho|by apply (ok_length _ _ _ Hok)|done|]. apply unitsOf_app; [apply (ok_units _ _ _ Hok)|].
    apply latin1_units. by apply Forall_singleton.
  - apply append8_ok; [done|by apply Forall_singleton|done].
Qed.

(** The units of a code point. *)
Definition unitsOfChar (c : Z) : ustring := if U_IS_BMP c then [c] else [U16_LEAD c; U16_TRAIL c].

Lemma appendUChar32_ok w text texts c :
  builderOk w text texts -> 0 <= c < 0x110000 -> Z.of_nat (length text + 2) <= maxText ->
  wp (StringBuilder.appendUChar32 c) (fun _ w' => builderOk w' (text ++ unitsOfChar c) texts /\
    (c < 256 -> m_is8Bit (builder w') = m_is8Bit (builder w))) w.
Proof.
  intros Hok Hc Hmax. unfold StringBuilder.appendUChar32, unitsOfChar. destruct (U_IS_BMP c) eqn:Eb.
  - unfold U_IS_BMP in Eb. rewrite wrapU_small in Eb by lia. zprop. rewrite wrapU_small by lia.
    apply appendUChar_ok; [done|unfold is_unit; lia|lia].
  - unfold U_IS_BMP in Eb. rewrite wrapU_small in Eb by lia. zprop. apply wp_bind.
    eapply wp_mono; [apply appendUChar_ok; [done|apply wrapU_bounds; done|lia]|]. intros _ w1 [Hok1 _].
    eapply wp_mono; [apply appendUChar_ok; [done|apply wrapU_bounds; done|rewrite length_app; cbn; lia]|].
    intros _ w2 [Hok2 _]. rewrite <- app_assoc in Hok2. split; [done|]. lia.
Qed.
