(* ===== verification/StringBuilderOps.v ===== *)
(** * The operations of a builder keep its invariant

    Appending strings and numbers, reserving, shortening and giving the string away. *)

From S2P Require Import Prelude WTFString UTF8 StringBuilders StringBuilderFacts.

(** ** Appending strings and numbers *)

Lemma charactersOf_text is8 text : StringBuilder.charactersOf (mkCell is8 (map Some text)) = text.
Proof. unfold StringBuilder.charactersOf. cbn. rewrite map_map. apply map_id. Qed.

Lemma c_length_text is8 text : c_length (mkCell is8 (map Some text)) = Z.of_nat (length text).
Proof. unfold c_length. cbn. by rewrite length_map. Qed.

(** Appending the characters of a string, whatever their width. *)
Lemma appendCharacters_ok w text texts (is8 : bool) characters :
  builderOk w text texts -> unitsOf is8 characters -> Z.of_nat (length text + length characters) <= maxText ->
  wp (if is8 then StringBuilder.append8 characters else StringBuilder.append16 characters)
    (fun _ w' => builderOk w' (text ++ characters) texts /\ (is8 = true -> m_is8Bit (builder w') = m_is8Bit (builder w))) w.
Proof.
  intros Hok Hu Hmax. destruct is8; eapply wp_mono; [by apply append8_ok| |by apply append16_ok|]; intros _ w' [H1 H2]; by split.
Qed.

Lemma appendString_ok w text texts a is8 t :
  builderOk w text texts -> stringAt w a is8 t -> Some a ∈ held w -> Z.of_nat (length text + length t) <= maxText ->
  wp (StringBuilder.appendString (Some a)) (fun _ w' => builderOk w' (text ++ t) texts /\
    (is8 = true -> m_is8Bit (builder w) = true -> m_is8Bit (builder w') = true)) w.
Proof.
  intros Hok (Hc & Hu & Hlt) Hin Hmax. unfold StringBuilder.appendString.
  apply wp_bind, (wp_cell a _ _ _ Hc); [by apply references_held|]. apply wp_bind, wp_get, wp_bind, wp_get. rewrite c_length_text, (ok_length _ _ _ Hok).
  destruct (Z.eqb_spec (Z.of_nat (length t)) 0) as [E|E].
  - destruct t; [|cbn in E; lia]. apply wp_ret. by rewrite app_nil_r.
  - destruct (_ && _) eqn:Er.
    + apply andb_prop in Er as [Hz%Z.eqb_eq Hn]. destruct text; [|cbn in Hz; lia]. apply wp_set. cbn [app].
      destruct (m_buffer (builder w)) eqn:Eb; [done|]. split; [|done]. split; cbn; try done.
      * apply memory_builder, Hok.
      * intros a' [= <-]. exists is8. split; [done|]. by right.
      * intros a' Ha'. congruence.
    + cbn [c_is8Bit]. rewrite charactersOf_text. eapply wp_mono; [by apply appendCharacters_ok|].
      intros _ w' [H1 H2]. split; [done|]. intros Hi8 Hb. by rewrite H2.
Qed.

(** Ranges that do not lie in the string are ignored. *)
Definition rangeOf (t : ustring) (offset length : Z) : ustring :=
  if offset + length <=? Z.of_nat (List.length t) then take (Z.to_nat length) (drop (Z.to_nat offset) t) else [].

Lemma rangeOf_length t offset length : (List.length (rangeOf t offset length) <= List.length t)%nat.
Proof. unfold rangeOf. destruct (_ <=? _); [|cbn; lia]. rewrite length_take, length_drop. lia. Qed.

Lemma rangeOf_units is8 t offset length : unitsOf is8 t -> unitsOf is8 (rangeOf t offset length).
Proof. unfold rangeOf. destruct is8, (_ <=? _); intros Ht; try constructor; by apply Forall_take, Forall_drop. Qed.

Lemma appendRange_ok w text texts a is8 t offset length :
  builderOk w text texts -> stringAt w a is8 t -> Some a ∈ held w -> 0 <= offset < 2 ^ 32 -> 0 <= length < 2 ^ 32 ->
  Z.of_nat (List.length text + List.length t) <= maxText ->
  wp (StringBuilder.appendRange (Some a) offset length) (fun _ w' => builderOk w' (text ++ rangeOf t offset length) texts /\
    (is8 = true -> m_is8Bit (builder w') = m_is8Bit (builder w))) w.
Proof.
  intros Hok (Hc & Hu & Hlt) Hin Ho Hl Hmax. unfold StringBuilder.appendRange.
  apply wp_bind, (wp_cell a _ _ _ Hc); [by apply references_held|]. cbn [c_is8Bit]. rewrite c_length_text, charactersOf_text.
  pose proof (rangeOf_length t offset length) as Hr. pose proof (rangeOf_units is8 t offset length Hu) as Hru. unfold rangeOf in *.
  destruct (Z.eqb_spec (Z.of_nat (List.length t)) 0) as [E|E].
  - destruct t; [|cbn in E; lia]. apply wp_ret. rewrite drop_nil, take_nil. destruct (_ <=? _); by rewrite app_nil_r.
  - unfold maxText in Hmax. assert ((wrapU 32 (offset + length) <? offset) = (2 ^ 32 <=? offset + length)) as Hw.
    { unfold wrapU. destruct (Z.leb_spec (2 ^ 32) (offset + length)); [apply Z.ltb_lt|apply Z.ltb_ge].
      - rewrite <- (Z_mod_plus_full _ (-1)), Z.mod_small by lia. lia.
      - rewrite Z.mod_small by lia. lia. }
    rewrite Hw. destruct (Z.leb_spec (2 ^ 32) (offset + length)) as [Hov|Hov].
    + rewrite (proj2 (Z.leb_gt _ _)) by lia. apply wp_ret. by rewrite app_nil_r.
    + rewrite wrapU_small by lia. rewrite Z.ltb_antisym. destruct (offset + length <=? _) eqn:Ex; cbn [negb orb].
      * apply appendCharacters_ok; [done|done|unfold maxText; lia].
      * apply wp_ret. by rewrite app_nil_r.
Qed.

Lemma appendDouble_ok w text texts result :
  builderOk w text texts -> latin1 result -> (length result <= 96)%nat -> Z.of_nat (length text + 96) <= maxText ->
  wp (StringBuilder.appendDouble result) (fun _ w' => becomes w (text ++ result) texts w') w.
Proof.
  intros Hok Hu Hlen Hmax. unfold StringBuilder.appendDouble. apply wp_bind, wp_get, wp_bind.
  change StringBuilder.NumberToStringBufferLength with (Z.of_nat 96).
  eapply wp_mono; [apply (appendUninitialized_opens w text texts _ 96); [done..|lia|done]|]. intros i w1 (-> & Hl & Ho). apply wp_bind.
  eapply wp_mono; [eapply (append_open _ _ _ _ _ result); [done|done|exact Hl|lia|]|].
  - apply unitsOf_app; [apply (ok_units _ _ _ Hok)|by apply latin1_units].
  - intros _ w' (Hl' & Hi' & Hok'). apply wp_set. split; [|done]. unfold maxText in Hmax. rewrite Hl'.
    rewrite !wrapU_small by (rewrite ?wrapU_small; lia).
    replace (Z.of_nat (length text + 96) - Z.of_nat 96 + Z.of_nat (length result)) with (Z.of_nat (length text + length result)) by lia. done.
Qed.

(** ** More memory *)

(** New cells may have come. *)
Record extends (w w' : BuilderWorld) : Prop := {
  extends_builder : builder w' = builder w;
  extends_held : held w' = held w;
  extends_next : (nextCell w <= nextCell w')%nat;
  extends_cells : forall a, (a < nextCell w)%nat -> cells w' !! a = cells w !! a;
  extends_fresh : forall a, (nextCell w' <= a)%nat -> cells w' !! a = None;
}.

Lemma extends_cell w w' texts a c : memoryOk w texts -> extends w w' -> cells w !! a = Some c -> cells w' !! a = Some c.
Proof. intros Hm He Hc. rewrite (extends_cells _ _ He); [done|]. by eapply cell_old. Qed.

Lemma extends_memory w w' texts : memoryOk w texts -> extends w w' -> memoryOk w' texts.
Proof.
  intros Hm He. pose proof Hm as [H1 H2 H3]. split; [by apply He|by eapply extends_cell|]. rewrite (extends_held _ _ He).
  eapply Forall2_impl; [exact H3|]. intros [a|] [t|]; try done. intros (is8 & Hc & Ht). exists is8. split; [by eapply extends_cell|done].
Qed.

Lemma extends_ok w w' text texts : builderOk w text texts -> extends w w' -> builderOk w' text texts.
Proof.
  intros [Hm Hl Hb Hu Hs Hbuf Hn] He. split; rewrite ?(extends_builder _ _ He); try done; [by eapply extends_memory| |].
  - intros a Ha. destruct (Hs a Ha) as (is8 & Hc & Hw). exists is8. split; [by eapply extends_cell|done].
  - intros a Ha. destruct (Hbuf a Ha) as (c & rest & [H1 H2 H3 H4 H5]). exists c, rest.
    split; rewrite ?(extends_builder _ _ He); try done; [by eapply extends_cell|].
    unfold sole. by rewrite (extends_builder _ _ He), (extends_held _ _ He).
Qed.

Lemma created_extends w texts c :
  memoryOk w texts -> extends w (w <| cells := <[nextCell w := c]> (cells w) |> <| nextCell := S (nextCell w) |>).
Proof.
  intros [H1 _ _]. split; cbn; try done; [lia| |].
  - intros a Ha. by rewrite lookup_insert_ne by lia.
  - intros a Ha. rewrite lookup_insert_ne by lia. apply H1. lia.
Qed.

Lemma extends_refl w texts : memoryOk w texts -> extends w w.
Proof. intros [H1 _ _]. by split. Qed.

(** A new reference to a string; a buffer with room is never given away. *)
Lemma hold_ok w text texts a is8 t :
  builderOk w text texts -> stringAt w a is8 t ->
  (forall c rest, m_buffer (builder w) = Some a -> bufferOf w text a c rest -> rest = []) ->
  builderOk (w <| held := held w ++ [Some a] |>) text (texts ++ [Some t]).
Proof.
  intros [Hm Hl Hb Hu Hs Hbuf Hn] Ht Hroom. split; try done.
  - destruct Hm as [H1 H2 H3]. split; try done. cbn. apply Forall2_app; [exact H3|]. constructor; [by exists is8|constructor].
  - intros b Hb'. destruct (Hbuf b Hb') as (c & rest & Hc). exists c, rest. pose proof Hc as [H1 H2 H3 H4 H5]. split; try done.
    intros Hr. destruct (H3 Hr) as ((Hs1 & Hs2 & Hs3) & Hrest). split; [|done]. split; [done|]. split; [|done]. cbn.
    rewrite elem_of_app, elem_of_cons. intros [Hin|[[= ->]|Hin]]; [done| |by apply not_elem_of_nil in Hin]. by apply Hr, (Hroom c).
Qed.

(** ** Parts of strings *)

Definition part {A} (start len : Z) (l : list A) : list A := take (Z.to_nat len) (drop (Z.to_nat start) l).

Lemma substringImpl_ok w texts a c start len :
  memoryOk w texts -> cells w !! a = Some c -> references a w <> 0%nat -> 0 <= start -> 0 <= len -> c_length c <= maxCapacity (c_is8Bit c) ->
  wp (StringBuilder.substringImpl a start len) (fun r w' => extends w w' /\
    (exists is8, cells w' !! r = Some (mkCell is8 (part start len (c_characters c))) /\
       (is8 = c_is8Bit c \/ part start len (c_characters c) = [] /\ is8 = true)) /\
    (r = a /\ part start len (c_characters c) = c_characters c \/ r = emptyString \/ (nextCell w <= r)%nat)) w.
Proof.
  intros Hm Hc Hr Hs Hl Hcap. unfold StringBuilder.substringImpl. apply wp_bind, (wp_cell a c); [done..|]. unfold c_length in *.
  assert (forall cs : list (option Z), cs = [] -> cells w !! emptyString = Some (mkCell true cs)) as Hempty by (intros ? ->; by apply (memory_empty _ _ Hm)).
  destruct (Z.leb_spec (Z.of_nat (length (c_characters c))) start) as [Hout|Hin].
  - apply wp_ret. split; [by eapply extends_refl|]. assert (part start len (c_characters c) = []) as Hp by (unfold part; rewrite drop_ge by lia; apply take_nil).
    split; [exists true; split; [by apply Hempty|by right]|]. by right; left.
  - destruct (_ && _) eqn:Ew.
    + apply andb_prop in Ew as [Hle%Z.leb_le ->%Z.eqb_eq]. apply wp_ret. split; [by eapply extends_refl|].
      assert (part 0 len (c_characters c) = c_characters c) as Hp by (unfold part; rewrite drop_0, take_ge by lia; done).
      rewrite Hp. split; [|by left]. exists (c_is8Bit c). split; [rewrite Hc; by destruct c|by left].
    + set (n := if _ <=? len then _ else len). assert (n <= Z.of_nat (length (c_characters c)) - start /\ n <= len /\ 0 <= n) as (Hn1 & Hn2 & Hn3)
        by (subst n; destruct (Z.leb_spec (Z.of_nat (length (c_characters c)) - start) len); lia).
      assert (part start len (c_characters c) = part start n (c_characters c)) as ->.
      { subst n. destruct (Z.leb_spec (Z.of_nat (length (c_characters c)) - start) len); [|done]. unfold part. rewrite !take_ge; [done|rewrite length_drop; lia..]. }
      assert (length (part start n (c_characters c)) = Z.to_nat n) as Hpl by (unfold part; rewrite length_take, length_drop; lia).
      fold (part start n (c_characters c)). apply wp_bind. destruct (decide (n = 0)) as [E0|E0].
      * assert (part start n (c_characters c) = []) as Hp by (apply length_zero_iff_nil; rewrite Hpl; lia). rewrite Hp.
        unfold StringBuilder.createFrom. rewrite E0. cbn [length]. rewrite Z.ltb_irrefl. apply wp_ret, wp_ret. split; [by eapply extends_refl|].
        split; [exists true; split; [by apply Hempty|by right]|]. by right; left.
      * apply wp_createFrom; [lia|lia|lia|]. apply wp_ret. split; [by eapply created_extends|]. split.
        -- exists (c_is8Bit c). cbn. rewrite lookup_insert_eq, Hpl, Nat.sub_diag, app_nil_r. split; [done|by left].
        -- right. right. done.
Qed.

(** ** Reserving and shrinking *)

Lemma opened_ok w text texts w' is8 n len :
  builderOk w text texts -> is8 = m_is8Bit (builder w) -> opened w is8 text n texts len w' -> becomes w text texts w'.
Proof.
  intros Hok -> (Ho & Hl & _). split; [|by rewrite (open_width _ _ _ _ _ Ho)].
  eapply open_ok; [exact Ho|by rewrite Hl, (ok_length _ _ _ Hok)|apply Hok|apply (ok_units _ _ _ Hok)].
Qed.

(** A builder whose text is not empty, or that is one of 8-bit characters. *)
Lemma buffer_same_width w text texts a c rest :
  builderOk w text texts -> bufferOf w text a c rest -> text <> [] \/ m_is8Bit (builder w) = true -> c_is8Bit c = m_is8Bit (builder w).
Proof. intros Hok Hc Hne. destruct (buffer_width _ _ _ _ _ Hc) as [?| ->]; [done|]. destruct Hne as [Hne|Hne]; [|done]. pose proof (buffer_text _ _ _ _ _ Hc). by destruct text. Qed.

Lemma reserveCapacity_ok w text texts n :
  builderOk w text texts -> text <> [] \/ m_is8Bit (builder w) = true -> 0 <= n <= maxText ->
  wp (StringBuilder.reserveCapacity n) (fun _ w' => becomes w text texts w') w.
Proof.
  intros Hok Hne Hn. unfold StringBuilder.reserveCapacity. apply wp_bind, wp_get, wp_bind, wp_get. rewrite (ok_length _ _ _ Hok).
  assert (forall is8, n <= maxCapacity is8) as Hcap by (intros []; unfold maxText, maxCapacity in *; lia).
  destruct (m_buffer (builder w)) as [b|] eqn:Eb.
  - destruct (ok_buffer _ _ _ Hok b Eb) as (c & rest & Hc). apply wp_bind, (wp_cell b c); [apply Hc|by apply references_buffer|].
    apply wp_when; [|done]. intros Hlt%Z.ltb_lt. pose proof (buffer_length _ _ _ _ _ Hc). rewrite (buffer_same_width w text texts b c rest) by done.
    eapply wp_mono; [eapply (reallocateBuffer_opens w _ text b c rest n 0 texts); try done; [apply Hok|by apply (ok_length _ _ _ Hok)|lia|lia]|].
    intros ? w' Ho. exact (opened_ok w _ texts w' _ _ _ Hok eq_refl Ho).
  - apply wp_when; [|done]. intros Hlt%Z.ltb_lt. destruct (Z.eqb_spec (Z.of_nat (length text)) 0) as [E|E].
    + destruct text; [|cbn in E; lia]. destruct Hne as [?|Hi]; [done|].
      eapply wp_mono; [eapply (allocateBuffer_opens w true [] None n 0 texts); try done; [apply Hok|by apply (ok_length _ _ _ Hok)|by left|cbn; lia]|].
      intros ? w' Ho. exact (opened_ok w _ texts w' _ _ _ Hok (eq_sym Hi) Ho).
    + apply wp_bind, wp_get. destruct (m_string (builder w)) as [s|] eqn:Es; [|by rewrite (ok_somewhere _ _ _ Hok Es Eb) in E].
      destruct (ok_string _ _ _ Hok s Es) as (is8 & Hc & [->|Hi]); [done|]. apply wp_bind, wp_ret, wp_bind.
      apply (wp_cell s _ _ _ Hc); [by apply references_string|]. cbn [c_is8Bit]. rewrite Hi.
      eapply wp_mono; [eapply (allocateBuffer_opens w _ text (Some s) n 0 texts); try done; [apply Hok|by apply (ok_length _ _ _ Hok)| |lia|lia]|].
      * rewrite <- Es. by apply (string_source w text texts).
      * intros ? w' Ho. exact (opened_ok w _ texts w' _ _ _ Hok eq_refl Ho).
Qed.

(** The buffer becomes the string. *)
Lemma release_ok w text texts a is8 b :
  memoryOk w texts -> Z.of_nat (length text) <= maxText -> unitsOf (m_is8Bit b) text -> cells w !! a = Some (mkCell is8 (map Some text)) ->
  (text = [] \/ is8 = m_is8Bit b) -> m_length b = Z.of_nat (length text) -> m_string b = Some a -> m_buffer b = None ->
  builderOk (w <| builder := b |>) text texts.
Proof.
  intros Hm Hb Hu Hc Hi Hl Hs Hn. split; cbn; try done; [by apply memory_builder| |by rewrite Hn|by rewrite Hs].
  intros a' Ha'. assert (a' = a) as -> by congruence. by exists is8.
Qed.

(** The end of [shrinkToFit], for a text and for none. *)
Definition shrunk (w : BuilderWorld) (text : ustring) (texts : list (option ustring)) (w' : BuilderWorld) : Prop :=
  becomes w text texts w' /\ m_buffer (builder w') = None.

Lemma shrink_text w text texts b c rest :
  builderOk w text texts -> text <> [] -> m_buffer (builder w) = Some b -> bufferOf w text b c rest ->
  wp (StringBuilder.reallocateBuffer (m_is8Bit (builder w)) (Z.of_nat (length text));;
      StringBuilder.setBuilder (fun b => b <| m_string := m_buffer b |> <| m_buffer := None |>)) (fun _ w' => shrunk w text texts w') w.
Proof.
  intros Hok Hne Eb Hc. pose proof (ok_bound _ _ _ Hok) as Hmax. unfold maxText in Hmax. assert (length text <> 0%nat) as E by (by destruct text).
  apply wp_bind. eapply wp_mono.
  - eapply (reallocateBuffer_opens w _ text b c rest (Z.of_nat (length text)) 0 texts); try done; [apply Hok|apply (ok_length _ _ _ Hok)|lia|lia|].
    unfold maxCapacity. destruct (m_is8Bit _); lia.
  - intros _ w1 ([Hm1 Hs1 Hi1 (a & rest1 & Hb1 & Hp1 & Hso1 & Hc1 & Hn1 & Hcap1)] & Hl1 & (a' & c' & Ha' & Hc' & Hlen')).
    apply wp_set. split; [|done]. assert (a' = a) as -> by congruence. rewrite Hc1 in Hc'. injection Hc' as <-.
    unfold c_length in Hlen'. cbn in Hlen'. rewrite length_app, length_map in Hlen'.
    destruct rest1; [|cbn in Hlen'; lia]. rewrite app_nil_r in Hc1. split; [|cbn; by rewrite Hi1].
    apply (release_ok w1 text texts a (m_is8Bit (builder w))); cbn; try done; [|by right|].
    + rewrite Hi1. apply (ok_units _ _ _ Hok).
    + rewrite Hl1. apply (ok_length _ _ _ Hok).
Qed.

Lemma shrink_empty w texts b c rest :
  builderOk w [] texts -> m_buffer (builder w) = Some b -> bufferOf w [] b c rest -> rest <> [] ->
  wp (StringBuilder.reallocateBuffer (m_is8Bit (builder w)) 0;;
      StringBuilder.setBuilder (fun b => b <| m_string := m_buffer b |> <| m_buffer := None |>)) (fun _ w' => shrunk w [] texts w') w.
Proof.
  intros Hok Eb [Hcell Htext Hroom Hwidth Hcap] Hr. destruct (Hroom Hr) as (Hso & Hs & Hp). apply wp_bind. unfold StringBuilder.reallocateBuffer.
  apply wp_bind, wp_set, wp_bind, wp_get. assert (c_is8Bit c = m_is8Bit (builder w)) as Hci by (destruct Hwidth as [?| ->]; [done|by destruct Hr]).
  change (m_buffer (builder (w <| builder := (builder w) <| m_string := None |> |>))) with (m_buffer (builder w)). rewrite Eb.
  apply wp_bind, wp_ret, wp_bind, (wp_cell b c); [done|by apply references_buffer|]. apply wp_bind, wp_gets. rewrite Hci, andb_negb_l.
  rewrite bool_decide_eq_true_2 by (apply references_sole; [done|]; split; [done|apply Hso]). apply wp_bind, wp_ret, wp_set, wp_set.
  split; [|done]. split; [|done]. eapply (release_ok _ [] texts emptyString true); try done.
  - repeat apply memory_builder. apply Hok.
  - apply (ok_units _ _ _ Hok).
  - apply (memory_empty _ _ (ok_memory _ _ _ Hok)).
  - by left.
  - apply (ok_length _ _ _ Hok).
Qed.

(** An empty text keeps no buffer but an empty one. *)
Definition tight (w : BuilderWorld) (text : ustring) : Prop :=
  text = [] -> forall a c rest, m_buffer (builder w) = Some a -> bufferOf w text a c rest -> rest = [].

Lemma shrunk_tight w text texts w' : shrunk w text texts w' -> becomes w text texts w' /\ tight w' text.
Proof. intros [Hb Hn]. split; [done|]. intros _ a c rest Ha. congruence. Qed.

Lemma shrinkToFit_ok w text texts :
  builderOk w text texts -> wp StringBuilder.shrinkToFit (fun _ w' => becomes w text texts w' /\ tight w' text) w.
Proof.
  intros Hok. unfold StringBuilder.shrinkToFit. apply wp_bind. unfold StringBuilder.canShrink. apply wp_bind, wp_get, wp_bind, wp_get.
  rewrite (ok_length _ _ _ Hok). destruct (m_buffer (builder w)) as [b|] eqn:Eb.
  - destruct (ok_buffer _ _ _ Hok b Eb) as (c & rest & Hc). apply wp_bind, (wp_cell b c); [apply Hc|by apply references_buffer|].
    apply wp_ret, wp_bind, wp_get, wp_bind, wp_get. rewrite (ok_length _ _ _ Hok). pose proof (ok_bound _ _ _ Hok) as Hmax. unfold maxText in Hmax.
    rewrite Z.shiftr_div_pow2 by done. change (2 ^ 2) with 4. rewrite wrapU_small by (Z.div_mod_to_equations; lia).
    pose proof (buffer_length _ _ _ _ _ Hc) as Hlen. apply wp_when; [intros Hlt%Z.ltb_lt|intros Hge%Z.ltb_ge].
    + apply (wp_mono _ (fun _ w' => shrunk w text texts w')); [|intros _ w'; apply shrunk_tight].
      destruct (decide (text = [])) as [->|Hne]; [|by eapply shrink_text]. eapply shrink_empty; try done.
      intros ->. rewrite Hlen in Hlt. by vm_compute in Hlt.
    + split; [done|]. intros -> a c' r Ha Hc'. assert (a = b) as -> by congruence.
      pose proof (buffer_length _ _ _ _ _ Hc'). assert (c' = c) as -> by (pose proof (buffer_cell _ _ _ _ _ Hc'); pose proof (buffer_cell _ _ _ _ _ Hc); congruence).
      apply length_zero_iff_nil. change (Z.of_nat (length []) / 4) with 0 in Hge. cbn in *. lia.
  - apply wp_ret, wp_bind, wp_get, wp_bind, wp_get. apply wp_when; [done|]. intros _. split; [done|]. intros _ a c rest Ha. congruence.
Qed.

(** ** Giving the string away *)

Lemma becomes_trans w text1 texts1 w1 text2 texts2 w2 :
  becomes w text1 texts1 w1 -> becomes w1 text2 texts2 w2 -> becomes w text2 texts2 w2.
Proof. intros [_ H1] [H2 H3]. split; [done|congruence]. Qed.

Lemma reifyString_ok w text texts :
  builderOk w text texts -> tight w text -> m_string (builder w) = None ->
  wp StringBuilder.reifyString (fun _ w' => becomes w text texts w' /\ m_string (builder w') <> None) w.
Proof.
  intros Hok Ht Es. pose proof Hok as [Hm Hl Hb Hu Hs Hbuf Hn]. unfold StringBuilder.reifyString. apply wp_bind, wp_get, wp_bind, wp_get. rewrite Es, Hl.
  cbn [StringBuilder.isNull negb]. destruct (Z.eqb_spec (Z.of_nat (length text)) 0) as [E|E].
  - destruct text; [|cbn in E; lia]. apply wp_set. split; [|done]. split; [|done]. split; cbn; try done; [by apply memory_builder| |].
    + intros a [= <-]. exists true. split; [apply (memory_empty _ _ Hm)|by left].
    + intros a Ha. destruct (Hbuf a Ha) as (c & rest & Hc). exists c, rest. pose proof Hc as [H1 H2 H3 H4 H5]. split; try done.
      intros Hr. by destruct (Hr (Ht eq_refl a c rest Ha Hc)).
  - apply wp_bind, wp_get. destruct (m_buffer (builder w)) as [a|] eqn:Ea; [|by rewrite (Hn Es eq_refl) in E].
    destruct (Hbuf a eq_refl) as (c & rest & Hc). pose proof Hc as [Hcell Htext Hroom Hwidth Hcap]. pose proof (buffer_length _ _ _ _ _ Hc) as Hlen.
    assert (c_is8Bit c = m_is8Bit (builder w)) as Hci by (eapply (buffer_same_width w text texts); [done|exact Hc|left; by intros ->]).
    apply wp_bind, wp_ret, wp_bind, (wp_cell a c); [done|by apply references_buffer|]. apply wp_bind, wp_gets. rewrite Hlen.
    destruct (Z.eqb_spec (Z.of_nat (length text)) (Z.of_nat (length text + length rest))) as [Ef|Ef].
    + apply wp_set. split; [|done]. split; [|done]. destruct rest; [|cbn in Ef; lia]. rewrite app_nil_r in Htext.
      apply (release_ok w text texts a (c_is8Bit c)); cbn; try done; [|by right]. rewrite Hcell, <- Htext. by destruct c.
    + destruct Hroom as ((Hso1 & Hso2 & Hso3) & _); [intros ->; cbn in Ef; lia|]. rewrite bool_decide_eq_true_2 by (by apply references_sole).
      apply wp_bind, wp_modify, wp_set. split; [|done]. split; [|done].
      rewrite Htext, Nat2Z.id, take_app_length' by (by rewrite length_map).
      pose proof (memory_change w texts a (mkCell (c_is8Bit c) (map Some text)) (nextCell w) Hm Hso2 Hso3 (cell_old w texts a c Hm Hcell) ltac:(lia)) as Hm'.
      eapply (release_ok _ text texts a (c_is8Bit c)); cbn; try done; [by rewrite lookup_insert_eq|by right].
Qed.

(** The string, when the builder has it. *)
Lemma string_whole w text texts s :
  builderOk w text texts -> m_string (builder w) = Some s ->
  (exists is8, stringAt w s is8 text) /\ forall a c rest, m_buffer (builder w) = Some a -> bufferOf w text a c rest -> rest = [].
Proof.
  intros Hok Es. destruct (ok_string _ _ _ Hok s Es) as (is8 & Hc & Hi). split.
  - exists is8. split; [done|]. split; [|apply Hok]. destruct Hi as [->| ->]; [destruct is8; constructor|apply (ok_units _ _ _ Hok)].
  - intros a c rest Ha Hb. destruct rest as [|x rest]; [done|]. destruct (buffer_room _ _ _ _ _ Hb) as (_ & He & _); [done|congruence].
Qed.

Lemma toString_ok w text texts :
  builderOk w text texts -> wp StringBuilder.toString (fun _ w' => becomes w text (texts ++ [Some text]) w' /\
    exists a, held w' !! length texts = Some (Some a) /\ m_string (builder w') = Some a) w.
Proof.
  intros Hok. unfold StringBuilder.toString. apply wp_bind. eapply wp_mono; [by apply shrinkToFit_ok|]. intros _ w1 [Hb1 Ht1].
  apply wp_bind, wp_get, wp_bind. eapply (wp_mono _ (fun _ w2 => becomes w1 text texts w2 /\ m_string (builder w2) <> None)).
  - apply wp_when; intros Hs; destruct (m_string (builder w1)) as [s|] eqn:Es; try done.
    + apply reifyString_ok; [apply Hb1|done..].
    + split; [split; [apply Hb1|done]|congruence].
  - intros _ w2 [Hb2 Hs]. apply wp_bind, wp_get. destruct (m_string (builder w2)) as [s|] eqn:Es; [|done]. apply wp_bind, wp_ret, wp_modify.
    split.
    2:{ exists s. split; [|done]. cbn. rewrite <- (Forall2_length _ _ _ (memory_held _ _ (ok_memory _ _ _ (proj1 Hb2)))). by apply list_lookup_middle. }
    apply (becomes_trans w text texts w1); [done|]. eapply becomes_trans; [exact Hb2|]. split; [|done].
    destruct (string_whole w2 text texts s (proj1 Hb2) Es) as [[is8 Hs8] Hr]. eapply hold_ok; [apply Hb2|exact Hs8|]. intros c rest Ha. by apply (Hr s).
Qed.

Lemma part_units is8 start len text : unitsOf is8 text -> unitsOf is8 (part start len text).
Proof. destruct is8; intros Ht; by apply Forall_take, Forall_drop. Qed.

Lemma part_bound start len (text : ustring) : Z.of_nat (length text) <= maxText -> Z.of_nat (length (part start len text)) <= maxText.
Proof. unfold part. rewrite length_take, length_drop. lia. Qed.

Lemma part_map {A B} (f : A -> B) start len l : part start len (map f l) = map f (part start len l).
Proof. unfold part. by rewrite skipn_map, firstn_map. Qed.

(** A part of the text, from the string or from the buffer. *)
Lemma substring_from w text texts a c is8 rest start len :
  builderOk w text texts -> cells w !! a = Some c -> references a w <> 0%nat -> c_characters c = map Some text ++ rest ->
  c_length c <= maxCapacity (c_is8Bit c) -> (c_is8Bit c = is8 \/ text = []) -> unitsOf is8 text -> 0 <= start -> 0 <= len ->
  part start len (c_characters c) = map Some (part start len text) ->
  wp (r ← StringBuilder.substringImpl a start len; StringBuilder.hold r)
    (fun _ w' => becomes w text (texts ++ [Some (part start len text)]) w') w.
Proof.
  intros Hok Hc Hr Ht Hcap Hi Hu Hs Hl Hp. apply wp_bind. eapply wp_mono; [by eapply (substringImpl_ok w texts a c start len (ok_memory _ _ _ Hok))|].
  intros r w' (He & (is8' & Hr' & Hw) & Hsame). apply wp_modify. pose proof (extends_ok w w' text texts Hok He) as Hok'.
  split; [|cbn; by rewrite (extends_builder _ _ He)]. rewrite Hp in *. apply (hold_ok w' text texts r is8'); [done| |].
  - split; [done|]. split; [|apply part_bound, Hok]. destruct Hw as [->|[Hw _]].
    + destruct Hi as [->| ->]; [by apply part_units|]. unfold part. rewrite drop_nil, take_nil. destruct (c_is8Bit c); constructor.
    + assert (part start len text = []) as -> by (by destruct (part start len text)). destruct is8'; constructor.
  - intros c' rest' Hb Hbuf. rewrite (extends_builder _ _ He) in Hb. pose proof (buffer_cell _ _ _ _ _ Hbuf) as Hc'.
    destruct (ok_buffer _ _ _ Hok r Hb) as (c2 & rest2 & Hb2). pose proof (buffer_cell _ _ _ _ _ Hb2) as Hc2.
    rewrite (extends_cell w w' texts r c2 (ok_memory _ _ _ Hok) He Hc2) in Hc'. injection Hc' as <-.
    destruct Hsame as [[-> Hsame]|[->|Hnew]].
    + assert (c2 = c) as -> by congruence. rewrite (buffer_text _ _ _ _ _ Hbuf) in Hsame. apply (f_equal length) in Hsame.
      rewrite length_app, !length_map in Hsame. unfold part in Hsame. rewrite length_take, length_drop in Hsame. apply length_zero_iff_nil. lia.
    + rewrite (memory_empty _ _ (ok_memory _ _ _ Hok)) in Hc2. injection Hc2 as <-. pose proof (buffer_text _ _ _ _ _ Hbuf) as Ht2. by destruct text.
    + by rewrite (memory_fresh _ _ (ok_memory _ _ _ Hok)) in Hc2.
Qed.

Lemma substring_ok w text texts start len :
  builderOk w text texts -> 0 <= start <= Z.of_nat (length text) -> 0 <= len < 2 ^ 32 ->
  wp (StringBuilder.substring start len) (fun _ w' => becomes w text (texts ++ [Some (part start len text)]) w') w.
Proof.
  intros Hok Hs Hl. unfold StringBuilder.substring. apply wp_bind, wp_get, wp_bind, wp_get. rewrite (ok_length _ _ _ Hok).
  pose proof (ok_bound _ _ _ Hok) as Hmax. unfold maxText in Hmax. destruct (Z.eqb_spec (Z.of_nat (length text)) 0) as [E|E].
  - destruct text; [|cbn in E; lia]. apply wp_modify. split; [|done]. unfold part. rewrite drop_nil, take_nil.
    apply (hold_ok w [] texts emptyString true); [done|split; [apply (memory_empty _ _ (ok_memory _ _ _ Hok))|by split; [constructor|]]|].
    intros c rest _ Hc. pose proof (buffer_cell _ _ _ _ _ Hc) as Hc'. rewrite (memory_empty _ _ (ok_memory _ _ _ Hok)) in Hc'. injection Hc' as <-.
    by pose proof (buffer_text _ _ _ _ _ Hc).
  - destruct (m_string (builder w)) as [s|] eqn:Es.
    + destruct (ok_string _ _ _ Hok s Es) as (is8 & Hc & [->|Hi]); [done|].
      eapply (substring_from w text texts s _ is8 [] start len Hok Hc); cbn; try lia; [by apply references_string|by rewrite app_nil_r| |by left| |by rewrite part_map].
      * rewrite c_length_text. unfold maxCapacity. destruct is8; lia.
      * rewrite Hi. apply (ok_units _ _ _ Hok).
    + apply wp_bind, wp_get. destruct (m_buffer (builder w)) as [b|] eqn:Eb; [|by rewrite (ok_somewhere _ _ _ Hok Es Eb) in E].
      destruct (ok_buffer _ _ _ Hok b Eb) as (c & rest & Hc). pose proof Hc as [Hcell Htext _ _ Hcap]. apply wp_bind, wp_ret.
      rewrite wrapU_small by lia. set (n := Z.min len (Z.of_nat (length text) - start)).
      assert (part start len text = part start n text) as ->.
      { unfold part. destruct (Z.leb_spec len (Z.of_nat (length text) - start)); subst n; [by rewrite Z.min_l|].
        rewrite Z.min_r by lia. rewrite !take_ge; [done|rewrite length_drop; lia..]. }
      eapply (substring_from w text texts b c (m_is8Bit (builder w)) rest start n Hok Hcell); try done; try lia; [by apply references_buffer| |apply (ok_units _ _ _ Hok)|].
      * left. eapply (buffer_same_width w text texts); [done|exact Hc|left; by intros ->].
      * unfold part. rewrite Htext, drop_app_le, take_app_le by (rewrite ?length_drop, ?length_map; lia). by rewrite skipn_map, firstn_map.
Qed.

(** ** Shortening *)

Lemma open_take w is8 text n texts k : openFor w is8 text n texts -> openFor w is8 (take k text) n texts.
Proof.
  intros [H1 H2 H3 (a & rest & Hb & Hp & Hso & Hc & Hn & Hcap)]. split; try done. exists a, (map Some (drop k text) ++ rest).
  rewrite app_assoc, <- map_app, take_drop, length_app, length_map, length_drop, length_take. split_and!; try done; lia.
Qed.

(** The states in which a builder can be made shorter: the pointer to the characters of its
    buffer is the right one, or a copy is made. *)
Definition resizable (w : BuilderWorld) : bool :=
  match m_buffer (builder w) with
  | Some b => bool_decide (m_bufferCharacters (builder w) = Some b)
  | None => match m_string (builder w) with Some s => negb (bool_decide (references s w = 1%nat)) | None => true end
  end.

Lemma resize_buffer w text texts b c rest n :
  builderOk w text texts -> m_buffer (builder w) = Some b -> bufferOf w text b c rest -> m_bufferCharacters (builder w) = Some b -> text <> [] ->
  wp (StringBuilder.setBuilder (fun b => b <| m_string := None |>);;
      one ← StringBuilder.hasOneRef b;
      c ← StringBuilder.cell b;
      when (negb one) (StringBuilder.allocateBuffer (c_is8Bit c) (Some b) (c_length c)))
    (fun _ w' => openFor w' (m_is8Bit (builder w)) (take n text) 0 texts) w.
Proof.
  intros Hok Hb Hc Hp Hne. pose proof (buffer_same_width w text texts b c rest Hok Hc (or_introl Hne)) as Hci.
  pose proof Hc as [Hcell Htext Hroom Hwidth Hcap]. pose proof (buffer_length _ _ _ _ _ Hc) as Hlen. assert (length text <> 0%nat) by (by destruct text).
  apply wp_bind, wp_set. set (w1 := w <| builder := _ |>). assert (memoryOk w1 texts) as Hm1 by (apply memory_builder, Hok).
  apply wp_bind, wp_gets, wp_bind, (wp_cell b c); [done|by apply references_buffer|]. destruct (bool_decide (references b w1 = 1%nat)) eqn:E1.
  - apply wp_when; [done|]. intros _. apply open_take. apply bool_decide_eq_true, references_sole in E1; [|done].
    split; try done. exists b, rest. split_and!; try done; [change (cells w1) with (cells w); rewrite Hcell, <- Htext, <- Hci; by destruct c|lia|rewrite <- Hci; lia].
  - apply wp_when; [|done]. intros _. eapply wp_mono; [eapply (allocateBuffer_opens w1 (c_is8Bit c) text (Some b) (c_length c) 0 texts); try done; try lia|].
    + apply (ok_length _ _ _ Hok).
    + right. exists b, c, rest. split_and!; try done. by apply references_buffer.
    + intros _ w' (Ho & _). rewrite <- Hci. by apply open_take.
Qed.

Lemma resize_ok w text texts n :
  builderOk w text texts -> 0 <= n <= Z.of_nat (length text) -> n = Z.of_nat (length text) \/ resizable w = true ->
  wp (StringBuilder.resize n) (fun _ w' => becomes w (take (Z.to_nat n) text) texts w') w.
Proof.
  intros Hok Hn Hre. unfold StringBuilder.resize. apply wp_bind, wp_get. rewrite (ok_length _ _ _ Hok).
  destruct (Z.eqb_spec n (Z.of_nat (length text))) as [->|Hlt]; [apply wp_ret; by rewrite Nat2Z.id, firstn_all|].
  destruct Hre as [?|Hre]; [done|]. unfold resizable in Hre. pose proof (ok_bound _ _ _ Hok) as Hmax.
  assert (unitsOf (m_is8Bit (builder w)) (take (Z.to_nat n) text)) as Hu.
  { pose proof (ok_units _ _ _ Hok) as Hu. destruct (m_is8Bit (builder w)); by apply Forall_take. }
  assert (Z.of_nat (length (take (Z.to_nat n) text)) = n) as Hlen by (rewrite length_take; lia).
  apply wp_bind, wp_get. destruct (m_buffer (builder w)) as [b|] eqn:Eb.
  - apply bool_decide_eq_true in Hre. destruct (ok_buffer _ _ _ Hok b Eb) as (c & rest & Hc).
    assert (text <> []) as Hne by (intros ->; cbn in *; lia). pose proof (resize_buffer w text texts b c rest (Z.to_nat n) Hok Eb Hc Hre Hne) as Hw.
    unfold wp, mbind, M_bind in *. destruct (StringBuilder.setBuilder _ _) as [[[] w1]|]; [|done]. destruct (StringBuilder.hasOneRef _ _) as [[one w2]|]; [|done].
    destruct (StringBuilder.cell _ _) as [[c' w3]|]; [|done]. destruct (when _ _ _) as [[[] w4]|]; [|done]. cbn.
    split; [|cbn; apply (open_width _ _ _ _ _ Hw)]. eapply open_ok; [by apply open_length|cbn; lia|lia|done].
  - apply wp_bind, wp_get. destruct (m_string (builder w)) as [s|] eqn:Es; [|rewrite (ok_somewhere _ _ _ Hok Es Eb) in *; cbn in *; lia].
    apply wp_bind, wp_ret, wp_bind, wp_gets. rewrite (bool_decide_eq_false_2 (references s w = 1%nat)) by (by apply negb_true_iff, bool_decide_eq_false in Hre).
    destruct (ok_string _ _ _ Hok s Es) as (is8 & Hc & [->|Hi]); [cbn in *; lia|]. apply wp_bind. unfold maxText in Hmax.
    eapply wp_mono; [eapply (substringImpl_ok w texts s _ 0 n (ok_memory _ _ _ Hok) Hc); [by apply references_string|lia|lia|]|].
    + rewrite c_length_text. unfold maxCapacity. cbn. destruct is8; lia.
    + intros r w' (He & (is8' & Hr & Hw) & _). apply wp_set. split; [|cbn; by rewrite (extends_builder _ _ He)].
      cbn [c_characters] in *. rewrite part_map in *. unfold part in *. rewrite drop_0 in *. split; cbn; rewrite ?(extends_builder _ _ He); try done.
      * apply memory_builder. eapply extends_memory; [apply Hok|done].
      * rewrite Hlen. unfold maxText. lia.
      * intros a [= <-]. eexists _, []. split; cbn; [exact Hr|by rewrite app_nil_r|done| |].
        -- destruct Hw as [->|[-> ->]]; [left; by rewrite Hi|by right].
        -- rewrite c_length_text, Hlen. unfold maxCapacity. cbn. destruct is8'; lia.
Qed.

(** ** The rest *)

Lemma clear_ok w text texts : builderOk w text texts -> wp StringBuilder.clear (fun _ w' => builderOk w' [] texts /\ m_is8Bit (builder w') = true) w.
Proof. intros Hok. apply wp_set. split; [|done]. split; cbn; try done; [apply memory_builder, Hok|constructor]. Qed.

Lemma at_ok w text texts i :
  builderOk w text texts -> 0 <= i < Z.of_nat (length text) ->
  wp (StringBuilder.at_ i) (fun c w' => c = text !! Z.to_nat i /\ w' = w) w.
Proof.
  intros Hok Hi. unfold StringBuilder.at_. apply wp_bind, wp_get, wp_bind, wp_get, wp_bind, wp_get, wp_bind.
  assert (text <> []) as Hne by (intros ->; cbn in *; lia).
  assert (exists a c rest, (if StringBuilder.isNull (m_string (builder w)) then m_buffer (builder w) else m_string (builder w)) = Some a /\
    cells w !! a = Some c /\ references a w <> 0%nat /\ c_is8Bit c = m_is8Bit (builder w) /\ c_characters c = map Some text ++ rest)
    as (a & c & rest & -> & Hc & Hr & Hw & Ht).
  { destruct (m_string (builder w)) as [s|] eqn:Es.
    - destruct (ok_string _ _ _ Hok s Es) as (is8 & Hc & [->|Hi8]); [done|]. exists s, (mkCell is8 (map Some text)), [].
      split_and!; try done; [by apply references_string|by rewrite app_nil_r].
    - destruct (m_buffer (builder w)) as [b|] eqn:Eb; [|by destruct (Hne (ok_somewhere _ _ _ Hok Es Eb))].
      destruct (ok_buffer _ _ _ Hok b Eb) as (c & rest & Hc). exists b, c, rest.
      split_and!; try apply Hc; [done|by apply references_buffer|]. by eapply (buffer_same_width w text texts); [|exact Hc|left]. }
  apply (wp_read _ a c); try done; [unfold c_length; rewrite Ht, length_app, length_map; lia|]. apply wp_ret. split; [|done].
  rewrite Ht, lookup_take_lt, lookup_app_l by (rewrite ?length_map; lia). rewrite list_lookup_fmap. by destruct (text !! _).
Qed.

Lemma newString_ok w text texts is8 characters :
  builderOk w text texts -> unitsOf is8 characters -> Z.of_nat (length characters) <= maxText ->
  wp (StringBuilder.newString is8 characters) (fun _ w' => becomes w text (texts ++ [Some characters]) w' /\
    (is8 = true -> exists a, held w' = held w ++ [Some a] /\ stringAt w' a true characters)) w.
Proof.
  intros Hok Hu Hmax. unfold StringBuilder.newString. apply wp_bind. destruct (decide (characters = [])) as [->|Hne].
  - apply wp_ret, wp_modify. split.
    2:{ intros _. exists emptyString. split; [done|]. split; [apply (memory_empty _ _ (ok_memory _ _ _ Hok))|by split; [constructor|]]. }
    split; [|done]. apply (hold_ok w text texts emptyString true); [done|split; [apply (memory_empty _ _ (ok_memory _ _ _ Hok))|by split; [constructor|]]|].
    intros c rest _ Hc. pose proof (buffer_cell _ _ _ _ _ Hc) as Hc'. rewrite (memory_empty _ _ (ok_memory _ _ _ Hok)) in Hc'. injection Hc' as <-.
    pose proof (buffer_text _ _ _ _ _ Hc). by destruct text.
  - assert (length characters <> 0%nat) by (by destruct characters). unfold maxText in Hmax.
    apply wp_createFrom; [lia|by rewrite length_map|unfold maxCapacity; destruct is8; lia|]. apply wp_modify. split.
    2:{ intros ->. exists (nextCell w). split; [done|]. split; [|done]. cbn. by rewrite lookup_insert_eq, Nat2Z.id, length_map, Nat.sub_diag, app_nil_r. }
    split; [|done]. pose proof (created_extends w texts (mkCell is8 (map Some characters ++ replicate (Z.to_nat (Z.of_nat (length characters)) - length (map Some characters)) None)) (ok_memory _ _ _ Hok)) as He.
    apply (hold_ok _ text texts (nextCell w) is8); [by eapply extends_ok|split; [|done]|].
    + cbn. rewrite lookup_insert_eq, Nat2Z.id, length_map, Nat.sub_diag, app_nil_r. done.
    + intros c rest Hb _. cbn in Hb. destruct (ok_buffer _ _ _ Hok _ Hb) as (c' & r & Hc'). pose proof (buffer_cell _ _ _ _ _ Hc') as Hx.
      by rewrite (memory_fresh _ _ (ok_memory _ _ _ Hok)) in Hx.
Qed.

Lemma dropString_ok w text texts i :
  builderOk w text texts -> wp (StringBuilder.dropString i) (fun _ w' => becomes w text (<[i := None]> texts) w') w.
Proof.
  intros [Hm Hl Hb Hu Hs Hbuf Hn]. apply wp_modify. split; [|done]. split; try done.
  - destruct Hm as [H1 H2 H3]. split; try done. cbn. by apply Forall2_insert.
  - intros a Ha. destruct (Hbuf a Ha) as (c & rest & [H1 H2 H3 H4 H5]). exists c, rest. split; try done. intros Hr. destruct (H3 Hr) as ((Hs1 & Hs2 & Hs3) & Hrest).
    split; [|done]. split; [done|]. split; [|done]. cbn. intros Hin. apply Hs2. apply list_elem_of_lookup in Hin as [j Hj].
    destruct (decide (i = j)) as [->|Hne].
    + apply list_lookup_insert_Some in Hj as [(_ & ? & _)|(? & _)]; done.
    + rewrite list_lookup_insert_ne in Hj by done. by eapply list_elem_of_lookup_2.
Qed.
