(* ===== verification/StringBuilderTheorems.v ===== *)
(** * What a builder promises

    A builder is a text that grows: its operations never touch memory that is not theirs,
    its text is what was appended, and the strings that it gave away, and those that it was
    given, stay as they were.  Four uses that its interface allows break this. *)

From S2P Require Import Prelude WTFString UTF8 StringBuilders StringBuilderFacts StringBuilderOps.

(** ** Operations *)

(** The operations of a builder and of its clients, who name strings by the order in which
    they came. *)
Inductive builderOp :=
  | BNewString (is8 : bool) (characters : ustring)
  | BDropString (i : nat)
  | BAppend8 (characters : ustring)
  | BAppend16 (characters : ustring)
  | BAppendUChar (c : Z)
  | BAppendLChar (c : Z)
  | BAppendUChar32 (c : Z)
  | BAppendString (i : nat)
  | BAppendRange (i : nat) (offset length : Z)
  | BAppendNumber (number : Z)
  | BAppendDouble (result : ustring)
  | BReserveCapacity (newCapacity : Z)
  | BResize (newSize : Z)
  | BShrinkToFit
  | BClear
  | BToString
  | BSubstring (position length : Z).

Definition performBuilder (o : builderOp) : Building unit :=
  match o with
  | BNewString is8 characters => StringBuilder.newString is8 characters
  | BDropString i => StringBuilder.dropString i
  | BAppend8 characters => StringBuilder.append8 characters
  | BAppend16 characters => StringBuilder.append16 characters
  | BAppendUChar c => StringBuilder.appendUChar c
  | BAppendLChar c => StringBuilder.appendLChar c
  | BAppendUChar32 c => StringBuilder.appendUChar32 c
  | BAppendString i => string ← gets (fun w => mjoin (held w !! i)); StringBuilder.appendString string
  | BAppendRange i offset length => string ← gets (fun w => mjoin (held w !! i)); StringBuilder.appendRange string offset length
  | BAppendNumber number => StringBuilder.appendNumber number
  | BAppendDouble result => StringBuilder.appendDouble result
  | BReserveCapacity n => StringBuilder.reserveCapacity n
  | BResize n => StringBuilder.resize n
  | BShrinkToFit => StringBuilder.shrinkToFit
  | BClear => StringBuilder.clear
  | BToString => StringBuilder.toString
  | BSubstring position length => StringBuilder.substring position length
  end.

(** The text of a string that came; null strings have none. *)
Definition textAt (texts : list (option ustring)) (i : nat) : ustring := default [] (mjoin (texts !! i)).

(** What is appended. *)
Definition appended (o : builderOp) (texts : list (option ustring)) : ustring :=
  match o with
  | BAppend8 characters | BAppend16 characters => characters
  | BAppendUChar c | BAppendLChar c => [c]
  | BAppendUChar32 c => unitsOfChar c
  | BAppendString i => textAt texts i
  | BAppendRange i offset length => rangeOf (textAt texts i) offset length
  | BAppendNumber number => String_number number
  | BAppendDouble result => result
  | _ => []
  end.

(** The text and the strings after an operation. *)
Definition specBuilder (o : builderOp) (text : ustring) (texts : list (option ustring)) : ustring * list (option ustring) :=
  match o with
  | BNewString _ characters => (text, texts ++ [Some characters])
  | BDropString i => (text, <[i := None]> texts)
  | BResize n => (take (Z.to_nat n) text, texts)
  | BClear => ([], texts)
  | BToString => (text, texts ++ [Some text])
  | BSubstring position length => (text, texts ++ [Some (part position length text)])
  | _ => (text ++ appended o texts, texts)
  end.

(** The room that an operation needs for a moment. *)
Definition room (o : builderOp) (texts : list (option ustring)) : nat :=
  match o with
  | BNewString _ characters => length characters
  | BAppendUChar32 _ => 2
  | BAppendRange i _ _ => length (textAt texts i)
  | BAppendDouble _ => 96
  | _ => length (appended o texts)
  end.

(** Arguments of the right types, texts that are not too long, and two conditions that
    the code does not check: an empty builder with 16-bit characters must not reserve
    capacity, and one that has the only reference to its string, or whose buffer was copied
    by [resize], must not be made shorter. *)
Definition allowedBuilder (o : builderOp) (w : BuilderWorld) (texts : list (option ustring)) : Prop :=
  m_length (builder w) + Z.of_nat (room o texts) <= maxText /\
  match o with
  | BNewString is8 characters => unitsOf is8 characters
  | BAppend8 characters => latin1 characters
  | BAppend16 characters => is_ustring characters
  | BAppendUChar c => is_unit c
  | BAppendLChar c => 0 <= c < 256
  | BAppendUChar32 c => 0 <= c < 0x110000
  | BAppendRange _ offset length => 0 <= offset < 2 ^ 32 /\ 0 <= length < 2 ^ 32
  | BAppendDouble result => latin1 result /\ (length result <= 96)%nat
  | BReserveCapacity n => 0 <= n <= maxText /\ (m_length (builder w) <> 0 \/ m_is8Bit (builder w) = true)
  | BResize n => 0 <= n <= m_length (builder w) /\ (n = m_length (builder w) \/ resizable w = true)
  | BSubstring position length => 0 <= position <= m_length (builder w) /\ 0 <= length < 2 ^ 32
  | _ => True
  end.

(** Whether a string that came has 8-bit characters. *)
Definition narrowString (w : BuilderWorld) (i : nat) : bool :=
  match mjoin (held w !! i) ≫= fun a => cells w !! a with Some c => c_is8Bit c | None => true end.

(** Whether an operation appends only 8-bit characters, as such. *)
Definition narrowOp (o : builderOp) (w : BuilderWorld) : bool :=
  match o with
  | BAppend16 [c] | BAppendUChar c | BAppendUChar32 c => c <? 256
  | BAppend16 characters => bool_decide (characters = [])
  | BAppendString i | BAppendRange i _ _ => narrowString w i
  | _ => true
  end.

(** The states of a builder, with its text, the strings that came, and whether it got only
    8-bit characters since it was new or cleared. *)
Inductive builderRuns : BuilderWorld -> ustring -> list (option ustring) -> bool -> Prop :=
  | builder_new : builderRuns StringBuilder.new [] [] true
  | builder_step w text texts narrow o w' :
      builderRuns w text texts narrow -> allowedBuilder o w texts -> performBuilder o w = Done (tt, w') ->
      builderRuns w' (specBuilder o text texts).1 (specBuilder o text texts).2
        (match o with BClear => true | _ => narrow && narrowOp o w end).

(** ** One step *)

Lemma String_number_latin1 z : latin1 (String_number z).
Proof.
  assert (forall n, 0 <= n -> latin1 (numberToStringUnsigned n)) as Hu.
  { intros n Hn. destruct (numberToStringUnsigned_spec n Hn) as (Hd & _). apply (Forall_impl _ _ _ Hd). intros c Hc. unfold isDigit in Hc. zprop. lia. }
  unfold String_number, numberToStringSigned. destruct (Z.ltb_spec z 0); [|by apply Hu]. constructor; [done|]. apply Hu. lia.
Qed.

Lemma held_string w text texts i :
  builderOk w text texts ->
  match mjoin (held w !! i) with
  | Some a => Some a ∈ held w /\ exists is8, stringAt w a is8 (textAt texts i)
  | None => textAt texts i = []
  end.
Proof.
  intros Hok. pose proof (memory_held _ _ (ok_memory _ _ _ Hok)) as Hh. unfold textAt. destruct (held w !! i) as [h|] eqn:Eh; cbn.
  - destruct (Forall2_lookup_l _ _ _ _ _ Hh Eh) as (t & -> & Ht). destruct h as [a|], t as [text'|]; cbn in *; try done.
    split; [by eapply list_elem_of_lookup_2|done].
  - apply Forall2_length in Hh. apply lookup_ge_None in Eh. by rewrite lookup_ge_None_2 by lia.
Qed.

Lemma narrow_string w a is8 t i : mjoin (held w !! i) = Some a -> stringAt w a is8 t -> narrowString w i = is8.
Proof. intros Ha (Hc & _). unfold narrowString. rewrite Ha. cbn. by rewrite Hc. Qed.

(** What a step guarantees. *)
Definition stepOk (o : builderOp) (w : BuilderWorld) (text : ustring) (texts : list (option ustring)) (w' : BuilderWorld) : Prop :=
  builderOk w' (specBuilder o text texts).1 (specBuilder o text texts).2 /\
  (narrowOp o w = true -> m_is8Bit (builder w) = true -> m_is8Bit (builder w') = true).

Lemma step_becomes o w text texts w' text' texts' :
  becomes w text' texts' w' -> specBuilder o text texts = (text', texts') -> stepOk o w text texts w'.
Proof. intros [H1 H2] E. unfold stepOk. rewrite E. split; [done|congruence]. Qed.

Lemma step_strings o w text texts i :
  builderOk w text texts -> allowedBuilder o w texts -> (o = BAppendString i \/ exists offset length, o = BAppendRange i offset length) ->
  wp (performBuilder o) (fun _ w' => stepOk o w text texts w') w.
Proof.
  intros Hok [Hr Ha] Ho. pose proof (ok_length _ _ _ Hok) as Hl. pose proof (held_string w text texts i Hok) as Hs.
  assert (forall o', textAt texts i = [] -> (o' = BAppendString i \/ exists offset length, o' = BAppendRange i offset length) -> stepOk o' w text texts w) as Hnone.
  { intros o' Et Ho'. split; [|done]. destruct Ho' as [->|(off & len & ->)]; cbn; rewrite Et; [by rewrite app_nil_r|].
    unfold rangeOf. rewrite drop_nil, take_nil. destruct (_ <=? _); by rewrite app_nil_r. }
  destruct Ho as [->|(offset & len & ->)]; cbn [performBuilder room appended allowedBuilder] in *; apply wp_bind, wp_gets;
    destruct (mjoin (held w !! i)) as [a|] eqn:Eh; try (apply wp_ret, Hnone; [done|eauto]); destruct Hs as [Hin (is8 & Hs)].
  - eapply wp_mono; [apply (appendString_ok w text texts a is8 (textAt texts i)); [done..|lia]|]. intros _ w' [H1 H2]. split; [done|].
    cbn. rewrite (narrow_string w a is8 _ i Eh Hs). done.
  - eapply wp_mono; [apply (appendRange_ok w text texts a is8 (textAt texts i)); [done..|apply Ha|apply Ha|lia]|]. intros _ w' [H1 H2]. split; [done|].
    cbn. rewrite (narrow_string w a is8 _ i Eh Hs). intros Hi8 Hb. by rewrite H2.
Qed.

Lemma step_builder o w text texts :
  builderOk w text texts -> allowedBuilder o w texts -> wp (performBuilder o) (fun _ w' => stepOk o w text texts w') w.
Proof.
  intros Hok Hal. pose proof Hal as [Hr Ha]. pose proof (ok_length _ _ _ Hok) as Hl. rewrite Hl in Hr.
  destruct o as [is8 cs|i|cs|cs|c|c|c|i|i off len|z|cs|n|n| | | |pos len]; cbn [performBuilder room appended] in *.
  - eapply wp_mono; [apply newString_ok; [done..|lia]|]. intros ? w' [Hb _]. eapply step_becomes; [exact Hb|done].
  - eapply wp_mono; [by apply dropString_ok|]. intros ? w' Hb. eapply step_becomes; [exact Hb|done].
  - eapply wp_mono; [apply append8_ok; [done..|lia]|]. intros ? w' Hb. eapply step_becomes; [exact Hb|done].
  - eapply wp_mono; [apply append16_ok; [done..|lia]|]. intros _ w' [H1 H2]. split; [done|].
    destruct cs as [|c [|]]; cbn; try done; [intros _ Hb; by rewrite H2|intros Hc%Z.ltb_lt Hb; by rewrite H2].
  - eapply wp_mono; [apply appendUChar_ok; [done..|cbn in *; lia]|]. intros _ w' [H1 H2]. split; [done|]. intros Hc%Z.ltb_lt Hb. by rewrite H2.
  - eapply wp_mono; [apply appendLChar_ok; [done..|cbn in *; lia]|]. intros ? w' Hb. eapply step_becomes; [exact Hb|done].
  - eapply wp_mono; [apply appendUChar32_ok; [done..|lia]|]. intros _ w' [H1 H2]. split; [done|]. intros Hc%Z.ltb_lt Hb. by rewrite H2.
  - apply (step_strings (BAppendString i) w text texts i); [done..|by left].
  - apply (step_strings (BAppendRange i off len) w text texts i); [done..|right; eauto].
  - eapply wp_mono; [apply append8_ok; [done|apply String_number_latin1|lia]|]. intros ? w' Hb. eapply step_becomes; [exact Hb|done].
  - destruct Ha. eapply wp_mono; [apply appendDouble_ok; [done..|lia]|]. intros ? w' Hb. eapply step_becomes; [exact Hb|done].
  - destruct Ha as [Hn Hne]. eapply wp_mono; [apply reserveCapacity_ok; [done| |done]|].
    + destruct Hne as [Hne|]; [left; intros ->; cbn in *; lia|by right].
    + intros ? w' Hb. eapply step_becomes; [exact Hb|]. cbn. by rewrite app_nil_r.
  - destruct Ha as [Hn Hre]. rewrite Hl in *. eapply wp_mono; [by apply resize_ok|]. intros ? w' Hb. eapply step_becomes; [exact Hb|done].
  - eapply wp_mono; [by apply shrinkToFit_ok|]. intros _ w' [Hb _]. eapply step_becomes; [exact Hb|]. cbn. by rewrite app_nil_r.
  - eapply wp_mono; [by eapply clear_ok|]. intros _ w' [H1 H2]. by split.
  - eapply wp_mono; [by apply toString_ok|]. intros ? w' [Hb _]. eapply step_becomes; [exact Hb|done].
  - destruct Ha. rewrite Hl in *. eapply wp_mono; [by apply substring_ok|]. intros ? w' Hb. eapply step_becomes; [exact Hb|done].
Qed.

Lemma new_ok : builderOk StringBuilder.new [] [].
Proof.
  split; try done; [|constructor]. split; [|done|constructor]. intros a Ha. apply lookup_singleton_ne. unfold emptyString. cbn in Ha. lia.
Qed.

Lemma builderRuns_ok w text texts narrow :
  builderRuns w text texts narrow -> builderOk w text texts /\ (narrow = true -> m_is8Bit (builder w) = true).
Proof.
  induction 1 as [|w text texts narrow o w' _ [Hok Hn] Hal Hp]; [split; [apply new_ok|done]|].
  pose proof (step_builder o w text texts Hok Hal) as Hs. unfold wp in Hs. rewrite Hp in Hs. destruct Hs as [Hok' Hn']. split; [done|].
  destruct o; try (intros [? ?]%andb_prop; auto). cbn in Hp. injection Hp as <-. done.
Qed.


(** A text and its string, 16-bit characters after that, and a part of it. *)
Definition sampleOps : list builderOp := [BAppend8 (u "ab"); BToString; BAppendLChar 99].

Definition afterSample (n : nat) : BuilderWorld :=
  foldl (fun w o => match performBuilder o w with Done (_, w') => w' | Crash => w end) StringBuilder.new (take n sampleOps).

Lemma sample_runs : builderRuns (afterSample 3) (u "abc") [Some (u "ab")] true.
Proof.
  apply (builder_step (afterSample 2) (u "ab") [Some (u "ab")] true (BAppendLChar 99)); [|done|vm_compute; reflexivity].
  apply (builder_step (afterSample 1) (u "ab") [] true BToString); [|done|vm_compute; reflexivity].
  apply (builder_step (afterSample 0) [] [] true (BAppend8 (u "ab"))); [apply builder_new| |vm_compute; reflexivity].
  split; [done|]. by repeat constructor.
Qed.


(** ** What the interface allows *)

(** The first string that a client makes. *)
Definition oneString (is8 : bool) (t : ustring) (b : Builder) (h : list (option nat)) : BuilderWorld :=
  mkBuilderWorld b (<[1%nat := mkCell is8 (map Some t)]> {[ emptyString := mkCell true [] ]}) 2 h.

Lemma seq_done {A} (m : Building unit) (k : Building A) w w' : m w = Done (tt, w') -> (m;; k) w = k w'.
Proof. unfold mbind, M_bind. by intros ->. Qed.

Lemma wp_exact (m : Building unit) w w' : wp m (fun _ w2 => w2 = w') w -> m w = Done (tt, w').
Proof. by intros ([] & w2 & -> & ->)%wp_done. Qed.

Lemma newString_first is8 t :
  t <> [] -> Z.of_nat (length t) <= maxText -> StringBuilder.newString is8 t StringBuilder.new = Done (tt, oneString is8 t StringBuilder.newBuilder [Some 1%nat]).
Proof.
  intros Hne Hmax. assert (length t <> 0%nat) by (by destruct t). apply wp_exact.
  apply wp_bind, wp_createFrom; [lia|by rewrite length_map|unfold maxText, maxCapacity in *; destruct is8; lia|]. apply wp_modify.
  by rewrite Nat2Z.id, length_map, Nat.sub_diag, app_nil_r.
Qed.

Lemma appendString_first is8 t :
  t <> [] -> StringBuilder.appendString (Some 1%nat) (oneString is8 t StringBuilder.newBuilder [Some 1%nat]) =
    Done (tt, oneString is8 t (mkBuilder (Some 1%nat) None None (Z.of_nat (length t)) is8) [Some 1%nat]).
Proof.
  intros Hne. assert (length t <> 0%nat) by (by destruct t). apply wp_exact. unfold StringBuilder.appendString.
  apply wp_bind, (wp_cell 1 (mkCell is8 (map Some t))); [apply lookup_insert_eq|by apply references_held, list_elem_of_here|].
  apply wp_bind, wp_get, wp_bind, wp_get. rewrite c_length_text, (proj2 (Z.eqb_neq _ _)) by lia. done.
Qed.

(** A string that the builder alone refers to becomes its buffer, without a pointer to
    the characters. *)
Lemma resize_retained is8 t n :
  0 <= n < Z.of_nat (length t) ->
  StringBuilder.resize n (oneString is8 t (mkBuilder (Some 1%nat) None None (Z.of_nat (length t)) is8) [None]) =
    Done (tt, oneString is8 t (mkBuilder None (Some 1%nat) None n is8) [None]).
Proof. intros Hn. unfold StringBuilder.resize, mbind, M_bind. cbn. by rewrite (proj2 (Z.eqb_neq _ _)) by lia. Qed.

Lemma append_after_resize is8 t n c :
  0 <= n < Z.of_nat (length t) -> StringBuilder.appendLChar c (oneString is8 t (mkBuilder None (Some 1%nat) None n is8) [None]) = Crash.
Proof.
  intros Hn. unfold StringBuilder.appendLChar, StringBuilder.hasRoom, mbind, M_bind, StringBuilder.get, gets, StringBuilder.cell.
  cbn [builder oneString m_buffer cells]. rewrite lookup_insert_eq. rewrite decide_False by (by apply references_buffer). rewrite c_length_text.
  cbn [m_length m_string StringBuilder.isNull]. by rewrite (proj2 (Z.ltb_lt _ _)) by lia.
Qed.

(** A builder whose string is taken over keeps its own width. *)
Lemma appendBuilder_width t :
  t <> [] -> StringBuilder.appendBuilder (mkBuilder (Some 1%nat) None None (Z.of_nat (length t)) false)
      (oneString false t StringBuilder.newBuilder [Some 1%nat]) =
    Done (tt, oneString false t (mkBuilder (Some 1%nat) None None (Z.of_nat (length t)) true) [Some 1%nat]).
Proof. intros Hne. destruct t; [done|]. done. Qed.

Lemma at_wrong_width t : StringBuilder.at_ 0 (oneString false t (mkBuilder (Some 1%nat) None None (Z.of_nat (length t)) true) [Some 1%nat]) = Crash.
Proof. reflexivity. Qed.

(** An empty builder of 16-bit characters that reserves capacity gets a buffer of 8-bit
    characters. *)
Definition wrongBuffer (c n : Z) : BuilderWorld :=
  mkBuilderWorld (mkBuilder None (Some 2%nat) (Some 2%nat) 0 false)
    (<[2%nat := mkCell true (replicate (Z.to_nat n) None)]> (<[1%nat := mkCell false [Some c]]> {[ emptyString := mkCell true [] ]})) 3 [Some 1%nat].

Lemma resize_shared c :
  StringBuilder.resize 0 (oneString false [c] (mkBuilder (Some 1%nat) None None 1 false) [Some 1%nat]) =
    Done (tt, oneString false [c] (mkBuilder None (Some emptyString) None 0 false) [Some 1%nat]).
Proof. reflexivity. Qed.

Lemma reserve_wrong c n :
  0 < n <= maxText ->
  StringBuilder.reserveCapacity n (oneString false [c] (mkBuilder None (Some emptyString) None 0 false) [Some 1%nat]) = Done (tt, wrongBuffer c n).
Proof.
  intros Hn. unfold maxText in Hn. apply wp_exact. unfold StringBuilder.reserveCapacity. apply wp_bind, wp_get, wp_bind, wp_get.
  apply wp_bind, (wp_cell emptyString (mkCell true [])); [done|done|]. apply wp_when; [|intros Hf%Z.ltb_ge; change (c_length (mkCell true [])) with 0 in Hf; lia]. intros _.
  unfold StringBuilder.reallocateBuffer. apply wp_bind, wp_set, wp_bind, wp_get, wp_bind, wp_ret, wp_bind.
  apply (wp_cell emptyString (mkCell true [])); [done|done|]. apply wp_bind, wp_gets. cbn [negb andb c_is8Bit].
  rewrite bool_decide_eq_false_2 by done. unfold StringBuilder.allocateBuffer. apply wp_bind, wp_get, wp_bind.
  change (wp (mret []) ?Q ?w) with (Q [] w). apply wp_bind, wp_createFrom; [lia|cbn; lia|unfold maxCapacity; lia|]. apply wp_set.
  cbn [length app]. by rewrite Nat.sub_0_r.
Qed.

Lemma append_wrong c n d : 0 < n -> StringBuilder.appendUChar d (wrongBuffer c n) = Crash.
Proof.
  intros Hn. unfold StringBuilder.appendUChar, StringBuilder.hasRoom, mbind, M_bind, StringBuilder.get, gets, StringBuilder.cell.
  cbn [builder wrongBuffer m_buffer cells]. rewrite lookup_insert_eq. rewrite decide_False by (by apply references_buffer).
  cbn [m_length m_string StringBuilder.isNull m_is8Bit]. unfold c_length. cbn [c_characters]. rewrite length_replicate, (proj2 (Z.ltb_lt _ _)) by lia.
  reflexivity.
Qed.

(** A part that begins after the text is made of what the buffer happens to hold. *)
Lemma substring_uninitialized c position length :
  1 < position < 16 -> 0 < length <= 16 ->
  exists w', (StringBuilder.append8 [c];; StringBuilder.substring position length) StringBuilder.new = Done (tt, w') /\
    exists a, held w' = [Some a] /\ cells w' !! a = Some (mkCell true (replicate (Z.to_nat (Z.min length (16 - position))) None)).
Proof.
  intros Hp Hl. assert (StringBuilder.append8 [c] StringBuilder.new = Done (tt, mkBuilderWorld (mkBuilder None (Some 1%nat) (Some 1%nat) 1 true)
    (<[1%nat := mkCell true (Some c :: replicate 15 None)]> {[ emptyString := mkCell true [] ]}) 2 [])) as Ha by reflexivity.
  rewrite (seq_done _ _ _ _ Ha). assert (Z.min length (wrapU 32 (1 - position)) = length) as Hmin.
  { unfold wrapU. rewrite <- (Z_mod_plus_full _ 1), Z.mod_small by lia. lia. }
  set (w := mkBuilderWorld _ _ _ _). assert (memoryOk w []) as Hm.
  { split; [|done|constructor]. intros a Hn. subst w. cbn [cells nextCell] in *. rewrite lookup_insert_ne, lookup_singleton_ne by (unfold emptyString; lia). done. }
  assert (wp (StringBuilder.substring position length) (fun _ w' => exists a, held w' = [Some a] /\
    cells w' !! a = Some (mkCell true (replicate (Z.to_nat (Z.min length (16 - position))) None))) w) as Hw.
  - unfold StringBuilder.substring. do 2 apply wp_bind, wp_get. change (m_string (builder w)) with (@None nat). cbn [m_length builder w].
    change (1 =? 0) with false. apply wp_bind, wp_get, wp_bind, wp_ret, wp_bind. rewrite Hmin.
    eapply wp_mono; [eapply (substringImpl_ok w [] 1 _ position length Hm); [apply lookup_insert_eq|done|lia|lia|done]|].
    intros r w' (He & (is8 & Hc & Hi) & _). apply wp_modify. exists r. cbn. rewrite (extends_held _ _ He). split; [done|].
    cbn [c_characters c_is8Bit] in Hc, Hi. assert (part position length (Some c :: replicate 15 None) = replicate (Z.to_nat (Z.min length (16 - position))) None) as Ep.
    { unfold part. replace (Z.to_nat position) with (S (Z.to_nat (position - 1))) by lia. cbn [drop]. rewrite drop_replicate, take_replicate. f_equal. lia. }
    rewrite Ep in *. assert (is8 = true) as -> by (by destruct Hi as [->|[_ ->]]). done.
  - by apply wp_done in Hw as ([] & w' & Hp' & Hw'); exists w'.
Qed.

(** C38 Four uses of a builder that nothing forbids.  Made shorter while it has the only
    reference to the string that it was given, it then appends through a null pointer.  With
    16-bit characters, emptied and given capacity, it gets a buffer for 8-bit characters,
    and the next character is written with the wrong width.  New and given another builder
    with a 16-bit string, it takes the string over as one of 8-bit characters.  Asked for
    a part that begins after its text, it answers with memory that nobody has written. *)
Theorem builder_misuse :
  (forall is8 t n c, 0 <= n < Z.of_nat (length t) -> Z.of_nat (length t) <= maxText ->
     (StringBuilder.newString is8 t;; StringBuilder.appendString (Some 1%nat);; StringBuilder.dropString 0;; StringBuilder.resize n;;
      StringBuilder.appendLChar c) StringBuilder.new = Crash) /\
  (forall c d n, 0 < n <= maxText ->
     (StringBuilder.newString false [c];; StringBuilder.appendString (Some 1%nat);; StringBuilder.resize 0;; StringBuilder.reserveCapacity n;;
      StringBuilder.appendUChar d) StringBuilder.new = Crash) /\
  (forall t, t <> [] -> Z.of_nat (length t) <= maxText ->
     exists w, (StringBuilder.newString false t;; StringBuilder.appendBuilder (mkBuilder (Some 1%nat) None None (Z.of_nat (length t)) false))
       StringBuilder.new = Done (tt, w) /\ m_is8Bit (builder w) = true /\ StringBuilder.at_ 0 w = Crash) /\
  (forall c position length, 1 < position < 16 -> 0 < length <= 16 ->
     exists w, (StringBuilder.append8 [c];; StringBuilder.substring position length) StringBuilder.new = Done (tt, w) /\
       exists a, held w = [Some a] /\ cells w !! a = Some (mkCell true (replicate (Z.to_nat (Z.min length (16 - position))) None))).
Proof.
  split; [|split; [|split]].
  - intros is8 t n c Hn Hmax. assert (t <> []) as Hne by (intros ->; cbn in Hn; lia). rewrite (seq_done _ _ _ _ (newString_first is8 t Hne Hmax)).
    rewrite (seq_done _ _ _ _ (appendString_first is8 t Hne)).
    assert (forall b, StringBuilder.dropString 0 (oneString is8 t b [Some 1%nat]) = Done (tt, oneString is8 t b [None])) as Hd by done.
    rewrite (seq_done _ _ _ _ (Hd _)), (seq_done _ _ _ _ (resize_retained is8 t n Hn)). by apply append_after_resize.
  - intros c d n Hn. rewrite (seq_done _ _ _ _ (newString_first false [c] ltac:(done) ltac:(done))).
    rewrite (seq_done _ _ _ _ (appendString_first false [c] ltac:(done))). change (Z.of_nat (length [c])) with 1.
    rewrite (seq_done _ _ _ _ (resize_shared c)), (seq_done _ _ _ _ (reserve_wrong c n Hn)). apply append_wrong. lia.
  - intros t Hne Hmax. rewrite (seq_done _ _ _ _ (newString_first false t Hne Hmax)), (appendBuilder_width t Hne). eexists. split; [done|].
    split; [done|apply at_wrong_width].
  - exact substring_uninitialized.
Qed.

Lemma builder_misuse_witness :
  (StringBuilder.newString true (u "abc");; StringBuilder.appendString (Some 1%nat);; StringBuilder.dropString 0;; StringBuilder.resize 1;;
   StringBuilder.appendLChar 0x78) StringBuilder.new = Crash /\
  (StringBuilder.newString false [0x20AC];; StringBuilder.appendString (Some 1%nat);; StringBuilder.resize 0;; StringBuilder.reserveCapacity 8;;
   StringBuilder.appendUChar 0x20AC) StringBuilder.new = Crash.
Proof.
  split.
  - apply (proj1 builder_misuse); [split; [discriminate|reflexivity]|discriminate].
  - apply (proj1 (proj2 builder_misuse)). split; [reflexivity|discriminate].
Defined.
