(* ===== verification/DecimalNumber.v ===== *)
(** * Decimal floating point ([platform/Decimal.cpp])

    The class behind the number texts of the protocol: a JSON number is
    written as [Decimal::fromDouble(d).toString()].  64-bit unsigned
    arithmetic wraps where the code can overflow. *)

From S2P Require Import Prelude Platform WTFString.

Definition ExponentMax : Z := 1023.
Definition ExponentMin : Z := -1023.
Definition Precision : Z := 18.
Definition MaxCoefficient : Z := 999999999999999999.

Definition u64 (z : Z) : Z := wrapU 64 z.
Definition u32 (z : Z) : Z := wrapU 32 z.
Definition uint64_max : Z := 18446744073709551615.

(** ** 128-bit arithmetic *)

Module UInt128.

Record t := make { m_high : Z; m_low : Z }.

Definition highUInt32 (x : Z) : Z := u32 (Z.shiftr x 32).
Definition lowUInt32 (x : Z) : Z := u32 (Z.land x (Z.shiftl 1 32 - 1)).
Definition makeUInt64 (low high : Z) : Z := Z.lor low (Z.shiftl high 32).

Definition multiplyHigh (a b : Z) : Z :=
  let uLow := lowUInt32 a in
  let uHigh := highUInt32 a in
  let vLow := lowUInt32 b in
  let vHigh := highUInt32 b in
  let partialProduct := u64 (u64 (uHigh * vLow) + highUInt32 (u64 (uLow * vLow))) in
  u64 (u64 (u64 (uHigh * vHigh) + highUInt32 partialProduct)
       + highUInt32 (u64 (u64 (uLow * vHigh) + lowUInt32 partialProduct))).

Definition multiply (a b : Z) : t := {| m_high := multiplyHigh a b; m_low := u64 (a * b) |}.

(** One turn of the long-division loop: quotient digit and new remainder. *)
Definition divStep (divisor digit remainder : Z) : Z * Z :=
  let work := makeUInt64 digit remainder in
  (u32 (work / divisor), u32 (work mod divisor)).

Definition divide (x : t) (divisor : Z) : t :=
  if m_high x =? 0 then {| m_high := 0; m_low := m_low x / divisor |}
  else
    let '(q3, r3) := divStep divisor (highUInt32 (m_high x)) 0 in
    let '(q2, r2) := divStep divisor (lowUInt32 (m_high x)) r3 in
    let '(q1, r1) := divStep divisor (highUInt32 (m_low x)) r2 in
    let '(q0, r0) := divStep divisor (lowUInt32 (m_low x)) r1 in
    {| m_high := makeUInt64 q2 q3; m_low := makeUInt64 q0 q1 |}.

Definition value (x : t) : Z := m_high x * 2 ^ 64 + m_low x.

End UInt128.

(** ** Digit counting and scaling *)

(** The for loop; it leaves through the [break] at the latest for
    [powerOfTen] = 10^19, its twentieth turn. *)
Fixpoint countDigitsLoop (fuel : nat) (x powerOfTen numberOfDigits : Z) : Z :=
  match fuel with
  | O => numberOfDigits
  | S fuel' =>
      if x <? powerOfTen then numberOfDigits
      else if uint64_max / 10 <=? powerOfTen then numberOfDigits + 1
      else countDigitsLoop fuel' x (powerOfTen * 10) (numberOfDigits + 1)
  end.

Definition countDigits (x : Z) : Z := countDigitsLoop 20 x 1 0.

Fixpoint scaleDown (x : Z) (n : nat) : Z :=
  match n with
  | O => x
  | S n' => if x =? 0 then x else scaleDown (x / 10) n'
  end.

(** [n] is halved in each turn. *)
Fixpoint scaleUpLoop (fuel : nat) (x y z n : Z) : Z :=
  match fuel with
  | O => u64 (x * y)
  | S fuel' =>
      let y := if Z.odd n then u64 (y * z) else y in
      let n := Z.shiftr n 1 in
      if n =? 0 then u64 (x * y) else scaleUpLoop fuel' x y (u64 (z * z)) n
  end.

Definition scaleUp (x n : Z) : Z := scaleUpLoop (S (Z.to_nat (Z.log2 n))) x 1 10 n.

(** ** The representation *)

Inductive Sign := Positive | Negative.
Inductive FormatClass := ClassInfinity | ClassNormal | ClassNaN | ClassZero.

#[export] Instance Sign_eq_dec : EqDecision Sign.
Proof. solve_decision. Defined.
#[export] Instance FormatClass_eq_dec : EqDecision FormatClass.
Proof. solve_decision. Defined.

Record EncodedData := mkData {
  m_coefficient : Z;
  m_exponent : Z;
  m_formatClass : FormatClass;
  m_sign : Sign;
}.

#[export] Instance EncodedData_eq_dec : EqDecision EncodedData.
Proof. solve_decision. Defined.

(** A [Decimal] is its [EncodedData]. *)
Abbreviation Decimal := EncodedData.

Definition special (s : Sign) (c : FormatClass) : EncodedData := mkData 0 0 c s.

Definition infinity (s : Sign) : Decimal := special s ClassInfinity.
Definition nan : Decimal := special Positive ClassNaN.
Definition zero (s : Sign) : Decimal := special s ClassZero.

(** The normalizing loop of the constructor: at most two turns, since a
    64-bit coefficient has at most twenty digits. *)
Fixpoint shrink (fuel : nat) (exponent coefficient : Z) : Z * Z :=
  match fuel with
  | O => (exponent, coefficient)
  | S fuel' =>
      if MaxCoefficient <? coefficient then shrink fuel' (exponent + 1) (coefficient / 10)
      else (exponent, coefficient)
  end.

Definition encode (s : Sign) (exponent coefficient : Z) : EncodedData :=
  let cls := if coefficient =? 0 then ClassZero else ClassNormal in
  let '(exponent, coefficient) :=
    if (ExponentMin <=? exponent) && (exponent <=? ExponentMax)
    then shrink 2 exponent coefficient else (exponent, coefficient) in
  if ExponentMax <? exponent then special s ClassInfinity
  else if exponent <? ExponentMin then special s ClassZero
  else mkData coefficient exponent cls s.

Definition of_int32 (i : Z) : Decimal :=
  encode (if i <? 0 then Negative else Positive) 0 (if i <? 0 then - i else i).

Definition isSpecial (d : Decimal) : bool :=
  match m_formatClass d with ClassInfinity | ClassNaN => true | _ => false end.
Definition isFinite (d : Decimal) : bool := negb (isSpecial d).
Definition isNaN (d : Decimal) : bool := bool_decide (m_formatClass d = ClassNaN).
Definition isZero (d : Decimal) : bool := bool_decide (m_formatClass d = ClassZero).
Definition isNegative (d : Decimal) : bool := bool_decide (m_sign d = Negative).
Definition isPositive (d : Decimal) : bool := bool_decide (m_sign d = Positive).

Definition invertSign (s : Sign) : Sign :=
  match s with Negative => Positive | Positive => Negative end.

(** ** Special operands *)

Inductive HandleResult := BothFinite | BothInfinity | EitherNaN (value : Decimal) | LHSIsInfinity | RHSIsInfinity.

(** [SpecialValueHandler::handle] with, for NaN, its [value()]. *)
Definition handle (lhs rhs : Decimal) : HandleResult :=
  if isFinite lhs && isFinite rhs then BothFinite
  else match m_formatClass lhs, m_formatClass rhs with
  | ClassNaN, _ => EitherNaN lhs
  | _, ClassNaN => EitherNaN rhs
  | ClassInfinity, ClassInfinity => BothInfinity
  | ClassInfinity, _ => LHSIsInfinity
  | _, ClassInfinity => RHSIsInfinity
  | _, _ => BothFinite
  end.

(** ** Arithmetic *)

Definition opp (d : Decimal) : Decimal :=
  if isNaN d then d
  else mkData (m_coefficient d) (m_exponent d) (m_formatClass d) (invertSign (m_sign d)).

Record AlignedOperands := mkAligned { lhsCoefficient : Z; rhsCoefficient : Z; aligned_exponent : Z }.

Definition alignOperands (lhs rhs : Decimal) : AlignedOperands :=
  let lhsExponent := m_exponent lhs in
  let rhsExponent := m_exponent rhs in
  let exponent := Z.min lhsExponent rhsExponent in
  let lc := m_coefficient lhs in
  let rc := m_coefficient rhs in
  if rhsExponent <? lhsExponent then
    let numberOfLHSDigits := countDigits lc in
    if numberOfLHSDigits =? 0 then mkAligned lc rc exponent
    else
      let lhsShiftAmount := lhsExponent - rhsExponent in
      let overflow := numberOfLHSDigits + lhsShiftAmount - Precision in
      if overflow <=? 0 then mkAligned (scaleUp lc lhsShiftAmount) rc exponent
      else mkAligned (scaleUp lc (lhsShiftAmount - overflow))
             (scaleDown rc (Z.to_nat overflow)) (exponent + overflow)
  else if lhsExponent <? rhsExponent then
    let numberOfRHSDigits := countDigits rc in
    if numberOfRHSDigits =? 0 then mkAligned lc rc exponent
    else
      let rhsShiftAmount := rhsExponent - lhsExponent in
      let overflow := numberOfRHSDigits + rhsShiftAmount - Precision in
      if overflow <=? 0 then mkAligned lc (scaleUp rc rhsShiftAmount) exponent
      else mkAligned (scaleDown lc (Z.to_nat overflow))
             (scaleUp rc (rhsShiftAmount - overflow)) (exponent + overflow)
  else mkAligned lc rc exponent.

(** The common end of [operator+] and [operator-]: the difference of two
    coefficients as a wrapped [uint64_t], read back as an [int64_t]. *)
Definition fromSigned64 (lhsSign : Sign) (exponent result : Z) : Decimal :=
  if 0 <=? wrapS 64 result then encode lhsSign exponent result
  else encode (invertSign lhsSign) exponent (u64 (- wrapS 64 result)).

Definition add (lhs rhs : Decimal) : Decimal :=
  let lhsSign := m_sign lhs in
  let rhsSign := m_sign rhs in
  match handle lhs rhs with
  | BothInfinity => if decide (lhsSign = rhsSign) then lhs else nan
  | EitherNaN v => v
  | LHSIsInfinity => lhs
  | RHSIsInfinity => rhs
  | BothFinite =>
      let a := alignOperands lhs rhs in
      let result := if decide (lhsSign = rhsSign)
                    then u64 (lhsCoefficient a + rhsCoefficient a)
                    else u64 (lhsCoefficient a - rhsCoefficient a) in
      if isNegative lhs && isPositive rhs && (result =? 0)
      then encode Positive (aligned_exponent a) 0
      else fromSigned64 lhsSign (aligned_exponent a) result
  end.

Definition sub (lhs rhs : Decimal) : Decimal :=
  let lhsSign := m_sign lhs in
  let rhsSign := m_sign rhs in
  match handle lhs rhs with
  | BothInfinity => if decide (lhsSign = rhsSign) then nan else lhs
  | EitherNaN v => v
  | LHSIsInfinity => lhs
  | RHSIsInfinity => infinity (invertSign rhsSign)
  | BothFinite =>
      let a := alignOperands lhs rhs in
      let result := if decide (lhsSign = rhsSign)
                    then u64 (lhsCoefficient a - rhsCoefficient a)
                    else u64 (lhsCoefficient a + rhsCoefficient a) in
      if isNegative lhs && isNegative rhs && (result =? 0)
      then encode Positive (aligned_exponent a) 0
      else fromSigned64 lhsSign (aligned_exponent a) result
  end.

(** The loop that brings a product back to 64 bits: a product of two 60-bit
    coefficients loses its high half after at most 17 divisions by ten. *)
Fixpoint mulShrink (fuel : nat) (work : UInt128.t) (exponent : Z) : UInt128.t * Z :=
  match fuel with
  | O => (work, exponent)
  | S fuel' =>
      if UInt128.m_high work =? 0 then (work, exponent)
      else mulShrink fuel' (UInt128.divide work 10) (exponent + 1)
  end.

Definition mul (lhs rhs : Decimal) : Decimal :=
  let resultSign := if decide (m_sign lhs = m_sign rhs) then Positive else Negative in
  match handle lhs rhs with
  | BothFinite =>
      let '(work, resultExponent) :=
        mulShrink 20 (UInt128.multiply (m_coefficient lhs) (m_coefficient rhs))
          (m_exponent lhs + m_exponent rhs) in
      encode resultSign resultExponent (UInt128.m_low work)
  | BothInfinity => infinity resultSign
  | EitherNaN v => v
  | LHSIsInfinity => if isZero rhs then nan else infinity resultSign
  | RHSIsInfinity => if isZero lhs then nan else infinity resultSign
  end.

(** The inner and the outer loop of [operator/].  Each turn of either one
    multiplies by ten or ends the division; [divFuel] turns are enough. *)
Fixpoint divScale (fuel : nat) (divisor remainder result exponent : Z) : Z * Z * Z :=
  match fuel with
  | O => (remainder, result, exponent)
  | S fuel' =>
      if (remainder <? divisor) && (result <? MaxCoefficient / 10)
      then divScale fuel' divisor (u64 (remainder * 10)) (u64 (result * 10)) (exponent - 1)
      else (remainder, result, exponent)
  end.

Definition divFuel : nat := 40.

Fixpoint divLoop (fuel : nat) (divisor remainder result exponent : Z) : Z * Z * Z :=
  match fuel with
  | O => (remainder, result, exponent)
  | S fuel' =>
      let '(remainder, result, exponent) := divScale divFuel divisor remainder result exponent in
      if remainder <? divisor then (remainder, result, exponent)
      else
        let quotient := remainder / divisor in
        if u64 (MaxCoefficient - quotient) <? result then (remainder, result, exponent)
        else
          let result := u64 (result + quotient) in
          let remainder := remainder mod divisor in
          if remainder =? 0 then (remainder, result, exponent)
          else divLoop fuel' divisor remainder result exponent
  end.

Definition div (lhs rhs : Decimal) : Decimal :=
  let resultSign := if decide (m_sign lhs = m_sign rhs) then Positive else Negative in
  match handle lhs rhs with
  | BothInfinity => nan
  | EitherNaN v => v
  | LHSIsInfinity => infinity resultSign
  | RHSIsInfinity => zero resultSign
  | BothFinite =>
      if isZero rhs then (if isZero lhs then nan else infinity resultSign)
      else
        let resultExponent := m_exponent lhs - m_exponent rhs in
        if isZero lhs then encode resultSign resultExponent 0
        else
          let divisor := m_coefficient rhs in
          let '(remainder, result, resultExponent) :=
            divLoop divFuel divisor (m_coefficient lhs) 0 resultExponent in
          let result := if divisor / 2 <? remainder then u64 (result + 1) else result in
          encode resultSign resultExponent result
  end.

(** ** Comparison *)

Definition compareTo (lhs rhs : Decimal) : Decimal :=
  let result := sub lhs rhs in
  match m_formatClass result with
  | ClassInfinity => if isNegative result then of_int32 (-1) else of_int32 1
  | ClassNaN | ClassNormal => result
  | ClassZero => zero Positive
  end.

Definition eqb (lhs rhs : Decimal) : bool :=
  bool_decide (lhs = rhs) || isZero (compareTo lhs rhs).

Definition neqb (lhs rhs : Decimal) : bool :=
  if decide (lhs = rhs) then false
  else let result := compareTo lhs rhs in
       if isNaN result then false else negb (isZero result).

Definition ltb (lhs rhs : Decimal) : bool :=
  let result := compareTo lhs rhs in
  if isNaN result then false else negb (isZero result) && isNegative result.

Definition leb (lhs rhs : Decimal) : bool :=
  if decide (lhs = rhs) then true
  else let result := compareTo lhs rhs in
       if isNaN result then false else isZero result || isNegative result.

Definition gtb (lhs rhs : Decimal) : bool :=
  let result := compareTo lhs rhs in
  if isNaN result then false else negb (isZero result) && isPositive result.

Definition geb (lhs rhs : Decimal) : bool :=
  if decide (lhs = rhs) then true
  else let result := compareTo lhs rhs in
       if isNaN result then false else isZero result || negb (isNegative result).

Definition abs (d : Decimal) : Decimal :=
  mkData (m_coefficient d) (m_exponent d) (m_formatClass d) Positive.

(** ** Rounding to integers *)

Definition isMultiplePowersOfTen (coefficient n : Z) : bool :=
  (coefficient =? 0) || (coefficient mod scaleUp 1 n =? 0).

Definition ceil (d : Decimal) : Decimal :=
  if isSpecial d then d
  else if 0 <=? m_exponent d then d
  else
    let numberOfDigits := countDigits (m_coefficient d) in
    let numberOfDropDigits := - m_exponent d in
    if numberOfDigits <=? numberOfDropDigits
    then (if isPositive d then of_int32 1 else zero Positive)
    else
      let result := scaleDown (m_coefficient d) (Z.to_nat numberOfDropDigits) in
      let result := if isPositive d && negb (isMultiplePowersOfTen (m_coefficient d) numberOfDropDigits)
                    then result + 1 else result in
      encode (m_sign d) 0 result.

Definition floor (d : Decimal) : Decimal :=
  if isSpecial d then d
  else if 0 <=? m_exponent d then d
  else
    let numberOfDigits := countDigits (m_coefficient d) in
    let numberOfDropDigits := - m_exponent d in
    if numberOfDigits <? numberOfDropDigits
    then (if isPositive d then zero Positive else of_int32 (-1))
    else
      let result := scaleDown (m_coefficient d) (Z.to_nat numberOfDropDigits) in
      let result := if isNegative d && negb (isMultiplePowersOfTen (m_coefficient d) numberOfDropDigits)
                    then result + 1 else result in
      encode (m_sign d) 0 result.

Definition round (d : Decimal) : Decimal :=
  if isSpecial d then d
  else if 0 <=? m_exponent d then d
  else
    let numberOfDigits := countDigits (m_coefficient d) in
    let numberOfDropDigits := - m_exponent d in
    if numberOfDigits <? numberOfDropDigits then zero Positive
    else
      let result := scaleDown (m_coefficient d) (Z.to_nat (numberOfDropDigits - 1)) in
      let result := if 5 <=? result mod 10 then result + 10 else result in
      encode (m_sign d) 0 (result / 10).

Definition remainder (lhs rhs : Decimal) : Decimal :=
  let quotient := div lhs rhs in
  if isSpecial quotient then quotient
  else sub lhs (mul (if isNegative quotient then ceil quotient else floor quotient) rhs).

(** ** Text to decimals *)

Inductive ParseState :=
  | StateDigit | StateDot | StateDotDigit | StateE | StateEDigit
  | StateESign | StateSign | StateStart | StateZero.

#[export] Instance ParseState_eq_dec : EqDecision ParseState.
Proof. solve_decision. Defined.

(** The local variables of [fromString]. *)
Record Parser := mkParser {
  state : ParseState;
  sign : Sign;
  accumulator : Z;
  numberOfDigits : Z;
  numberOfDigitsAfterDot : Z;
  numberOfExtraDigits : Z;
  exponentSign : Sign;
  exponent : Z;
}.

Definition startParser : Parser := mkParser StateStart Positive 0 0 0 0 Positive 0.

(** One turn of the loop: the next local state, or the value returned early. *)
Definition parseStep (p : Parser) (c : Z) : Parser + Decimal :=
  let 'mkParser st sg acc nd nda nx es ex := p in
  let digit := isDigit c in
  let nonzeroDigit := (ch "1" <=? c) && (c <=? ch "9") in
  let isE := (c =? ch "E") || (c =? ch "e") in
  match st with
  | StateDigit =>
      if digit then
        if nd <? Precision
        then inl (mkParser st sg (u64 (u64 (acc * 10) + (c - ch "0"))) (nd + 1) nda nx es ex)
        else inl (mkParser st sg acc nd nda (nx + 1) es ex)
      else if c =? ch "." then inl (mkParser StateDot sg acc nd nda nx es ex)
      else if isE then inl (mkParser StateE sg acc nd nda nx es ex)
      else inr nan
  | StateDot | StateDotDigit =>
      if digit then
        if nd <? Precision
        then inl (mkParser StateDotDigit sg (u64 (u64 (acc * 10) + (c - ch "0"))) (nd + 1) (nda + 1) nx es ex)
        else inl (mkParser StateDotDigit sg acc nd nda nx es ex)
      else if isE then inl (mkParser StateE sg acc nd nda nx es ex)
      else inr nan
  | StateE =>
      if c =? ch "+" then inl (mkParser StateESign sg acc nd nda nx Positive ex)
      else if c =? ch "-" then inl (mkParser StateESign sg acc nd nda nx Negative ex)
      else if digit then inl (mkParser StateEDigit sg acc nd nda nx es (c - ch "0"))
      else inr nan
  | StateEDigit =>
      if digit then
        let ex := ex * 10 + (c - ch "0") in
        if ExponentMax + Precision <? ex then
          inr (if acc =? 0 then zero sg
               else match es with Negative => zero Positive | Positive => infinity sg end)
        else inl (mkParser StateEDigit sg acc nd nda nx es ex)
      else inr nan
  | StateESign =>
      if digit then inl (mkParser StateEDigit sg acc nd nda nx es (c - ch "0"))
      else inr nan
  | StateSign =>
      if nonzeroDigit then inl (mkParser StateDigit sg (c - ch "0") 1 nda nx es ex)
      else if c =? ch "0" then inl (mkParser StateZero sg acc nd nda nx es ex)
      else inr nan
  | StateStart =>
      if nonzeroDigit then inl (mkParser StateDigit sg (c - ch "0") 1 nda nx es ex)
      else if c =? ch "-" then inl (mkParser StateSign Negative acc nd nda nx es ex)
      else if c =? ch "+" then inl (mkParser StateSign Positive acc nd nda nx es ex)
      else if c =? ch "0" then inl (mkParser StateZero sg acc nd nda nx es ex)
      else if c =? ch "." then inl (mkParser StateDot sg acc nd nda nx es ex)
      else inr nan
  | StateZero =>
      if c =? ch "0" then inl p
      else if nonzeroDigit then inl (mkParser StateDigit sg (c - ch "0") 1 nda nx es ex)
      else if c =? ch "." then inl (mkParser StateDot sg acc nd nda nx es ex)
      else if isE then inl (mkParser StateE sg acc nd nda nx es ex)
      else inr nan
  end.

Fixpoint parseLoop (p : Parser) (str : ustring) : Parser + Decimal :=
  match str with
  | [] => inl p
  | c :: str' =>
      match parseStep p c with
      | inl p' => parseLoop p' str'
      | inr d => inr d
      end
  end.

(** What follows the loop. *)
Definition parseFinish (p : Parser) : Decimal :=
  let 'mkParser st sg acc nd nda nx es ex := p in
  match st with
  | StateZero => zero sg
  | StateDigit | StateEDigit | StateDotDigit =>
      let resultExponent := ex * (match es with Negative => -1 | Positive => 1 end) - nda + nx in
      if resultExponent <? ExponentMin then zero Positive
      else
        let overflow := resultExponent - ExponentMax + 1 in
        if 0 <? overflow then
          if Precision <? overflow + nd - nda then infinity sg
          else encode sg (resultExponent - overflow) (scaleUp acc overflow)
        else encode sg resultExponent acc
  | _ => nan
  end.

Definition fromString (str : ustring) : Decimal :=
  match parseLoop startParser str with
  | inl p => parseFinish p
  | inr d => d
  end.

(** ** Decimals to text *)

Definition DBL_DIG : Z := 15.

(** First loop: drop the digits beyond the fifteenth. *)
Fixpoint dropDigits (fuel : nat) (coefficient exponent lastDigit : Z) : Z * Z * Z :=
  match fuel with
  | O => (coefficient, exponent, lastDigit)
  | S fuel' =>
      if DBL_DIG <? countDigits coefficient
      then dropDigits fuel' (coefficient / 10) (exponent + 1) (coefficient mod 10)
      else (coefficient, exponent, lastDigit)
  end.

(** Second loop: drop the trailing zeros of the fraction. *)
Fixpoint dropZeros (fuel : nat) (coefficient exponent : Z) : Z * Z :=
  match fuel with
  | O => (coefficient, exponent)
  | S fuel' =>
      if (exponent <? 0) && negb (coefficient =? 0) && (coefficient mod 10 =? 0)
      then dropZeros fuel' (coefficient / 10) (exponent + 1)
      else (coefficient, exponent)
  end.

Definition roundCoefficient (coefficient exponent : Z) : Z * Z :=
  if exponent <? 0 then
    let '(coefficient, exponent, lastDigit) := dropDigits 20 coefficient exponent 0 in
    let coefficient := if 5 <=? lastDigit then coefficient + 1 else coefficient in
    dropZeros 20 coefficient exponent
  else (coefficient, exponent).

(** The loop that removes the trailing zeros of the mantissa digits. *)
Fixpoint mantissaLength (digits : ustring) (coefficientLength : nat) : nat :=
  match coefficientLength with
  | S n' => if (1 <=? n')%nat && (nth n' digits 0 =? ch "0")
            then mantissaLength digits n' else coefficientLength
  | O => O
  end.

Definition toString (d : Decimal) : ustring :=
  match m_formatClass d with
  | ClassInfinity => match m_sign d with Negative => u "-Infinity" | Positive => u "Infinity" end
  | ClassNaN => u "NaN"
  | ClassNormal | ClassZero =>
      let builder := match m_sign d with Negative => [ch "-"] | Positive => [] end in
      let '(coefficient, originalExponent) := roundCoefficient (m_coefficient d) (m_exponent d) in
      let digits := numberToStringUnsigned coefficient in
      let coefficientLength := length digits in
      let adjustedExponent := originalExponent + Z.of_nat coefficientLength - 1 in
      if (originalExponent <=? 0) && (-6 <=? adjustedExponent) then
        if originalExponent =? 0 then builder ++ digits
        else if 0 <=? adjustedExponent then
          builder ++ take (S (Z.to_nat adjustedExponent)) digits ++ [ch "."]
                  ++ drop (S (Z.to_nat adjustedExponent)) digits
        else
          builder ++ u "0." ++ replicate (Z.to_nat (- (adjustedExponent + 1))) (ch "0") ++ digits
      else
        let coefficientLength := mantissaLength digits coefficientLength in
        let builder := builder ++ take 1 digits in
        let builder := if (2 <=? coefficientLength)%nat
                       then builder ++ [ch "."] ++ take (coefficientLength - 1) (drop 1 digits)
                       else builder in
        if adjustedExponent =? 0 then builder
        else builder ++ (if adjustedExponent <? 0 then u "e" else u "e+")
                     ++ numberToStringSigned adjustedExponent
  end.

Section WithPlatform.
Context {P : Platform}.

Definition fromDouble (d : double) : Decimal :=
  match d with
  | S754_zero _ | S754_finite _ _ _ => fromString (toShortest d)
  | S754_infinity s => infinity (if s then Negative else Positive)
  | S754_nan => nan
  end.

Definition toDouble (d : Decimal) : double :=
  if isFinite d then
    let '(doubleValue, valid) := charactersToDouble (toString d) in
    if valid then doubleValue else S754_nan
  else match m_formatClass d with
  | ClassInfinity => S754_infinity (isNegative d)
  | _ => S754_nan
  end.

End WithPlatform.
