(* ===== verification/DecimalFacts.v ===== *)
(** * Facts about [platform/Decimal.cpp]

    The 128-bit arithmetic is exact, every operation keeps the representation
    invariant, and the text of a finite decimal is a JSON number. *)

From S2P Require Import Prelude Platform WTFString DecimalNumber.

(** ** 128-bit arithmetic *)

Lemma lowUInt32_mod x : UInt128.lowUInt32 x = x mod 2 ^ 32.
Proof.
  unfold UInt128.lowUInt32, u32, wrapU.
  change (Z.shiftl 1 32 - 1) with (Z.ones 32). rewrite Z.land_ones by lia.
  apply Z.mod_mod. lia.
Qed.

Lemma highUInt32_div x : 0 <= x < 2 ^ 64 -> UInt128.highUInt32 x = x / 2 ^ 32.
Proof.
  intros Hx. unfold UInt128.highUInt32, u32, wrapU. rewrite Z.shiftr_div_pow2 by lia.
  apply Z.mod_small. split; [apply Z.div_pos; lia|].
  apply Z.div_lt_upper_bound; lia.
Qed.

Lemma makeUInt64_sum low high :
  0 <= low < 2 ^ 32 -> 0 <= high -> UInt128.makeUInt64 low high = low + high * 2 ^ 32.
Proof.
  intros Hl Hh. unfold UInt128.makeUInt64.
  assert (Z.land low (Z.shiftl high 32) = 0) as E.
  { apply Z.bits_inj'. intros i Hi. rewrite Z.land_spec, Z.bits_0.
    destruct (Z.lt_ge_cases i 32).
    - rewrite Z.shiftl_spec_low by lia. apply andb_false_r.
    - rewrite <- (Z.mod_small low (2 ^ 32)) by lia. by rewrite Z.mod_pow2_bits_high by lia. }
  pose proof (Z.add_lor_land low (Z.shiftl high 32)) as H.
  rewrite E, Z.shiftl_mul_pow2 in H by lia. rewrite Z.shiftl_mul_pow2 by lia. lia.
Qed.

(** The four 32-bit partial products give the exact 128-bit product. *)
Lemma multiply_exact a b :
  0 <= a < 2 ^ 64 -> 0 <= b < 2 ^ 64 ->
  UInt128.value (UInt128.multiply a b) = a * b /\
  0 <= UInt128.m_high (UInt128.multiply a b) < 2 ^ 64 /\
  0 <= UInt128.m_low (UInt128.multiply a b) < 2 ^ 64.
Proof.
  intros Ha Hb. unfold UInt128.value, UInt128.multiply, UInt128.multiplyHigh.
  cbn [UInt128.m_high UInt128.m_low].
  rewrite !lowUInt32_mod, (highUInt32_div a), (highUInt32_div b) by lia.
  remember (a mod 2 ^ 32) as al eqn:Eal. remember (a / 2 ^ 32) as ah eqn:Eah.
  remember (b mod 2 ^ 32) as bl eqn:Ebl. remember (b / 2 ^ 32) as bh eqn:Ebh.
  assert (a = ah * 2 ^ 32 + al) as Ea by (subst; pose proof (Z.div_mod a (2 ^ 32)); lia).
  assert (b = bh * 2 ^ 32 + bl) as Eb by (subst; pose proof (Z.div_mod b (2 ^ 32)); lia).
  assert (0 <= al < 2 ^ 32) by (subst al; apply Z.mod_pos_bound; lia).
  assert (0 <= bl < 2 ^ 32) by (subst bl; apply Z.mod_pos_bound; lia).
  assert (0 <= ah < 2 ^ 32) by lia.
  assert (0 <= bh < 2 ^ 32) by lia.
  assert (forall p q, 0 <= p < 2 ^ 32 -> 0 <= q < 2 ^ 32 -> 0 <= p * q <= (2 ^ 32 - 1) * (2 ^ 32 - 1))
    as Hmul by (intros; split; [apply Z.mul_nonneg_nonneg; lia|apply Z.mul_le_mono_nonneg; lia]).
  pose proof (Hmul ah bl) as M1. pose proof (Hmul al bl) as M2.
  pose proof (Hmul ah bh) as M3. pose proof (Hmul al bh) as M4.
  assert (a * b = ah * bh * 2 ^ 64 + (ah * bl + al * bh) * 2 ^ 32 + al * bl) as Eab.
  { rewrite Ea, Eb. change (2 ^ 64) with (2 ^ 32 * 2 ^ 32). ring. }
  rewrite Eab.
  clear Eab Ea Eb Eal Eah Ebl Ebh Hmul.
  generalize dependent (ah * bl). generalize dependent (al * bl).
  generalize dependent (ah * bh). generalize dependent (al * bh).
  intros w Hw x Hx l Hl y Hy.
  specialize (Hy ltac:(lia) ltac:(lia)). specialize (Hl ltac:(lia) ltac:(lia)).
  specialize (Hx ltac:(lia) ltac:(lia)). specialize (Hw ltac:(lia) ltac:(lia)).
  unfold u64.
  rewrite (wrapU_small 64 y), (wrapU_small 64 l), (wrapU_small 64 w), (wrapU_small 64 x) by lia.
  rewrite (highUInt32_div l) by lia.
  assert (0 <= l / 2 ^ 32 < 2 ^ 32) by (Z.to_euclidean_division_equations; lia).
  rewrite (wrapU_small 64 (y + l / 2 ^ 32)) by lia.
  rewrite (highUInt32_div (y + l / 2 ^ 32)) by lia.
  assert (0 <= (y + l / 2 ^ 32) mod 2 ^ 32 < 2 ^ 32) by (apply Z.mod_pos_bound; lia).
  rewrite (wrapU_small 64 (w + _)) by lia.
  rewrite (highUInt32_div (w + _)) by lia.
  unfold wrapU. clear Ha Hb.
  Z.to_euclidean_division_equations. lia.
Qed.

(** One digit of the long division. *)
Lemma divStep_spec divisor digit remainder :
  0 < divisor < 2 ^ 32 -> 0 <= digit < 2 ^ 32 -> 0 <= remainder < divisor ->
  exists q r, UInt128.divStep divisor digit remainder = (q, r) /\
    remainder * 2 ^ 32 + digit = q * divisor + r /\ 0 <= r < divisor /\ 0 <= q < 2 ^ 32.
Proof.
  intros Hd Hg Hr. unfold UInt128.divStep. rewrite makeUInt64_sum by lia.
  set (work := digit + remainder * 2 ^ 32).
  pose proof (Z.div_mod work divisor ltac:(lia)).
  pose proof (Z.mod_pos_bound work divisor ltac:(lia)).
  assert (0 <= work / divisor < 2 ^ 32).
  { split; [apply Z.div_pos; lia|]. apply Z.div_lt_upper_bound; [lia|].
    unfold work. nia. }
  exists (work / divisor), (work mod divisor). unfold u32.
  rewrite !wrapU_small by lia. split_and!; try done; unfold work in *; lia.
Qed.

(** Dividing by a 32-bit number is exact division. *)
Lemma divide_exact x divisor :
  0 <= UInt128.m_high x < 2 ^ 64 -> 0 <= UInt128.m_low x < 2 ^ 64 -> 0 < divisor < 2 ^ 32 ->
  UInt128.value (UInt128.divide x divisor) = UInt128.value x / divisor /\
  0 <= UInt128.m_high (UInt128.divide x divisor) < 2 ^ 64 /\
  0 <= UInt128.m_low (UInt128.divide x divisor) < 2 ^ 64.
Proof.
  destruct x as [hi lo]. unfold UInt128.value, UInt128.divide. cbn [UInt128.m_high UInt128.m_low].
  intros Hh Hl Hd. destruct (Z.eqb_spec hi 0) as [->|Hhi]; cbn [UInt128.m_high UInt128.m_low].
  { rewrite Z.mul_0_l, !Z.add_0_l. split_and!; try lia; [apply Z.div_pos; lia|].
    apply Z.div_lt_upper_bound; nia. }
  rewrite !lowUInt32_mod, (highUInt32_div hi), (highUInt32_div lo) by lia.
  assert (0 <= hi / 2 ^ 32 < 2 ^ 32) by (Z.to_euclidean_division_equations; lia).
  assert (0 <= lo / 2 ^ 32 < 2 ^ 32) by (Z.to_euclidean_division_equations; lia).
  assert (0 <= hi mod 2 ^ 32 < 2 ^ 32) by (apply Z.mod_pos_bound; lia).
  assert (0 <= lo mod 2 ^ 32 < 2 ^ 32) by (apply Z.mod_pos_bound; lia).
  destruct (divStep_spec divisor (hi / 2 ^ 32) 0) as (q3 & r3 & -> & E3 & ? & ?); [lia..|].
  destruct (divStep_spec divisor (hi mod 2 ^ 32) r3) as (q2 & r2 & -> & E2 & ? & ?); [lia..|].
  destruct (divStep_spec divisor (lo / 2 ^ 32) r2) as (q1 & r1 & -> & E1 & ? & ?); [lia..|].
  destruct (divStep_spec divisor (lo mod 2 ^ 32) r1) as (q0 & r0 & -> & E0 & ? & ?); [lia..|].
  cbn [UInt128.m_high UInt128.m_low]. rewrite !makeUInt64_sum by lia.
  split_and!; try lia.
  apply Z.div_unique with r0; [lia|].
  pose proof (Z.div_mod hi (2 ^ 32) ltac:(lia)). pose proof (Z.div_mod lo (2 ^ 32) ltac:(lia)).
  change (2 ^ 64) with (2 ^ 32 * 2 ^ 32). lia.
Qed.

(** ** Digits *)

Lemma countDigits_spec x :
  0 <= x < 2 ^ 64 ->
  0 <= countDigits x <= 20 /\ x < 10 ^ countDigits x /\
  (0 < x -> 0 < countDigits x /\ 10 ^ (countDigits x - 1) <= x) /\
  (x = 0 -> countDigits x = 0).
Proof.
  intros Hx. unfold countDigits, uint64_max.
  do 20 (cbn [countDigitsLoop]; match goal with
    | |- context [x <? ?p] => let v := eval vm_compute in p in change p with v
    end;
    match goal with
    | |- context [x <? ?p] => destruct (Z.ltb_spec x p);
        [cbn; lia
        |match goal with |- context [?a <=? ?b] =>
           let v := eval vm_compute in (a <=? b) in change (a <=? b) with v; cbn iota end]
    end); cbn; lia.
Qed.

Lemma scaleDown_spec n x : 0 <= x -> scaleDown x n = x / 10 ^ Z.of_nat n.
Proof.
  revert x. induction n as [|n IH]; intros x Hx; cbn [scaleDown].
  { by rewrite Z.div_1_r. }
  destruct (Z.eqb_spec x 0) as [->|]; [by rewrite Z.div_0_l by lia|].
  rewrite IH by (apply Z.div_pos; lia).
  rewrite Z.div_div by lia. f_equal. rewrite Nat2Z.inj_succ, Z.pow_succ_r by lia. lia.
Qed.

(** Binary exponentiation modulo 2^64. *)
Lemma scaleUpLoop_spec fuel x y z n :
  0 <= n -> (Z.to_nat (Z.log2 n) < fuel)%nat ->
  scaleUpLoop fuel x y z n = u64 (x * (y * z ^ n)).
Proof.
  revert y z n. induction fuel as [|fuel IH]; intros y z n Hn Hf; [lia|].
  cbn [scaleUpLoop]. rewrite Z.shiftr_div_pow2 by lia. change (2 ^ 1) with 2.
  set (y' := if Z.odd n then u64 (y * z) else y).
  assert (u64 (x * (y' * (z * z) ^ (n / 2))) = u64 (x * (y * z ^ n))) as E.
  { pose proof (Zdiv2_odd_eqn n) as En. rewrite Z.div2_div in En.
    assert ((z * z) ^ (n / 2) = z ^ (2 * (n / 2))) as ->.
    { rewrite Z.pow_mul_r, Z.pow_2_r by (pose proof (Z.div_pos n 2); lia). done. }
    rewrite En at 2. unfold y', u64, wrapU. destruct (Z.odd n).
    - rewrite Z.pow_add_r by (pose proof (Z.div_pos n 2); lia).
      rewrite Z.pow_1_r, <- (Z.mul_mod_idemp_r x ((y * z) mod _ * _)) by lia.
      rewrite Z.mul_mod_idemp_l by lia. rewrite Z.mul_mod_idemp_r by lia. f_equal. ring.
    - by rewrite Z.add_0_r. }
  rewrite <- E. destruct (Z.eqb_spec (n / 2) 0) as [->|Hq].
  { by rewrite Z.pow_0_r, Z.mul_1_r. }
  assert (0 < n / 2) by (pose proof (Z.div_pos n 2); lia).
  rewrite IH; [|lia|].
  - unfold u64, wrapU.
    rewrite <- (Z.mul_mod_idemp_r x (y' * (_ mod _) ^ _)) by lia.
    rewrite <- (Z.mul_mod_idemp_r y' ((_ mod _) ^ _)) by lia.
    rewrite Z.mod_pow_l, (Z.mul_mod_idemp_r y') by lia. by rewrite Z.mul_mod_idemp_r by lia.
  - assert (Z.log2 n = Z.succ (Z.log2 (n / 2))) as El.
    { pose proof (Zdiv2_odd_eqn n) as En. rewrite Z.div2_div in En.
      destruct (Z.odd n); rewrite En at 1.
      - by rewrite Z.log2_succ_double by lia.
      - by rewrite Z.add_0_r, Z.log2_double by lia. }
    pose proof (Z.log2_nonneg (n / 2)). lia.
Qed.

Lemma scaleUp_mod x n : 0 <= n -> scaleUp x n = u64 (x * 10 ^ n).
Proof. intros. unfold scaleUp. rewrite scaleUpLoop_spec by lia. f_equal. lia. Qed.

Lemma scaleUp_spec x n : 0 <= n -> 0 <= x -> x * 10 ^ n < 2 ^ 64 -> scaleUp x n = x * 10 ^ n.
Proof.
  intros Hn Hx H. rewrite scaleUp_mod by done. apply wrapU_small.
  split; [|done]. apply Z.mul_nonneg_nonneg; [done|]. apply Z.pow_nonneg. lia.
Qed.

(** ** The representation invariant *)

(** A finite decimal has at most eighteen digits, an exponent in range, and the
    class [ClassZero] exactly when its coefficient is zero. *)
Definition wf (d : Decimal) : Prop :=
  match m_formatClass d with
  | ClassNormal => 0 < m_coefficient d <= MaxCoefficient /\ ExponentMin <= m_exponent d <= ExponentMax
  | ClassZero => m_coefficient d = 0 /\ ExponentMin <= m_exponent d <= ExponentMax
  | ClassInfinity | ClassNaN => m_coefficient d = 0 /\ m_exponent d = 0
  end.

Lemma special_wf s c : c <> ClassNormal -> wf (special s c).
Proof. by destruct c. Qed.


Lemma encode_wf s e c : 0 <= c < 2 ^ 64 -> wf (encode s e c).
Proof.
  intros Hc. unfold encode, shrink, wf, special, MaxCoefficient, ExponentMax, ExponentMin.
  destruct (Z.eqb_spec c 0) as [->|]; destruct (Z.leb_spec (-1023) e), (Z.leb_spec e 1023); cbn [andb].
  all: zcases; cbn; Z.to_euclidean_division_equations; lia.
Qed.


(** In range and with at most eighteen digits nothing is lost. *)
Lemma encode_exact s e c :
  0 <= c <= MaxCoefficient -> ExponentMin <= e <= ExponentMax ->
  encode s e c = mkData c e (if c =? 0 then ClassZero else ClassNormal) s.
Proof.
  unfold encode, shrink, MaxCoefficient, ExponentMax, ExponentMin. intros Hc He.
  replace ((-1023 <=? e) && (e <=? 1023)) with true by (symmetry; apply andb_true_intro; split; apply Z.leb_le; lia).
  zcases; (lia || done).
Qed.

Lemma wf_coefficient d : wf d -> 0 <= m_coefficient d <= MaxCoefficient.
Proof. unfold wf, MaxCoefficient. destruct (m_formatClass d); lia. Qed.

Lemma wf_exponent d : wf d -> ExponentMin <= m_exponent d <= ExponentMax.
Proof. unfold wf, ExponentMin, ExponentMax. destruct (m_formatClass d); lia. Qed.

Lemma of_int32_wf i : is_int32 i -> wf (of_int32 i).
Proof. unfold is_int32. intros. apply encode_wf. zcases; lia. Qed.


(** ** Aligning and adding *)

Lemma pow10_Precision : 10 ^ Precision = MaxCoefficient + 1.
Proof. done. Qed.

Lemma countDigits_le c : 0 <= c <= MaxCoefficient -> 0 <= countDigits c <= Precision.
Proof.
  intros Hc. destruct (countDigits_spec c) as (Hr & _ & Hp & Hz); [unfold MaxCoefficient in *; lia|].
  split; [lia|]. destruct (Z.eq_dec c 0) as [E|]; [rewrite (Hz E); done|].
  destruct Hp as [_ Hp]; [lia|]. destruct (Z.lt_ge_cases Precision (countDigits c)); [|lia].
  assert (10 ^ Precision <= 10 ^ (countDigits c - 1)) by (apply Z.pow_le_mono_r; lia).
  rewrite pow10_Precision in *. lia.
Qed.

(** Scaling a coefficient up to at most eighteen digits. *)
Lemma scaleUp_digits c n :
  0 <= c <= MaxCoefficient -> 0 <= n -> countDigits c + n <= Precision ->
  scaleUp c n = c * 10 ^ n /\ 0 <= c * 10 ^ n <= MaxCoefficient.
Proof.
  intros Hc Hn Hd.
  assert (0 <= c * 10 ^ n <= MaxCoefficient) as Hb.
  { destruct (countDigits_spec c) as (? & Hlt & _); [unfold MaxCoefficient in *; lia|].
    assert (0 < 10 ^ n) by (apply Z.pow_pos_nonneg; lia).
    assert (c * 10 ^ n < 10 ^ Precision).
    { apply Z.lt_le_trans with (10 ^ countDigits c * 10 ^ n); [by apply Z.mul_lt_mono_pos_r|].
      rewrite <- Z.pow_add_r by lia. apply Z.pow_le_mono_r; lia. }
    rewrite pow10_Precision in *. nia. }
  split; [|done]. apply scaleUp_spec; unfold MaxCoefficient in *; lia.
Qed.

Lemma scaleDown_bounds c n : 0 <= c <= MaxCoefficient -> 0 <= scaleDown c n <= MaxCoefficient.
Proof.
  intros Hc. rewrite scaleDown_spec by lia.
  assert (0 < 10 ^ Z.of_nat n) by (apply Z.pow_pos_nonneg; lia).
  split; [apply Z.div_pos; lia|]. etransitivity; [|apply Hc]. apply Z.div_le_upper_bound; nia.
Qed.

Lemma alignOperands_bounds l r :
  wf l -> wf r ->
  0 <= lhsCoefficient (alignOperands l r) <= MaxCoefficient /\
  0 <= rhsCoefficient (alignOperands l r) <= MaxCoefficient.
Proof.
  intros Hl%wf_coefficient Hr%wf_coefficient. unfold alignOperands.
  repeat case_match; cbn [lhsCoefficient rhsCoefficient]; zprop;
    (split; [try done|try done]); try by apply scaleDown_bounds.
  all: match goal with |- _ <= scaleUp ?c ?n <= _ =>
    destruct (scaleUp_digits c n) as [-> ?]; try done end;
    pose proof (countDigits_le _ Hl); pose proof (countDigits_le _ Hr); lia.
Qed.

(** The larger exponent can be brought down without dropping a digit. *)
Definition alignable (l r : Decimal) : bool :=
  if m_exponent r <? m_exponent l
  then (countDigits (m_coefficient l) + (m_exponent l - m_exponent r) <=? Precision)
  else if m_exponent l <? m_exponent r
  then (countDigits (m_coefficient r) + (m_exponent r - m_exponent l) <=? Precision)
  else true.

(** The value of a finite decimal in units of 10^k. *)
Definition units (k : Z) (d : Decimal) : Z :=
  (match m_sign d with Negative => -1 | Positive => 1 end) * m_coefficient d * 10 ^ (m_exponent d - k).

Lemma alignOperands_exact l r :
  wf l -> wf r -> alignable l r = true ->
  let k := Z.min (m_exponent l) (m_exponent r) in
  alignOperands l r =
    mkAligned (m_coefficient l * 10 ^ (m_exponent l - k)) (m_coefficient r * 10 ^ (m_exponent r - k)) k.
Proof.
  intros Hl%wf_coefficient Hr%wf_coefficient Ha. unfold alignable in Ha. cbn zeta. unfold alignOperands.
  destruct (Z.ltb_spec (m_exponent r) (m_exponent l)).
  - rewrite Z.min_r, Z.sub_diag, Z.pow_0_r, Z.mul_1_r by lia. zprop.
    destruct (Z.eqb_spec (countDigits (m_coefficient l)) 0) as [E|E].
    + destruct (countDigits_spec (m_coefficient l)) as (_ & Hlt & _); [unfold MaxCoefficient in *; lia|].
      rewrite E in Hlt. replace (m_coefficient l) with 0 by lia. done.
    + replace (_ <=? 0) with true by (symmetry; apply Z.leb_le; lia).
      destruct (scaleUp_digits (m_coefficient l) (m_exponent l - m_exponent r)) as [-> _]; [done|lia..|done].
  - destruct (Z.ltb_spec (m_exponent l) (m_exponent r)).
    + rewrite Z.min_l, Z.sub_diag, Z.pow_0_r, Z.mul_1_r by lia. zprop.
      destruct (Z.eqb_spec (countDigits (m_coefficient r)) 0) as [E|E].
      * destruct (countDigits_spec (m_coefficient r)) as (_ & Hlt & _); [unfold MaxCoefficient in *; lia|].
        rewrite E in Hlt. replace (m_coefficient r) with 0 by lia. done.
      * replace (_ <=? 0) with true by (symmetry; apply Z.leb_le; lia).
        destruct (scaleUp_digits (m_coefficient r) (m_exponent r - m_exponent l)) as [-> _]; [done|lia..|done].
    + rewrite Z.min_l by lia. replace (m_exponent r) with (m_exponent l) by lia.
      by rewrite Z.sub_diag, Z.pow_0_r, !Z.mul_1_r.
Qed.

Lemma fromSigned64_spec s e r :
  - 2 ^ 63 < r < 2 ^ 63 ->
  fromSigned64 s e (u64 r) = if 0 <=? r then encode s e r else encode (invertSign s) e (- r).
Proof.
  intros Hr. unfold fromSigned64.
  assert (wrapS 64 (u64 r) = r) as ->.
  { unfold u64, wrapU, wrapS. rewrite Z.mod_mod by lia. by apply (wrapS_small 64); lia. }
  destruct (Z.leb_spec 0 r); unfold u64; rewrite wrapU_small by lia; done.
Qed.

Lemma handle_finite l r : isFinite l = true -> isFinite r = true -> handle l r = BothFinite.
Proof. intros E1 E2. unfold handle. by rewrite E1, E2. Qed.

Lemma handle_nan_wf l r v : wf l -> wf r -> handle l r = EitherNaN v -> wf v.
Proof. unfold handle. intros ?? E. repeat case_match; simplify_eq; done. Qed.

Lemma infinity_wf s : wf (infinity s).
Proof. by apply special_wf. Qed.
Lemma nan_wf : wf nan.
Proof. by apply special_wf. Qed.
Lemma zero_wf s : wf (zero s).
Proof. by apply special_wf. Qed.

Lemma fromSigned64_wf s e r : - 2 ^ 63 < r < 2 ^ 63 -> wf (fromSigned64 s e (u64 r)).
Proof. intros. rewrite fromSigned64_spec by done. zcases; apply encode_wf; lia. Qed.

Lemma add_wf l r : wf l -> wf r -> wf (add l r).
Proof.
  intros Hl Hr. unfold add. destruct (alignOperands_bounds l r Hl Hr). unfold MaxCoefficient in *.
  destruct (handle l r) eqn:Eh; try done.
  - case_match; [by apply encode_wf|]. case_decide; apply fromSigned64_wf; lia.
  - by case_decide.
  - exact (handle_nan_wf l r _ Hl Hr Eh).
Qed.

Lemma sub_wf l r : wf l -> wf r -> wf (sub l r).
Proof.
  intros Hl Hr. unfold sub. destruct (alignOperands_bounds l r Hl Hr). unfold MaxCoefficient in *.
  destruct (handle l r) eqn:Eh; try done.
  - case_match; [by apply encode_wf|]. case_decide; apply fromSigned64_wf; lia.
  - by case_decide.
  - exact (handle_nan_wf l r _ Hl Hr Eh).
Qed.


Lemma units_encode s e c :
  0 <= c <= MaxCoefficient -> ExponentMin <= e <= ExponentMax ->
  units e (encode s e c) = match s with Negative => - c | Positive => c end.
Proof.
  intros. rewrite encode_exact by done. unfold units. cbn [m_coefficient m_exponent m_sign].
  rewrite Z.sub_diag, Z.pow_0_r. destruct s; lia.
Qed.

Lemma u64_zero z : - 2 ^ 64 < z < 2 ^ 64 -> u64 z = 0 -> z = 0.
Proof.
  unfold u64, wrapU. intros Hz E. apply Z.mod_divide in E as [q ->]; [|lia]. nia.
Qed.

Lemma units_fromSigned64 s e r :
  Z.abs r <= MaxCoefficient -> ExponentMin <= e <= ExponentMax ->
  units e (fromSigned64 s e (u64 r)) = match s with Negative => - r | Positive => r end.
Proof.
  unfold MaxCoefficient. intros. rewrite fromSigned64_spec by lia.
  zcases; rewrite units_encode by (unfold MaxCoefficient; lia); destruct s; cbn; lia.
Qed.

(** The coefficients of alignable operands, as signed numbers. *)
Lemma align_units l r k :
  wf l -> wf r -> alignable l r = true -> k = Z.min (m_exponent l) (m_exponent r) ->
  exists lc rc, alignOperands l r = mkAligned lc rc k /\
    0 <= lc <= MaxCoefficient /\ 0 <= rc <= MaxCoefficient /\
    units k l = match m_sign l with Negative => - lc | Positive => lc end /\
    units k r = match m_sign r with Negative => - rc | Positive => rc end /\
    ExponentMin <= k <= ExponentMax.
Proof.
  intros Hl Hr Ha ->. pose proof (alignOperands_bounds l r Hl Hr) as Hb.
  rewrite alignOperands_exact in * by done. cbn [lhsCoefficient rhsCoefficient] in Hb.
  destruct Hb. do 2 eexists. split; [done|]. split; [done|]. split; [done|].
  apply wf_exponent in Hl, Hr. split_and!; [| |lia..]; unfold units.
  - destruct (m_sign l); lia.
  - destruct (m_sign r); lia.
Qed.

(** Addition and subtraction of alignable operands are exact when the result
    has at most eighteen digits. *)
Lemma add_units l r k :
  wf l -> wf r -> isFinite l = true -> isFinite r = true -> alignable l r = true ->
  k = Z.min (m_exponent l) (m_exponent r) ->
  Z.abs (units k l + units k r) <= MaxCoefficient ->
  units k (add l r) = units k l + units k r.
Proof.
  intros Hl Hr Fl Fr Ha Ek Hs. unfold add. rewrite handle_finite by done.
  destruct (align_units l r k Hl Hr Ha Ek) as (lc & rc & -> & Hlc & Hrc & El & Er & Hk).
  rewrite El, Er in *. cbn [lhsCoefficient rhsCoefficient aligned_exponent].
  unfold isNegative, isPositive. unfold MaxCoefficient in Hlc, Hrc.
  destruct (m_sign l), (m_sign r); repeat case_bool_decide; try done;
    repeat case_decide; try done; cbn [andb].
  all: try case_match; zprop.
  all: try (rewrite units_fromSigned64 by lia; lia).
  rewrite units_encode by (unfold MaxCoefficient; lia).
  match goal with H : u64 _ = 0 |- _ => apply u64_zero in H; lia end.
Qed.

Lemma sub_units l r k :
  wf l -> wf r -> isFinite l = true -> isFinite r = true -> alignable l r = true ->
  k = Z.min (m_exponent l) (m_exponent r) ->
  Z.abs (units k l - units k r) <= MaxCoefficient ->
  units k (sub l r) = units k l - units k r.
Proof.
  intros Hl Hr Fl Fr Ha Ek Hs. unfold sub. rewrite handle_finite by done.
  destruct (align_units l r k Hl Hr Ha Ek) as (lc & rc & -> & Hlc & Hrc & El & Er & Hk).
  rewrite El, Er in *. cbn [lhsCoefficient rhsCoefficient aligned_exponent].
  unfold isNegative, isPositive. unfold MaxCoefficient in Hlc, Hrc.
  destruct (m_sign l), (m_sign r); repeat case_bool_decide; try done;
    repeat case_decide; try done; cbn [andb].
  all: try case_match; zprop.
  all: try (rewrite units_fromSigned64 by lia; lia).
  rewrite units_encode by (unfold MaxCoefficient; lia).
  match goal with H : u64 _ = 0 |- _ => apply u64_zero in H; lia end.
Qed.

(** ** Multiplication *)

(** The shrinking loop divides by ten until the product fits in 64 bits. *)
Lemma mulShrink_spec fuel work e :
  0 <= UInt128.m_high work < 2 ^ 64 -> 0 <= UInt128.m_low work < 2 ^ 64 ->
  UInt128.value work < 2 ^ 64 * 10 ^ Z.of_nat fuel ->
  exists k low, mulShrink fuel work e = (UInt128.make 0 low, e + k) /\
    0 <= k <= Z.of_nat fuel /\ low = UInt128.value work / 10 ^ k /\ 0 <= low < 2 ^ 64 /\
    (UInt128.value work < 2 ^ 64 -> k = 0).
Proof.
  revert work e. induction fuel as [|fuel IH]; intros work e Hh Hl Hv.
  - destruct work as [hi lo]. unfold UInt128.value in *. cbn [UInt128.m_high UInt128.m_low mulShrink] in *.
    exists 0, lo. replace hi with 0 by lia. rewrite Z.add_0_r, Z.div_1_r.
    split_and!; try done; lia.
  - cbn [mulShrink]. destruct (Z.eqb_spec (UInt128.m_high work) 0) as [E|E].
    { exists 0, (UInt128.m_low work). destruct work as [hi lo]. cbn in E. subst hi.
      unfold UInt128.value. cbn [UInt128.m_high UInt128.m_low] in *.
      rewrite Z.add_0_r, Z.div_1_r. split_and!; try done; lia. }
    destruct (divide_exact work 10 Hh Hl) as (Ev & Hh' & Hl'); [lia|].
    assert (2 ^ 64 <= UInt128.value work) by (unfold UInt128.value; nia).
    destruct (IH (UInt128.divide work 10) (e + 1)) as (k & low & -> & Hk & -> & Hb & _); [done..| |].
    { rewrite Ev. apply Z.div_lt_upper_bound; [lia|].
      rewrite Nat2Z.inj_succ, Z.pow_succ_r in Hv by lia. lia. }
    exists (k + 1), (UInt128.value work / 10 ^ (k + 1)).
    assert (UInt128.value (UInt128.divide work 10) / 10 ^ k = UInt128.value work / 10 ^ (k + 1)) as E'.
    { rewrite Ev, Z.div_div by lia. f_equal. rewrite Z.pow_add_r by lia. lia. }
    rewrite E' in *. split_and!; try lia; f_equal; lia.
Qed.

(** Both finite: the product of the coefficients with its last [k] digits
    dropped, none when it fits in 64 bits. *)
Lemma mul_spec l r :
  wf l -> wf r -> isFinite l = true -> isFinite r = true ->
  exists k, 0 <= k <= 20 /\
    (m_coefficient l * m_coefficient r < 2 ^ 64 -> k = 0) /\
    0 <= m_coefficient l * m_coefficient r / 10 ^ k < 2 ^ 64 /\
    mul l r = encode (if decide (m_sign l = m_sign r) then Positive else Negative)
                (m_exponent l + m_exponent r + k) (m_coefficient l * m_coefficient r / 10 ^ k).
Proof.
  intros Hl%wf_coefficient Hr%wf_coefficient Fl Fr. unfold MaxCoefficient in *.
  unfold mul. rewrite handle_finite by done.
  destruct (multiply_exact (m_coefficient l) (m_coefficient r)) as (Ev & Hh & Hlo); [lia..|].
  destruct (mulShrink_spec 20 _ (m_exponent l + m_exponent r) Hh Hlo) as (k & low & -> & Hk & -> & Hb & H0).
  { rewrite Ev. assert (m_coefficient l * m_coefficient r <= 10 ^ 18 * 10 ^ 18).
    { apply Z.mul_le_mono_nonneg; lia. } lia. }
  rewrite Ev in *. exists k. split_and!; try done; lia.
Qed.

Lemma mul_wf l r : wf l -> wf r -> wf (mul l r).
Proof.
  intros Hl Hr. destruct (isFinite l && isFinite r) eqn:F.
  - zprop. destruct (mul_spec l r) as (k & _ & _ & Hb & ->); [done..|]. by apply encode_wf.
  - unfold mul. destruct (handle l r) eqn:Eh.
    + exfalso. unfold handle in Eh. rewrite F in Eh. unfold isFinite, isSpecial in F.
      repeat case_match; simplify_eq; done.
    + apply infinity_wf.
    + exact (handle_nan_wf l r _ Hl Hr Eh).
    + case_match; [apply nan_wf|apply infinity_wf].
    + case_match; [apply nan_wf|apply infinity_wf].
Qed.

(** ** Division *)

(** The inner loop multiplies remainder and result by the same power of ten,
    until the remainder reaches the divisor or the result has its digits. *)
Lemma divScale_spec fuel divisor rem res e :
  0 < divisor <= MaxCoefficient -> 0 < rem <= 10 * MaxCoefficient -> 0 <= res <= MaxCoefficient ->
  divisor <= rem * 10 ^ Z.of_nat fuel ->
  exists j, 0 <= j /\
    divScale fuel divisor rem res e = (rem * 10 ^ j, res * 10 ^ j, e - j) /\
    (rem * 10 ^ j < divisor -> MaxCoefficient / 10 <= res * 10 ^ j) /\
    (0 < j -> rem * 10 ^ j < 10 * divisor /\ res * 10 ^ j <= MaxCoefficient - 9) /\
    (rem < divisor -> res < MaxCoefficient / 10 -> 0 < j) /\
    (divisor <= rem \/ MaxCoefficient / 10 <= res -> j = 0).
Proof.
  revert rem res e. induction fuel as [|fuel IH]; intros rem res e Hd Hr Hres Hf.
  { exists 0. rewrite Z.pow_0_r, !Z.mul_1_r, Z.sub_0_r in *. cbn [divScale]. split_and!; lia || done. }
  cbn [divScale]. unfold MaxCoefficient in *. change (999999999999999999 / 10) with 99999999999999999 in *.
  destruct (Z.ltb_spec rem divisor); [destruct (Z.ltb_spec res 99999999999999999)|]; cbn [andb].
  2, 3: exists 0; rewrite Z.pow_0_r, !Z.mul_1_r, Z.sub_0_r; split_and!; lia || done.
  unfold u64. rewrite !wrapU_small by lia.
  destruct (IH (rem * 10) (res * 10) (e - 1)) as (j & Hj & -> & H1 & H2 & _ & H3); [lia..| |].
  { rewrite Nat2Z.inj_succ, Z.pow_succ_r in Hf by lia. lia. }
  exists (j + 1).
  assert (forall x, x * 10 ^ (j + 1) = x * 10 * 10 ^ j) as E.
  { intros x. rewrite Z.pow_add_r by lia. lia. }
  rewrite !E. split_and!; try lia.
  - by replace (e - 1 - j) with (e - (j + 1)) by lia.
  - intros _. destruct (Z.eq_dec j 0) as [->|]; [lia|]. apply H2. lia.
Qed.

(** The outer loop is long division: the quotient comes with its remainder, and
    it is exact or has at least seventeen digits. *)
Lemma divLoop_spec fuel divisor rem res e :
  0 < divisor <= MaxCoefficient -> 0 < rem <= MaxCoefficient -> 0 <= res <= MaxCoefficient ->
  (rem < divisor \/ res = 0) ->
  (res = 0 /\ (20 <= fuel)%nat \/ 0 < res /\ (1 <= fuel)%nat /\ MaxCoefficient / 10 <= res * 10 ^ (Z.of_nat fuel - 1)) ->
  exists k m q, 0 <= k /\ divLoop fuel divisor rem res e = (m, q, e - k) /\
    (res * divisor + rem) * 10 ^ k = q * divisor + m /\ 0 <= m < divisor /\
    0 < q <= MaxCoefficient /\ (m = 0 \/ MaxCoefficient / 10 <= q).
Proof.
  revert rem res e. induction fuel as [|fuel IH]; intros rem res e Hd Hr Hres Hor Hf; [lia|].
  cbn [divLoop].
  destruct (divScale_spec divFuel divisor rem res e) as (j & Hj & -> & H1 & H2 & H3 & H4); [lia..| |].
  { unfold MaxCoefficient in *. change (10 ^ Z.of_nat divFuel) with (10 ^ 40). lia. }
  assert (1 <= 10 ^ j) by (pose proof (Z.pow_pos_nonneg 10 j); lia).
  destruct (Z.ltb_spec (rem * 10 ^ j) divisor) as [Hlt|Hge].
  { exists j, (rem * 10 ^ j), (res * 10 ^ j). specialize (H1 Hlt).
    unfold MaxCoefficient in *. change (999999999999999999 / 10) with 99999999999999999 in *.
    split_and!; try done; try nia.
    destruct (Z.eq_dec j 0) as [->|]; [lia|]. destruct H2; lia. }
  set (q := rem * 10 ^ j / divisor).
  pose proof (Z.div_mod (rem * 10 ^ j) divisor ltac:(lia)) as Hdm. fold q in Hdm.
  pose proof (Z.mod_pos_bound (rem * 10 ^ j) divisor ltac:(lia)) as Hm.
  assert (1 <= q) by (apply Z.div_le_lower_bound; lia).
  assert (0 <= q <= MaxCoefficient /\ res * 10 ^ j + q <= MaxCoefficient) as [Hq Hsum].
  { destruct (Z.eq_dec j 0) as [->|].
    - rewrite Z.pow_0_r, Z.mul_1_r in *. destruct Hor as [Hor| ->]; [lia|].
      assert (q <= MaxCoefficient) by (apply Z.div_le_upper_bound; nia). lia.
    - destruct H2 as [H2 H2']; [lia|].
      assert (q < 10) by (apply Z.div_lt_upper_bound; lia). unfold MaxCoefficient in *. lia. }
  assert (u64 (MaxCoefficient - q) = MaxCoefficient - q) as ->.
  { unfold MaxCoefficient in *. apply wrapU_small. lia. }
  assert (u64 (res * 10 ^ j + q) = res * 10 ^ j + q) as ->.
  { unfold MaxCoefficient in *. apply wrapU_small. lia. }
  replace (MaxCoefficient - q <? res * 10 ^ j) with false by (symmetry; apply Z.ltb_ge; lia).
  destruct (Z.eqb_spec (rem * 10 ^ j mod divisor) 0) as [Ez|Ez].
  { rewrite Ez in *. exists j, 0, (res * 10 ^ j + q). split_and!; lia || nia || done. }
  destruct (IH (rem * 10 ^ j mod divisor) (res * 10 ^ j + q) (e - j)) as (k & m & q' & Hk & -> & E & ?); [lia..| | |].
  - lia.
  - right. split; [nia|]. destruct Hf as [[-> Hf]|(Hpos & Hf & Hf')].
    + split; [lia|]. assert (10 ^ 18 <= 10 ^ (Z.of_nat fuel - 1)) by (apply Z.pow_le_mono_r; lia).
      unfold MaxCoefficient. change (999999999999999999 / 10) with 99999999999999999. nia.
    + destruct Hor as [Hor| ->]; [|lia].
      destruct (Z.eq_dec j 0) as [->|]; [lia|].
      replace (Z.of_nat (S fuel) - 1) with (Z.of_nat fuel) in Hf' by lia.
      destruct fuel as [|fuel]; [lia|]. split; [lia|]. etransitivity; [exact Hf'|].
      rewrite Nat2Z.inj_succ, Z.pow_succ_r by lia.
      replace (Z.succ (Z.of_nat fuel) - 1) with (Z.of_nat fuel) by lia.
      assert (10 <= 10 ^ j) by (apply (Z.pow_le_mono_r 10 1 j); lia).
      rewrite Z.mul_assoc. apply Z.mul_le_mono_nonneg_r; [apply Z.pow_nonneg; lia|nia].
  - exists (j + k), m, q'. split_and!; try tauto; [lia|by replace (e - j - k) with (e - (j + k)) by lia|].
    rewrite <- E, Z.pow_add_r, Z.mul_assoc by lia. f_equal. nia.
Qed.

Lemma isZero_coefficient d : wf d -> isFinite d = true -> isZero d = false -> 0 < m_coefficient d.
Proof.
  unfold wf, isFinite, isSpecial, isZero. intros Hd Hf Hz.
  destruct (m_formatClass d); [done|apply Hd|done..].
Qed.

Lemma isZero_true d : wf d -> isZero d = true -> m_coefficient d = 0.
Proof.
  unfold wf, isZero. intros Hd Hz.
  destruct (m_formatClass d); [done..|apply Hd].
Qed.

(** The quotient of two finite non-zero decimals is within half a unit of its
    last place, and it is exact or has at least seventeen digits. *)
Lemma div_spec l r :
  wf l -> wf r -> isFinite l = true -> isFinite r = true -> isZero l = false -> isZero r = false ->
  exists k q, 0 <= k /\ 0 < q <= MaxCoefficient + 1 /\
    div l r = encode (if decide (m_sign l = m_sign r) then Positive else Negative)
                (m_exponent l - m_exponent r - k) q /\
    2 * Z.abs (m_coefficient l * 10 ^ k - q * m_coefficient r) <= m_coefficient r /\
    (m_coefficient l * 10 ^ k = q * m_coefficient r \/ MaxCoefficient / 10 <= q).
Proof.
  intros Hl Hr Fl Fr Zl Zr. unfold div. rewrite handle_finite, Zl, Zr by done.
  pose proof (isZero_coefficient l Hl Fl Zl) as Pl. pose proof (isZero_coefficient r Hr Fr Zr) as Pr.
  apply wf_coefficient in Hl, Hr.
  destruct (divLoop_spec divFuel (m_coefficient r) (m_coefficient l) 0 (m_exponent l - m_exponent r))
    as (k & m & q & Hk & -> & E & Hm & Hq & Hx).
  { lia. } { lia. } { unfold MaxCoefficient. lia. } { by right. } { left. unfold divFuel. lia. }
  pose proof (Z.div_mod (m_coefficient r) 2 ltac:(lia)) as Hdm.
  pose proof (Z.mod_pos_bound (m_coefficient r) 2 ltac:(lia)) as Hmb.
  rewrite Z.mul_0_l, Z.add_0_l in E.
  destruct (Z.ltb_spec (m_coefficient r / 2) m) as [Hlt|Hge].
  - exists k, (q + 1). unfold u64. unfold MaxCoefficient in *.
    rewrite wrapU_small by lia. split_and!; try done; lia.
  - exists k, q. split_and!; try done; lia.
Qed.

Lemma div_wf l r : wf l -> wf r -> wf (div l r).
Proof.
  intros Hl Hr. destruct (isFinite l && isFinite r) eqn:F.
  - zprop. destruct (isZero r) eqn:Zr; [|destruct (isZero l) eqn:Zl].
    + unfold div. rewrite handle_finite, Zr by done. case_match; [apply nan_wf|apply infinity_wf].
    + unfold div. rewrite handle_finite, Zr, Zl by done. by apply encode_wf.
    + destruct (div_spec l r) as (k & q & _ & Hq & -> & _); [done..|]. apply encode_wf.
      unfold MaxCoefficient in *. lia.
  - unfold div. destruct (handle l r) eqn:Eh.
    + exfalso. unfold handle in Eh. rewrite F in Eh. unfold isFinite, isSpecial in F.
      repeat case_match; simplify_eq; done.
    + apply nan_wf.
    + exact (handle_nan_wf l r _ Hl Hr Eh).
    + apply infinity_wf.
    + apply zero_wf.
Qed.

(** ** Rounding *)

Lemma ceil_wf d : wf d -> wf (ceil d).
Proof.
  intros Hd. unfold ceil. pose proof (wf_coefficient d Hd) as Hc.
  repeat case_match; try done; try (by apply of_int32_wf); try apply zero_wf;
    pose proof (scaleDown_bounds _ (Z.to_nat (- m_exponent d)) Hc); unfold MaxCoefficient in *;
    apply encode_wf; lia.
Qed.

Lemma floor_wf d : wf d -> wf (floor d).
Proof.
  intros Hd. unfold floor. pose proof (wf_coefficient d Hd) as Hc.
  repeat case_match; try done; try (by apply of_int32_wf); try apply zero_wf;
    pose proof (scaleDown_bounds _ (Z.to_nat (- m_exponent d)) Hc); unfold MaxCoefficient in *;
    apply encode_wf; lia.
Qed.

Lemma round_wf d : wf d -> wf (round d).
Proof.
  intros Hd. unfold round. pose proof (wf_coefficient d Hd) as Hc.
  repeat case_match; try done; try apply zero_wf;
    pose proof (scaleDown_bounds _ (Z.to_nat (- m_exponent d - 1)) Hc); unfold MaxCoefficient in *;
    apply encode_wf; (split; [apply Z.div_pos; lia|apply Z.div_lt_upper_bound; lia]).
Qed.

Lemma remainder_wf l r : wf l -> wf r -> wf (remainder l r).
Proof.
  intros Hl Hr. unfold remainder. pose proof (div_wf l r Hl Hr).
  case_match; [done|]. apply sub_wf; [done|]. apply mul_wf; [|done].
  case_match; [by apply ceil_wf|by apply floor_wf].
Qed.

(** ** Parsing keeps the accumulator in 64 bits *)

Lemma parseStep_spec p c :
  0 <= accumulator p < 2 ^ 64 ->
  match parseStep p c with
  | inl p' => 0 <= accumulator p' < 2 ^ 64
  | inr d => wf d
  end.
Proof.
  destruct p as [st sg acc nd nda nx es ex]. cbn [accumulator]. intros H.
  pose proof (wrapU_bounds 64 (u64 (acc * 10) + (c - 48)) ltac:(lia)).
  unfold parseStep, isDigit; destruct st; 
    repeat match goal with |- context [if ?b then _ else _] => destruct b eqn:? end; zprop;
    cbn [accumulator]; try done; try lia; try apply zero_wf; destruct es; done.
Qed.

Lemma parseLoop_spec s p :
  0 <= accumulator p < 2 ^ 64 ->
  match parseLoop p s with
  | inl p' => 0 <= accumulator p' < 2 ^ 64
  | inr d => wf d
  end.
Proof.
  revert p. induction s as [|c s IH]; intros p Hp; cbn [parseLoop]; [done|].
  pose proof (parseStep_spec p c Hp). destruct (parseStep p c); [by apply IH|done].
Qed.

Lemma fromString_wf s : wf (fromString s).
Proof.
  unfold fromString. pose proof (parseLoop_spec s startParser ltac:(cbn; lia)) as H.
  destruct (parseLoop startParser s) as [[st sg acc nd nda nx es ex]|]; [|done].
  cbn [accumulator] in H. unfold parseFinish. cbn zeta.
  generalize (ex * match es with Negative => -1 | Positive => 1 end - nda + nx). intros re.
  destruct st; try apply nan_wf; try apply zero_wf;
  (case_match; [apply zero_wf|]; case_match; [case_match; [apply infinity_wf|]|];
   apply encode_wf; [|done]; zprop; rewrite scaleUp_mod by lia; by apply wrapU_bounds).
Qed.
