(* ===== verification/JSONValues.v ===== *)
(** * JSON values ([platform/JSONValues.h], [platform/JSONValues.cpp])

    The protocol's data: a value is one of the subclasses of [JSONValue].  An
    object is the list of its members in [m_order]; the file [JSONObject] gives
    the pair of fields the class really has and relates the two. *)

From S2P Require Import Prelude Platform WTFString DecimalNumber.

(** ** The value hierarchy *)

#[local] Unset Elimination Schemes.
Inductive JSONValue : Type :=
  | JSONNull
  | JSONBoolean (m_boolValue : bool)
  | JSONNumber (m_doubleValue : double)
  | JSONString (m_stringValue : ustring)
  | JSONObject (m_members : list (ustring * JSONValue))
  | JSONArray (m_data : list JSONValue).
#[local] Set Elimination Schemes.

Inductive JSONType := TypeNull | TypeBoolean | TypeNumber | TypeString | TypeObject | TypeArray.

#[export] Instance JSONType_eq_dec : EqDecision JSONType.
Proof. solve_decision. Defined.

Definition type (v : JSONValue) : JSONType :=
  match v with
  | JSONNull => TypeNull
  | JSONBoolean _ => TypeBoolean
  | JSONNumber _ => TypeNumber
  | JSONString _ => TypeString
  | JSONObject _ => TypeObject
  | JSONArray _ => TypeArray
  end.

(** A JSON object as the rest of the program holds it. *)
Abbreviation jobject := (list (ustring * JSONValue)).

(** Induction over values through the member lists. *)
Section Induction.
Context (Q : JSONValue -> Prop).
Context (Hnull : Q JSONNull).
Context (Hbool : forall b, Q (JSONBoolean b)).
Context (Hnum : forall d, Q (JSONNumber d)).
Context (Hstr : forall s, Q (JSONString s)).
Context (Hobj : forall o, Forall (fun kv => Q (snd kv)) o -> Q (JSONObject o)).
Context (Harr : forall l, Forall Q l -> Q (JSONArray l)).

Fixpoint JSONValue_rec' (v : JSONValue) : Q v :=
  match v with
  | JSONNull => Hnull
  | JSONBoolean b => Hbool b
  | JSONNumber d => Hnum d
  | JSONString s => Hstr s
  | JSONObject o =>
      Hobj o ((fix go (o : jobject) : Forall (fun kv => Q (snd kv)) o :=
        match o with
        | [] => List.Forall_nil _
        | kv :: o' => List.Forall_cons _ _ _
            (match kv return Q (snd kv) with (k, w) => JSONValue_rec' w end) (go o')
        end) o)
  | JSONArray l =>
      Harr l ((fix go (l : list JSONValue) : Forall Q l :=
        match l with
        | [] => List.Forall_nil _
        | w :: l' => List.Forall_cons _ _ _ (JSONValue_rec' w) (go l')
        end) l)
  end.
End Induction.

(** ** Accessors *)

Definition asBoolean (v : JSONValue) : option bool :=
  match v with JSONBoolean b => Some b | _ => None end.

Definition asDouble (v : JSONValue) : option double :=
  match v with JSONNumber d => Some d | _ => None end.

Definition asString (v : JSONValue) : option ustring :=
  match v with JSONString s => Some s | _ => None end.

Definition asObject (v : JSONValue) : option jobject :=
  match v with JSONObject o => Some o | _ => None end.

Definition asArray (v : JSONValue) : option (list JSONValue) :=
  match v with JSONArray l => Some l | _ => None end.

Definition asInt `{Platform} (v : JSONValue) : option Z :=
  match v with JSONNumber d => Some (static_cast_S 32 d) | _ => None end.

Definition asLong `{Platform} (v : JSONValue) : option Z :=
  match v with JSONNumber d => Some (static_cast_S 64 d) | _ => None end.

Definition asUnsigned `{Platform} (v : JSONValue) : option Z :=
  match v with JSONNumber d => Some (static_cast_U 32 d) | _ => None end.

Definition asUnsignedLong `{Platform} (v : JSONValue) : option Z :=
  match v with JSONNumber d => Some (static_cast_U 64 d) | _ => None end.

(** [JSONBasicValue::create(int)]. *)
Definition JSONInt (z : Z) : JSONValue := JSONNumber (Double.of_Z z).

(** ** Object members *)

Fixpoint get (name : ustring) (o : jobject) : option JSONValue :=
  match o with
  | [] => None
  | (k, v) :: o' => if decide (k = name) then Some v else get name o'
  end.

Fixpoint setValue (name : ustring) (value : JSONValue) (o : jobject) : jobject :=
  match o with
  | [] => [(name, value)]
  | (k, v) :: o' => if decide (k = name) then (k, value) :: o' else (k, v) :: setValue name value o'
  end.

Fixpoint remove (name : ustring) (o : jobject) : jobject :=
  match o with
  | [] => []
  | (k, v) :: o' => if decide (k = name) then o' else (k, v) :: remove name o'
  end.

Definition setBoolean name (b : bool) o := setValue name (JSONBoolean b) o.
Definition setNumber name (d : double) o := setValue name (JSONNumber d) o.
Definition setInt name (z : Z) o := setValue name (JSONInt z) o.
Definition setString name (s : ustring) o := setValue name (JSONString s) o.
Definition setObject name (p : jobject) o := setValue name (JSONObject p) o.
Definition setArray name (l : list JSONValue) o := setValue name (JSONArray l) o.

Definition getBoolean name o : option bool := get name o ≫= asBoolean.
Definition getString name o : option ustring := get name o ≫= asString.
Definition getObject name o : option jobject := get name o ≫= asObject.
Definition getArray name o : option (list JSONValue) := get name o ≫= asArray.
Definition getInt `{Platform} name o : option Z := get name o ≫= asInt.
Definition getLong `{Platform} name o : option Z := get name o ≫= asLong.

(** ** Writing *)

Definition dquote : Z := 34.

(** [escapeChar]: the two-character escapes. *)
Definition escapeChar (c : Z) : option ustring :=
  if c =? 8 then Some (u "\b")
  else if c =? 12 then Some (u "\f")
  else if c =? 10 then Some (u "\n")
  else if c =? 13 then Some (u "\r")
  else if c =? 9 then Some (u "\t")
  else if c =? ch "\" then Some (u "\\")
  else if c =? dquote then Some [ch "\"; dquote]
  else None.

(** The digits of [String::format] with the conversion [%X]. *)
Definition hexDigit (n : Z) : Z := if n <? 10 then n + ch "0" else n - 10 + ch "A".

(** [String::format] of a code unit with the template [\u%04X]. *)
Definition unicodeEscape (c : Z) : ustring :=
  u "\u" ++ [hexDigit (c / 4096 mod 16); hexDigit (c / 256 mod 16);
             hexDigit (c / 16 mod 16); hexDigit (c mod 16)].

Definition writeChar (c : Z) : ustring :=
  match escapeChar c with
  | Some e => e
  | None => if (c <? 32) || (126 <? c) || (c =? ch "<") || (c =? ch ">")
            then unicodeEscape c else [c]
  end.

Definition doubleQuoteString (s : ustring) : ustring :=
  [dquote] ++ flat_map writeChar s ++ [dquote].

(** [writeIndent]. *)
Fixpoint writeIndent (depth : nat) : ustring :=
  match depth with
  | O => []
  | S n => u "  " ++ writeIndent n
  end.

(** What the two writing loops over members do: [sep] before every item but the first. *)
Fixpoint separated (sep : ustring) (first : bool) (items : list ustring) : ustring :=
  match items with
  | [] => []
  | i :: items' => (if first then [] else sep) ++ i ++ separated sep false items'
  end.

Section Writing.
Context {P : Platform}.

Definition writeNumber (d : double) : ustring :=
  if Double.isfinite d then toString (fromDouble d) else u "null".

Fixpoint writeJSON (v : JSONValue) : ustring :=
  match v with
  | JSONNull => u "null"
  | JSONBoolean b => if b then u "true" else u "false"
  | JSONNumber d => writeNumber d
  | JSONString s => doubleQuoteString s
  | JSONObject o =>
      u "{" ++ separated (u ",") true
                 (map (fun kv => match kv with (k, w) => doubleQuoteString k ++ u ":" ++ writeJSON w end) o)
            ++ u "}"
  | JSONArray l => u "[" ++ separated (u ",") true (map writeJSON l) ++ u "]"
  end.

(** Elements of these types end their line in a pretty-printed array. *)
Definition insertsNewLine (v : JSONValue) : bool :=
  match type v with TypeObject | TypeArray | TypeString => true | _ => false end.

(** The array loop: [first] for the first element, [lastNL] for
    [lastInsertedNewLine], over the elements and their texts. *)
Fixpoint prettyElements (indent : ustring) (first lastNL : bool) (l : list (bool * ustring)) : ustring :=
  match l with
  | [] => []
  | (insertNewLine, text) :: l' =>
      (if first then (if insertNewLine then [10] ++ indent else [])
       else u "," ++ (if lastNL then [10] ++ indent else u " "))
      ++ text ++ prettyElements indent false insertNewLine l'
  end.

Fixpoint prettyWriteJSONInternal (v : JSONValue) (depth : nat) : ustring :=
  match v with
  | JSONObject o =>
      u "{" ++ [10]
        ++ separated (u "," ++ [10]) true
             (map (fun kv => match kv with
                    (k, w) => writeIndent (S depth) ++ doubleQuoteString k ++ u ": "
                                ++ prettyWriteJSONInternal w (S depth) end) o)
        ++ [10] ++ writeIndent depth ++ u "}"
  | JSONArray l =>
      u "[" ++ prettyElements (writeIndent (S depth)) true false
                 (map (fun w => (insertsNewLine w, prettyWriteJSONInternal w (S depth))) l)
            ++ (if match last l with Some w => insertsNewLine w | None => false end
                then [10] ++ writeIndent depth else [])
            ++ u "]"
  | _ => writeJSON v
  end.

Definition toJSONString (v : JSONValue) : ustring := writeJSON v.

Definition toPrettyJSONString (v : JSONValue) : ustring :=
  prettyWriteJSONInternal v 0 ++ [10].

End Writing.

(** ** Members after an assignment *)

Lemma setValue_fresh k v (o : jobject) : k ∉ o.*1 -> setValue k v o = o ++ [(k, v)].
Proof.
  induction o as [|[k' v'] o IH]; simpl; [done|]. rewrite not_elem_of_cons. intros [Hne Hk].
  destruct (decide (k' = k)); [by subst|]. by rewrite IH.
Qed.

Lemma setValue_keys k v (o : jobject) :
  (setValue k v o).*1 = if decide (k ∈ o.*1) then o.*1 else o.*1 ++ [k].
Proof.
  induction o as [|[k' v'] o IH]; cbn [setValue].
  { by rewrite decide_False by (apply not_elem_of_nil). }
  destruct (decide (k' = k)) as [->|Hne]; rewrite !fmap_cons; cbn [fst].
  - by rewrite decide_True by (apply elem_of_cons; by left).
  - rewrite IH. destruct (decide (k ∈ o.*1)) as [Hin|Hin], (decide (k ∈ k' :: o.*1)) as [Hin'|Hin']; try done.
    + destruct Hin'. apply elem_of_cons. by right.
    + apply elem_of_cons in Hin' as [->|]; done.
Qed.

Lemma setValue_NoDup k v (o : jobject) : NoDup o.*1 -> NoDup (setValue k v o).*1.
Proof.
  intros Hd. rewrite setValue_keys. destruct (decide _) as [|Hn]; [done|].
  apply NoDup_app. split_and!; [done| |by apply NoDup_singleton].
  intros x Hx ->%list_elem_of_singleton. done.
Qed.

Lemma setValue_Forall (Q : JSONValue -> Prop) k v (o : jobject) :
  Q v -> Forall (fun kv => Q kv.2) o -> Forall (fun kv => Q kv.2) (setValue k v o).
Proof.
  intros Hv. induction 1 as [|[k' v'] o Hkv Ho IH]; simpl; [by repeat constructor|].
  destruct (decide (k' = k)); by constructor.
Qed.

Lemma get_setValue k k' v (o : jobject) :
  get k' (setValue k v o) = if decide (k = k') then Some v else get k' o.
Proof.
  induction o as [|[k1 v1] o IH]; simpl; [done|].
  destruct (decide (k1 = k)) as [->|]; simpl; [by destruct (decide (k = k'))|].
  rewrite IH. destruct (decide (k1 = k')), (decide (k = k')); subst; done.
Qed.

Lemma get_None k (o : jobject) : get k o = None <-> k ∉ o.*1.
Proof.
  induction o as [|[k1 v1] o IH]; cbn; [split; [by intros _ ?%elem_of_nil|done]|].
  rewrite not_elem_of_cons. destruct (decide (k1 = k)) as [->|]; [naive_solver|]. rewrite IH. naive_solver.
Qed.

Lemma get_remove k k' (o : jobject) :
  NoDup o.*1 -> get k' (remove k o) = if decide (k = k') then None else get k' o.
Proof.
  induction o as [|[k1 v1] o IH]; cbn; [by destruct (decide _)|]. intros [Hn Hd]%NoDup_cons.
  destruct (decide (k1 = k)) as [->|]; cbn.
  - destruct (decide (k = k')) as [<-|]; [by apply get_None|done].
  - rewrite IH by done. destruct (decide (k1 = k')), (decide (k = k')); subst; done.
Qed.

Lemma remove_keys k (o : jobject) : forall k', k' ∈ (remove k o).*1 -> k' ∈ o.*1.
Proof.
  induction o as [|[k1 v1] o IH]; cbn; [done|]. intros k'. destruct (decide (k1 = k)); cbn.
  - intros. by apply elem_of_cons; right.
  - rewrite !elem_of_cons. naive_solver.
Qed.

Lemma remove_NoDup k (o : jobject) : NoDup o.*1 -> NoDup (remove k o).*1.
Proof.
  induction o as [|[k1 v1] o IH]; cbn; [done|]. intros [Hn Hd]%NoDup_cons.
  destruct (decide (k1 = k)); cbn; [done|]. constructor; [|auto]. by intros ?%remove_keys.
Qed.
