(* ===== verification/JSONObject.v ===== *)
(** * The representation of JSON objects ([JSONObjectBase])

    The class holds a hash map [m_data] and the vector [m_order] of the keys in
    the order of their first insertion.  The rest of the development uses the
    list of members; this file shows that the list is what the pair implements. *)

From S2P Require Import Prelude Platform WTFString DecimalNumber JSONValues.

Module JSONObjectRep.

Record t := mk { m_data : gmap ustring JSONValue; m_order : list ustring }.

Definition create : t := mk ∅ [].

(** [setValue], [setObject] and [setArray]: [HashMap::set] says whether the
    entry is new. *)
Definition setValue (name : ustring) (value : JSONValue) (o : t) : t :=
  let isNewEntry := match m_data o !! name with None => true | Some _ => false end in
  mk (<[name := value]> (m_data o)) (if isNewEntry then m_order o ++ [name] else m_order o).

Definition get (name : ustring) (o : t) : option JSONValue := m_data o !! name.

(** The loop of [remove]: the first occurrence goes. *)
Fixpoint removeFirst (name : ustring) (order : list ustring) : list ustring :=
  match order with
  | [] => []
  | k :: order' => if decide (k = name) then order' else k :: removeFirst name order'
  end.

Definition remove (name : ustring) (o : t) : t :=
  mk (delete name (m_data o)) (removeFirst name (m_order o)).

Definition size (o : t) : nat := base.size (m_data o).

(** The members in the order the writing loops visit them. *)
Definition members (o : t) : jobject :=
  omap (fun k => pair k <$> m_data o !! k) (m_order o).

(** The order lists each key once, and the keys are those of the map. *)
Definition valid (o : t) : Prop :=
  NoDup (m_order o) /\ forall k, k ∈ m_order o <-> is_Some (m_data o !! k).

End JSONObjectRep.

Lemma members_order d order :
  (forall k, k ∈ order -> is_Some (d !! k)) ->
  (JSONObjectRep.members (JSONObjectRep.mk d order)).*1 = order.
Proof.
  unfold JSONObjectRep.members. cbn. induction order as [|k order IH]; intros Hk; [done|]. cbn.
  destruct (Hk k) as [v Hv]; [by apply list_elem_of_here|]. rewrite Hv. cbn. f_equal.
  apply IH. intros k' H. apply Hk. by apply list_elem_of_further.
Qed.

Lemma get_members d order k :
  JSONValues.get k (JSONObjectRep.members (JSONObjectRep.mk d order)) =
    if decide (k ∈ order) then d !! k else None.
Proof.
  unfold JSONObjectRep.members. cbn. induction order as [|k' order IH]; cbn.
  { by rewrite decide_False by apply not_elem_of_nil. }
  destruct (decide (k = k')) as [->|Hne].
  - rewrite decide_True by apply list_elem_of_here.
    destruct (d !! k') as [v|] eqn:E; cbn; [by rewrite decide_True|].
    rewrite IH. by destruct (decide _).
  - destruct (d !! k') as [v|] eqn:E; cbn; [rewrite decide_False by done|]; rewrite IH;
      destruct (decide (k ∈ order)) as [H|H], (decide (k ∈ k' :: order)) as [H'|H']; try done;
      (destruct H'; by apply list_elem_of_further) || (by apply elem_of_cons in H' as [|]).
Qed.

(** The members of the map outside the changed key. *)
Lemma members_insert_other d order k v :
  k ∉ order -> JSONObjectRep.members (JSONObjectRep.mk (<[k := v]> d) order) =
               JSONObjectRep.members (JSONObjectRep.mk d order).
Proof.
  unfold JSONObjectRep.members. cbn. induction order as [|k' order IH]; intros Hk; [done|]. cbn.
  apply not_elem_of_cons in Hk as [Hne Hk]. rewrite lookup_insert_ne by done. by rewrite IH.
Qed.

Lemma members_delete_other d order k :
  k ∉ order -> JSONObjectRep.members (JSONObjectRep.mk (delete k d) order) =
               JSONObjectRep.members (JSONObjectRep.mk d order).
Proof.
  unfold JSONObjectRep.members. cbn. induction order as [|k' order IH]; intros Hk; [done|]. cbn.
  apply not_elem_of_cons in Hk as [Hne Hk]. rewrite lookup_delete_ne by done. by rewrite IH.
Qed.

Lemma setValue_valid k v o : JSONObjectRep.valid o -> JSONObjectRep.valid (JSONObjectRep.setValue k v o).
Proof.
  intros [Hd Hk]. destruct o as [d order]. unfold JSONObjectRep.setValue, JSONObjectRep.valid in *. cbn in *.
  destruct (d !! k) as [w|] eqn:E.
  - split; [done|]. intros k'. rewrite Hk. destruct (decide (k = k')) as [<-|].
    + rewrite lookup_insert_eq, E. by split.
    + by rewrite lookup_insert_ne.
  - assert (k ∉ order) as Hn by (rewrite Hk, E; by intros []). split.
    + apply NoDup_app. split_and!; [done| |apply NoDup_singleton].
      by intros x Hx ->%list_elem_of_singleton.
    + intros k'. rewrite elem_of_app, list_elem_of_singleton, Hk. destruct (decide (k = k')) as [<-|Hne].
      * rewrite lookup_insert_eq. split; [by eexists|by right].
      * rewrite lookup_insert_ne by done. split; [by intros [|<-]|by left].
Qed.

Lemma setValue_members k v o :
  JSONObjectRep.valid o ->
  JSONObjectRep.members (JSONObjectRep.setValue k v o) = setValue k v (JSONObjectRep.members o).
Proof.
  intros [Hd Hk]. destruct o as [d order]. unfold JSONObjectRep.setValue. cbn in *.
  destruct (d !! k) as [w|] eqn:E.
  - assert (k ∈ order) as Hin by (apply Hk; rewrite E; by eexists).
    assert (forall k', k' ∈ order -> is_Some (d !! k')) as Hk' by (intros; by apply Hk). clear Hk.
    induction order as [|k' order IH]; [by apply not_elem_of_nil in Hin|].
    apply NoDup_cons in Hd as [Hn Hd]. unfold JSONObjectRep.members in *. cbn in *.
    destruct (decide (k = k')) as [<-|Hne].
    + rewrite lookup_insert_eq, E. cbn. rewrite decide_True by done. f_equal.
      by apply (members_insert_other d order).
    + rewrite lookup_insert_ne by done. destruct (Hk' k') as [w' E']; [apply list_elem_of_here|].
      rewrite E'. cbn. rewrite decide_False by done. f_equal. apply IH; [done| |].
      * by apply elem_of_cons in Hin as [|].
      * intros. apply Hk'. by apply list_elem_of_further.
  - assert (k ∉ order) as Hn by (rewrite Hk, E; by intros []).
    pose proof (members_order d order ltac:(intros; by apply Hk)) as Eo.
    transitivity (JSONObjectRep.members (JSONObjectRep.mk d order) ++ [(k, v)]).
    + unfold JSONObjectRep.members. cbn. rewrite omap_app. cbn. rewrite lookup_insert_eq. cbn. f_equal.
      by apply (members_insert_other d order).
    + symmetry. apply setValue_fresh. by rewrite Eo.
Qed.

Lemma removeFirst_elem k k' order :
  NoDup order -> k' ∈ JSONObjectRep.removeFirst k order <-> k' ∈ order /\ k' <> k.
Proof.
  induction 1 as [|x order Hx Hd IH]; cbn; [by rewrite elem_of_nil; naive_solver|].
  destruct (decide (x = k)) as [->|Hne].
  - rewrite elem_of_cons. split; [|by intros [[->|] ?]]. intros H. split; [by right|by intros ->].
  - rewrite !elem_of_cons, IH. split; [intros [->|[]]; auto|intros [[->|] ?]; auto].
Qed.

Lemma removeFirst_NoDup k order : NoDup order -> NoDup (JSONObjectRep.removeFirst k order).
Proof.
  induction 1 as [|x order Hx Hd IH]; cbn; [constructor|].
  destruct (decide (x = k)); [done|]. constructor; [|done]. rewrite removeFirst_elem by done. by intros [].
Qed.

Lemma remove_valid k o : JSONObjectRep.valid o -> JSONObjectRep.valid (JSONObjectRep.remove k o).
Proof.
  intros [Hd Hk]. destruct o as [d order]. unfold JSONObjectRep.remove, JSONObjectRep.valid in *. cbn in *.
  split; [by apply removeFirst_NoDup|]. intros k'. rewrite removeFirst_elem, Hk by done.
  destruct (decide (k = k')) as [<-|Hne].
  - rewrite lookup_delete_eq. split; [by intros []|by intros []].
  - rewrite lookup_delete_ne by done. split; [by intros []|by split].
Qed.

Lemma remove_members k o :
  JSONObjectRep.valid o -> JSONObjectRep.members (JSONObjectRep.remove k o) = remove k (JSONObjectRep.members o).
Proof.
  intros [Hd Hk]. destruct o as [d order]. unfold JSONObjectRep.remove. cbn in *.
  assert (forall k', k' ∈ order -> is_Some (d !! k')) as Hk' by (intros; by apply Hk). clear Hk.
  induction order as [|k' order IH]; [done|]. apply NoDup_cons in Hd as [Hn Hd].
  destruct (Hk' k') as [w' E']; [apply list_elem_of_here|].
  unfold JSONObjectRep.members in *. cbn in *. rewrite E'. cbn.
  destruct (decide (k' = k)) as [->|Hne].
  - by apply (members_delete_other d order).
  - cbn. rewrite lookup_delete_ne, E' by done. cbn. f_equal. apply IH; [done|].
    intros. apply Hk'. by apply list_elem_of_further.
Qed.

(** C31 The hash map with its insertion-order vector implements the list of
    members: in every state the operations reach, [get], [setValue], [remove]
    and [size] act on the list of members as the list operations do, and the
    keys stay distinct. *)
Theorem JSONObjectRep_refines o :
  JSONObjectRep.valid o ->
  NoDup (JSONObjectRep.members o).*1 /\
  JSONObjectRep.size o = length (JSONObjectRep.members o) /\
  (forall k, JSONObjectRep.get k o = get k (JSONObjectRep.members o)) /\
  (forall k v, JSONObjectRep.valid (JSONObjectRep.setValue k v o) /\
     JSONObjectRep.members (JSONObjectRep.setValue k v o) = setValue k v (JSONObjectRep.members o)) /\
  (forall k, JSONObjectRep.valid (JSONObjectRep.remove k o) /\
     JSONObjectRep.members (JSONObjectRep.remove k o) = remove k (JSONObjectRep.members o)).
Proof.
  intros Hv. pose proof Hv as [Hd Hk]. destruct o as [d order] eqn:Eo. cbn in Hd, Hk.
  assert ((JSONObjectRep.members (JSONObjectRep.mk d order)).*1 = order) as Em
    by (apply members_order; intros; by apply Hk).
  split_and!.
  - by rewrite Em.
  - rewrite <- (length_fmap fst), Em. unfold JSONObjectRep.size. cbn.
    rewrite <- size_dom. replace (dom d) with (list_to_set order : gset ustring); [by apply size_list_to_set|].
    apply set_eq. intros k. by rewrite elem_of_list_to_set, elem_of_dom, Hk.
  - intros k. rewrite get_members. unfold JSONObjectRep.get. cbn.
    destruct (decide (k ∈ order)) as [|Hn]; [done|]. rewrite Hk in Hn. by apply eq_None_not_Some.
  - intros k v. split; [by apply setValue_valid|by apply setValue_members].
  - intros k. split; [by apply remove_valid|by apply remove_members].
Qed.

Lemma JSONObjectRep_refines_witness :
  JSONObjectRep.get (u "b")
    (JSONObjectRep.setValue (u "b") JSONNull (JSONObjectRep.setValue (u "a") (JSONBoolean true) JSONObjectRep.create))
  = Some JSONNull /\
  NoDup (JSONObjectRep.members (JSONObjectRep.setValue (u "a") (JSONBoolean true) JSONObjectRep.create)).*1.
Proof.
  split; [reflexivity|].
  apply (JSONObjectRep_refines (JSONObjectRep.setValue (u "a") (JSONBoolean true) JSONObjectRep.create)).
  apply setValue_valid. split; [constructor|]. intros k. split; [by intros ?%elem_of_nil|by intros [? ?]].
Defined.
