(* ===== verification/JSONParser.v ===== *)
(** * The JSON parser ([core/inspector/JSONParser.cpp])

    A pointer into the text, together with [end], is the list of the units from
    it on; an out-parameter [tokenEnd] is the returned suffix.  The tokenizer,
    the string decoder and the recursive [buildValue] follow the source
    function by function. *)

From S2P Require Import Prelude Platform WTFString JSONValues.

Definition stackLimit : nat := 1000.

Inductive Token :=
  | ObjectBegin | ObjectEnd | ArrayBegin | ArrayEnd | StringLiteral | Number
  | BoolTrue | BoolFalse | NullToken | ListSeparator | ObjectPairSeparator
  | InvalidToken.

#[export] Instance Token_eq_dec : EqDecision Token.
Proof. solve_decision. Defined.

(** ** Constants

    The loop of [parseConstToken]: both pointers advance before the units are
    compared, so they have advanced past a mismatch as well. *)
Fixpoint constLoop (start token : ustring) : ustring * ustring :=
  match start, token with
  | c :: start', t :: token' =>
      if c =? t then constLoop start' token' else (start', token')
  | _, _ => (start, token)
  end.

Definition parseConstToken (start token : ustring) : option ustring :=
  let '(start', token') := constLoop start token in
  match token' with
  | _ :: _ => None
  | [] => Some start'
  end.

(** ** Numbers *)

(** The digits at [start]: their count and what follows them. *)
Fixpoint skipDigits (start : ustring) : nat * ustring :=
  match start with
  | c :: start' =>
      if isDigit c then let '(n, rest) := skipDigits start' in (S n, rest)
      else (O, start)
  | [] => (O, start)
  end.

Definition readInt (start : ustring) (canHaveLeadingZeros : bool) : option ustring :=
  match start with
  | [] => None
  | c :: _ =>
      let haveLeadingZero := c =? ch "0" in
      let '(length, rest) := skipDigits start in
      if (length =? 0)%nat then None
      else if negb canHaveLeadingZeros && (1 <? length)%nat && haveLeadingZero then None
      else Some rest
  end.

(** The optional exponent part, from the unit [c] at [start] on. *)
Definition parseExponent (start : ustring) : option ustring :=
  match start with
  | c :: start' =>
      if (c =? ch "e") || (c =? ch "E") then
        match start' with
        | [] => None
        | c :: start'' =>
            if (c =? ch "-") || (c =? ch "+") then
              match start'' with
              | [] => None
              | _ => readInt start'' true
              end
            else readInt start' true
        end
      else Some start
  | [] => Some start
  end.

Definition parseNumberToken (start : ustring) : option ustring :=
  match start with
  | [] => None
  | c :: start' =>
      let start := if c =? ch "-" then start' else start in
      match readInt start false with
      | None => None
      | Some [] => Some []
      | Some ((c :: start') as start) =>
          if c =? ch "." then
            match readInt start' true with
            | None => None
            | Some [] => Some []
            | Some start => parseExponent start
            end
          else parseExponent start
      end
  end.

(** ** Strings *)

Definition isHexDigit (c : Z) : bool :=
  ((ch "0" <=? c) && (c <=? ch "9")) || ((ch "a" <=? c) && (c <=? ch "f"))
  || ((ch "A" <=? c) && (c <=? ch "F")).

Fixpoint readHexDigits (start : ustring) (digits : nat) {struct digits} : option ustring :=
  match digits, start with
  | O, _ => Some start
  | S n, c :: start' => if isHexDigit c then readHexDigits start' n else None
  | S _, [] => None
  end.

(** The [switch] over an escaped unit: so many hexadecimal digits follow it,
    it stands alone, or it is not an escape. *)
Inductive Escape := EscapeHex (digits : nat) | EscapeSimple | EscapeInvalid.

Definition escapeClass (c : Z) : Escape :=
  if c =? ch "x" then EscapeHex 2
  else if c =? ch "u" then EscapeHex 4
  else if (c =? ch "\") || (c =? ch "/") || (c =? ch "b") || (c =? ch "f") || (c =? ch "n")
          || (c =? ch "r") || (c =? ch "t") || (c =? ch "v") || (c =? dquote) then EscapeSimple
  else EscapeInvalid.

(** A value and the text after it, a null pointer, or a loop bound reached. *)
Inductive parsed (A : Type) : Type :=
  | Parsed (value : A) (valueTokenEnd : ustring)
  | NullPtr
  | OutOfFuel.
Arguments Parsed {A} value valueTokenEnd.
Arguments NullPtr {A}.
Arguments OutOfFuel {A}.

Section WithPlatform.
Context {P : Platform}.

(** The loop of [parseStringToken], with a bound on its turns.  After a
    backslash the next unit is read without comparing the pointer with [end]:
    at the end of the text that is the unit [pastEnd], and [start] is then
    beyond [end], so that no digit can follow and the loop is over. *)
Fixpoint parseStringLoop (fuel : nat) (start : ustring) : option ustring :=
  match fuel, start with
  | O, _ | _, [] => None
  | S fuel', c :: start' =>
      if c =? ch "\" then
        match start' with
        | [] =>
            match escapeClass pastEnd with
            | EscapeHex digits => match readHexDigits [] digits with
                                  | Some rest => parseStringLoop fuel' rest
                                  | None => None
                                  end
            | EscapeSimple => parseStringLoop fuel' []
            | EscapeInvalid => None
            end
        | e :: start'' =>
            match escapeClass e with
            | EscapeHex digits => match readHexDigits start'' digits with
                                  | Some rest => parseStringLoop fuel' rest
                                  | None => None
                                  end
            | EscapeSimple => parseStringLoop fuel' start''
            | EscapeInvalid => None
            end
        end
      else if c =? dquote then Some start'
      else parseStringLoop fuel' start'
  end.

Definition parseStringToken (start : ustring) : option ustring :=
  parseStringLoop (length start) start.

(** ** Tokens *)

Fixpoint skipSpaces (start : ustring) : ustring :=
  match start with
  | c :: start' => if isSpaceOrNewline c then skipSpaces start' else start
  | [] => []
  end.

Definition ofConst (start : ustring) (text : string) (token : Token) : Token * ustring :=
  match parseConstToken start (u text) with
  | Some tokenEnd => (token, tokenEnd)
  | None => (InvalidToken, [])
  end.

(** The token with [tokenStart] and [tokenEnd]. *)
Definition parseToken (start : ustring) : Token * ustring * ustring :=
  let start := skipSpaces start in
  match start with
  | [] => (InvalidToken, [], [])
  | c :: rest =>
      let '(token, tokenEnd) :=
        if c =? ch "n" then ofConst start "null" NullToken
        else if c =? ch "t" then ofConst start "true" BoolTrue
        else if c =? ch "f" then ofConst start "false" BoolFalse
        else if c =? ch "[" then (ArrayBegin, rest)
        else if c =? ch "]" then (ArrayEnd, rest)
        else if c =? ch "," then (ListSeparator, rest)
        else if c =? ch "{" then (ObjectBegin, rest)
        else if c =? ch "}" then (ObjectEnd, rest)
        else if c =? ch ":" then (ObjectPairSeparator, rest)
        else if isDigit c || (c =? ch "-") then
          match parseNumberToken start with
          | Some tokenEnd => (Number, tokenEnd)
          | None => (InvalidToken, [])
          end
        else if c =? dquote then
          match parseStringToken rest with
          | Some tokenEnd => (StringLiteral, tokenEnd)
          | None => (InvalidToken, [])
          end
        else (InvalidToken, []) in
      (token, start, tokenEnd)
  end.

(** The text from one pointer to a later one. *)
Definition textBetween (from to : ustring) : ustring := take (length from - length to) from.

(** ** Decoding strings *)

Definition hexToInt (c : Z) : Z :=
  if (ch "0" <=? c) && (c <=? ch "9") then c - ch "0"
  else if (ch "A" <=? c) && (c <=? ch "F") then c - ch "A" + 10
  else if (ch "a" <=? c) && (c <=? ch "f") then c - ch "a" + 10
  else 0.

(** The unit a simple escape stands for. *)
Definition decodeSimple (c : Z) : option Z :=
  if (c =? dquote) || (c =? ch "/") || (c =? ch "\") then Some c
  else if c =? ch "b" then Some 8
  else if c =? ch "f" then Some 12
  else if c =? ch "n" then Some 10
  else if c =? ch "r" then Some 13
  else if c =? ch "t" then Some 9
  else if c =? ch "v" then Some 11
  else None.

(** The loop of the first [decodeString]; [None] is [return false], or a read
    outside the token, which [decodeString_token] below excludes. *)
Fixpoint decodeLoop (fuel : nat) (start : ustring) : option ustring :=
  match fuel, start with
  | _, [] => Some []
  | O, _ => None
  | S fuel', c :: start' =>
      if negb (c =? ch "\") then cons c <$> decodeLoop fuel' start'
      else match start' with
      | [] => None
      | e :: start'' =>
          if e =? ch "x" then
            match start'' with
            | h1 :: h2 :: rest =>
                cons (Z.shiftl (hexToInt h1) 4 + hexToInt h2) <$> decodeLoop fuel' rest
            | _ => None
            end
          else if e =? ch "u" then
            match start'' with
            | h1 :: h2 :: h3 :: h4 :: rest =>
                cons (Z.shiftl (hexToInt h1) 12 + Z.shiftl (hexToInt h2) 8
                      + Z.shiftl (hexToInt h3) 4 + hexToInt h4) <$> decodeLoop fuel' rest
            | _ => None
            end
          else match decodeSimple e with
          | Some c' => cons c' <$> decodeLoop fuel' start''
          | None => None
          end
      end
  end.

Definition decodeString (text : ustring) : option ustring :=
  decodeLoop (length text) text.

(** The contents of the string token from [tokenStart] to [tokenEnd], between
    its quotes. *)
Definition stringContents (tokenStart tokenEnd : ustring) : ustring :=
  let text := textBetween tokenStart tokenEnd in
  take (length text - 2) (drop 1 text).

(** ** Values *)

(** The [while] loop of the array case; [token] and [tokenEnd] are those of the
    token at [start]. *)
Fixpoint arrayLoop (build : ustring -> parsed JSONValue) (fuel : nat) (start : ustring)
    (token : Token) (tokenEnd : ustring) (array : list JSONValue) : parsed JSONValue :=
  if decide (token = ArrayEnd) then Parsed (JSONArray array) tokenEnd
  else match fuel with
  | O => OutOfFuel
  | S fuel' =>
      match build start with
      | NullPtr => NullPtr
      | OutOfFuel => OutOfFuel
      | Parsed arrayNode start =>
          let array := array ++ [arrayNode] in
          let '(token, _, tokenEnd) := parseToken start in
          if decide (token = ListSeparator) then
            let start := tokenEnd in
            let '(token, _, tokenEnd) := parseToken start in
            if decide (token = ArrayEnd) then NullPtr
            else arrayLoop build fuel' start token tokenEnd array
          else if decide (token = ArrayEnd) then Parsed (JSONArray array) tokenEnd
          else NullPtr
      end
  end.

(** The [while] loop of the object case. *)
Fixpoint objectLoop (build : ustring -> parsed JSONValue) (fuel : nat)
    (token : Token) (tokenStart tokenEnd : ustring) (object : jobject) : parsed JSONValue :=
  if decide (token = ObjectEnd) then Parsed (JSONObject object) tokenEnd
  else match fuel with
  | O => OutOfFuel
  | S fuel' =>
      if decide (token ≠ StringLiteral) then NullPtr
      else match decodeString (stringContents tokenStart tokenEnd) with
      | None => NullPtr
      | Some key =>
          let '(token, _, tokenEnd) := parseToken tokenEnd in
          if decide (token ≠ ObjectPairSeparator) then NullPtr
          else match build tokenEnd with
          | NullPtr => NullPtr
          | OutOfFuel => OutOfFuel
          | Parsed value start =>
              let object := setValue key value object in
              let '(token, _, tokenEnd) := parseToken start in
              if decide (token = ListSeparator) then
                let '(token, tokenStart, tokenEnd) := parseToken tokenEnd in
                if decide (token = ObjectEnd) then NullPtr
                else objectLoop build fuel' token tokenStart tokenEnd object
              else if decide (token = ObjectEnd) then Parsed (JSONObject object) tokenEnd
              else NullPtr
          end
      end
  end.

(** [levels] is what is left of the nesting allowed by [stackLimit]:
    [stackLimit + 1 - depth]. *)
Fixpoint buildValue (levels : nat) (start : ustring) : parsed JSONValue :=
  match levels with
  | O => NullPtr
  | S levels' =>
      let '(token, tokenStart, tokenEnd) := parseToken start in
      match token with
      | NullToken => Parsed JSONNull tokenEnd
      | BoolTrue => Parsed (JSONBoolean true) tokenEnd
      | BoolFalse => Parsed (JSONBoolean false) tokenEnd
      | Number =>
          let '(value, ok) := charactersToDouble (textBetween tokenStart tokenEnd) in
          if ok then Parsed (JSONNumber value) tokenEnd else NullPtr
      | StringLiteral =>
          match decodeString (stringContents tokenStart tokenEnd) with
          | Some value => Parsed (JSONString value) tokenEnd
          | None => NullPtr
          end
      | ArrayBegin =>
          let start := tokenEnd in
          let '(token, _, tokenEnd) := parseToken start in
          arrayLoop (buildValue levels') (S (length start)) start token tokenEnd []
      | ObjectBegin =>
          let start := tokenEnd in
          let '(token, tokenStart, tokenEnd) := parseToken start in
          objectLoop (buildValue levels') (S (length start)) token tokenStart tokenEnd []
      | _ => NullPtr
      end
  end.

Definition parseJSONInternal (start : ustring) : parsed JSONValue :=
  match buildValue (S stackLimit) start with
  | Parsed value [] => Parsed value []
  | OutOfFuel => OutOfFuel
  | _ => NullPtr
  end.

Definition parseJSONResult (json : ustring) : parsed JSONValue :=
  match json with
  | [] => NullPtr
  | _ => parseJSONInternal json
  end.

(** [parseJSON], whose loops do end ([parseJSON_terminates]). *)
Definition parseJSON (json : ustring) : option JSONValue :=
  match parseJSONResult json with
  | Parsed value _ => Some value
  | _ => None
  end.

End WithPlatform.
