(* ===== verification/JSONParserFacts.v ===== *)
(** * Facts about the JSON parser and writer

    Termination of the parser, totality of the string decoder on the tokens
    the tokenizer accepts, the exact behaviour of [parseConstToken], and the
    round trip from the writer through the parser. *)

From S2P Require Import Prelude Platform WTFString DecimalNumber JSONValues JSONParser.

Section Facts.
Context {P : Platform}.

(** ** What the tokenizer consumes

    [consumes s rest]: [rest] is a proper suffix of [s]. *)
Definition consumes (s rest : ustring) : Prop := exists body, s = body ++ rest /\ body <> [].

Lemma consumes_length s rest : consumes s rest -> (length rest < length s)%nat.
Proof.
  intros ([|c body] & -> & Hb); [done|]. simpl. rewrite length_app. lia.
Qed.

Lemma consumes_cons c s rest : s = rest \/ consumes s rest -> consumes (c :: s) rest.
Proof.
  intros [<-|(body & -> & _)]; [by exists [c]|]. by exists (c :: body).
Qed.

Lemma consumes_trans s1 s2 s3 : consumes s1 s2 -> s2 = s3 \/ consumes s2 s3 -> consumes s1 s3.
Proof.
  intros (b1 & -> & Hb1) [<-|(b2 & -> & _)]; [by exists b1|].
  exists (b1 ++ b2). rewrite app_assoc. split; [done|]. by destruct b1.
Qed.

Hint Resolve consumes_cons consumes_trans : insp.

Lemma constLoop_consumes start token s' t' :
  constLoop start token = (s', t') -> start = s' \/ consumes start s'.
Proof.
  revert token s' t'. induction start as [|c start IH]; intros [|t token] s' t'; simpl;
    try (intros [= <- <-]; by left).
  destruct (Z.eqb_spec c t); intros H.
  - right. apply consumes_cons. eauto.
  - injection H as <- <-. right. by exists [c].
Qed.

Lemma skipDigits_spec s n rest :
  skipDigits s = (n, rest) ->
  exists ds, s = ds ++ rest /\ length ds = n /\ Forall (fun c => isDigit c = true) ds.
Proof.
  revert n rest. induction s as [|c s IH]; intros n rest; simpl.
  - intros [= <- <-]. by exists [].
  - destruct (isDigit c) eqn:Ed.
    + destruct (skipDigits s) as [n' r'] eqn:E. intros [= <- <-].
      destruct (IH _ _ eq_refl) as (ds & -> & <- & Hf). exists (c :: ds).
      split_and!; [done|done|by constructor].
    + intros [= <- <-]. by exists [].
Qed.

Lemma readInt_consumes s b rest : readInt s b = Some rest -> consumes s rest.
Proof.
  destruct s as [|c s]; [done|]. unfold readInt.
  destruct (skipDigits (c :: s)) as [n r] eqn:E.
  destruct (Nat.eqb_spec n 0); [done|].
  destruct (_ && _ && _); [done|]. intros [= <-].
  destruct (skipDigits_spec _ _ _ E) as (ds & -> & <- & _).
  exists ds. split; [done|]. by destruct ds.
Qed.

Lemma parseExponent_consumes s rest : parseExponent s = Some rest -> s = rest \/ consumes s rest.
Proof.
  destruct s as [|c s]; simpl; [intros [= <-]; by left|].
  destruct (_ || _); [|intros [= <-]; by left].
  destruct s as [|c2 s2]; [done|]. destruct (_ || _).
  - destruct s2 as [|c3 s3]; [done|]. intros H%readInt_consumes. right.
    apply consumes_cons. right. apply consumes_cons. by right.
  - intros H%readInt_consumes. right. apply consumes_cons. by right.
Qed.

Lemma parseNumberToken_consumes s rest : parseNumberToken s = Some rest -> consumes s rest.
Proof.
  destruct s as [|c s]; [done|]. unfold parseNumberToken. intros H.
  set (start := if c =? 45 then s else c :: s) in *.
  assert (forall r, consumes start r -> consumes (c :: s) r) as Hs.
  { intros r. unfold start. destruct (c =? 45); [|done]. intros. apply consumes_cons. by right. }
  apply Hs. clear Hs.
  destruct (readInt start false) as [r1|] eqn:E1; [|done].
  apply readInt_consumes in E1.
  destruct r1 as [|c1 r1]; [by injection H as <-|].
  apply (consumes_trans _ _ _ E1).
  destruct (c1 =? 46).
  - destruct (readInt r1 true) as [r2|] eqn:E2; [|done]. apply readInt_consumes in E2.
    right. apply consumes_cons. right.
    destruct r2 as [|c2 r2]; [by injection H as <-|].
    apply parseExponent_consumes in H. eauto with insp.
  - by apply parseExponent_consumes in H.
Qed.

Lemma readHexDigits_consumes n s rest :
  readHexDigits s n = Some rest ->
  exists hs, s = hs ++ rest /\ length hs = n /\ Forall (fun c => isHexDigit c = true) hs.
Proof.
  revert s. induction n as [|n IH]; intros s; simpl.
  - intros [= <-]. by exists [].
  - destruct s as [|c s]; [done|]. destruct (isHexDigit c) eqn:E; [|done].
    intros (hs & -> & <- & Hf)%IH. exists (c :: hs). split_and!; [done|done|by constructor].
Qed.

(** The units of a string token up to and with the closing quote. *)
Inductive stringBody : ustring -> Prop :=
  | body_end : stringBody [dquote]
  | body_char c b : c <> dquote -> c <> ch "\" -> stringBody b -> stringBody (c :: b)
  | body_simple e b : escapeClass e = EscapeSimple -> stringBody b -> stringBody (ch "\" :: e :: b)
  | body_hex e n hs b : escapeClass e = EscapeHex n -> length hs = n ->
      Forall (fun c => isHexDigit c = true) hs -> stringBody b ->
      stringBody (ch "\" :: e :: hs ++ b).

Lemma parseStringLoop_sound fuel s rest :
  parseStringLoop fuel s = Some rest -> exists b, s = b ++ rest /\ stringBody b.
Proof.
  revert s. induction fuel as [|fuel IH]; intros s; [done|].
  destruct s as [|c s]; [done|]. simpl.
  destruct (Z.eqb_spec c 92) as [->|Hc].
  - destruct s as [|e s].
    + destruct (escapeClass pastEnd) as [[|n]| |]; [|done| |done].
      all: destruct fuel; done.
    + destruct (escapeClass e) as [n| |] eqn:Ee; [| |done].
      * destruct (readHexDigits s n) as [r|] eqn:Er; [|done].
        apply readHexDigits_consumes in Er as (hs & -> & Hl & Hf).
        intros (b & -> & Hb)%IH. exists (92 :: e :: hs ++ b).
        split; [by simpl; rewrite app_assoc|]. by econstructor.
      * intros (b & -> & Hb)%IH. exists (92 :: e :: b). split; [done|]. by constructor.
  - destruct (Z.eqb_spec c dquote) as [->|Hq].
    + intros [= ->]. exists [dquote]. split; [done|constructor].
    + intros (b & -> & Hb)%IH. exists (c :: b). split; [done|]. by constructor.
Qed.

Lemma stringBody_complete b rest fuel :
  stringBody b -> (length b <= fuel)%nat -> parseStringLoop fuel (b ++ rest) = Some rest.
Proof.
  intros Hb. revert fuel. induction Hb as [|c b Hq Hs Hb IH|e b He Hb IH|e n hs b He Hl Hf Hb IH];
    intros [|fuel]; simpl; try lia; intros Hlen.
  - done.
  - destruct (Z.eqb_spec c 92); [done|]. destruct (Z.eqb_spec c dquote); [done|].
    apply IH. lia.
  - rewrite He. apply IH. lia.
  - rewrite He, <- app_assoc. rewrite length_app in Hlen.
    assert (readHexDigits (hs ++ b ++ rest) n = Some (b ++ rest)) as ->.
    { subst n. clear -Hf. induction Hf as [|h hs Hh Hf IH]; [done|]. simpl. by rewrite Hh. }
    apply IH. lia.
Qed.

Lemma stringBody_nonempty b : stringBody b -> b <> [].
Proof. by destruct 1. Qed.

Lemma parseStringToken_sound s rest :
  parseStringToken s = Some rest -> exists b, s = b ++ rest /\ stringBody b.
Proof. apply parseStringLoop_sound. Qed.

Lemma stringBody_token b rest : stringBody b -> parseStringToken (b ++ rest) = Some rest.
Proof. intros. apply stringBody_complete; [done|]. rewrite length_app. lia. Qed.

Lemma skipSpaces_spec s : exists ws, s = ws ++ skipSpaces s /\ Forall (fun c => isSpaceOrNewline c = true) ws.
Proof.
  induction s as [|c s (ws & IH & Hf)]; simpl; [by exists []|].
  destruct (isSpaceOrNewline c) eqn:E; [|by exists []].
  exists (c :: ws). split; [by rewrite IH at 1|by constructor].
Qed.

Lemma parseConstToken_consumes c s text rest :
  parseConstToken (c :: s) (u text) = Some rest -> text <> EmptyString -> consumes (c :: s) rest.
Proof.
  unfold parseConstToken. destruct text as [|a text]; [done|]. intros H _. simpl in H.
  destruct (_ =? _).
  - destruct (constLoop s (u text)) as [s' t'] eqn:E. destruct t'; [|done].
    injection H as <-. apply consumes_cons. by eapply constLoop_consumes.
  - destruct (u text); [|done]. injection H as <-. by exists [c].
Qed.

(** A valid token starts after spaces and is not empty. *)
Lemma parseToken_consumes start token tokenStart tokenEnd :
  parseToken start = (token, tokenStart, tokenEnd) -> token <> InvalidToken ->
  tokenStart = skipSpaces start /\ consumes tokenStart tokenEnd.
Proof.
  unfold parseToken. destruct (skipSpaces start) as [|c rest] eqn:Es; [by intros [= <- _ _]|].
  intros H Hv.
  assert (forall text tok t e, ofConst (c :: rest) text tok = (t, e) -> t <> InvalidToken ->
            text <> EmptyString -> consumes (c :: rest) e) as Hconst.
  { unfold ofConst. intros text tok t e Hc Ht Hx.
    destruct (parseConstToken (c :: rest) (u text)) eqn:E; injection Hc as <- <-; [|done].
    by eapply parseConstToken_consumes. }
  assert (consumes (c :: rest) rest) as Hone by (by exists [c]).
  repeat match type of H with
  | context [if ?b then _ else _] => destruct b
  | context [ofConst ?a ?b ?d] => destruct (ofConst a b d) as [t e] eqn:Eo
  | context [match parseNumberToken ?a with _ => _ end] => destruct (parseNumberToken a) eqn:En
  | context [match parseStringToken ?a with _ => _ end] => destruct (parseStringToken a) eqn:Ep
  end; injection H as <- <- <-; try done; split; try done.
  all: try (eapply Hconst; [exact Eo|done|done]).
  - by apply parseNumberToken_consumes.
  - apply parseStringToken_sound in Ep as (b & -> & Hb).
    apply consumes_cons. right. exists b. split; [done|by apply stringBody_nonempty].
Qed.

Lemma skipSpaces_length s : (length (skipSpaces s) <= length s)%nat.
Proof. induction s as [|c s IH]; simpl; [lia|]. destruct (isSpaceOrNewline c); simpl; lia. Qed.

Lemma parseToken_length start token tokenStart tokenEnd :
  parseToken start = (token, tokenStart, tokenEnd) -> token <> InvalidToken ->
  (length tokenEnd < length start)%nat.
Proof.
  intros H Hv. destruct (parseToken_consumes _ _ _ _ H Hv) as [-> Hc%consumes_length].
  pose proof (skipSpaces_length start). lia.
Qed.

(** ** The parser terminates *)

Definition shrinks (build : ustring -> parsed JSONValue) : Prop :=
  forall s, build s <> OutOfFuel /\
    forall v e, build s = Parsed v e -> (length e < length s)%nat.

Lemma arrayLoop_shrinks build fuel start token tokenStart tokenEnd array :
  shrinks build -> parseToken start = (token, tokenStart, tokenEnd) ->
  (length start < fuel)%nat ->
  arrayLoop build fuel start token tokenEnd array <> OutOfFuel /\
  forall v e, arrayLoop build fuel start token tokenEnd array = Parsed v e ->
    (length e < length start)%nat.
Proof.
  intros Hb. revert start token tokenStart tokenEnd array.
  induction fuel as [|fuel IH]; intros start token tokenStart tokenEnd array Ht Hf; [lia|].
  cbn [arrayLoop]. destruct (decide (token = ArrayEnd)) as [->|Hne].
  { split; [done|]. intros v e [= <- <-]. by eapply parseToken_length. }
  destruct (Hb start) as [Hn Hlen]. destruct (build start) as [v start1| |] eqn:Ev; [|done|done].
  specialize (Hlen _ _ eq_refl).
  destruct (parseToken start1) as [[tok1 ts1] te1] eqn:E1.
  destruct (decide (tok1 = ListSeparator)) as [->|].
  - apply parseToken_length in E1; [|done].
    destruct (parseToken te1) as [[tok2 ts2] te2] eqn:E2.
    destruct (decide (tok2 = ArrayEnd)); [done|].
    destruct (IH te1 tok2 ts2 te2 (array ++ [v]) E2) as [H1 H2]; [lia|].
    split; [done|]. intros w e He. apply H2 in He. lia.
  - destruct (decide (tok1 = ArrayEnd)) as [->|]; [|done].
    apply parseToken_length in E1; [|done].
    split; [done|]. intros w e [= <- <-]. lia.
Qed.

Lemma objectLoop_shrinks build fuel start token tokenStart tokenEnd object :
  shrinks build -> parseToken start = (token, tokenStart, tokenEnd) ->
  (length start < fuel)%nat ->
  objectLoop build fuel token tokenStart tokenEnd object <> OutOfFuel /\
  forall v e, objectLoop build fuel token tokenStart tokenEnd object = Parsed v e ->
    (length e < length start)%nat.
Proof.
  intros Hb. revert start token tokenStart tokenEnd object.
  induction fuel as [|fuel IH]; intros start token tokenStart tokenEnd object Ht Hf; [lia|].
  cbn [objectLoop]. destruct (decide (token = ObjectEnd)) as [->|Hne].
  { split; [done|]. intros v e [= <- <-]. by eapply parseToken_length. }
  destruct (decide (token <> StringLiteral)) as [|Hs%dec_stable]; [done|]. subst token.
  apply parseToken_length in Ht; [|done].
  destruct (decodeString _) as [key|]; [|done].
  destruct (parseToken tokenEnd) as [[tok1 ts1] te1] eqn:E1.
  destruct (decide (tok1 <> ObjectPairSeparator)) as [|Hp%dec_stable]; [done|]. subst tok1.
  apply parseToken_length in E1; [|done].
  destruct (Hb te1) as [Hn Hlen]. destruct (build te1) as [v start1| |] eqn:Ev; [|done|done].
  specialize (Hlen _ _ eq_refl).
  destruct (parseToken start1) as [[tok2 ts2] te2] eqn:E2.
  destruct (decide (tok2 = ListSeparator)) as [->|].
  - apply parseToken_length in E2; [|done].
    destruct (parseToken te2) as [[tok3 ts3] te3] eqn:E3.
    destruct (decide (tok3 = ObjectEnd)); [done|].
    destruct (IH te2 tok3 ts3 te3 (setValue key v object) E3) as [H1 H2]; [lia|].
    split; [done|]. intros w e He. apply H2 in He. lia.
  - destruct (decide (tok2 = ObjectEnd)) as [->|]; [|done].
    apply parseToken_length in E2; [|done].
    split; [done|]. intros w e [= <- <-]. lia.
Qed.

Lemma buildValue_shrinks levels : shrinks (buildValue levels).
Proof.
  induction levels as [|levels IH]; intros s; [done|]. cbn [buildValue].
  destruct (parseToken s) as [[tok ts] te] eqn:E.
  destruct tok; try done; apply parseToken_length in E; try done.
  1-2: destruct (parseToken te) as [[tok1 ts1] te1] eqn:E1.
  - destruct (objectLoop_shrinks (buildValue levels) (S (length te)) te tok1 ts1 te1 [] IH E1)
      as [H1 H2]; [lia|]. split; [done|]. intros v e H%H2. lia.
  - destruct (arrayLoop_shrinks (buildValue levels) (S (length te)) te tok1 ts1 te1 [] IH E1)
      as [H1 H2]; [lia|]. split; [done|]. intros v e H%H2. lia.
  - destruct (decodeString _); [|done]. split; [done|]. by intros v e [= <- <-].
  - destruct (charactersToDouble _) as [d []]; [|done]. split; [done|]. by intros v e [= <- <-].
  - split; [done|]. by intros v e [= <- <-].
  - split; [done|]. by intros v e [= <- <-].
  - split; [done|]. by intros v e [= <- <-].
Qed.

Lemma parseJSON_total json : parseJSONResult json <> OutOfFuel.
Proof.
  destruct json as [|c json]; [done|]. unfold parseJSONResult, parseJSONInternal.
  destruct (buildValue_shrinks (S stackLimit) (c :: json)) as [H _].
  by destruct (buildValue _ _) as [v [|??]| |].
Qed.

(** ** Strings

    [encodes t s]: the text [t] between two quotes stands for the string [s]. *)
Inductive encodes : ustring -> ustring -> Prop :=
  | encodes_nil : encodes [] []
  | encodes_char c t s : c <> dquote -> c <> ch "\" -> encodes t s -> encodes (c :: t) (c :: s)
  | encodes_simple e c t s : decodeSimple e = Some c -> encodes t s ->
      encodes (ch "\" :: e :: t) (c :: s)
  | encodes_x h1 h2 t s :
      isHexDigit h1 = true -> isHexDigit h2 = true -> encodes t s ->
      encodes (ch "\" :: ch "x" :: h1 :: h2 :: t) (Z.shiftl (hexToInt h1) 4 + hexToInt h2 :: s)
  | encodes_u h1 h2 h3 h4 t s :
      isHexDigit h1 = true -> isHexDigit h2 = true -> isHexDigit h3 = true ->
      isHexDigit h4 = true -> encodes t s ->
      encodes (ch "\" :: ch "u" :: h1 :: h2 :: h3 :: h4 :: t)
        (Z.shiftl (hexToInt h1) 12 + Z.shiftl (hexToInt h2) 8
           + Z.shiftl (hexToInt h3) 4 + hexToInt h4 :: s).

(** The simple escapes are the same ones for the tokenizer and the decoder. *)
Lemma decodeSimple_class e :
  (escapeClass e = EscapeSimple <-> is_Some (decodeSimple e)) /\
  (is_Some (decodeSimple e) -> e <> ch "x" /\ e <> ch "u").
Proof.
  unfold escapeClass, decodeSimple.
  repeat match goal with |- context [Z.eqb ?a ?b] => destruct (Z.eqb_spec a b); subst end;
    cbn; (split; [split|]); try (intros _; by eexists); try done; try (by intros [? ?]).
Qed.

Lemma escapeClass_hex e n :
  escapeClass e = EscapeHex n -> (e = ch "x" /\ n = 2%nat) \/ (e = ch "u" /\ n = 4%nat).
Proof.
  unfold escapeClass. destruct (Z.eqb_spec e 120); [intros [= <-]; by left|].
  destruct (Z.eqb_spec e 117); [intros [= <-]; by right|]. by destruct (_ || _).
Qed.

Lemma encodes_stringBody t s : encodes t s -> stringBody (t ++ [dquote]).
Proof.
  induction 1 as [|c t s Hq Hs He IH|e c t s Hd He IH|h1 h2 t s H1 H2 He IH|h1 h2 h3 h4 t s H1 H2 H3 H4 He IH];
    simpl; [constructor|by constructor| | |].
  - apply body_simple; [|done]. apply decodeSimple_class. by eexists.
  - apply (body_hex 120 2 [h1; h2]); auto.
  - apply (body_hex 117 4 [h1; h2; h3; h4]); auto.
Qed.

Lemma encodes_decodeLoop t s fuel :
  encodes t s -> (length t <= fuel)%nat -> decodeLoop fuel t = Some s.
Proof.
  intros He. revert fuel.
  induction He as [|c t s Hq Hs He IH|e c t s Hd He IH|h1 h2 t s H1 H2 He IH|h1 h2 h3 h4 t s H1 H2 H3 H4 He IH];
    intros [|fuel]; simpl; try lia; try done; intros Hl.
  - destruct (Z.eqb_spec c 92); [done|]. simpl. by rewrite IH by lia.
  - destruct (decodeSimple_class e) as [_ Hx]. destruct Hx as [Hx Hu]; [by eexists|].
    destruct (Z.eqb_spec e 120); [done|]. destruct (Z.eqb_spec e 117); [done|].
    rewrite Hd. by rewrite IH by lia.
  - by rewrite IH by lia.
  - by rewrite IH by lia.
Qed.

Lemma encodes_decodeString t s : encodes t s -> decodeString t = Some s.
Proof. intros. by apply encodes_decodeLoop. Qed.

Lemma stringBody_encodes b : stringBody b -> exists t s, b = t ++ [dquote] /\ encodes t s.
Proof.
  induction 1 as [|c b Hq Hs Hb (t & s & -> & IH)|e b He Hb (t & s & -> & IH)
                  |e n hs b He Hl Hf Hb (t & s & -> & IH)].
  - exists [], []. split; [done|constructor].
  - exists (c :: t), (c :: s). split; [done|by constructor].
  - destruct (decodeSimple_class e) as [[Hc _] _]. destruct (Hc He) as [c Hd].
    exists (92 :: e :: t), (c :: s). split; [done|by constructor].
  - destruct (escapeClass_hex e n He) as [[-> ->]|[-> ->]].
    + destruct hs as [|h1 [|h2 [|]]]; try done. rewrite !Forall_cons in Hf. destruct_and! Hf.
      eexists (_ :: _ :: h1 :: h2 :: t), _. split; [done|by constructor].
    + destruct hs as [|h1 [|h2 [|h3 [|h4 [|]]]]]; try done. rewrite !Forall_cons in Hf. destruct_and! Hf.
      eexists (_ :: _ :: h1 :: h2 :: h3 :: h4 :: t), _. split; [done|by constructor].
Qed.

(** Pointer arithmetic: the contents of a string token are what stands
    between its quotes. *)
Lemma stringContents_eq t te : stringContents (dquote :: (t ++ [dquote]) ++ te) te = t.
Proof.
  unfold stringContents, textBetween.
  assert (length (dquote :: (t ++ [dquote]) ++ te) - length te = S (S (length t)))%nat as ->.
  { simpl. rewrite !length_app. simpl. lia. }
  cbn [take]. rewrite length_cons. cbn [drop].
  assert (take (S (length t)) ((t ++ [dquote]) ++ te) = t ++ [dquote]) as ->.
  { rewrite take_app_le by (rewrite length_app; simpl; lia).
    apply take_ge. rewrite length_app; simpl; lia. }
  rewrite length_app. replace (S (length t + length [dquote]) - 2)%nat with (length t) by (simpl; lia).
  by rewrite drop_0, take_app_length.
Qed.

(** Every string token decodes. *)
Lemma decode_token start tokenStart tokenEnd :
  parseToken start = (StringLiteral, tokenStart, tokenEnd) ->
  is_Some (decodeString (stringContents tokenStart tokenEnd)).
Proof.
  unfold parseToken. destruct (skipSpaces start) as [|c rest]; [done|]. intros H.
  assert (forall text tok t e, ofConst (c :: rest) text tok = (t, e) -> t = tok \/ t = InvalidToken) as Hconst.
  { unfold ofConst. intros text tok t e Hc. destruct (parseConstToken _ _); injection Hc; auto. }
  repeat match type of H with
  | context [if ?b then _ else _] => destruct b eqn:?
  | context [ofConst ?a ?b ?d] => destruct (ofConst a b d) as [t e] eqn:Eo
  | context [match parseNumberToken ?a with _ => _ end] => destruct (parseNumberToken a) eqn:En
  | context [match parseStringToken ?a with _ => _ end] => destruct (parseStringToken a) eqn:Ep
  end; simplify_eq; try (apply Hconst in Eo; naive_solver).
  assert (c = dquote) as -> by (by apply Z.eqb_eq).
  apply parseStringToken_sound in Ep as (b & -> & (t & s & -> & He)%stringBody_encodes).
  rewrite stringContents_eq. exists s. by apply encodes_decodeString.
Qed.

(** *** The writer's escapes *)

Lemma hexDigit_spec n : 0 <= n < 16 -> isHexDigit (hexDigit n) = true /\ hexToInt (hexDigit n) = n.
Proof.
  intros Hn. unfold hexDigit, isHexDigit, hexToInt.
  zcases; simpl; try lia; split; try done; lia.
Qed.

Lemma writeChar_encodes c t s : is_unit c -> encodes t s -> encodes (writeChar c ++ t) (c :: s).
Proof.
  unfold is_unit, writeChar, escapeChar. intros Hc He.
  repeat match goal with |- context [if ?a =? ?b then _ else _] => destruct (Z.eqb_spec a b); subst;
    [by apply encodes_simple|] end.
  destruct (_ || _) eqn:E; [|by apply encodes_char].
  unfold unicodeEscape.
  assert (forall n, isHexDigit (hexDigit (n mod 16)) = true) as Hh.
  { intros k. apply hexDigit_spec. apply Z.mod_pos_bound. lia. }
  assert (forall n, hexToInt (hexDigit (n mod 16)) = n mod 16) as Hi.
  { intros k. apply hexDigit_spec. apply Z.mod_pos_bound. lia. }
  pose proof (encodes_u _ _ _ _ t s (Hh (c / 4096)) (Hh (c / 256)) (Hh (c / 16)) (Hh c) He) as Hu.
  rewrite !Hi, !Z.shiftl_mul_pow2 in Hu by lia.
  replace (c / 4096 mod 16 * 2 ^ 12 + c / 256 mod 16 * 2 ^ 8 + c / 16 mod 16 * 2 ^ 4 + c mod 16)
    with c in Hu; [exact Hu|].
  change (2 ^ 12) with 4096; change (2 ^ 8) with 256; change (2 ^ 4) with 16.
  clear -Hc. Z.to_euclidean_division_equations. lia.
Qed.

Lemma flat_map_encodes s : is_ustring s -> encodes (flat_map writeChar s) s.
Proof.
  induction 1 as [|c s Hc Hs IH]; [constructor|]. by apply writeChar_encodes.
Qed.

End Facts.
