(* ===== verification/JSONGrammar.v ===== *)
(** * The language of the JSON parser

    A declarative grammar of the accepted texts with the value each denotes,
    and the proof that [parseJSON] decides exactly this grammar. *)

From S2P Require Import Prelude Platform WTFString DecimalNumber JSONValues JSONParser JSONParserFacts.

Section Grammar.
Context {P : Platform}.

Definition spaces (ws : ustring) : Prop := Forall (fun c => isSpaceOrNewline c = true) ws.

(** [parseConstToken] does not look at the last character of the constant. *)
Definition constText (text : string) (t : ustring) : Prop :=
  exists init c last, u text = init ++ [last] /\ t = init ++ [c].

Definition numberText (t : ustring) (d : double) : Prop :=
  parseNumberToken t = Some [] /\ charactersToDouble t = (d, true).

(** Items separated by commas. *)
Inductive sepBy {A} (R : ustring -> A -> Prop) : ustring -> list A -> Prop :=
  | sep_one t a : R t a -> sepBy R t [a]
  | sep_cons t a ws b l : R t a -> spaces ws -> sepBy R b l ->
      sepBy R (t ++ ws ++ u "," ++ b) (a :: l).

(** A member of an object, given the texts of values. *)
Inductive memberText (R : ustring -> JSONValue -> Prop) : ustring -> ustring * JSONValue -> Prop :=
  | member ws t k ws' b v : spaces ws -> encodes t k -> spaces ws' -> R b v ->
      memberText R (ws ++ [dquote] ++ t ++ [dquote] ++ ws' ++ u ":" ++ b) (k, v).

(** The object that assigning the members in their order gives. *)
Definition ofMembers (ms : list (ustring * JSONValue)) : jobject :=
  foldl (fun o kv => setValue kv.1 kv.2 o) [] ms.

(** A value from its first character on, given the texts of the values inside. *)
Inductive valueText (R : ustring -> JSONValue -> Prop) : ustring -> JSONValue -> Prop :=
  | vt_null t : constText "null" t -> valueText R t JSONNull
  | vt_true t : constText "true" t -> valueText R t (JSONBoolean true)
  | vt_false t : constText "false" t -> valueText R t (JSONBoolean false)
  | vt_number t d : numberText t d -> valueText R t (JSONNumber d)
  | vt_string t s : encodes t s -> valueText R ([dquote] ++ t ++ [dquote]) (JSONString s)
  | vt_array_nil ws : spaces ws -> valueText R (u "[" ++ ws ++ u "]") (JSONArray [])
  | vt_array b ws l : sepBy R b l -> spaces ws ->
      valueText R (u "[" ++ b ++ ws ++ u "]") (JSONArray l)
  | vt_object_nil ws : spaces ws -> valueText R (u "{" ++ ws ++ u "}") (JSONObject [])
  | vt_object b ws ms : sepBy (memberText R) b ms -> spaces ws ->
      valueText R (u "{" ++ b ++ ws ++ u "}") (JSONObject (ofMembers ms)).

(** A text with leading white space, of a value nested at most [levels] deep. *)
Fixpoint jsonText (levels : nat) (t : ustring) (v : JSONValue) : Prop :=
  match levels with
  | O => False
  | S n => exists ws b, spaces ws /\ t = ws ++ b /\ valueText (jsonText n) b v
  end.

(** What can follow a value: the end, white space, or a closing or separating
    character. *)
Definition delimiter (c : Z) : bool :=
  isSpaceOrNewline c || (c =? ch ",") || (c =? ch "]") || (c =? ch "}").
Definition delimited (rest : ustring) : Prop :=
  match rest with [] => True | c :: _ => delimiter c = true end.

(** ** Tokens *)

Lemma skipSpaces_app ws s : spaces ws -> skipSpaces (ws ++ s) = skipSpaces s.
Proof. induction 1 as [|c ws Hc Hws IH]; simpl; [done|]. by rewrite Hc. Qed.

Lemma skipSpaces_nonspace c s : isSpaceOrNewline c = false -> skipSpaces (c :: s) = c :: s.
Proof. intros E. simpl. by rewrite E. Qed.

Lemma skipSpaces_split s :
  exists ws, s = ws ++ skipSpaces s /\ spaces ws /\
    match skipSpaces s with [] => True | c :: _ => isSpaceOrNewline c = false end.
Proof.
  induction s as [|c s (ws & IH & Hf & Hh)]; simpl; [exists []; split_and!; [done|constructor|done]|].
  destruct (isSpaceOrNewline c) eqn:E.
  - exists (c :: ws). split_and!; [by rewrite IH at 1|by constructor|done].
  - exists []. split_and!; [done|constructor|done].
Qed.

Lemma parseToken_spaces ws s : spaces ws -> parseToken (ws ++ s) = parseToken s.
Proof. intros. unfold parseToken. by rewrite skipSpaces_app. Qed.

Lemma ascii_nonspace c : 32 < c <= 127 -> isSpaceOrNewline c = false.
Proof.
  intros Hc. unfold isSpaceOrNewline, isASCIISpace. zcases; try lia; done.
Qed.

Lemma delimiter_cases c : delimiter c = true -> isDigit c = false /\ c <> ch "." /\ c <> ch "e" /\ c <> ch "E".
Proof.
  unfold delimiter, isDigit. intros H.
  destruct (decide (32 < c <= 127)) as [Hc|Hc].
  - rewrite ascii_nonspace in H by done. revert H. zcases; cbn; intros; split_and!; done || lia.
  - zcases; cbn; split_and!; done || lia.
Qed.

Lemma constLoop_exact init c last rest : constLoop (init ++ c :: rest) (init ++ [last]) = (rest, []).
Proof.
  induction init as [|d init IH]; simpl.
  - destruct (Z.eqb_spec c last); [|done]. by destruct rest.
  - by rewrite Z.eqb_refl.
Qed.

Lemma constLoop_accepts tk s rest :
  tk <> [] -> constLoop s tk = (rest, []) ->
  exists init c last, tk = init ++ [last] /\ s = (init ++ [c]) ++ rest.
Proof.
  revert s. induction tk as [|a tk IH]; intros [|c s] Hne E; try done.
  simpl in E. destruct (Z.eqb_spec c a) as [->|]; [|by injection E as -> ->; exists [], c, a].
  destruct tk as [|b tk].
  - exists [], a, a. split; [done|]. simpl in *. destruct s; injection E as ->; done.
  - destruct (IH s ltac:(done) E) as (init & c' & last & -> & ->).
    by exists (a :: init), c', last.
Qed.

(** A constant is accepted exactly when all but its last character match and one
    more character follows. *)
Lemma parseConstToken_exact text s rest :
  text <> EmptyString ->
  parseConstToken s (u text) = Some rest <-> exists t, s = t ++ rest /\ constText text t.
Proof.
  intros Hne. assert (u text <> []) as Hu by (by destruct text). unfold parseConstToken. split.
  - intros H. destruct (constLoop s (u text)) as [s' [|]] eqn:E; [|done]. injection H as ->.
    apply constLoop_accepts in E as (init & c & last & Ht & ->); [|done].
    exists (init ++ [c]). split; [done|]. by exists init, c, last.
  - intros (t & -> & init & c & last & -> & ->). rewrite <- app_assoc. simpl.
    by rewrite constLoop_exact.
Qed.

(** ** Numbers *)

Lemma skipDigits_app s rest :
  (forall c, head rest = Some c -> isDigit c = false) ->
  skipDigits (s ++ rest) =
    let '(n, r) := skipDigits s in (n, r ++ rest).
Proof.
  intros Hr. induction s as [|c s IH]; simpl.
  - destruct rest as [|c rest]; [done|]. simpl. by rewrite Hr.
  - destruct (isDigit c); [|done]. rewrite IH. by destruct (skipDigits s).
Qed.

Lemma skipDigits_full ds rest :
  Forall (fun c => isDigit c = true) ds -> (forall c, head rest = Some c -> isDigit c = false) ->
  skipDigits (ds ++ rest) = (length ds, rest).
Proof.
  intros Hd Hr. induction Hd as [|c ds Hc Hd IH]; simpl.
  - destruct rest as [|c rest]; [done|]. simpl. by rewrite Hr.
  - by rewrite Hc, IH.
Qed.

Lemma readInt_app s rest z r :
  (forall c, head rest = Some c -> isDigit c = false) ->
  readInt s z = Some r -> readInt (s ++ rest) z = Some (r ++ rest).
Proof.
  intros Hr. destruct s as [|c s]; [done|]. unfold readInt. cbn [app].
  change (c :: s ++ rest) with ((c :: s) ++ rest). rewrite skipDigits_app by done.
  destruct (skipDigits (c :: s)) as [n r']. destruct (_ =? _)%nat; [done|].
  destruct (_ && _ && _); [done|]. by intros [= <-].
Qed.

Lemma delimited_digit rest : delimited rest -> forall c, head rest = Some c -> isDigit c = false.
Proof. destruct rest as [|c rest]; [done|]. intros H d [= <-]. by destruct (delimiter_cases c H). Qed.

Lemma parseExponent_app s rest r :
  delimited rest -> parseExponent s = Some r -> parseExponent (s ++ rest) = Some (r ++ rest).
Proof.
  intros Hr. pose proof (delimited_digit rest Hr) as Hd. destruct s as [|c s].
  - intros [= <-]. destruct rest as [|c rest]; [done|]. simpl.
    apply delimiter_cases in Hr as (_ & _ & He & HE).
    by destruct (Z.eqb_spec c 101), (Z.eqb_spec c 69).
  - cbn [app parseExponent]. destruct (_ || _); [|by intros [= <-]].
    destruct s as [|c' s]; [done|]. cbn [app]. destruct (_ || _).
    + destruct s as [|c'' s]; [done|]. intros H. cbn [app]. by apply (readInt_app (c'' :: s)).
    + by apply (readInt_app (c' :: s)).
Qed.

Lemma parseNumberToken_app s rest r :
  delimited rest -> parseNumberToken s = Some r -> parseNumberToken (s ++ rest) = Some (r ++ rest).
Proof.
  intros Hr. pose proof (delimited_digit rest Hr) as Hd. destruct s as [|c s]; [done|].
  unfold parseNumberToken. cbn [app].
  set (start := if c =? 45 then s else c :: s).
  assert ((if c =? 45 then s ++ rest else c :: s ++ rest) = start ++ rest) as ->.
  { unfold start. by destruct (c =? 45). }
  destruct (readInt start false) as [r1|] eqn:E1; [|done].
  rewrite (readInt_app _ _ _ _ Hd E1). destruct r1 as [|c1 r1].
  - intros [= <-]. cbn [app]. destruct rest as [|c2 rest]; [done|].
    pose proof (delimiter_cases _ Hr) as (_ & Hdot & He & HE).
    destruct (Z.eqb_spec c2 46); [done|]. simpl. by destruct (Z.eqb_spec c2 101), (Z.eqb_spec c2 69).
  - cbn [app]. destruct (c1 =? 46).
    + destruct (readInt r1 true) as [r2|] eqn:E2; [|done].
      rewrite (readInt_app _ _ _ _ Hd E2). destruct r2 as [|c2 r2].
      * intros [= <-]. cbn [app]. destruct rest as [|c3 rest]; [done|].
        by apply (parseExponent_app [] (c3 :: rest) []).
      * by apply (parseExponent_app (c2 :: r2)).
    + by apply (parseExponent_app (c1 :: r1)).
Qed.

Lemma readInt_split s z r :
  readInt s z = Some r -> exists ds, s = ds ++ r /\ ds <> [] /\ readInt ds z = Some [] /\
    Forall (fun c => isDigit c = true) ds.
Proof.
  destruct s as [|c s]; [done|]. unfold readInt at 1.
  destruct (skipDigits (c :: s)) as [n r'] eqn:E. apply skipDigits_spec in E as (ds & E & Hl & Hf).
  destruct (Nat.eqb_spec n 0); [done|]. destruct ds as [|d ds]; [simpl in Hl; lia|].
  injection E as <- ->. destruct (_ && _ && _) eqn:Eb; [done|]. intros [= ->].
  exists (c :: ds). split_and!; try done. unfold readInt.
  pose proof (skipDigits_full (c :: ds) [] Hf) as E. rewrite app_nil_r in E. rewrite E by done.
  rewrite <- Hl in Eb. by rewrite Eb.
Qed.

Lemma parseExponent_split s r :
  parseExponent s = Some r -> exists t, s = t ++ r /\ parseExponent t = Some [] /\
    (forall c, head t = Some c -> c = ch "e" \/ c = ch "E").
Proof.
  destruct s as [|c s]; [intros [= <-]; by exists []|]. cbn [parseExponent].
  destruct ((c =? 101) || (c =? 69)) eqn:Ee; [|intros [= <-]; by exists []].
  assert (c = 101 \/ c = 69) as Hc by (zprop; destruct Ee; zprop; auto).
  destruct s as [|c' s]; [done|]. destruct ((c' =? 45) || (c' =? 43)) eqn:Es.
  - destruct s as [|c'' s]; [done|].
    intros (ds & E & Hne & Hr & _)%readInt_split. exists (c :: c' :: ds). split_and!.
    + by rewrite E.
    + cbn [parseExponent]. rewrite Ee, Es. by destruct ds.
    + by intros d [= <-].
  - intros (ds & E & Hne & Hr & _)%readInt_split. exists (c :: ds). split_and!.
    + by rewrite E.
    + destruct ds as [|d ds]; [done|]. injection E as <- ->. cbn [parseExponent]. by rewrite Ee, Es.
    + by intros d [= <-].
Qed.

(** [parseNumberToken] after the sign. *)
Definition numberBody (start : ustring) : option ustring :=
  match readInt start false with
  | None => None
  | Some [] => Some []
  | Some ((c :: start') as start) =>
      if c =? ch "." then
        match readInt start' true with
        | None => None
        | Some [] => Some []
        | Some start => parseExponent start
        end
      else parseExponent start
  end.

Lemma numberBody_split s r :
  numberBody s = Some r -> exists t, s = t ++ r /\ numberBody t = Some [] /\
    exists d t', t = d :: t' /\ isDigit d = true.
Proof.
  unfold numberBody at 1. destruct (readInt s false) as [r1|] eqn:E1; [|done].
  apply readInt_split in E1 as (ds & -> & Hne & Hds & Hdig).
  destruct ds as [|d ds]; [done|]. assert (isDigit d = true) as Hd by (by inversion Hdig).
  assert (forall t, (forall c, head t = Some c -> isDigit c = false) ->
            readInt ((d :: ds) ++ t) false = Some t) as Happ.
  { intros t Ht. by apply (readInt_app (d :: ds) t false []). }
  destruct r1 as [|c1 r1].
  { intros [= <-]. exists (d :: ds). split_and!; [done| |eauto]. unfold numberBody.
    by rewrite Hds. }
  destruct (Z.eqb_spec c1 46) as [->|Hdot].
  - destruct (readInt r1 true) as [r2|] eqn:E2; [|done].
    apply readInt_split in E2 as (fs & -> & Hfne & Hfs & _).
    assert (forall e, parseExponent e = Some [] ->
              (forall c, head e = Some c -> c = ch "e" \/ c = ch "E") ->
              numberBody ((d :: ds) ++ 46 :: fs ++ e) = Some []) as Hnum.
    { intros e He Hh. unfold numberBody. rewrite Happ by (by intros c [= <-]).
      rewrite Z.eqb_refl. rewrite (readInt_app fs e true []); [by destruct e| |done].
      intros c Hc. by destruct (Hh c Hc) as [-> | ->]. }
    destruct r2 as [|c2 r2]; intros H.
    + injection H as <-. exists ((d :: ds) ++ 46 :: fs ++ []). split_and!; [by rewrite !app_nil_r| |by eexists _, _].
      by apply Hnum.
    + destruct (parseExponent_split _ _ H) as (e & E & He & Hh).
      exists ((d :: ds) ++ 46 :: fs ++ e). split_and!; [|by apply Hnum|by eexists _, _].
      rewrite E, <- !app_assoc. simpl. by rewrite <- !app_assoc.
  - intros (e & E & He & Hh)%parseExponent_split.
    exists ((d :: ds) ++ e). split_and!; [by rewrite E, <- app_assoc| |by eexists _, _].
    unfold numberBody. rewrite Happ; [|by intros c Hc; destruct (Hh c Hc) as [-> | ->]].
    destruct e as [|c e]; [done|]. by destruct (Hh c eq_refl) as [-> | ->].
Qed.

(** The text of a number token is itself a number. *)
Lemma parseNumberToken_split s r :
  parseNumberToken s = Some r -> exists t, s = t ++ r /\ parseNumberToken t = Some [].
Proof.
  destruct s as [|c s]; [done|].
  change (parseNumberToken (c :: s)) with (numberBody (if c =? 45 then s else c :: s)).
  intros (t & E & Ht & d & t' & -> & Hd)%numberBody_split.
  destruct (Z.eqb_spec c 45) as [->|Hc].
  - exists (45 :: d :: t'). split; [by rewrite E|done].
  - exists (d :: t'). split; [done|]. injection E as -> ->.
    change (numberBody (if d =? 45 then t' else d :: t') = Some []).
    by destruct (Z.eqb_spec d 45) as [->|].
Qed.

Lemma parseNumberToken_head s r :
  parseNumberToken s = Some r -> exists c s', s = c :: s' /\ (isDigit c = true \/ c = ch "-").
Proof.
  destruct s as [|c s]; [done|].
  change (parseNumberToken (c :: s)) with (numberBody (if c =? 45 then s else c :: s)).
  destruct (Z.eqb_spec c 45) as [->|Hc]; intros H; [by eauto|].
  apply numberBody_split in H as (t & E & _ & d & t' & -> & Hd). injection E as -> ->. eauto.
Qed.

(** ** The tokenizer *)

(** The text of each kind of token. *)
Inductive tokenText : Token -> ustring -> Prop :=
  | tt_null t : constText "null" t -> tokenText NullToken t
  | tt_true t : constText "true" t -> tokenText BoolTrue t
  | tt_false t : constText "false" t -> tokenText BoolFalse t
  | tt_array_begin : tokenText ArrayBegin (u "[")
  | tt_array_end : tokenText ArrayEnd (u "]")
  | tt_separator : tokenText ListSeparator (u ",")
  | tt_object_begin : tokenText ObjectBegin (u "{")
  | tt_object_end : tokenText ObjectEnd (u "}")
  | tt_pair : tokenText ObjectPairSeparator (u ":")
  | tt_number t : parseNumberToken t = Some [] -> tokenText Number t
  | tt_string t s : encodes t s -> tokenText StringLiteral ([dquote] ++ t ++ [dquote]).

Lemma constText_head text t : constText text t -> (2 <= length (u text))%nat -> head t = head (u text).
Proof. intros (init & c & last & E & ->) Hl. rewrite E in *. by destruct init; simpl in *; [lia|]. Qed.

(** A valid text of a constant is a token, whatever follows. *)
Lemma ofConst_complete text t rest token :
  constText text t -> text <> EmptyString -> ofConst (t ++ rest) text token = (token, rest).
Proof.
  intros Ht Hne. unfold ofConst.
  assert (parseConstToken (t ++ rest) (u text) = Some rest) as -> by (apply parseConstToken_exact; eauto).
  done.
Qed.

Lemma parseToken_complete token t rest :
  tokenText token t -> (token = Number -> delimited rest) ->
  parseToken (t ++ rest) = (token, t ++ rest, rest).
Proof.
  intros Ht Hd. unfold parseToken.
  destruct Ht as [t Ht|t Ht|t Ht| | | | | | |t Ht|t s Ht]; try done.
  1-3: pose proof (constText_head _ _ Ht ltac:(simpl; lia)) as Hh;
    pose proof (fun token => ofConst_complete _ _ rest token Ht ltac:(done)) as E;
    destruct t as [|c t]; [done|]; injection Hh as ->; cbn [app] in E |- *;
    rewrite skipSpaces_nonspace by done; cbn -[ofConst app]; by rewrite E.
  - destruct (parseNumberToken_head _ _ Ht) as (c & s' & -> & Hc).
    pose proof (parseNumberToken_app _ _ _ (Hd eq_refl) Ht) as E. cbn [app] in *.
    assert (45 <= c <= 57) as Hr by (unfold isDigit in Hc; destruct Hc; zprop; lia).
    rewrite skipSpaces_nonspace by (apply ascii_nonspace; lia).
    assert (isDigit c || (c =? 45) = true) as -> by (destruct Hc as [-> | ->]; [done|by apply orb_true_r]).
    rewrite E. repeat match goal with |- context [c =? ?k] => destruct (Z.eqb_spec c k); [lia|] end. done.
  - rewrite <- !app_assoc. cbn [app]. rewrite skipSpaces_nonspace by done. cbn -[parseStringToken app].
    pose proof (stringBody_token _ rest (encodes_stringBody _ _ Ht)) as E. rewrite <- app_assoc in E.
    cbn [app] in E. by rewrite E.
Qed.

Lemma ofConst_sound s text token t e :
  ofConst s text token = (t, e) -> t <> InvalidToken -> text <> EmptyString ->
  t = token /\ exists b, s = b ++ e /\ constText text b.
Proof.
  unfold ofConst. destruct (parseConstToken s (u text)) as [r|] eqn:E; intros [= <- <-] Hv Hne; [|done].
  split; [done|]. by apply parseConstToken_exact.
Qed.

Lemma parseToken_sound s token ts te :
  parseToken s = (token, ts, te) -> token <> InvalidToken ->
  exists ws t, s = ws ++ t ++ te /\ spaces ws /\ ts = t ++ te /\ tokenText token t.
Proof.
  unfold parseToken. destruct (skipSpaces_split s) as (ws & Es & Hws & _).
  destruct (skipSpaces s) as [|c rest]; [by intros [= <- _ _]|].
  intros H Hv. exists ws. subst s.
  assert (forall t, c :: rest = t ++ te -> ts = c :: rest -> tokenText token t ->
    exists t, ws ++ c :: rest = ws ++ t ++ te /\ spaces ws /\ ts = t ++ te /\ tokenText token t) as Hdone.
  { intros t E -> Ht. exists t. by rewrite E. }
  repeat match type of H with
  | context [if c =? ?k then _ else _] => destruct (Z.eqb_spec c k) as [->|?]
  | context [if ?a || ?b then _ else _] => destruct (a || b)
  | context [if ?b then _ else _] => destruct b
  | context [ofConst ?a ?b ?d] => destruct (ofConst a b d) as [t e] eqn:Eo
  | context [match parseNumberToken ?a with _ => _ end] => destruct (parseNumberToken a) eqn:En
  | context [match parseStringToken ?a with _ => _ end] => destruct (parseStringToken a) eqn:Ep
  end; injection H as <- <- <-; try done.
  1-3: apply ofConst_sound in Eo as (-> & b & Eb & Hb); [|done|done]; by apply (Hdone b); [| |constructor].
  1-6: by eapply Hdone; [| |constructor].
  - apply parseStringToken_sound in Ep as (b & -> & (t & v & -> & He)%stringBody_encodes).
    by eapply (Hdone ([dquote] ++ t ++ [dquote])); [|done|econstructor].
  - apply parseNumberToken_split in En as (t & Et & Ht). by apply (Hdone t); [| |constructor].
Qed.

(** ** Arrays and objects *)

(** The texts [R] of the values inside, and a [build] that reads them. *)
Section Nested.
Context (R : ustring -> JSONValue -> Prop) (build : ustring -> parsed JSONValue).
Context (Hcomplete : forall t v rest, R t v -> delimited rest -> build (t ++ rest) = Parsed v rest).
Context (Hstart : forall t v, R t v -> exists ws c t', t = ws ++ c :: t' /\ spaces ws /\
                    isSpaceOrNewline c = false /\ c <> ch "]").

Lemma R_length t v : R t v -> (1 <= length t)%nat.
Proof. intros (ws & c & t' & -> & _)%Hstart. rewrite length_app. simpl. lia. Qed.

Lemma parseToken_ArrayEnd c s ts te :
  isSpaceOrNewline c = false -> parseToken (c :: s) = (ArrayEnd, ts, te) -> c = ch "]".
Proof.
  intros Hc H. apply parseToken_sound in H as ([|d ws] & t & E & Hws & _ & Ht); [| |done].
  - inversion Ht; subst. by injection E as ->.
  - injection E as <- _. apply Forall_cons in Hws as [Hd _]. congruence.
Qed.

Lemma R_not_ArrayEnd t v rest : R t v -> (parseToken (t ++ rest)).1.1 <> ArrayEnd.
Proof.
  intros (ws & c & t' & -> & Hws & Hc & Hne)%Hstart H.
  rewrite <- app_assoc, parseToken_spaces in H by done. cbn [app] in H.
  destruct (parseToken (c :: t' ++ rest)) as [[tok ts] te] eqn:E. simpl in H. subst tok.
  by apply parseToken_ArrayEnd in E.
Qed.

Lemma delimited_spaces ws c rest : spaces ws -> delimiter c = true -> delimited (ws ++ c :: rest).
Proof. intros Hws Hc. destruct Hws as [|d ws Hd]; simpl; [done|]. unfold delimiter. by rewrite Hd. Qed.

Lemma token_after_spaces ws token c rest :
  spaces ws -> tokenText token [c] -> token <> Number -> parseToken (ws ++ c :: rest) = (token, c :: rest, rest).
Proof.
  intros Hws Ht Hn. rewrite parseToken_spaces by done.
  by apply (parseToken_complete token [c] rest Ht).
Qed.

Lemma sepBy_length {A} (S : ustring -> A -> Prop) b l :
  (forall t a, S t a -> (1 <= length t)%nat) -> sepBy S b l -> (length l <= length b)%nat.
Proof.
  intros HS. induction 1 as [t a Ht|t a ws b l Ht Hws Hb IH]; simpl.
  - by eapply HS.
  - apply HS in Ht. rewrite !length_app. simpl. lia.
Qed.

Lemma arrayLoop_complete b l ws rest fuel array :
  sepBy R b l -> spaces ws -> (length l <= fuel)%nat ->
  let start := b ++ ws ++ ch "]" :: rest in
  forall token ts te, parseToken start = (token, ts, te) ->
  arrayLoop build fuel start token te array = Parsed (JSONArray (array ++ l)) rest.
Proof.
  intros Hb Hws. revert fuel array.
  induction Hb as [t v Ht|t v ws' b l Ht Hws' Hb IH]; intros [|fuel] array Hf; simpl in Hf; try lia;
    cbn zeta; intros token ts te Htok.
  - pose proof (R_not_ArrayEnd _ _ (ws ++ 93 :: rest) Ht) as Hne. rewrite Htok in Hne. simpl in Hne.
    cbn [arrayLoop]. destruct (decide _); [done|].
    rewrite (Hcomplete t v) by (done || by apply delimited_spaces).
    by rewrite (token_after_spaces ws ArrayEnd) by (done || constructor).
  - change (u ",") with [44] in *. rewrite <- !app_assoc in *. cbn [app] in *.
    pose proof (R_not_ArrayEnd _ _ (ws' ++ 44 :: b ++ ws ++ 93 :: rest) Ht) as Hne.
    rewrite Htok in Hne. simpl in Hne. cbn [arrayLoop]. destruct (decide _); [done|].
    rewrite (Hcomplete t v) by (done || by apply delimited_spaces).
    rewrite (token_after_spaces ws' ListSeparator) by (done || constructor). cbn.
    destruct (parseToken (b ++ ws ++ 93 :: rest)) as [[tok1 ts1] te1] eqn:E1.
    assert (tok1 <> ArrayEnd) as Hne1.
    { intros ->. destruct Hb as [t' v' Ht'|t' v' ws'' b' l' Ht' Hws'' Hb'].
      - pose proof (R_not_ArrayEnd _ _ (ws ++ 93 :: rest) Ht') as H. by rewrite E1 in H.
      - rewrite <- !app_assoc in E1.
        pose proof (R_not_ArrayEnd _ _ (ws'' ++ u "," ++ b' ++ ws ++ 93 :: rest) Ht') as H. by rewrite E1 in H. }
    destruct (decide (tok1 = ArrayEnd)); [done|].
    rewrite (IH fuel (array ++ [v]) ltac:(lia) _ _ _ eq_refl). by rewrite <- app_assoc.
Qed.

Lemma stringContents_token t te : stringContents (([dquote] ++ t ++ [dquote]) ++ te) te = t.
Proof. apply (stringContents_eq t te). Qed.

(** One member, up to the token after its value. *)
Lemma objectLoop_member t kv rest fuel object :
  memberText R t kv -> delimited rest ->
  exists ts te, parseToken (t ++ rest) = (StringLiteral, ts, te) /\
  objectLoop build (S fuel) StringLiteral ts te object =
    let object := setValue kv.1 kv.2 object in
    let '(token, _, tokenEnd) := parseToken rest in
    if decide (token = ListSeparator) then
      let '(token, tokenStart, tokenEnd) := parseToken tokenEnd in
      if decide (token = ObjectEnd) then NullPtr
      else objectLoop build fuel token tokenStart tokenEnd object
    else if decide (token = ObjectEnd) then Parsed (JSONObject object) tokenEnd
    else NullPtr.
Proof.
  intros [ws t' k ws' b v Hws Ht Hws' Hb] Hrest.
  assert ((ws ++ [dquote] ++ t' ++ [dquote] ++ ws' ++ u ":" ++ b) ++ rest
          = ws ++ ([dquote] ++ t' ++ [dquote]) ++ ws' ++ ch ":" :: b ++ rest) as ->.
  { rewrite <- !app_assoc. done. }
  rewrite parseToken_spaces by done.
  rewrite (parseToken_complete StringLiteral) by (done || by econstructor).
  do 2 eexists. split; [done|]. cbn [objectLoop].
  destruct (decide (StringLiteral = ObjectEnd)); [done|].
  destruct (decide (StringLiteral <> StringLiteral)); [done|].
  rewrite stringContents_token, (encodes_decodeString _ _ Ht).
  rewrite (token_after_spaces ws' ObjectPairSeparator) by (done || constructor).
  destruct (decide (ObjectPairSeparator <> ObjectPairSeparator)); [done|].
  by rewrite (Hcomplete b v).
Qed.

Lemma foldl_setValue_cons (kv : ustring * JSONValue) ms (o : jobject) :
  foldl (fun o kv => setValue kv.1 kv.2 o) o (kv :: ms) =
  foldl (fun o kv => setValue kv.1 kv.2 o) (setValue kv.1 kv.2 o) ms.
Proof. done. Qed.

Lemma objectLoop_complete b ms ws rest fuel object :
  sepBy (memberText R) b ms -> spaces ws -> (length ms <= fuel)%nat ->
  exists ts te, parseToken (b ++ ws ++ ch "}" :: rest) = (StringLiteral, ts, te) /\
  objectLoop build fuel StringLiteral ts te object =
    Parsed (JSONObject (foldl (fun o kv => setValue kv.1 kv.2 o) object ms)) rest.
Proof.
  intros Hb Hws. revert fuel object.
  induction Hb as [t kv Ht|t kv ws' b ms Ht Hws' Hb IH]; intros [|fuel] object Hf; simpl in Hf; try lia.
  - destruct (objectLoop_member t kv (ws ++ 125 :: rest) fuel object Ht) as (ts & te & E & E').
    { by apply delimited_spaces. }
    exists ts, te. split; [done|]. rewrite E'. cbn zeta.
    by rewrite (token_after_spaces ws ObjectEnd) by (done || constructor).
  - change (u ",") with [44] in *. rewrite <- !app_assoc. cbn [app].
    destruct (objectLoop_member t kv (ws' ++ 44 :: b ++ ws ++ 125 :: rest) fuel object Ht) as (ts & te & E & E').
    { by apply delimited_spaces. }
    exists ts, te. split; [done|]. rewrite E'. cbn zeta.
    rewrite (token_after_spaces ws' ListSeparator) by (done || constructor). cbn -[objectLoop foldl].
    destruct (IH fuel (setValue kv.1 kv.2 object)) as (ts1 & te1 & -> & E1); [lia|].
    destruct (decide (StringLiteral = ObjectEnd)); [done|]. by rewrite E1.
Qed.
End Nested.

(** The converse, for a [build] that reads only texts of [R]. *)
Section NestedSound.
Context (R : ustring -> JSONValue -> Prop) (build : ustring -> parsed JSONValue).
Context (Hsound : forall s v e, build s = Parsed v e -> exists t, s = t ++ e /\ R t v).

Lemma punctuation_sound s token ts te c :
  parseToken s = (token, ts, te) -> token <> InvalidToken ->
  (forall t, tokenText token t -> t = [c]) -> exists ws, s = ws ++ c :: te /\ spaces ws.
Proof.
  intros H Hv Hc. apply parseToken_sound in H as (ws & t & -> & Hws & _ & Ht); [|done].
  rewrite (Hc t Ht). by exists ws.
Qed.

Ltac punct H x Hx :=
  eapply punctuation_sound in H as (x & -> & Hx); [|done|by intros ? Htt; inversion Htt].

Lemma arrayLoop_sound fuel start token ts te array v e :
  parseToken start = (token, ts, te) ->
  arrayLoop build fuel start token te array = Parsed v e ->
  exists l b ws, v = JSONArray (array ++ l) /\ spaces ws /\ start = b ++ ws ++ ch "]" :: e /\
    (token = ArrayEnd /\ l = [] /\ b = [] \/ sepBy R b l).
Proof.
  revert start token ts te array. induction fuel as [|fuel IH]; intros start token ts te array Ht;
    cbn [arrayLoop]; destruct (decide (token = ArrayEnd)) as [->|Hne]; try done.
  1-2: intros [= <- <-]; punct Ht x Hx; exists [], [], x; rewrite app_nil_r; split_and!; auto.
  destruct (build start) as [w s1| |] eqn:Eb; [|done..].
  apply Hsound in Eb as (t & -> & Hw).
  destruct (parseToken s1) as [[tok1 ts1] te1] eqn:E1.
  destruct (decide (tok1 = ListSeparator)) as [->|].
  - punct E1 x Hx. destruct (parseToken te1) as [[tok2 ts2] te2] eqn:E2.
    destruct (decide (tok2 = ArrayEnd)); [done|]. intros H.
    destruct (IH te1 tok2 ts2 te2 (array ++ [w]) E2 H) as (l & b & ws & -> & Hws & -> & [[? _]|Hb]); [done|].
    exists (w :: l), (t ++ x ++ u "," ++ b), ws. rewrite <- !app_assoc. split_and!; try done.
    right. by constructor.
  - destruct (decide (tok1 = ArrayEnd)) as [->|]; [|done]. intros [= <- <-]. punct E1 x Hx.
    exists [w], t, x. split_and!; try done. right. by constructor.
Qed.

Lemma objectLoop_sound fuel start token ts te object v e :
  parseToken start = (token, ts, te) ->
  objectLoop build fuel token ts te object = Parsed v e ->
  exists ms b ws, v = JSONObject (foldl (fun o kv => setValue kv.1 kv.2 o) object ms) /\ spaces ws /\
    start = b ++ ws ++ ch "}" :: e /\ (token = ObjectEnd /\ ms = [] /\ b = [] \/ sepBy (memberText R) b ms).
Proof.
  revert start token ts te object. induction fuel as [|fuel IH]; intros start token ts te object Ht;
    cbn [objectLoop]; destruct (decide (token = ObjectEnd)) as [->|Hne]; try done.
  1-2: intros [= <- <-]; punct Ht x Hx; exists [], [], x; split_and!; auto.
  destruct (decide (token <> StringLiteral)) as [|Es%dec_stable]; [done|]. subst token.
  apply parseToken_sound in Ht as (ws0 & t0 & -> & Hws0 & -> & Ht); [|done].
  inversion Ht as [| | | | | | | | | |t k Hk]; subst.
  rewrite stringContents_token, (encodes_decodeString _ _ Hk).
  destruct (parseToken te) as [[tok1 ts1] te1] eqn:E1.
  destruct (decide (tok1 <> ObjectPairSeparator)) as [|Ep%dec_stable]; [done|]. subst tok1. punct E1 x Hx.
  destruct (build te1) as [w s1| |] eqn:Eb; [|done..]. apply Hsound in Eb as (tv & -> & Hw).
  destruct (parseToken s1) as [[tok2 ts2] te2] eqn:E2.
  assert (memberText R (ws0 ++ [dquote] ++ t ++ [dquote] ++ x ++ u ":" ++ tv) (k, w)) as Hm by (by constructor).
  destruct (decide (tok2 = ListSeparator)) as [->|].
  - punct E2 x' Hx'.
    destruct (parseToken te2) as [[tok3 ts3] te3] eqn:E3.
    destruct (decide (tok3 = ObjectEnd)); [done|]. intros H.
    destruct (IH te2 tok3 ts3 te3 _ E3 H) as (ms & b & ws & -> & Hws & -> & [[? _]|Hb]); [done|].
    eexists ((k, w) :: ms), (_ ++ x' ++ u "," ++ b), ws.
    split; [done|]. split; [done|]. split; [|right; by apply (sep_cons (memberText R)); [exact Hm|..]].
    rewrite <- !app_assoc. done.
  - destruct (decide (tok2 = ObjectEnd)) as [->|]; [|done]. intros [= <- <-].
    punct E2 x' Hx'.
    eexists [(k, w)], _, x'. split; [done|]. split; [done|].
    split; [|right; apply sep_one; exact Hm]. rewrite <- !app_assoc. done.
Qed.
End NestedSound.

(** ** Values *)

Lemma valueText_head R t v : valueText R t v ->
  exists c t', t = c :: t' /\ isSpaceOrNewline c = false /\ c <> ch "]".
Proof.
  assert (forall text t c s, u text = c :: s -> s <> [] -> constText text t -> exists t', t = c :: t') as Hconst.
  { intros text t' c s E Hne Ht. pose proof (constText_head text t' Ht) as Hh. rewrite E in Hh.
    destruct s; [done|]. destruct t' as [|d t']; simpl in Hh; [|injection Hh as ->]; eauto with lia.
    discriminate Hh. lia. }
  intros [t' Ht|t' Ht|t' Ht|t' d [Ht _]| | | | |].
  1-3: eapply Hconst in Ht as (t'' & ->); [|done..]; by eexists _, _; split_and!.
  - apply parseNumberToken_head in Ht as (c & s' & -> & Hc). exists c, s'.
    assert (45 <= c <= 57) by (unfold isDigit in Hc; destruct Hc; zprop; lia).
    split_and!; [done|apply ascii_nonspace; lia|lia].
  - by eexists _, _; split_and!.
  - by eexists _, _; split_and!.
  - by eexists _, _; split_and!.
  - by eexists _, _; split_and!.
  - by eexists _, _; split_and!.
Qed.

Lemma jsonText_start n t v : jsonText n t v ->
  exists ws c t', t = ws ++ c :: t' /\ spaces ws /\ isSpaceOrNewline c = false /\ c <> ch "]".
Proof.
  destruct n as [|n]; [done|]. intros (ws & b & Hws & -> & (c & t' & -> & Hc & Hne)%valueText_head).
  by exists ws, c, t'.
Qed.

Lemma memberText_length R t kv : memberText R t kv -> (1 <= length t)%nat.
Proof. intros []. rewrite !length_app. simpl. lia. Qed.

Lemma textBetween_app t te : textBetween (t ++ te) te = t.
Proof.
  unfold textBetween. rewrite length_app. replace (length t + length te - length te)%nat with (length t) by lia.
  apply take_app_length.
Qed.

Lemma buildValue_complete n t v rest :
  jsonText n t v -> delimited rest -> buildValue n (t ++ rest) = Parsed v rest.
Proof.
  revert t v rest. induction n as [|n IH]; [done|].
  intros t v rest (ws & b & Hws & -> & Hv) Hrest. cbn [buildValue].
  rewrite <- app_assoc, parseToken_spaces by done.
  destruct Hv as [t Ht|t Ht|t Ht|t d [Ht Hd]|t s Ht|ws' Hws'|b ws' l Hb Hws'|ws' Hws'|b ws' ms Hb Hws'].
  - by rewrite (parseToken_complete NullToken) by (done || by constructor).
  - by rewrite (parseToken_complete BoolTrue) by (done || by constructor).
  - by rewrite (parseToken_complete BoolFalse) by (done || by constructor).
  - rewrite (parseToken_complete Number) by (done || by constructor).
    by rewrite textBetween_app, Hd.
  - rewrite (parseToken_complete StringLiteral) by (done || by econstructor).
    by rewrite stringContents_token, (encodes_decodeString _ _ Ht).
  - rewrite <- !app_assoc, (parseToken_complete ArrayBegin) by (done || constructor).
    change (u "]" ++ rest) with (93 :: rest).
    by rewrite (token_after_spaces ws' ArrayEnd) by (done || constructor).
  - rewrite <- !app_assoc, (parseToken_complete ArrayBegin) by (done || constructor).
    change (u "]" ++ rest) with (93 :: rest).
    destruct (parseToken (b ++ ws' ++ 93 :: rest)) as [[tok ts] te] eqn:E.
    apply (arrayLoop_complete (jsonText n) _ IH (jsonText_start n) b l ws' rest _ [] Hb Hws') with (ts := ts); [|done].
    apply sepBy_length in Hb; [|intros ?? (? & ? & ? & -> & _)%jsonText_start; rewrite length_app; simpl; lia].
    rewrite length_app. lia.
  - rewrite <- !app_assoc, (parseToken_complete ObjectBegin) by (done || constructor).
    change (u "}" ++ rest) with (125 :: rest).
    by rewrite (token_after_spaces ws' ObjectEnd) by (done || constructor).
  - rewrite <- !app_assoc, (parseToken_complete ObjectBegin) by (done || constructor).
    change (u "}" ++ rest) with (125 :: rest).
    destruct (objectLoop_complete (jsonText n) _ IH b ms ws' rest (S (length (b ++ ws' ++ 125 :: rest))) [] Hb Hws')
      as (ts & te & -> & ->); [|done].
    apply sepBy_length in Hb; [|apply memberText_length]. rewrite length_app. lia.
Qed.

Lemma buildValue_sound n s v e :
  buildValue n s = Parsed v e -> exists t, s = t ++ e /\ jsonText n t v.
Proof.
  revert s v e. induction n as [|n IH]; [done|]. intros s v e. cbn [buildValue].
  destruct (parseToken s) as [[tok ts] te] eqn:E.
  destruct (decide (tok = InvalidToken)) as [->|Hv]; [done|].
  apply parseToken_sound in E as (ws & t & -> & Hws & -> & Ht); [|done].
  assert (forall b e, valueText (jsonText n) b v -> t ++ te = b ++ e ->
            exists t', ws ++ t ++ te = t' ++ e /\ jsonText (S n) t' v) as Hdone.
  { intros b e' Hb ->. exists (ws ++ b). rewrite <- app_assoc. split; [done|]. by exists ws, b. }
  destruct Ht as [t Ht|t Ht|t Ht| | | | | | |t Ht|t k Ht]; try done.
  1-3: intros [= <- <-]; by eapply Hdone; [constructor|].
  - destruct (parseToken te) as [[tok1 ts1] te1] eqn:E1. intros H.
    destruct (arrayLoop_sound _ _ IH _ _ _ _ _ _ _ _ E1 H) as (l & b & ws' & -> & Hws' & -> & [(-> & -> & ->)|Hb]).
    + eapply Hdone; [by apply vt_array_nil|]. by rewrite <- !app_assoc.
    + eapply Hdone; [by apply vt_array|]. by rewrite <- !app_assoc.
  - destruct (parseToken te) as [[tok1 ts1] te1] eqn:E1. intros H.
    destruct (objectLoop_sound _ _ IH _ _ _ _ _ _ _ _ E1 H) as (ms & b & ws' & -> & Hws' & -> & [(-> & -> & ->)|Hb]).
    + eapply Hdone; [by apply vt_object_nil|]. by rewrite <- !app_assoc.
    + eapply Hdone; [by apply vt_object|]. by rewrite <- !app_assoc.
  - rewrite textBetween_app. destruct (charactersToDouble t) as [d []] eqn:Ed; [|done].
    intros [= <- <-]. by eapply Hdone; [constructor|].
  - rewrite stringContents_token, (encodes_decodeString _ _ Ht). intros [= <- <-].
    by eapply Hdone; [constructor|].
Qed.
End Grammar.
