(* ===== verification/NumberText.v ===== *)
(** * Number texts

    [Decimal::toString] writes a finite decimal as a JSON number, and integers
    as their decimal digits. *)

From S2P Require Import Prelude Platform WTFString DecimalNumber DecimalFacts JSONValues JSONParser JSONParserFacts JSONGrammar.

Definition digits (ds : ustring) : Prop := Forall (fun c => isDigit c = true) ds.

(** No leading zero, unless it is the only digit. *)
Definition canonical (ds : ustring) : Prop := (1 < length ds)%nat -> head ds <> Some (ch "0").

Lemma readInt_digits ds rest z :
  digits ds -> ds <> [] -> (z = true \/ canonical ds) ->
  (forall c, head rest = Some c -> isDigit c = false) ->
  readInt (ds ++ rest) z = Some rest.
Proof.
  intros Hd Hne Hz Hr. destruct ds as [|d ds]; [done|]. unfold readInt. cbn [app].
  change (d :: ds ++ rest) with ((d :: ds) ++ rest). rewrite skipDigits_full by done. cbn [length Nat.eqb].
  destruct z; [done|]. destruct Hz as [|Hz]; [done|]. unfold canonical in Hz. cbn [negb andb].
  destruct (Nat.ltb_spec 1 (S (length ds))); [|done]. destruct (Z.eqb_spec d 48) as [->|]; [|done].
  by destruct (Hz H).
Qed.

Lemma readInt_all ds z :
  digits ds -> ds <> [] -> (z = true \/ canonical ds) -> readInt ds z = Some [].
Proof. intros Hd Hne Hz. rewrite <- (app_nil_r ds). by apply readInt_digits. Qed.

(** An optional exponent part: [e], a sign, digits. *)
Definition exponentText (t : ustring) : Prop :=
  t = [] \/ exists s ds, (s = u "e-" \/ s = u "e+") /\ t = s ++ ds /\ digits ds /\ ds <> [].

Lemma exponentText_parse t : exponentText t -> parseExponent t = Some [].
Proof.
  intros [->|(s & ds & Hs & -> & Hd & Hne)]; [done|].
  destruct ds as [|d ds]; [done|].
  destruct Hs as [-> | ->]; cbn [parseExponent app u]; by apply (readInt_all (d :: ds) true); auto.
Qed.

Lemma exponentText_head t c : exponentText t -> head t = Some c -> isDigit c = false /\ c <> ch ".".
Proof. by intros [->|(s & ds & [-> | ->] & -> & _)]; [|intros [= <-]..]. Qed.

Lemma numberBody_int ds t :
  digits ds -> ds <> [] -> canonical ds -> exponentText t -> numberBody (ds ++ t) = Some [].
Proof.
  intros Hd Hne Hc Ht. unfold numberBody.
  rewrite readInt_digits by (auto; intros c Hh; by apply (exponentText_head t c)).
  destruct t as [|c t]; [done|]. destruct (exponentText_head _ c Ht eq_refl) as [_ Hdot].
  destruct (Z.eqb_spec c 46); [done|]. by apply exponentText_parse.
Qed.

Lemma numberBody_frac ds fs t :
  digits ds -> ds <> [] -> canonical ds -> digits fs -> fs <> [] -> exponentText t ->
  numberBody (ds ++ ch "." :: fs ++ t) = Some [].
Proof.
  intros Hd Hne Hc Hf Hfne Ht. unfold numberBody.
  rewrite readInt_digits by (auto; by intros c [= <-]). rewrite Z.eqb_refl.
  rewrite readInt_digits by (auto; intros c Hh; by apply (exponentText_head t c)).
  destruct t as [|c t]; [done|]. by apply exponentText_parse.
Qed.

Lemma numberToStringUnsigned_digits n :
  0 <= n -> digits (numberToStringUnsigned n) /\ numberToStringUnsigned n <> [] /\ canonical (numberToStringUnsigned n).
Proof.
  intros Hn. destruct (numberToStringUnsigned_spec n Hn) as (Hd & Hv & Hl & Hh).
  split_and!; [done|by destruct (numberToStringUnsigned n); simpl in *; [lia|]|].
  intros Hl'. destruct (Z.eq_dec n 0) as [->|]; [vm_compute in Hl'; lia|].
  destruct (numberToStringUnsigned n) as [|c s]; [done|]. intros [= ->]. by apply (Hh ltac:(lia) 48).
Qed.

Lemma numberToStringSigned_exponent e :
  e <> 0 -> exponentText ((if e <? 0 then u "e" else u "e+") ++ numberToStringSigned e).
Proof.
  intros He. right. unfold numberToStringSigned. destruct (Z.ltb_spec e 0).
  - exists (u "e-"), (numberToStringUnsigned (- e)).
    destruct (numberToStringUnsigned_digits (- e)) as (Hd & Hne & _); [lia|]. auto.
  - exists (u "e+"), (numberToStringUnsigned e).
    destruct (numberToStringUnsigned_digits e) as (Hd & Hne & _); [lia|]. auto.
Qed.

(** ** The rounding of the coefficient *)

Lemma dropDigits_nonneg fuel c e d : 0 <= c -> 0 <= (dropDigits fuel c e d).1.1.
Proof.
  revert c e d. induction fuel as [|fuel IH]; intros c e d Hc; cbn [dropDigits]; [done|].
  case_match; [|done]. apply IH, Z.div_pos; lia.
Qed.

Lemma dropZeros_nonneg fuel c e : 0 <= c -> 0 <= (dropZeros fuel c e).1.
Proof.
  revert c e. induction fuel as [|fuel IH]; intros c e Hc; cbn [dropZeros]; [done|].
  case_match; [|done]. apply IH, Z.div_pos; lia.
Qed.

Lemma roundCoefficient_nonneg c e : 0 <= c -> 0 <= (roundCoefficient c e).1.
Proof.
  intros Hc. unfold roundCoefficient. case_match; [|done].
  pose proof (dropDigits_nonneg 20 c e 0 Hc) as Hd.
  destruct (dropDigits 20 c e 0) as [[c' e'] d']. simpl in Hd.
  apply dropZeros_nonneg. case_match; lia.
Qed.

Lemma mantissaLength_bounds ds n : (1 <= n <= length ds)%nat -> (1 <= mantissaLength ds n <= length ds)%nat.
Proof.
  induction n as [|n IH]; [lia|]. intros Hn. cbn [mantissaLength].
  destruct (1 <=? n)%nat eqn:E; cbn [andb]; [|lia]. apply Nat.leb_le in E. destruct (_ =? _); lia.
Qed.

Lemma digits_take n ds : digits ds -> digits (take n ds).
Proof. apply Forall_take. Qed.
Lemma digits_drop n ds : digits ds -> digits (drop n ds).
Proof. apply Forall_drop. Qed.

(** ** Every finite decimal is a JSON number *)

(** The digits of a coefficient, placed as [toString] places them. *)
Definition body (ds : ustring) (originalExponent : Z) : ustring :=
  let coefficientLength := length ds in
  let adjustedExponent := originalExponent + Z.of_nat coefficientLength - 1 in
  if (originalExponent <=? 0) && (-6 <=? adjustedExponent) then
    if originalExponent =? 0 then ds
    else if 0 <=? adjustedExponent then
      take (S (Z.to_nat adjustedExponent)) ds ++ [ch "."] ++ drop (S (Z.to_nat adjustedExponent)) ds
    else u "0." ++ replicate (Z.to_nat (- (adjustedExponent + 1))) (ch "0") ++ ds
  else
    let coefficientLength := mantissaLength ds coefficientLength in
    take 1 ds ++ (if (2 <=? coefficientLength)%nat
                  then [ch "."] ++ take (coefficientLength - 1) (drop 1 ds) else [])
      ++ (if adjustedExponent =? 0 then []
          else (if adjustedExponent <? 0 then u "e" else u "e+") ++ numberToStringSigned adjustedExponent).

Lemma toString_body d :
  isFinite d = true ->
  toString d = (match m_sign d with Negative => [ch "-"] | Positive => [] end)
    ++ body (numberToStringUnsigned (roundCoefficient (m_coefficient d) (m_exponent d)).1)
            (roundCoefficient (m_coefficient d) (m_exponent d)).2.
Proof.
  intros Hf. unfold toString, body. unfold isFinite, isSpecial in Hf.
  destruct (m_formatClass d); try done;
    destruct (roundCoefficient _ _) as [c e]; cbn [fst snd];
    repeat case_match; rewrite <- ?app_assoc, ?app_nil_r; done.
Qed.

Lemma canonical_take ds n : canonical ds -> canonical (take n ds).
Proof.
  unfold canonical. intros Hc. rewrite length_take. intros Hl.
  destruct ds as [|d ds]; [simpl in Hl; lia|]. destruct n; [simpl in Hl; lia|]. simpl in *. apply Hc. lia.
Qed.

Lemma nonempty_length {A} (l : list A) : (0 < length l)%nat -> l <> [].
Proof. by destruct l; simpl; [lia|]. Qed.

Lemma body_number ds e : digits ds -> ds <> [] -> canonical ds -> numberBody (body ds e) = Some [].
Proof.
  intros Hd Hne Hc. unfold body. cbn zeta.
  assert (1 <= length ds)%nat as Hl by (destruct ds; [done|simpl; lia]).
  destruct ((e <=? 0) && _) eqn:E1.
  - zprop. destruct (Z.eqb_spec e 0).
    { rewrite <- (app_nil_r ds). apply numberBody_int; auto. by left. }
    destruct (Z.leb_spec 0 (e + Z.of_nat (length ds) - 1)).
    + rewrite <- (app_nil_r (drop _ ds)).
      apply (numberBody_frac (take _ ds) (drop _ ds) []); auto using digits_take, digits_drop, canonical_take.
      * apply nonempty_length. rewrite length_take. lia.
      * apply nonempty_length. rewrite length_drop. lia.
      * by left.
    + rewrite <- (app_nil_r ds), (app_assoc (replicate _ _) ds []).
      apply (numberBody_frac [48] (replicate _ 48 ++ ds) []); try done.
      * by constructor.
      * intros Hx. simpl in Hx. lia.
      * apply Forall_app. split; [by apply Forall_replicate|done].
      * by destruct (replicate _ _).
      * by left.
  - set (adj := e + Z.of_nat (length ds) - 1).
    assert (exponentText (if adj =? 0 then [] else (if adj <? 0 then u "e" else u "e+") ++ numberToStringSigned adj)) as Ht.
    { destruct (Z.eqb_spec adj 0); [by left|]. by apply numberToStringSigned_exponent. }
    pose proof (mantissaLength_bounds ds (length ds) ltac:(lia)) as Hm.
    destruct (Nat.leb_spec 2 (mantissaLength ds (length ds))).
    + rewrite <- (app_assoc [46]).
      apply (numberBody_frac (take 1 ds) (take (mantissaLength ds (length ds) - 1) (drop 1 ds))); auto using digits_take, digits_drop, canonical_take.
      * apply nonempty_length. rewrite length_take. lia.
      * apply nonempty_length. rewrite length_take, length_drop. lia.
    + apply (numberBody_int (take 1 ds)); auto using digits_take, canonical_take.
      apply nonempty_length. rewrite length_take. lia.
Qed.

(** The text of a finite decimal is a number token. *)
Lemma toString_number d :
  isFinite d = true -> wf d -> parseNumberToken (toString d) = Some [].
Proof.
  intros Hf Hd. rewrite toString_body by done. pose proof (wf_coefficient d Hd) as Hc.
  set (rc := roundCoefficient (m_coefficient d) (m_exponent d)).
  destruct (numberToStringUnsigned_digits rc.1) as (Hdig & Hne & Hcan); [apply roundCoefficient_nonneg; lia|].
  pose proof (body_number _ rc.2 Hdig Hne Hcan) as Hb.
  destruct (m_sign d); [|done]. cbn [app].
  destruct (numberBody_split _ _ Hb) as (t & E & _ & c & t' & -> & Hdc). rewrite app_nil_r in E. rewrite E in Hb |- *.
  change (numberBody (if c =? 45 then t' else c :: t') = Some []).
  by destruct (Z.eqb_spec c 45) as [->|].
Qed.

(** ** Integers *)

(** Parsing a run of digits that fits in the accumulator. *)
Lemma parseLoop_digits ds sg acc nd :
  digits ds -> 0 <= acc -> acc < 10 ^ nd -> 0 <= nd -> nd + Z.of_nat (length ds) <= Precision ->
  parseLoop (mkParser StateDigit sg acc nd 0 0 Positive 0) ds =
    inl (mkParser StateDigit sg (digitsValue acc ds) (nd + Z.of_nat (length ds)) 0 0 Positive 0).
Proof.
  intros Hd. revert acc nd. induction Hd as [|c ds Hc Hd IH]; intros acc nd Ha Hb Hn Hl.
  { cbn. by rewrite Z.add_0_r. }
  cbn [parseLoop parseStep length digitsValue]. rewrite Hc.
  cbn [length] in Hl. unfold isDigit in Hc. zprop.
  destruct (Z.ltb_spec nd Precision); [|lia].
  assert (acc * 10 + (c - 48) < 10 ^ (nd + 1)) as Hlt by (rewrite Z.pow_add_r by lia; lia).
  assert (10 ^ (nd + 1) <= 10 ^ Precision) as Hp by (apply Z.pow_le_mono_r; lia).
  rewrite pow10_Precision in Hp. unfold MaxCoefficient in Hp.
  unfold u64. rewrite (wrapU_small 64 (acc * 10)), wrapU_small by lia.
  rewrite IH by lia. do 2 f_equal. lia.
Qed.

Lemma digitsValue_nonneg ds : digits ds -> 0 <= digitsValue 0 ds.
Proof.
  assert (forall acc, 0 <= acc -> digits ds -> 0 <= digitsValue acc ds) as H.
  { induction ds as [|c ds IH]; intros acc Ha Hd; [done|]. inversion Hd as [|?? Hc Hd']; subst.
    cbn [digitsValue]. unfold isDigit in Hc. zprop. apply IH; [lia|done]. }
  by apply H.
Qed.

(** A number without leading zeros has the digits its size asks for. *)
Lemma canonical_length c ds n :
  digits (c :: ds) -> c <> ch "0" -> digitsValue 0 (c :: ds) = n -> n <= MaxCoefficient ->
  (Z.of_nat (length (c :: ds)) <= Precision) /\ ch "1" <= c <= ch "9".
Proof.
  intros Hd Hc Hv Hn. inversion Hd as [|?? Hdc Hd']; subst. unfold isDigit in Hdc. zprop.
  split; [|lia]. cbn [digitsValue] in Hn. rewrite digitsValue_shift in Hn.
  pose proof (digitsValue_nonneg ds Hd'). cbn [length]. rewrite Nat2Z.inj_succ.
  destruct (Z.lt_ge_cases Precision (Z.succ (Z.of_nat (length ds)))); [|lia].
  assert (10 ^ Precision <= 10 ^ Z.of_nat (length ds)) by (apply Z.pow_le_mono_r; lia).
  rewrite pow10_Precision in *. nia.
Qed.

(** The digits of a positive number, from the state that expects the first one. *)
Lemma parseLoop_number st sg n :
  0 < n <= MaxCoefficient -> st = StateStart \/ st = StateSign ->
  exists nd, parseLoop (mkParser st sg 0 0 0 0 Positive 0) (numberToStringUnsigned n) =
    inl (mkParser StateDigit sg n nd 0 0 Positive 0).
Proof.
  intros Hn Hst. destruct (numberToStringUnsigned_spec n ltac:(lia)) as (Hd & Hv & Hl & Hh).
  destruct (numberToStringUnsigned n) as [|c ds]; [simpl in Hl; lia|].
  specialize (Hh ltac:(lia) c eq_refl).
  destruct (canonical_length c ds n Hd Hh Hv) as [Hlen Hc]; [lia|].
  exists (1 + Z.of_nat (length ds)).
  assert (parseStep (mkParser st sg 0 0 0 0 Positive 0) c =
            inl (mkParser StateDigit sg (c - 48) 1 0 0 Positive 0)) as E.
  { destruct Hst as [-> | ->]; cbn [parseStep]; zcases; try lia; done. }
  cbn [parseLoop]. rewrite E. inversion Hd; subst.
  rewrite parseLoop_digits; [|done|lia|lia|lia|].
  - cbn [digitsValue]. by rewrite Z.mul_0_l, Z.add_0_l.
  - cbn [length] in Hlen. lia.
Qed.

Lemma parseFinish_digits sg n nd :
  0 <= n <= MaxCoefficient ->
  parseFinish (mkParser StateDigit sg n nd 0 0 Positive 0) =
    mkData n 0 (if n =? 0 then ClassZero else ClassNormal) sg.
Proof. intros Hn. cbn. by apply encode_exact. Qed.

Lemma fromString_integer z :
  Z.abs z <= MaxCoefficient ->
  fromString (String_number z) =
    mkData (Z.abs z) 0 (if z =? 0 then ClassZero else ClassNormal) (if z <? 0 then Negative else Positive).
Proof.
  intros Hz. destruct (Z.eq_dec z 0) as [->|Hnz]; [done|].
  unfold String_number, numberToStringSigned, fromString. destruct (Z.ltb_spec z 0).
  - change (numberToStringImpl true (- z)) with (45 :: numberToStringUnsigned (- z)).
    cbn [parseLoop startParser]. cbn -[parseLoop numberToStringUnsigned parseFinish].
    destruct (parseLoop_number StateSign Negative (- z)) as (nd & ->); [lia|auto|].
    rewrite parseFinish_digits by lia. destruct (Z.eqb_spec (- z) 0), (Z.eqb_spec z 0); try lia.
    by rewrite Z.abs_neq by lia.
  - change (numberToStringImpl false z) with (numberToStringUnsigned z).
    destruct (parseLoop_number StateStart Positive z) as (nd & E); [lia|auto|].
    unfold startParser. rewrite E, parseFinish_digits by lia. by rewrite Z.abs_eq by lia.
Qed.

(** An integer of at most eighteen digits survives the decimal class. *)
Lemma toString_integer z : Z.abs z <= MaxCoefficient -> toString (fromString (String_number z)) = String_number z.
Proof.
  intros Hz. rewrite fromString_integer by done. unfold toString. cbn [m_formatClass m_sign m_coefficient m_exponent].
  unfold String_number, numberToStringSigned, roundCoefficient. cbn [Z.ltb Z.compare].
  destruct (Z.ltb_spec z 0).
  - rewrite Z.abs_neq by lia. destruct (Z.eqb_spec z 0); [lia|].
    cbn [Z.leb Z.compare]. replace (-6 <=? _) with true by (symmetry; apply Z.leb_le; lia). done.
  - rewrite Z.abs_eq by lia. destruct (z =? 0);
    (cbn [Z.leb Z.compare]; replace (-6 <=? _) with true by (symmetry; apply Z.leb_le; lia); done).
Qed.

Section Writer.
Context {P : Platform}.

(** The writer's text of an integer, on a platform whose shortest text of an
    integer double is its decimal digits. *)
Lemma writeNumber_integer z :
  Z.abs z <= MaxCoefficient -> Double.isfinite (Double.of_Z z) = true ->
  toShortest (Double.of_Z z) = String_number z ->
  writeNumber (Double.of_Z z) = String_number z.
Proof.
  intros Hz Hf Hs. unfold writeNumber. rewrite Hf. unfold fromDouble.
  destruct (Double.of_Z z) eqn:E; try done; rewrite Hs; by apply toString_integer.
Qed.

Lemma fromDouble_wf d : wf (fromDouble d).
Proof. unfold fromDouble. destruct d; try apply fromString_wf; by apply special_wf. Qed.

(** A finite double whose shortest text is a decimal is written as a JSON number. *)
Lemma writeNumber_token d :
  Double.isfinite d = true -> isFinite (fromDouble d) = true -> parseNumberToken (writeNumber d) = Some [].
Proof.
  intros Hd Hf. unfold writeNumber. rewrite Hd. apply toString_number; [done|apply fromDouble_wf].
Qed.
End Writer.
