(* ===== verification/DecimalTheorems.v ===== *)
(** * What the decimal arithmetic guarantees ([platform/Decimal.cpp])

    The theorems about [DecimalNumber] as a whole, proved from the lemmas of
    [DecimalFacts] and [NumberText], and the inputs on which the code deviates
    from what it documents. *)

From S2P Require Import Prelude Platform WTFString DecimalNumber DecimalFacts JSONValues JSONParser JSONParserFacts NumberText.

(** Two decimals for the examples: 1.25 and -0.075. *)
Definition quarter : Decimal := mkData 125 (-2) ClassNormal Positive.
Definition sample : Decimal := mkData 75 (-3) ClassNormal Negative.

Lemma quarter_wf : wf quarter.
Proof. cbn. unfold MaxCoefficient, ExponentMin, ExponentMax. lia. Qed.
Lemma sample_wf : wf sample.
Proof. cbn. unfold MaxCoefficient, ExponentMin, ExponentMax. lia. Qed.



(** The two-word integer type computes exactly: the product of two 64-bit
    words, assembled from 32-bit partial products, is their product, and the
    four-digit long division by a 32-bit divisor is the truncated quotient. *)
Theorem uint128_exact a b divisor :
  0 <= a < 2 ^ 64 -> 0 <= b < 2 ^ 64 -> 0 < divisor < 2 ^ 32 ->
  UInt128.value (UInt128.multiply a b) = a * b /\
  UInt128.value (UInt128.divide (UInt128.multiply a b) divisor) = a * b / divisor.
Proof.
  intros Ha Hb Hd. destruct (multiply_exact a b Ha Hb) as (E & Hh & Hl).
  split; [done|]. rewrite <- E. by apply divide_exact.
Qed.

Lemma uint128_exact_witness :
  UInt128.value (UInt128.multiply 18446744073709551615 18446744073709551615)
    = 18446744073709551615 * 18446744073709551615 /\
  UInt128.value (UInt128.divide (UInt128.multiply 18446744073709551615 18446744073709551615) 10)
    = 18446744073709551615 * 18446744073709551615 / 10.
Proof. apply (uint128_exact 18446744073709551615 18446744073709551615 10); lia. Defined.

(** Addition and subtraction are exact: when the operands can be written
    with one exponent within the precision and the result's coefficient fits,
    the result in units of the smaller exponent is the sum, or difference, of
    the operands in these units. *)
Theorem add_sub_exact l r k :
  wf l -> wf r -> isFinite l = true -> isFinite r = true -> alignable l r = true ->
  k = Z.min (m_exponent l) (m_exponent r) ->
  (Z.abs (units k l + units k r) <= MaxCoefficient -> units k (add l r) = units k l + units k r) /\
  (Z.abs (units k l - units k r) <= MaxCoefficient -> units k (sub l r) = units k l - units k r).
Proof. intros. split; intros; [by apply add_units|by apply sub_units]. Qed.

Lemma add_sub_exact_witness :
  units (-3) (add quarter sample) = 1175 /\ units (-3) (sub quarter sample) = 1325.
Proof.
  destruct (add_sub_exact quarter sample (-3)) as [Ha Hs];
    [apply quarter_wf|apply sample_wf|done|done|vm_compute; reflexivity|done|].
  split; [rewrite Ha|rewrite Hs]; vm_compute; done.
Defined.

(** Multiplication truncates: the product of the coefficients is divided by
    the power of ten that makes it fit 64 bits, and the exponent raised by
    that power; a product that fits is kept whole. *)
Theorem mul_truncates l r :
  wf l -> wf r -> isFinite l = true -> isFinite r = true ->
  exists k, 0 <= k <= 20 /\
    (m_coefficient l * m_coefficient r < 2 ^ 64 -> k = 0) /\
    0 <= m_coefficient l * m_coefficient r / 10 ^ k < 2 ^ 64 /\
    mul l r = encode (if decide (m_sign l = m_sign r) then Positive else Negative)
                (m_exponent l + m_exponent r + k) (m_coefficient l * m_coefficient r / 10 ^ k).
Proof. apply mul_spec. Qed.

Lemma mul_truncates_witness :
  exists k, 0 <= k <= 20 /\
    (m_coefficient quarter * m_coefficient sample < 2 ^ 64 -> k = 0) /\
    0 <= m_coefficient quarter * m_coefficient sample / 10 ^ k < 2 ^ 64 /\
    mul quarter sample = encode (if decide (m_sign quarter = m_sign sample) then Positive else Negative)
                (m_exponent quarter + m_exponent sample + k)
                (m_coefficient quarter * m_coefficient sample / 10 ^ k).
Proof. apply (mul_truncates quarter sample); [apply quarter_wf|apply sample_wf|done|done]. Defined.

(** Division rounds to nearest: the quotient of two finite non-zero decimals
    is within half a unit of its last place of the exact quotient, and it is
    exact or has at least seventeen significant digits.  In particular the
    division loop ends with its result. *)
Theorem div_rounds l r :
  wf l -> wf r -> isFinite l = true -> isFinite r = true -> isZero l = false -> isZero r = false ->
  exists k q, 0 <= k /\ 0 < q <= MaxCoefficient + 1 /\
    div l r = encode (if decide (m_sign l = m_sign r) then Positive else Negative)
                (m_exponent l - m_exponent r - k) q /\
    2 * Z.abs (m_coefficient l * 10 ^ k - q * m_coefficient r) <= m_coefficient r /\
    (m_coefficient l * 10 ^ k = q * m_coefficient r \/ MaxCoefficient / 10 <= q).
Proof. apply div_spec. Qed.

Lemma div_rounds_witness :
  exists k q, 0 <= k /\ 0 < q <= MaxCoefficient + 1 /\
    div quarter sample = encode (if decide (m_sign quarter = m_sign sample) then Positive else Negative)
                (m_exponent quarter - m_exponent sample - k) q /\
    2 * Z.abs (m_coefficient quarter * 10 ^ k - q * m_coefficient sample) <= m_coefficient sample /\
    (m_coefficient quarter * 10 ^ k = q * m_coefficient sample \/ MaxCoefficient / 10 <= q).
Proof. apply (div_rounds quarter sample); [apply quarter_wf|apply sample_wf|done..]. Defined.

(** The text of every finite decimal is one JSON number token: the scanner
    that reads numbers consumes all of it. *)
Theorem toString_token d : isFinite d = true -> wf d -> parseNumberToken (toString d) = Some [].
Proof. apply toString_number. Qed.

Lemma toString_token_witness : toString sample = u "-0.075" /\ parseNumberToken (toString sample) = Some [].
Proof. split; [vm_compute; reflexivity|]. apply (toString_token sample); [done|apply sample_wf]. Defined.

(** Integers of up to eighteen digits survive the number text unchanged:
    reading the decimal text of an integer and writing it again gives that
    text. *)
Theorem integer_text z : Z.abs z <= MaxCoefficient -> toString (fromString (String_number z)) = String_number z.
Proof. apply toString_integer. Qed.

Lemma integer_text_witness :
  toString (fromString (String_number (-999999999999999999))) = String_number (-999999999999999999).
Proof. apply (integer_text (-999999999999999999)). vm_compute. discriminate. Defined.

(** ** Deviations *)

(** A zero with a fraction is rounded up to one by [ceil], and a negative one
    down to minus one by [floor]: the tests on the coefficient do not exclude
    zero. *)
Example ceil_of_zero : ceil (fromString (u "0.0")) = of_int32 1.
Proof. vm_compute. reflexivity. Qed.
Example floor_of_negative_zero : floor (fromString (u "-0.0")) = of_int32 (-1).
Proof. vm_compute. reflexivity. Qed.

(** [toString] keeps fifteen digits of a number with a fraction, so that a
    double written with sixteen or seventeen is not read back. *)
Example toString_loses_digits : toString (fromString (u "0.12345678901234567")) = u "0.123456789012346".
Proof. vm_compute. reflexivity. Qed.
