(* ===== verification/JSONRoundTrip.v ===== *)
(** * Writing and reading JSON

    The properties of the parser and the writer together. *)

From S2P Require Import Prelude Platform WTFString DecimalNumber DecimalFacts JSONValues JSONParser JSONParserFacts JSONGrammar NumberText.

Section RoundTrip.
Context {P : Platform}.

(** A value nested at most [levels] deep whose strings are UTF-16, whose objects
    have distinct keys, and whose numbers survive the platform's conversions. *)
Fixpoint serializable (levels : nat) (v : JSONValue) : Prop :=
  match levels with
  | O => False
  | S n =>
      match v with
      | JSONNull | JSONBoolean _ => True
      | JSONNumber d => Double.isfinite d = true /\ isFinite (fromDouble d) = true /\
                        charactersToDouble (writeNumber d) = (d, true)
      | JSONString s => is_ustring s
      | JSONObject o => NoDup o.*1 /\ Forall (fun kv => is_ustring kv.1 /\ serializable n kv.2) o
      | JSONArray l => Forall (serializable n) l
      end
  end.

Lemma constText_self text : text <> EmptyString -> constText text (u text).
Proof.
  intros Hne. assert (u text <> []) as Hu by (by destruct text).
  destruct (exists_last Hu) as (init & last & E). by exists init, last, last.
Qed.

(** Leading white space. *)
Lemma jsonText_spaces n ws t v : spaces ws -> jsonText n t v -> jsonText n (ws ++ t) v.
Proof.
  destruct n as [|n]; [done|]. intros Hws (ws' & b & Hws' & -> & Hv).
  exists (ws ++ ws'), b. rewrite app_assoc. split_and!; [by apply Forall_app|done|done].
Qed.

Lemma jsonText_value n t v : valueText (jsonText n) t v -> jsonText (S n) t v.
Proof. intros. exists [], t. split_and!; [constructor|done|done]. Qed.

Lemma memberText_spaces R ws t kv : spaces ws -> memberText R t kv -> memberText R (ws ++ t) kv.
Proof.
  intros Hws [ws' t' k ws'' b v]. rewrite app_assoc. constructor; try done. by apply Forall_app.
Qed.

(** The writing loops. *)
Lemma separated_sepBy {A} (R : ustring -> A -> Prop) ws items l :
  (forall t a, R t a -> R (ws ++ t) a) -> Forall2 R items l -> items <> [] ->
  sepBy R (separated (u "," ++ ws) true items) l.
Proof.
  intros Hws HF. assert (forall t a items l, R t a -> Forall2 R items l ->
    sepBy R (t ++ separated (u "," ++ ws) false items) (a :: l)) as H.
  { clear items l HF. intros t a items l Ht HF. revert t a Ht.
    induction HF as [|t' a' items l Ht' HF IH]; intros t a Ht; simpl.
    - rewrite app_nil_r. by constructor.
    - apply (sep_cons R t a [] _ _ Ht); [constructor|]. rewrite app_assoc. apply IH. by apply Hws. }
  intros Hne. destruct HF as [|t a items l Ht HF]; [done|]. simpl. by apply H.
Qed.

Lemma prettyElements_sepBy {A} (R : ustring -> A -> Prop) indent items l :
  spaces indent -> (forall ws t a, spaces ws -> R t a -> R (ws ++ t) a) ->
  Forall2 R items.*2 l -> items <> [] -> sepBy R (prettyElements indent true false items) l.
Proof.
  intros Hi Hws HF. assert (spaces (10 :: indent)) as Hn by (by constructor).
  assert (forall items l t a b, R t a -> Forall2 R items.*2 l ->
    sepBy R (t ++ prettyElements indent false b items) (a :: l)) as H.
  { clear items l HF. induction items as [|[nl t'] items IH]; intros l t a b Ht HF.
    - inversion HF; subst. cbn. rewrite app_nil_r. by constructor.
    - inversion HF as [|? a' ? l' Ht' HF']; subst. cbn [prettyElements].
      rewrite <- !app_assoc. apply (sep_cons R t a [] _ _ Ht); [constructor|].
      rewrite app_assoc. apply IH; [|done]. apply Hws; [|done].
      destruct b; [done|by repeat constructor]. }
  intros Hne. destruct items as [|[nl t] items]; [done|]. inversion HF as [|? a ? l' Ht HF']; subst.
  cbn [prettyElements]. rewrite app_assoc. apply H; [|done]. apply Hws; [|done].
  destruct nl; [done|constructor].
Qed.

Lemma foldl_setValue_app (o acc : jobject) :
  NoDup (acc ++ o).*1 -> foldl (fun o kv => setValue kv.1 kv.2 o) acc o = acc ++ o.
Proof.
  revert acc. induction o as [|[k v] o IH]; intros acc Hd; simpl; [by rewrite app_nil_r|].
  rewrite setValue_fresh; [rewrite IH; by rewrite <- app_assoc|].
  rewrite fmap_app, NoDup_app in Hd. destruct Hd as (_ & Hd & _).
  intros H. apply (Hd k H). simpl. apply elem_of_cons. by left.
Qed.

Lemma ofMembers_id o : NoDup o.*1 -> ofMembers o = o.
Proof. intros. by apply (foldl_setValue_app o []). Qed.

Lemma doubleQuote_value R s : is_ustring s -> valueText R (doubleQuoteString s) (JSONString s).
Proof. intros. apply vt_string. by apply flat_map_encodes. Qed.

Lemma writeIndent_spaces n : spaces (writeIndent n).
Proof. induction n; simpl; repeat constructor; done. Qed.

Lemma memberText_written n k v t sp :
  is_ustring k -> spaces sp -> jsonText n t v ->
  memberText (jsonText n) (doubleQuoteString k ++ u ":" ++ sp ++ t) (k, v).
Proof.
  intros Hk Hsp Ht. unfold doubleQuoteString. rewrite <- !app_assoc.
  apply (member _ [] _ _ [] (sp ++ t)); [constructor|by apply flat_map_encodes|constructor|].
  by apply jsonText_spaces.
Qed.

(** The basic values are written the same way by both writers. *)
Lemma basic_value R n v :
  serializable n v -> match v with JSONObject _ | JSONArray _ => False | _ => True end ->
  valueText R (writeJSON v) v.
Proof.
  destruct n as [|n]; [done|]. destruct v as [|[]|d|s| |]; intros Hs Hv; try done.
  - apply vt_null. by apply (constText_self "null").
  - apply vt_true. by apply (constText_self "true").
  - apply vt_false. by apply (constText_self "false").
  - destruct Hs as (Hf & Hff & Hc). apply vt_number. split; [by apply writeNumber_token|done].
  - by apply doubleQuote_value.
Qed.

Lemma writeJSON_text n v : serializable n v -> jsonText n (writeJSON v) v.
Proof.
  revert v. induction n as [|n IH]; [done|]. intros v Hs. apply jsonText_value.
  destruct v as [|b|d|s|o|l]; try by eapply basic_value.
  - destruct Hs as [Hd Hf]. cbn [writeJSON]. destruct o as [|kv o]; [apply (vt_object_nil _ []); constructor|].
    rewrite <- (ofMembers_id (kv :: o)) at 2 by done. apply (vt_object _ _ []); [|constructor].
    apply (separated_sepBy _ []); [done| |done].
    clear Hd. induction Hf as [|[k v] o' [Hk Hv] Hf IHf]; simpl; constructor; [|done].
    apply (memberText_written n k v _ []); auto. constructor.
  - cbn [writeJSON]. destruct l as [|w l]; [apply (vt_array_nil _ []); constructor|].
    apply (vt_array _ _ []); [|constructor]. apply (separated_sepBy _ []); [done| |done].
    simpl in Hs. induction Hs as [|v l' Hv Hs IHs]; simpl; constructor; auto.
Qed.

Lemma sepBy_spaces {A} (R : ustring -> A -> Prop) ws b l :
  (forall t a, R t a -> R (ws ++ t) a) -> sepBy R b l -> sepBy R (ws ++ b) l.
Proof.
  intros Hws [t a Ht|t a ws' b' l' Ht Hws' Hb]; [constructor; auto|].
  rewrite app_assoc. constructor; auto.
Qed.

(** A member as the pretty printer writes it. *)
Definition prettyMember (depth : nat) (kv : ustring * JSONValue) : ustring :=
  match kv with
  | (k, w) => writeIndent (S depth) ++ doubleQuoteString k ++ u ": " ++ prettyWriteJSONInternal w (S depth)
  end.

Lemma prettyMember_text n depth kv :
  is_ustring kv.1 -> jsonText n (prettyWriteJSONInternal kv.2 (S depth)) kv.2 ->
  memberText (jsonText n) (prettyMember depth kv) kv.
Proof.
  destruct kv as [k v]. intros Hk Hv. cbn [prettyMember].
  apply memberText_spaces; [apply writeIndent_spaces|].
  apply (memberText_written n k v _ (u " ")); auto. by repeat constructor.
Qed.

Lemma prettyWrite_text n v depth : serializable n v -> jsonText n (prettyWriteJSONInternal v depth) v.
Proof.
  revert v depth. induction n as [|n IH]; [done|]. intros v depth Hs. apply jsonText_value.
  assert (spaces [10]) as Hten by (by repeat constructor).
  assert (spaces (10 :: writeIndent depth)) as Hi by (constructor; [done|apply writeIndent_spaces]).
  destruct v as [|b|d|s|o|l]; try by eapply basic_value.
  - destruct Hs as [Hd Hf]. cbn [prettyWriteJSONInternal]. fold (prettyMember depth).
    destruct o as [|kv o]; [apply (vt_object_nil _ (10 :: 10 :: writeIndent depth)); by constructor|].
    rewrite <- (ofMembers_id (kv :: o)) at 2 by done. rewrite (app_assoc [10]).
    apply (vt_object _ _ (10 :: writeIndent depth)); [|done].
    assert (forall t a, memberText (jsonText n) t a -> memberText (jsonText n) ([10] ++ t) a) as Hmem
      by (intros; by apply memberText_spaces).
    apply sepBy_spaces; [done|]. apply (separated_sepBy _ [10]); [done| |done].
    apply Forall2_fmap_l, Forall_Forall2_diag.
    apply (Forall_impl _ _ _ Hf). intros kv' [Hk Hv]. apply prettyMember_text; auto.
  - cbn [prettyWriteJSONInternal]. simpl in Hs.
    set (tail := if match last l with Some w => insertsNewLine w | None => false end
                 then [10] ++ writeIndent depth else []).
    assert (spaces tail) as Ht by (unfold tail; repeat case_match; done || constructor).
    destruct l as [|w l]; [by apply (vt_array_nil _ tail)|]. apply vt_array; [|done].
    apply prettyElements_sepBy; [apply writeIndent_spaces|intros; by apply jsonText_spaces| |done].
    clear tail Ht. induction Hs as [|v l' Hv Hs IHs]; simpl; constructor; auto.
Qed.

(** ** Characters *)

Definition printable (c : Z) : Prop := 32 <= c <= 126 /\ c <> ch "<" /\ c <> ch ">".

Lemma digits_printable ds : digits ds -> Forall printable ds.
Proof.
  intros H. apply (Forall_impl _ _ _ H). unfold isDigit, printable. intros c Hc. zprop. lia.
Qed.

Lemma writeChar_printable c : Forall printable (writeChar c).
Proof.
  unfold writeChar, escapeChar, printable.
  repeat match goal with |- context [if ?a =? ?b then _ else _] => destruct (Z.eqb_spec a b);
    [repeat constructor; done|] end.
  destruct (_ || _) eqn:E; [|zprop; repeat constructor; lia].
  assert (forall n, 32 <= hexDigit (n mod 16) <= 126 /\ hexDigit (n mod 16) <> 60 /\ hexDigit (n mod 16) <> 62) as Hh.
  { intros m. pose proof (Z.mod_pos_bound m 16 ltac:(lia)). unfold hexDigit. zcases; lia. }
  unfold unicodeEscape. repeat constructor; apply Hh || done.
Qed.

Lemma doubleQuote_printable s : Forall printable (doubleQuoteString s).
Proof.
  unfold doubleQuoteString. repeat (apply Forall_app; split); try (by repeat constructor).
  induction s; simpl; [constructor|]. apply Forall_app. auto using writeChar_printable.
Qed.

Lemma numberToStringSigned_printable z : Forall printable (numberToStringSigned z).
Proof.
  unfold numberToStringSigned. destruct (Z.ltb_spec z 0).
  - constructor; [done|]. apply digits_printable. by apply (numberToStringUnsigned_digits (- z)); lia.
  - apply digits_printable. by apply (numberToStringUnsigned_digits z).
Qed.

Lemma toString_printable d : wf d -> Forall printable (toString d).
Proof.
  intros Hd. pose proof (wf_coefficient d Hd) as Hc. destruct (isFinite d) eqn:Hf.
  - rewrite toString_body by done. apply Forall_app. split; [destruct (m_sign d); by repeat constructor|].
    destruct (numberToStringUnsigned_digits (roundCoefficient (m_coefficient d) (m_exponent d)).1)
      as (Hg & _); [apply roundCoefficient_nonneg; lia|].
    revert Hg. generalize (numberToStringUnsigned (roundCoefficient (m_coefficient d) (m_exponent d)).1)
      (roundCoefficient (m_coefficient d) (m_exponent d)).2. intros ds e Hg%digits_printable.
    unfold body. cbn zeta.
    repeat match goal with |- context [if ?b then _ else _] => destruct b end;
      repeat (apply Forall_app; split); auto using Forall_take, Forall_drop, numberToStringSigned_printable;
      try (by repeat constructor); by apply Forall_replicate.
  - unfold isFinite, isSpecial in Hf. unfold toString.
    destruct (m_formatClass d), (m_sign d); try done; repeat constructor; done.
Qed.

Lemma separated_printable sep first items :
  Forall printable sep -> Forall (Forall printable) items -> Forall printable (separated sep first items).
Proof.
  intros Hs HF. revert first. induction HF as [|t items Ht HF IH]; intros first; simpl; [constructor|].
  repeat (apply Forall_app; split); auto. by destruct first.
Qed.

Lemma writeJSON_printable v : Forall printable (writeJSON v).
Proof.
  induction v as [|b|d|s|o IH|l IH] using JSONValue_rec'; cbn [writeJSON].
  - by repeat constructor.
  - destruct b; by repeat constructor.
  - unfold writeNumber. destruct (Double.isfinite d); [|by repeat constructor].
    apply toString_printable, fromDouble_wf.
  - apply doubleQuote_printable.
  - repeat (apply Forall_app; split); try (by repeat constructor). apply separated_printable; [by repeat constructor|].
    induction IH as [|[k v] o Hv IH IH']; cbn [map]; constructor; [|done].
    apply Forall_app. split; [apply doubleQuote_printable|].
    apply Forall_app. split; [by repeat constructor|exact Hv].
  - repeat (apply Forall_app; split); try (by repeat constructor). apply separated_printable; [by repeat constructor|].
    by induction IH as [|v l Hv IH IH']; simpl; constructor.
Qed.

(** ** Distinct keys *)

(** All objects of the value have distinct keys. *)
#[local] Unset Elimination Schemes.
Inductive uniqueKeys : JSONValue -> Prop :=
  | unique_null : uniqueKeys JSONNull
  | unique_boolean b : uniqueKeys (JSONBoolean b)
  | unique_number d : uniqueKeys (JSONNumber d)
  | unique_string s : uniqueKeys (JSONString s)
  | unique_array l : Forall uniqueKeys l -> uniqueKeys (JSONArray l)
  | unique_object o : NoDup o.*1 -> Forall (fun kv => uniqueKeys kv.2) o -> uniqueKeys (JSONObject o).
#[local] Set Elimination Schemes.

Lemma ofMembers_unique ms acc :
  NoDup acc.*1 -> Forall (fun kv => uniqueKeys kv.2) acc -> Forall (fun kv => uniqueKeys kv.2) ms ->
  uniqueKeys (JSONObject (foldl (fun o kv => setValue kv.1 kv.2 o) acc ms)).
Proof.
  intros Hd Ha Hm. revert acc Hd Ha. induction Hm as [|kv ms Hkv Hm IH]; intros acc Hd Ha; simpl.
  - by constructor.
  - apply IH; [by apply setValue_NoDup|by apply setValue_Forall].
Qed.

Lemma sepBy_Forall {A} (R : ustring -> A -> Prop) (Q : A -> Prop) b l :
  (forall t a, R t a -> Q a) -> sepBy R b l -> Forall Q l.
Proof. intros HR. induction 1; constructor; eauto. Qed.

Lemma jsonText_unique n t v : jsonText n t v -> uniqueKeys v.
Proof.
  revert t v. induction n as [|n IH]; [done|]. intros t v (ws & b & _ & _ & Hv).
  destruct Hv as [| | | | | |b ws' l Hb _| |b ws' ms Hb _]; try (by repeat constructor).
  - constructor. by eapply sepBy_Forall.
  - apply ofMembers_unique; [constructor|constructor|]. eapply sepBy_Forall; [|done].
    by intros t' kv [? ? ? ? ? v' _ _ _ Hv']; eapply IH.
Qed.

Lemma parseJSON_text s v : parseJSON s = Some v <-> jsonText (S stackLimit) s v.
Proof.
  unfold parseJSON, parseJSONResult, parseJSONInternal. split.
  - destruct s as [|c s]; [done|].
    destruct (buildValue (S stackLimit) (c :: s)) as [w [|]| |] eqn:E; try done.
    intros [= ->]. apply buildValue_sound in E as (t & E & Ht). rewrite app_nil_r in E. by subst.
  - intros Ht. pose proof (buildValue_complete _ _ _ [] Ht I) as E. rewrite app_nil_r in E.
    destruct s as [|c s]; [|by rewrite E].
    by destruct (jsonText_start _ _ _ Ht) as ([|??] & ? & ? & ? & _).
Qed.

(** ** The properties *)



(** Every string token of the tokenizer is decoded: [decodeString] never
    fails on it and never reads outside it. *)
Theorem decodeString_token start tokenStart tokenEnd :
  parseToken start = (StringLiteral, tokenStart, tokenEnd) ->
  is_Some (decodeString (stringContents tokenStart tokenEnd)).
Proof. apply decode_token. Qed.



(** Serialized JSON is printable ASCII without angle brackets, whatever the
    value holds: it can be put in an HTML or script context. *)
Theorem toJSONString_printable v : Forall printable (toJSONString v).
Proof. apply writeJSON_printable. Qed.

(** The objects of a parsed value have distinct keys, duplicates in the text
    notwithstanding. *)
Theorem parseJSON_unique s v : parseJSON s = Some v -> uniqueKeys v.
Proof. intros H%parseJSON_text. by eapply jsonText_unique. Qed.

End RoundTrip.

(** ** Witnesses and examples *)

#[local] Existing Instance IntegerPlatform.platform.

Definition sample : JSONValue :=
  JSONObject [(u "id", JSONInt 42); (u "method", JSONString (u "Debugger.enable"));
              (u "params", JSONArray [JSONNull; JSONBoolean true; JSONObject []; JSONString [34; 92; 8232; 60]])].

(** Proves [serializable] of a concrete value. *)
Lemma is_ustring_decide s : bool_decide (Forall (fun c => 0 <= c < 65536) s) = true -> is_ustring s.
Proof. intros H. by apply bool_decide_eq_true in H. Qed.

Ltac serializable_members :=
  cbn [serializable JSONInt];
  repeat match goal with
  | |- _ /\ _ => split
  | |- True => exact I
  | |- NoDup _ => apply (bool_decide_unpack _); vm_compute; exact I
  | |- Forall _ (_ :: _) => apply List.Forall_cons
  | |- Forall _ [] => apply List.Forall_nil
  | |- is_ustring _ => apply is_ustring_decide; vm_compute; reflexivity
  | |- _ = _ => vm_compute; reflexivity
  | _ => progress cbn [fst snd serializable JSONInt]
  end.

Lemma sample_serializable n : serializable (S (S (S n))) sample.
Proof. unfold sample. serializable_members. Defined.



Lemma decodeString_token_witness :
  is_Some (decodeString (stringContents ([dquote] ++ u "a
" ++ [dquote]) [])).
Proof.
  apply (decodeString_token ([dquote] ++ u "a
" ++ [dquote]) ([dquote] ++ u "a
" ++ [dquote]) []).
  reflexivity.
Defined.

Lemma parseJSON_unique_witness :
  uniqueKeys (JSONObject [(u "a", JSONInt 2)]).
Proof.
  apply (parseJSON_unique (u "{" ++ [dquote] ++ u "a" ++ [dquote] ++ u ":1," ++ [dquote] ++ u "a" ++ [dquote] ++ u ":2}")).
  vm_compute. reflexivity.
Defined.
