(* ===== verification/JSONWriting.v ===== *)
(** * Writing JSON with a string builder

    [writeJSON] of [platform/JSONValues.cpp] as it is written, with its calls of the
    builder; [JSONValues] has the texts only.  The string that it makes is the text, with
    8-bit characters. *)

From S2P Require Import Prelude Platform WTFString UTF8 StringBuilders StringBuilderFacts StringBuilderOps StringBuilderTheorems DecimalNumber DecimalFacts JSONValues NumberText JSONRoundTrip.

Module JSONWriter.

(** A [String] that is only appended: the result of [String::format] and of
    [Decimal::toString]. *)
Definition appendTemporary (characters : ustring) : Building unit :=
  i ← gets (fun w => length (held w));
  StringBuilder.newString true characters;;
  string ← gets (fun w => mjoin (held w !! i));
  StringBuilder.appendString string;;
  StringBuilder.dropString i.

Definition escapeChar (c : Z) : Building bool :=
  match JSONValues.escapeChar c with
  | Some literal => StringBuilder.append8 literal;; mret true
  | None => mret false
  end.

Definition writeChar (c : Z) : Building unit :=
  escaped ← escapeChar c;
  if escaped : bool then mret tt
  else if (c <? 32) || (126 <? c) || (c =? ch "<") || (c =? ch ">") then appendTemporary (unicodeEscape c)
  else StringBuilder.appendUChar c.

Definition doubleQuoteString (s : ustring) : Building unit :=
  StringBuilder.appendLChar dquote;;
  forEach writeChar s;;
  StringBuilder.appendLChar dquote.

Section Writing.
Context {P : Platform}.

Definition writeNumber (d : double) : Building unit :=
  if Double.isfinite d then appendTemporary (toString (fromDouble d)) else StringBuilder.append8 (u "null").

Fixpoint writeJSON (v : JSONValue) : Building unit :=
  match v with
  | JSONNull => StringBuilder.append8 (u "null")
  | JSONBoolean b => if b then StringBuilder.append8 (u "true") else StringBuilder.append8 (u "false")
  | JSONNumber d => writeNumber d
  | JSONString s => doubleQuoteString s
  | JSONObject o =>
      StringBuilder.appendLChar (ch "{");;
      (fix loop (first : bool) (o : jobject) : Building unit :=
         match o with
         | [] => mret tt
         | (key, value) :: o' =>
             when (negb first) (StringBuilder.appendLChar (ch ","));;
             doubleQuoteString key;;
             StringBuilder.appendLChar (ch ":");;
             writeJSON value;;
             loop false o'
         end) true o;;
      StringBuilder.appendLChar (ch "}")
  | JSONArray l =>
      StringBuilder.appendLChar (ch "[");;
      (fix loop (first : bool) (l : list JSONValue) : Building unit :=
         match l with
         | [] => mret tt
         | value :: l' =>
             when (negb first) (StringBuilder.appendLChar (ch ","));;
             writeJSON value;;
             loop false l'
         end) true l;;
      StringBuilder.appendLChar (ch "]")
  end.

(** The builder is a new one, which is what [clear] leaves. *)
Definition toJSONString (v : JSONValue) : Building unit :=
  StringBuilder.clear;;
  StringBuilder.reserveCapacity 512;;
  writeJSON v;;
  StringBuilder.toString.

End Writing.
End JSONWriter.

(** ** Writing a text *)

(** [m] appends [t] and keeps the characters at 8 bits; the strings that came meanwhile are
    gone again. *)
Definition writes (m : Building unit) (t : ustring) : Prop := forall w text texts,
  builderOk w text texts -> m_is8Bit (builder w) = true -> Z.of_nat (length text + length t) <= maxText ->
  wp m (fun _ w' => m_is8Bit (builder w') = true /\ exists k, builderOk w' (text ++ t) (texts ++ replicate k None)) w.

Lemma writes_becomes m t :
  (forall w text texts, builderOk w text texts -> m_is8Bit (builder w) = true -> Z.of_nat (length text + length t) <= maxText ->
     wp m (fun _ w' => becomes w (text ++ t) texts w') w) -> writes m t.
Proof.
  intros Hm w text texts Hok Hi Hmax. eapply wp_mono; [by apply (Hm w text texts)|]. intros _ w' [Hok' Hi']. split; [congruence|].
  exists 0%nat. by rewrite app_nil_r.
Qed.

Lemma writes_append8 t : latin1 t -> writes (StringBuilder.append8 t) t.
Proof. intros Ht. apply writes_becomes. intros w text texts Hok _ Hmax. by apply append8_ok. Qed.

Lemma writes_appendLChar c : 0 <= c < 256 -> writes (StringBuilder.appendLChar c) [c].
Proof. intros Hc. apply writes_becomes. intros w text texts Hok _ Hmax. by apply appendLChar_ok. Qed.

Lemma writes_appendUChar c : 0 <= c < 256 -> writes (StringBuilder.appendUChar c) [c].
Proof.
  intros Hc w text texts Hok Hi Hmax. eapply wp_mono; [apply appendUChar_ok; [done|unfold is_unit; lia|done]|]. intros _ w' [Hok' Hi'].
  split; [rewrite Hi'; [done|lia]|]. exists 0%nat. by rewrite app_nil_r.
Qed.

Lemma writes_none : writes (mret tt) [].
Proof. intros w text texts Hok Hi _. split; [done|]. exists 0%nat. by rewrite !app_nil_r. Qed.

Lemma writes_seq m k t t' : writes m t -> writes k t' -> writes (m;; k) (t ++ t').
Proof.
  intros Hm Hk w text texts Hok Hi Hmax. rewrite length_app in Hmax. apply wp_bind. eapply wp_mono; [apply (Hm w text texts); [done..|lia]|].
  intros _ w1 [Hi1 [k1 Hok1]]. eapply wp_mono; [apply (Hk w1 _ _ Hok1 Hi1); rewrite length_app; lia|]. intros _ w2 [Hi2 [k2 Hok2]]. split; [done|].
  exists (k1 + k2)%nat. by rewrite replicate_add, !app_assoc in *.
Qed.

Lemma writes_forEach {A} (f : A -> Building unit) (g : A -> ustring) l : (forall a, a ∈ l -> writes (f a) (g a)) -> writes (forEach f l) (flat_map g l).
Proof.
  induction l as [|a l IH]; intros Hf; [apply writes_none|]. apply writes_seq; [apply Hf, list_elem_of_here|].
  apply IH. intros b Hb. by apply Hf, list_elem_of_further.
Qed.

Lemma writes_temporary t : latin1 t -> writes (JSONWriter.appendTemporary t) t.
Proof.
  intros Ht w text texts Hok Hi Hmax. unfold JSONWriter.appendTemporary. apply wp_bind, wp_gets, wp_bind.
  eapply wp_mono; [apply (newString_ok w text texts true t); [done..|unfold maxText in *; lia]|].
  intros _ w1 [[Hok1 Hi1] Hs1]. destruct (Hs1 eq_refl) as (a & Hh1 & Ha). apply wp_bind, wp_gets. rewrite Hh1, list_lookup_middle by done.
  cbn [mjoin option_join]. apply wp_bind. eapply wp_mono; [apply (appendString_ok w1 text _ a true t Hok1 Ha); [rewrite Hh1; set_solver|done]|].
  intros _ w2 [Hok2 Hi2]. eapply wp_mono; [by eapply dropString_ok|]. intros _ w3 [Hok3 Hi3]. split; [rewrite Hi3; apply Hi2; congruence|].
  exists 1%nat. pose proof (memory_held _ _ (ok_memory _ _ _ Hok)) as Hh. apply Forall2_length in Hh. rewrite Hh in Hok3.
  by rewrite insert_app_r_alt, Nat.sub_diag in Hok3 by lia.
Qed.

(** ** The writer *)

Lemma printable_latin1 t : Forall printable t -> latin1 t.
Proof. intros Ht. apply (Forall_impl _ _ _ Ht). unfold printable. lia. Qed.

Lemma writes_char c : writes (JSONWriter.writeChar c) (writeChar c).
Proof.
  pose proof (writeChar_printable c) as Hp%printable_latin1. unfold writeChar, JSONWriter.writeChar, JSONWriter.escapeChar in *.
  destruct (escapeChar c) as [e|].
  - intros w text texts Hok Hi Hmax. apply wp_bind, wp_bind. eapply wp_mono; [by apply (writes_append8 e Hp w text texts)|]. done.
  - intros w text texts Hok Hi. revert Hp. destruct (_ || (c =? _)); intros Hp Hmax; apply wp_bind, wp_ret; [by apply (writes_temporary _ Hp)|].
    apply writes_appendUChar; try done. exact (proj1 (Forall_singleton _ _) Hp).
Qed.

Lemma writes_quoted s : writes (JSONWriter.doubleQuoteString s) (doubleQuoteString s).
Proof.
  apply writes_seq; [by apply writes_appendLChar|]. apply writes_seq; [|by apply writes_appendLChar].
  apply writes_forEach. intros c _. apply writes_char.
Qed.

Lemma writes_comma first : writes (when (negb first) (StringBuilder.appendLChar (ch ","))) (if first then [] else u ",").
Proof. destruct first; [apply writes_none|by apply writes_appendLChar]. Qed.

Section Writing.
Context {P : Platform}.

Lemma toString_nonempty d : wf d -> toString d <> [].
Proof.
  intros Hd. destruct (isFinite d) eqn:Ef.
  - intros E. pose proof (toString_number d Ef Hd) as Ht. by rewrite E in Ht.
  - unfold isFinite, isSpecial in Ef. unfold toString. destruct (m_formatClass d); try done; by destruct (m_sign d).
Qed.

Lemma writeJSON_nonempty v : writeJSON v <> [].
Proof.
  destruct v as [|[]|d|s|o|l]; cbn; try done. unfold writeNumber. destruct (Double.isfinite d); [|done]. apply toString_nonempty, fromDouble_wf.
Qed.

Lemma writes_json v : writes (JSONWriter.writeJSON v) (writeJSON v).
Proof.
  induction v as [|b|d|s|o IH|l IH] using JSONValue_rec'; cbn [JSONWriter.writeJSON writeJSON].
  - by apply writes_append8; repeat constructor.
  - destruct b; by apply writes_append8; repeat constructor.
  - unfold JSONWriter.writeNumber, writeNumber. destruct (Double.isfinite d); [|by apply writes_append8; repeat constructor].
    apply writes_temporary, printable_latin1, toString_printable, fromDouble_wf.
  - apply writes_quoted.
  - apply writes_seq; [by apply writes_appendLChar|]. apply writes_seq; [|by apply writes_appendLChar]. set (comma := u ","). set (colon := u ":").
    generalize true as first. induction IH as [|[key value] o Hv _ IH]; intros first; [apply writes_none|]. cbn [map separated]. rewrite <- !app_assoc.
    repeat (apply writes_seq; [first [apply writes_comma|apply writes_quoted|by apply writes_appendLChar|exact Hv]|]). apply IH.
  - apply writes_seq; [by apply writes_appendLChar|]. apply writes_seq; [|by apply writes_appendLChar]. set (comma := u ",").
    generalize true as first. induction IH as [|value l Hv _ IH]; intros first; [apply writes_none|]. cbn [map separated].
    repeat (apply writes_seq; [first [apply writes_comma|exact Hv]|]). apply IH.
Qed.

(** C22 The calls that [toJSONString] makes on its string builder never go wrong, and give a
    string of 8-bit characters with the text of the value; other strings stay as they
    were. *)
Theorem toJSONString_built v w text texts :
  builderOk w text texts -> Z.of_nat (length (toJSONString v)) <= maxText ->
  exists w' i a, JSONWriter.toJSONString v w = Done (tt, w') /\
    held w' !! i = Some (Some a) /\ cells w' !! a = Some (mkCell true (map Some (toJSONString v))) /\
    forall j t, texts !! j = Some (Some t) -> exists b is8, held w' !! j = Some (Some b) /\ cells w' !! b = Some (mkCell is8 (map Some t)).
Proof.
  intros Hok Hmax. assert (wp (JSONWriter.toJSONString v) (fun _ w' => exists i a,
    held w' !! i = Some (Some a) /\ cells w' !! a = Some (mkCell true (map Some (toJSONString v))) /\
    forall j t, texts !! j = Some (Some t) -> exists b is8, held w' !! j = Some (Some b) /\ cells w' !! b = Some (mkCell is8 (map Some t))) w) as Hw.
  2:{ apply wp_done in Hw as ([] & w' & Hd & i & a & Hr). by exists w', i, a. }
  unfold JSONWriter.toJSONString. apply wp_bind. eapply wp_mono; [by eapply clear_ok|]. intros _ w1 [Hok1 Hi1]. apply wp_bind.
  eapply wp_mono; [apply (reserveCapacity_ok w1 [] texts 512 Hok1); [by right|done]|]. intros _ w2 [Hok2 Hi2]. rewrite Hi1 in Hi2. apply wp_bind.
  eapply wp_mono; [by apply (writes_json v w2 [] texts Hok2 Hi2)|]. intros _ w3 [Hi3 [k Hok3]]. cbn [app] in Hok3.
  eapply wp_mono; [by apply (toString_ok w3 _ _ Hok3)|]. intros _ w4 [[Hok4 Hi4] (a & Ha & Hs)]. eexists _, a. split; [exact Ha|]. split.
  - destruct (ok_string _ _ _ Hok4 a Hs) as (is8 & Hc & Hi). unfold toJSONString. destruct Hi as [Hi|Hi]; [by destruct (writeJSON_nonempty v)|].
    by rewrite Hi, Hi4, Hi3 in Hc.
  - intros j t Ht. assert (((texts ++ replicate k None) ++ [Some (writeJSON v)]) !! j = Some (Some t)) as Hj.
    { rewrite <- app_assoc, lookup_app_l; [done|by eapply lookup_lt_Some]. }
    destruct (Forall2_lookup_r _ _ _ _ _ (memory_held _ _ (ok_memory _ _ _ Hok4)) Hj) as ([b|] & Hb & Hbt); [|done].
    destruct Hbt as (is8 & Hc & _). by exists b, is8.
Qed.
End Writing.

#[local] Existing Instance IntegerPlatform.platform.

Lemma toJSONString_built_witness : exists w' i a, JSONWriter.toJSONString sample StringBuilder.new = Done (tt, w') /\
  held w' !! i = Some (Some a) /\ cells w' !! a = Some (mkCell true (map Some (toJSONString sample))).
Proof.
  destruct (toJSONString_built sample StringBuilder.new [] [] new_ok) as (w' & i & a & Hd & Hh & Hc & _).
  - vm_compute. discriminate.
  - exists w', i, a. exact (conj Hd (conj Hh Hc)).
Defined.
