(* ===== verification/InspectorState.v ===== *)
(** * The agents' persistent state ([core/inspector/InspectorState.cpp])

    Each agent keeps its state in a JSON object of its own, an
    [InspectorState]; the objects are also the members of the one
    [m_stateObject] of the [InspectorCompositeState], which is serialized as the
    cookie whenever one of them changes.  The objects are shared by reference:
    the model keeps them in a store, and a member of [m_stateObject] can be a
    reference to it. *)

From S2P Require Import Prelude Platform WTFString DecimalNumber JSONValues JSONParser.

(** ** The getters over a property object *)

Module Properties.

Definition getBoolean (name : ustring) (p : jobject) : bool :=
  default false (get name p ≫= asBoolean).

Definition getString (name : ustring) (p : jobject) : ustring :=
  default [] (get name p ≫= asString).

Definition getLongDefault `{Platform} (name : ustring) (defaultValue : Z) (p : jobject) : Z :=
  default defaultValue (get name p ≫= asLong).

Definition getLong `{Platform} (name : ustring) (p : jobject) : Z := getLongDefault name 0 p.

Definition getDoubleDefault (name : ustring) (defaultValue : double) (p : jobject) : double :=
  default defaultValue (get name p ≫= asDouble).

Definition getDouble (name : ustring) (p : jobject) : double := getDoubleDefault name (S754_zero false) p.

(** A missing member is created first; a member of another type is a null
    pointer. *)
Definition getObject (name : ustring) (p : jobject) : option jobject * jobject :=
  let p := match get name p with None => setObject name [] p | Some _ => p end in
  (get name p ≫= asObject, p).

Definition setBoolean (name : ustring) (b : bool) (p : jobject) : jobject := setValue name (JSONBoolean b) p.
Definition setString (name : ustring) (s : ustring) (p : jobject) : jobject := setValue name (JSONString s) p.
Definition setLong (name : ustring) (z : Z) (p : jobject) : jobject := setValue name (JSONNumber (Double.of_Z z)) p.
Definition setDouble (name : ustring) (d : double) (p : jobject) : jobject := setValue name (JSONNumber d) p.
Definition setObject (name : ustring) (o : jobject) (p : jobject) : jobject := setValue name (JSONObject o) p.

End Properties.

(** ** The composite state *)

(** A member of [m_stateObject]: a value of its own, or one of the shared
    property objects. *)
Inductive slot := Plain (v : JSONValue) | Shared (address : nat).

Abbreviation slots := (list (ustring * slot)).

Fixpoint getSlot (name : ustring) (o : slots) : option slot :=
  match o with
  | [] => None
  | (k, s) :: o' => if decide (k = name) then Some s else getSlot name o'
  end.

Fixpoint setSlot (name : ustring) (s : slot) (o : slots) : slots :=
  match o with
  | [] => [(name, s)]
  | (k, s') :: o' => if decide (k = name) then (k, s) :: o' else (k, s') :: setSlot name s o'
  end.

Record InspectorCompositeState := mkComposite {
  m_client : bool;
  m_stateObject : slots;
  m_isMuted : bool;
  (** the agents' states: the [m_properties] pointer of each *)
  m_inspectorStateMap : list (ustring * nat);
  (** the property objects, and the next free address *)
  objects : gmap nat jobject;
  nextObject : nat;
  (** the cookies the client was given, the newest first *)
  cookies : list ustring;
}.

Definition create (client : bool) : InspectorCompositeState :=
  mkComposite client [] false [] ∅ 0 [].

(** The JSON object that [m_stateObject] is. *)
Definition slotValue (h : gmap nat jobject) (s : slot) : JSONValue :=
  match s with
  | Plain v => v
  | Shared a => JSONObject (default [] (h !! a))
  end.

Definition stateObject (c : InspectorCompositeState) : jobject :=
  map (fun ks => (ks.1, slotValue (objects c) ks.2)) (m_stateObject c).

Section WithPlatform.
Context {P : Platform}.

Definition inspectorStateUpdated (c : InspectorCompositeState) : InspectorCompositeState :=
  if m_client c && negb (m_isMuted c)
  then mkComposite (m_client c) (m_stateObject c) (m_isMuted c) (m_inspectorStateMap c)
         (objects c) (nextObject c) (toJSONString (JSONObject (stateObject c)) :: cookies c)
  else c.

Definition withObjects (h : gmap nat jobject) (c : InspectorCompositeState) : InspectorCompositeState :=
  mkComposite (m_client c) (m_stateObject c) (m_isMuted c) (m_inspectorStateMap c) h (nextObject c) (cookies c).

Definition withMuted (b : bool) (c : InspectorCompositeState) : InspectorCompositeState :=
  mkComposite (m_client c) (m_stateObject c) b (m_inspectorStateMap c) (objects c) (nextObject c) (cookies c).

Definition mute := withMuted true.
Definition unmute := withMuted false.

(** The properties of the agent state at [a]. *)
Definition properties (a : nat) (c : InspectorCompositeState) : jobject := default [] (objects c !! a).

(** [InspectorState::setValue] and [remove] of that agent state. *)
Definition setProperty (a : nat) (name : ustring) (v : JSONValue) (c : InspectorCompositeState)
    : InspectorCompositeState :=
  inspectorStateUpdated (withObjects (<[a := setValue name v (properties a c)]> (objects c)) c).

Definition removeProperty (a : nat) (name : ustring) (c : InspectorCompositeState) : InspectorCompositeState :=
  inspectorStateUpdated (withObjects (<[a := remove name (properties a c)]> (objects c)) c).

(** [InspectorState::getObject] changes the properties without an update. *)
Definition getObjectProperty (a : nat) (name : ustring) (c : InspectorCompositeState)
    : option jobject * InspectorCompositeState :=
  let '(o, p) := Properties.getObject name (properties a c) in
  (o, withObjects (<[a := p]> (objects c)) c).

(** A new property object. *)
Definition allocate (o : jobject) (c : InspectorCompositeState) : nat * InspectorCompositeState :=
  (nextObject c, mkComposite (m_client c) (m_stateObject c) (m_isMuted c) (m_inspectorStateMap c)
                   (<[nextObject c := o]> (objects c)) (S (nextObject c)) (cookies c)).

Definition withStateObject (s : slots) (c : InspectorCompositeState) : InspectorCompositeState :=
  mkComposite (m_client c) s (m_isMuted c) (m_inspectorStateMap c) (objects c) (nextObject c) (cookies c).

Definition withMap (m : list (ustring * nat)) (c : InspectorCompositeState) : InspectorCompositeState :=
  mkComposite (m_client c) (m_stateObject c) (m_isMuted c) m (objects c) (nextObject c) (cookies c).

(** [HashMap::add] keeps an entry that is there. *)
Definition addState (name : ustring) (a : nat) (m : list (ustring * nat)) : list (ustring * nat) :=
  if decide (name ∈ m.*1) then m else m ++ [(name, a)].

Definition createAgentState (agentName : ustring) (c : InspectorCompositeState)
    : nat * InspectorCompositeState :=
  let '(a, c) := allocate [] c in
  let c := withStateObject (setSlot agentName (Shared a) (m_stateObject c)) c in
  (a, withMap (addState agentName a (m_inspectorStateMap c)) c).

(** One turn of the loop of [loadFromCookie]: the object that the agent's member
    is from now on shared with the agent; without one, a new object is set. *)
Definition loadAgent (key : ustring) (c : InspectorCompositeState) : nat * InspectorCompositeState :=
  match getSlot key (m_stateObject c) with
  | Some (Shared a) => (a, c)
  | Some (Plain (JSONObject o)) =>
      let '(a, c) := allocate o c in
      (a, withStateObject (setSlot key (Shared a) (m_stateObject c)) c)
  | _ =>
      let '(a, c) := allocate [] c in
      (a, withStateObject (setSlot key (Shared a) (m_stateObject c)) c)
  end.

Fixpoint loadAgents (todo : list ustring) (c : InspectorCompositeState)
    : list (ustring * nat) * InspectorCompositeState :=
  match todo with
  | [] => ([], c)
  | key :: todo' =>
      let '(a, c) := loadAgent key c in
      let '(m, c) := loadAgents todo' c in
      ((key, a) :: m, c)
  end.

Definition loadFromCookie (cookie : ustring) (c : InspectorCompositeState) : InspectorCompositeState :=
  let c := match parseJSON cookie with
           | Some v => withStateObject (match asObject v with
                                        | Some o => map (fun kv => (kv.1, Plain kv.2)) o
                                        | None => []
                                        end) c
           | None => c
           end in
  let '(m, c) := loadAgents (m_inspectorStateMap c).*1 c in
  withMap m c.

End WithPlatform.
