(* ===== verification/InspectorStateFacts.v ===== *)
(** * Facts about the agents' persistent state

    The sharing between [m_stateObject] and the agents' property objects, and
    what the cookie preserves. *)

From S2P Require Import Prelude Platform WTFString DecimalNumber JSONValues JSONParser JSONParserFacts JSONGrammar JSONRoundTrip InspectorState.

(** ** Slots *)

Lemma getSlot_setSlot k k' s (o : slots) :
  getSlot k' (setSlot k s o) = if decide (k = k') then Some s else getSlot k' o.
Proof.
  induction o as [|[k1 s1] o IH]; simpl; [done|].
  destruct (decide (k1 = k)) as [->|]; simpl; [by destruct (decide (k = k'))|].
  rewrite IH. destruct (decide (k1 = k')), (decide (k = k')); subst; done.
Qed.

Lemma setSlot_keys k s (o : slots) :
  forall k', k' ∈ (setSlot k s o).*1 <-> k' = k \/ k' ∈ o.*1.
Proof.
  intros k'. induction o as [|[k1 s1] o IH]; cbn.
  - rewrite list_elem_of_singleton, elem_of_nil. tauto.
  - destruct (decide (k1 = k)) as [->|]; cbn; rewrite !elem_of_cons; [tauto|]. rewrite IH. tauto.
Qed.

Lemma setSlot_NoDup k s (o : slots) : NoDup o.*1 -> NoDup (setSlot k s o).*1.
Proof.
  induction o as [|[k1 s1] o IH]; cbn; [intros; apply NoDup_singleton|]. intros [Hn Hd]%NoDup_cons.
  destruct (decide (k1 = k)) as [->|]; cbn; [by constructor|]. constructor; [|auto].
  rewrite setSlot_keys. by intros [|].
Qed.

Lemma getSlot_None k (o : slots) : getSlot k o = None <-> k ∉ o.*1.
Proof.
  induction o as [|[k1 s1] o IH]; cbn; [split; [by intros _ ?%elem_of_nil|done]|].
  rewrite not_elem_of_cons. destruct (decide (k1 = k)) as [->|]; [by split; [|intros []]|]. rewrite IH.
  split; [intros; split; [congruence|done]|by intros []].
Qed.

(** The members of the state object are those of the slots. *)
Lemma get_stateObject k c :
  get k (stateObject c) = slotValue (objects c) <$> getSlot k (m_stateObject c).
Proof.
  unfold stateObject. induction (m_stateObject c) as [|[k1 s1] o IH]; cbn; [done|].
  by destruct (decide (k1 = k)).
Qed.

Lemma getSlot_plain k (o : jobject) : getSlot k (map (fun kv => (kv.1, Plain kv.2)) o) = Plain <$> get k o.
Proof. induction o as [|[k1 v1] o IH]; cbn; [done|]. by destruct (decide (k1 = k)). Qed.

(** ** The invariant *)

(** References lead into the store, distinct members to distinct objects. *)
Record storeOK (c : InspectorCompositeState) : Prop := {
  slots_distinct : NoDup (m_stateObject c).*1;
  shared_live : forall k a, getSlot k (m_stateObject c) = Some (Shared a) -> is_Some (objects c !! a);
  shared_inj : forall k k' a, getSlot k (m_stateObject c) = Some (Shared a) ->
    getSlot k' (m_stateObject c) = Some (Shared a) -> k = k';
  objects_below : forall a, is_Some (objects c !! a) -> (a < nextObject c)%nat;
}.

(** The object of each agent is its member of the state object. *)
Record coherent (c : InspectorCompositeState) : Prop := {
  coherent_store : storeOK c;
  agents_distinct : NoDup (m_inspectorStateMap c).*1;
  agents_shared : forall k a, (k, a) ∈ m_inspectorStateMap c <-> getSlot k (m_stateObject c) = Some (Shared a);
}.

(** The properties under a name: empty for what is not an object. *)
Definition memberObject (k : ustring) (c : InspectorCompositeState) : jobject :=
  default [] (get k (stateObject c) ≫= asObject).

Lemma memberObject_shared k a c :
  getSlot k (m_stateObject c) = Some (Shared a) -> memberObject k c = properties a c.
Proof. intros E. unfold memberObject. by rewrite get_stateObject, E. Qed.

Section WithPlatform.
Context {P : Platform}.

Lemma updated_fields c :
  m_stateObject (inspectorStateUpdated c) = m_stateObject c /\
  m_inspectorStateMap (inspectorStateUpdated c) = m_inspectorStateMap c /\
  objects (inspectorStateUpdated c) = objects c /\
  nextObject (inspectorStateUpdated c) = nextObject c /\
  m_client (inspectorStateUpdated c) = m_client c /\ m_isMuted (inspectorStateUpdated c) = m_isMuted c.
Proof. unfold inspectorStateUpdated. by destruct (_ && _). Qed.

Lemma storeOK_same c c' :
  storeOK c -> m_stateObject c' = m_stateObject c -> nextObject c' = nextObject c ->
  (forall a, is_Some (objects c' !! a) <-> is_Some (objects c !! a)) -> storeOK c'.
Proof.
  intros [H1 H2 H3 H4] Es En Eo. split; rewrite ?Es, ?En; try done.
  - intros k a H. apply Eo. by eapply H2.
  - intros a H. apply H4. by apply Eo.
Qed.

Lemma coherent_same c c' :
  coherent c -> m_stateObject c' = m_stateObject c -> nextObject c' = nextObject c ->
  m_inspectorStateMap c' = m_inspectorStateMap c ->
  (forall a, is_Some (objects c' !! a) <-> is_Some (objects c !! a)) -> coherent c'.
Proof.
  intros [H1 H2 H3] Es En Em Eo. split; rewrite ?Es, ?Em; try done. by eapply storeOK_same.
Qed.

Lemma coherent_updated c : coherent c -> coherent (inspectorStateUpdated c).
Proof.
  intros H. destruct (updated_fields c) as (E1 & E2 & E3 & E4 & _).
  eapply coherent_same; [exact H|done..|]. by rewrite E3.
Qed.

Lemma coherent_insert a o c :
  coherent c -> is_Some (objects c !! a) -> coherent (withObjects (<[a := o]> (objects c)) c).
Proof.
  intros H Ha. eapply coherent_same; [exact H|done..|]. cbn. intros b.
  destruct (decide (a = b)) as [<-|]; [rewrite lookup_insert_eq; by split|by rewrite lookup_insert_ne].
Qed.

Lemma agent_live k a c : coherent c -> (k, a) ∈ m_inspectorStateMap c -> is_Some (objects c !! a).
Proof. intros H Ha. apply (shared_live c (coherent_store c H) k). by apply H. Qed.

(** Allocating a new object and sharing it under a name. *)
Lemma share_storeOK k o c :
  storeOK c ->
  storeOK (withStateObject (setSlot k (Shared (nextObject c)) (m_stateObject c)) (allocate o c).2).
Proof.
  intros [H1 H2 H3 H4].
  assert (forall k', getSlot k' (m_stateObject c) <> Some (Shared (nextObject c))) as Hfresh.
  { intros k' H. apply H2, H4 in H. lia. }
  split; cbn; [by apply setSlot_NoDup| | |].
  - intros k' a. rewrite getSlot_setSlot. destruct (decide (k = k')).
    + intros [= <-]. by rewrite lookup_insert_eq.
    + intros H. apply H2 in H. apply lookup_insert_is_Some'. by right.
  - intros k1 k2 a. rewrite !getSlot_setSlot. destruct (decide (k = k1)) as [<-|], (decide (k = k2)) as [<-|]; try done.
    + intros [= <-] H. by apply Hfresh in H.
    + intros H [= <-]. by apply Hfresh in H.
    + apply H3.
  - intros a [->|H]%lookup_insert_is_Some'; [lia|]. apply H4 in H. lia.
Qed.

Lemma createAgentState_coherent k c :
  coherent c -> getSlot k (m_stateObject c) = None -> coherent (createAgentState k c).2.
Proof.
  intros [HS Hd Hs] Hk. assert (k ∉ (m_inspectorStateMap c).*1) as Hn.
  { intros ([k' a] & -> & Ha)%list_elem_of_fmap. cbn in Hk. by apply Hs in Ha; rewrite Ha in Hk. }
  unfold createAgentState, allocate. cbn. unfold addState. rewrite decide_False by done. split; cbn.
  - apply (storeOK_same (withStateObject (setSlot k (Shared (nextObject c)) (m_stateObject c)) (allocate [] c).2));
      [by apply share_storeOK|done..].
  - rewrite fmap_app. cbn. apply NoDup_app. split_and!; [done| |apply NoDup_singleton].
    by intros x Hx ->%list_elem_of_singleton.
  - intros k' a. rewrite elem_of_app, list_elem_of_singleton, Hs, getSlot_setSlot.
    destruct (decide (k = k')) as [<-|Hne].
    + rewrite Hk. split; [by intros [|[= <-]]|intros [= <-]; by right].
    + split; [by intros [|[= <- _]]|by left].
Qed.

(** ** Loading a cookie *)

(** What a step of loading keeps: names other than [key], live objects, and the
    fields that are not involved. *)
Record loads (key : ustring) (a : nat) (c c' : InspectorCompositeState) : Prop := {
  loads_store : storeOK c';
  loads_slot : getSlot key (m_stateObject c') = Some (Shared a);
  loads_member : properties a c' = memberObject key c;
  loads_other : forall k, k <> key -> getSlot k (m_stateObject c') = getSlot k (m_stateObject c);
  loads_objects : forall b, is_Some (objects c !! b) -> objects c' !! b = objects c !! b;
  loads_map : m_inspectorStateMap c' = m_inspectorStateMap c;
}.

Lemma loadAgent_loads key c : storeOK c -> loads key (loadAgent key c).1 c (loadAgent key c).2.
Proof.
  intros HS.
  assert (forall o, memberObject key c = o ->
    loads key (nextObject c) c (withStateObject (setSlot key (Shared (nextObject c)) (m_stateObject c)) (allocate o c).2)) as Hnew.
  { intros o Ho. split; cbn.
    - by apply share_storeOK.
    - by rewrite getSlot_setSlot, decide_True.
    - unfold properties. cbn. by rewrite lookup_insert_eq, Ho.
    - intros k Hk. by rewrite getSlot_setSlot, decide_False.
    - intros b Hb. apply (objects_below c HS) in Hb. by rewrite lookup_insert_ne by lia.
    - done. }
  unfold loadAgent. pose proof (get_stateObject key c) as E.
  destruct (getSlot key (m_stateObject c)) as [[v|a]|] eqn:Es; cbn in E.
  - destruct v; cbn; apply Hnew; unfold memberObject; by rewrite E.
  - cbn. split; try done. symmetry. by apply memberObject_shared.
  - cbn. apply Hnew. unfold memberObject. by rewrite E.
Qed.

Lemma loads_memberObject key a c c' k : loads key a c c' -> storeOK c -> memberObject k c' = memberObject k c.
Proof.
  intros [Hs Hslot Hm Ho Hb _] HS. destruct (decide (k = key)) as [->|Hne].
  - by rewrite (memberObject_shared key a c') by done.
  - unfold memberObject. rewrite !get_stateObject, Ho by done.
    destruct (getSlot k (m_stateObject c)) as [[v|b]|] eqn:E; [done| |done]. cbn.
    rewrite Hb; [done|]. by apply (shared_live c HS k).
Qed.

(** All agents: each key gets its member, and nothing else becomes shared. *)
Lemma loadAgents_spec todo c :
  storeOK c ->
  let '(m, c') := loadAgents todo c in
  storeOK c' /\ m.*1 = todo /\
  (forall k a, (k, a) ∈ m -> getSlot k (m_stateObject c') = Some (Shared a)) /\
  (forall k a, getSlot k (m_stateObject c') = Some (Shared a) ->
     k ∈ todo \/ getSlot k (m_stateObject c) = Some (Shared a)) /\
  (forall k, memberObject k c' = memberObject k c) /\
  (forall k a, getSlot k (m_stateObject c) = Some (Shared a) -> getSlot k (m_stateObject c') = Some (Shared a)) /\
  m_inspectorStateMap c' = m_inspectorStateMap c.
Proof.
  revert c. induction todo as [|key todo IH]; intros c HS; cbn [loadAgents].
  { split_and!; try done. - by intros k a ?%elem_of_nil. - by right. }
  pose proof (loadAgent_loads key c HS) as HL.
  assert (forall k a, getSlot k (m_stateObject c) = Some (Shared a) ->
            getSlot k (m_stateObject (loadAgent key c).2) = Some (Shared a)) as Hkeep.
  { intros k a E. destruct (decide (k = key)) as [->|]; [|by rewrite (loads_other _ _ _ _ HL)].
    unfold loadAgent. rewrite E. done. }
  destruct (loadAgent key c) as [a1 c1]. cbn in HL, Hkeep.
  specialize (IH c1 (loads_store _ _ _ _ HL)). destruct (loadAgents todo c1) as [m c'].
  destruct IH as (H1 & H2 & H3 & H4 & H5 & H6 & H7). split_and!; [done| | | | | |].
  - cbn. by rewrite H2.
  - intros k a [[= -> ->]|H]%elem_of_cons; [|by apply H3]. apply H6, HL.
  - intros k a [H|H]%H4; [left; by apply elem_of_cons; right|].
    destruct (decide (k = key)) as [->|]; [left; apply list_elem_of_here|].
    right. by rewrite <- (loads_other _ _ _ _ HL).
  - intros k. rewrite H5. by eapply loads_memberObject.
  - auto.
  - by rewrite H7, (loads_map _ _ _ _ HL).
Qed.

Lemma parseJSON_object_distinct s o : parseJSON s = Some (JSONObject o) -> NoDup o.*1.
Proof. intros H%parseJSON_text%jsonText_unique. by inversion H. Qed.

(** The slots [loadFromCookie] starts its loop with. *)
Definition cookieSlots (cookie : ustring) (c : InspectorCompositeState) : slots :=
  match parseJSON cookie with
  | Some v => match asObject v with Some o => map (fun kv => (kv.1, Plain kv.2)) o | None => [] end
  | None => m_stateObject c
  end.

Lemma cookieSlots_storeOK cookie c : storeOK c -> storeOK (withStateObject (cookieSlots cookie c) c).
Proof.
  intros [H1 H2 H3 H4]. unfold cookieSlots. destruct (parseJSON cookie) as [v|] eqn:E; [|by split].
  assert (forall k a, getSlot k (match asObject v with Some o => map (fun kv => (kv.1, Plain kv.2)) o | None => [] end)
            <> Some (Shared a)) as Hp.
  { intros k a. destruct (asObject v) as [o|]; [|done]. rewrite getSlot_plain. by destruct (get k o). }
  split; cbn; [|by intros k a ?%Hp|by intros k k' a ?%Hp|done].
  destruct v; cbn; try constructor. apply parseJSON_object_distinct in E.
  rewrite map_map. cbn. exact E.
Qed.

Lemma loadFromCookie_eq cookie c :
  loadFromCookie cookie c =
    let '(m, c') := loadAgents (m_inspectorStateMap c).*1 (withStateObject (cookieSlots cookie c) c) in
    withMap m c'.
Proof. unfold loadFromCookie, cookieSlots. destruct c. by destruct (parseJSON cookie). Qed.

Lemma loadFromCookie_spec cookie c :
  coherent c ->
  coherent (loadFromCookie cookie c) /\
  (m_inspectorStateMap (loadFromCookie cookie c)).*1 = (m_inspectorStateMap c).*1 /\
  forall k, memberObject k (loadFromCookie cookie c) = memberObject k (withStateObject (cookieSlots cookie c) c).
Proof.
  intros [HS Hd Hs]. rewrite loadFromCookie_eq.
  pose proof (loadAgents_spec (m_inspectorStateMap c).*1 _ (cookieSlots_storeOK cookie c HS)) as H.
  destruct (loadAgents _ _) as [m c']. destruct H as (H1 & H2 & H3 & H4 & H5 & _ & _).
  assert (forall k a, getSlot k (cookieSlots cookie c) = Some (Shared a) -> k ∈ (m_inspectorStateMap c).*1) as Hsh.
  { intros k a. unfold cookieSlots. destruct (parseJSON cookie) as [v|].
    - destruct (asObject v) as [o|]; [rewrite getSlot_plain; by destruct (get k o)|done].
    - intros H%Hs. apply list_elem_of_fmap. by exists (k, a). }
  split; [|by split]. split; cbn.
  - by eapply storeOK_same.
  - by rewrite H2.
  - intros k a. split; [apply H3|]. intros H.
    assert (k ∈ m.*1) as ([k' b] & -> & Hb)%list_elem_of_fmap
      by (rewrite H2; destruct (H4 _ _ H) as [|Hin]; [done|by eapply Hsh]).
    pose proof (H3 _ _ Hb) as E. cbn in H. rewrite H in E. by injection E as ->.
Qed.

(** ** What can happen to a composite state *)

Inductive step (c : InspectorCompositeState) : InspectorCompositeState -> Prop :=
  | step_create k : getSlot k (m_stateObject c) = None -> step c (createAgentState k c).2
  | step_set k a name v : (k, a) ∈ m_inspectorStateMap c -> step c (setProperty a name v c)
  | step_remove k a name : (k, a) ∈ m_inspectorStateMap c -> step c (removeProperty a name c)
  | step_getObject k a name : (k, a) ∈ m_inspectorStateMap c -> step c (getObjectProperty a name c).2
  | step_mute : step c (mute c)
  | step_unmute : step c (unmute c)
  | step_load cookie : step c (loadFromCookie cookie c).

Inductive reachable : InspectorCompositeState -> Prop :=
  | reachable_create client : reachable (create client)
  | reachable_step c c' : reachable c -> step c c' -> reachable c'.

Lemma coherent_create client : coherent (create client).
Proof.
  split; [split|..]; cbn; try (by constructor); try done.
  - intros a H. rewrite lookup_empty in H. by destruct H.
  - intros k a. split; [by intros ?%elem_of_nil|done].
Qed.

Lemma step_coherent c c' : coherent c -> step c c' -> coherent c'.
Proof.
  intros H [k Hk|k a name v Ha|k a name Ha|k a name Ha| | |cookie].
  - by apply createAgentState_coherent.
  - apply coherent_updated, coherent_insert; [done|by eapply agent_live].
  - apply coherent_updated, coherent_insert; [done|by eapply agent_live].
  - unfold getObjectProperty. destruct (Properties.getObject _ _) as [o p].
    apply coherent_insert; [done|by eapply agent_live].
  - by eapply coherent_same.
  - by eapply coherent_same.
  - by apply loadFromCookie_spec.
Qed.

Lemma reachable_coherent c : reachable c -> coherent c.
Proof. induction 1; [apply coherent_create|by eapply step_coherent]. Qed.

(** Writing one agent's object changes that agent's member only. *)
Lemma memberObject_insert k a o c k' :
  coherent c -> (k, a) ∈ m_inspectorStateMap c ->
  get k' (stateObject (withObjects (<[a := o]> (objects c)) c)) =
    if decide (k = k') then Some (JSONObject o) else get k' (stateObject c).
Proof.
  intros H Ha. apply (agents_shared c H) in Ha. rewrite !get_stateObject. cbn.
  destruct (decide (k = k')) as [<-|Hne]; [by rewrite Ha; cbn; rewrite lookup_insert_eq|].
  destruct (getSlot k' (m_stateObject c)) as [[v|b]|] eqn:E; try done. cbn.
  rewrite lookup_insert_ne; [done|]. intros <-. by destruct Hne; eapply (shared_inj c (coherent_store c H)).
Qed.

Lemma loadAgents_cookies todo c : cookies (loadAgents todo c).2 = cookies c.
Proof.
  revert c. induction todo as [|key todo IH]; intros c; cbn [loadAgents]; [done|].
  assert (cookies (loadAgent key c).2 = cookies c) as E.
  { unfold loadAgent. destruct (getSlot _ _) as [[[]|]|]; done. }
  destruct (loadAgent key c) as [a c1]. specialize (IH c1). destruct (loadAgents todo c1). cbn in *. congruence.
Qed.

(** C30 In every reachable state each agent's properties are shared with its
    member of the state object: references are live, no two members share an
    object, and the agents are exactly the shared members. *)
Theorem composite_coherent c : reachable c -> coherent c.
Proof. apply reachable_coherent. Qed.

(** Setting a property of an agent gives the client a cookie whose text is the
    new state object: the agent's member has the property set, every other
    member is as it was. *)
Theorem setProperty_cookie c k a name v :
  reachable c -> (k, a) ∈ m_inspectorStateMap c -> m_client c = true -> m_isMuted c = false ->
  let c' := setProperty a name v c in
  cookies c' = toJSONString (JSONObject (stateObject c')) :: cookies c /\
  forall k', get k' (stateObject c') =
    if decide (k = k') then Some (JSONObject (setValue name v (properties a c))) else get k' (stateObject c).
Proof.
  intros H%reachable_coherent Ha Hc Hm. cbn zeta. unfold setProperty, inspectorStateUpdated.
  cbn -[toJSONString]. rewrite Hc, Hm. cbn -[toJSONString].
  split; [done|]. intros k'. by apply (memberObject_insert k a _ c k').
Qed.

(** While muted, as during a disconnect, nothing the agents do reaches the
    client: the last cookie stays the one before. *)
Theorem muted_no_cookie c c' :
  m_isMuted c = true -> step c c' -> cookies c' = cookies c.
Proof.
  intros Hm [k Hk|k a name v Ha|k a name Ha|k a name Ha| | |cookie]; try done.
  - unfold setProperty, inspectorStateUpdated. cbn. by rewrite Hm, andb_false_r.
  - unfold removeProperty, inspectorStateUpdated. cbn. by rewrite Hm, andb_false_r.
  - rewrite loadFromCookie_eq.
    pose proof (loadAgents_cookies (m_inspectorStateMap c).*1 (withStateObject (cookieSlots cookie c) c)) as Hl.
    by destruct (loadAgents _ _).
Qed.

End WithPlatform.

(** ** Witnesses *)

#[local] Existing Instance IntegerPlatform.platform.

(** The two agents of the inspector, with a property set. *)
Definition twoAgents : InspectorCompositeState :=
  (createAgentState (u "Debugger") (createAgentState (u "Runtime") (create true)).2).2.

Definition sampleState : InspectorCompositeState :=
  setProperty 1 (u "skipAllPauses") (JSONBoolean true) twoAgents.

Lemma twoAgents_reachable : reachable twoAgents.
Proof.
  eapply reachable_step; [eapply reachable_step; [apply reachable_create|]|]; by apply step_create.
Defined.

Lemma debugger_agent : (u "Debugger", 1%nat) ∈ m_inspectorStateMap twoAgents.
Proof. apply (bool_decide_unpack _). vm_compute. exact I. Defined.

Lemma sampleState_serializable n : serializable (S (S (S n))) (JSONObject (stateObject sampleState)).
Proof.
  assert (stateObject sampleState = [(u "Runtime", JSONObject []);
            (u "Debugger", JSONObject [(u "skipAllPauses", JSONBoolean true)])]) as -> by (vm_compute; reflexivity).
  serializable_members.
Defined.

Lemma composite_coherent_witness : coherent twoAgents.
Proof. apply (composite_coherent twoAgents). exact twoAgents_reachable. Defined.

Lemma setProperty_cookie_witness :
  get (u "Debugger") (stateObject sampleState) = Some (JSONObject [(u "skipAllPauses", JSONBoolean true)]).
Proof.
  destruct (setProperty_cookie twoAgents (u "Debugger") 1 (u "skipAllPauses") (JSONBoolean true)
    twoAgents_reachable debugger_agent eq_refl eq_refl) as [_ H].
  apply (H (u "Debugger")).
Defined.

Lemma muted_no_cookie_witness : cookies (setProperty 1 (u "a") JSONNull (mute twoAgents)) = [].
Proof.
  apply (muted_no_cookie (mute twoAgents) (setProperty 1 (u "a") JSONNull (mute twoAgents)));
    [reflexivity|]. apply (step_set _ (u "Debugger")). exact debugger_agent.
Defined.

