(* ===== verification/Dispatcher.v ===== *)
(** * The protocol dispatcher ([core/InspectorBackendDispatcher.cpp])

    A message is parsed, its method looked up, its parameters extracted and
    checked, the agent called and the response sent.  The handlers of the
    commands all have one form, in which they differ by the domain, the
    parameters and the outputs; [Command] holds what differs and [handler] is
    the form.  The commands themselves are in the file [Commands]. *)

From S2P Require Import Prelude Platform WTFString DecimalNumber JSONValues JSONParser.

(** ** Protocol errors *)

Inductive CommonErrorCode := ParseError | InvalidRequest | MethodNotFound | InvalidParams | InternalError | ServerError.

Definition m_commonErrors (code : CommonErrorCode) : Z :=
  match code with
  | ParseError => -32700
  | InvalidRequest => -32600
  | MethodNotFound => -32601
  | InvalidParams => -32602
  | InternalError => -32603
  | ServerError => -32000
  end.

(** The message [reportProtocolError] sends. *)
Definition protocolError (callId : Z) (code : CommonErrorCode) (errorMessage : ustring)
    (data : option JSONValue) : jobject :=
  let error := setString (u "message") errorMessage (setInt (u "code") (m_commonErrors code) []) in
  let error := match data with Some d => setValue (u "data") d error | None => error end in
  setInt (u "id") callId (setObject (u "error") error []).

(** The message of a successful [sendResponse]. *)
Definition responseMessage (callId : Z) (result : jobject) : jobject :=
  setObject (u "result") result (setInt (u "id") callId []).

(** A method that runs JavaScript has returned, or waits for it. *)
Inductive Progress (A : Type) :=
  | Returned (a : A)
  | Waiting.
Arguments Returned {A} a.
Arguments Waiting {A}.

(** ** Parameters *)

Inductive ParamType := PInt | PDouble | PString | PBoolean | PObject | PArray.

Inductive Arg :=
  | ArgInt (z : Z) | ArgDouble (d : double) | ArgString (s : ustring)
  | ArgBoolean (b : bool) | ArgObject (o : option jobject) | ArgArray (l : option (list JSONValue)).

Record Param := mkParam { p_name : string; p_type : ParamType; p_optional : bool }.

Definition missingContainer (name type_name : string) : ustring :=
  u "'params' object must contain required parameter '" ++ u name ++ u "' with type '" ++ u type_name ++ u "'.".
Definition missingParameter (name type_name : string) : ustring :=
  u "Parameter '" ++ u name ++ u "' with type '" ++ u type_name ++ u "' was not found.".
Definition wrongType (name type_name : string) : ustring :=
  u "Parameter '" ++ u name ++ u "' has wrong type. It must be '" ++ u type_name ++ u "'.".

(** [getPropertyValueImpl]: the value, whether it was found, and the errors.
    [optional] is [valueFound] being given. *)
Definition getPropertyValueImpl {A} (object : option jobject) (name : string) (optional : bool)
    (protocolErrors : list JSONValue) (initial_value : A) (as_method : JSONValue -> option A)
    (type_name : string) : A * bool * list JSONValue :=
  match object with
  | None =>
      (initial_value, false,
       if optional then protocolErrors
       else protocolErrors ++ [JSONString (missingContainer name type_name)])
  | Some object =>
      match get (u name) object with
      | None =>
          (initial_value, false,
           if optional then protocolErrors
           else protocolErrors ++ [JSONString (missingParameter name type_name)])
      | Some v =>
          match as_method v with
          | None => (initial_value, false, protocolErrors ++ [JSONString (wrongType name type_name)])
          | Some a => (a, true, protocolErrors)
          end
      end
  end.

Section WithPlatform.
Context {P : Platform}.

(** [getInt], [getDouble], [getString], [getBoolean], [getObject], [getArray]. *)
Definition getParam (object : option jobject) (p : Param) (protocolErrors : list JSONValue)
    : Arg * bool * list JSONValue :=
  match p_type p with
  | PInt =>
      let '(v, found, errors) := getPropertyValueImpl object (p_name p) (p_optional p) protocolErrors
                                   0 asInt "Number" in (ArgInt v, found, errors)
  | PDouble =>
      let '(v, found, errors) := getPropertyValueImpl object (p_name p) (p_optional p) protocolErrors
                                   (S754_zero false) asDouble "Number" in (ArgDouble v, found, errors)
  | PString =>
      let '(v, found, errors) := getPropertyValueImpl object (p_name p) (p_optional p) protocolErrors
                                   [] asString "String" in (ArgString v, found, errors)
  | PBoolean =>
      let '(v, found, errors) := getPropertyValueImpl object (p_name p) (p_optional p) protocolErrors
                                   false asBoolean "Boolean" in (ArgBoolean v, found, errors)
  | PObject =>
      let '(v, found, errors) := getPropertyValueImpl object (p_name p) (p_optional p) protocolErrors
                                   None (fun v => Some <$> asObject v) "Object" in (ArgObject v, found, errors)
  | PArray =>
      let '(v, found, errors) := getPropertyValueImpl object (p_name p) (p_optional p) protocolErrors
                                   None (fun v => Some <$> asArray v) "Array" in (ArgArray v, found, errors)
  end.

(** The parameters in the order they are declared.  An optional parameter is
    passed to the agent as a null pointer when it was not found. *)
Fixpoint getParams (object : option jobject) (params : list Param) (protocolErrors : list JSONValue)
    : list (option Arg) * list JSONValue :=
  match params with
  | [] => ([], protocolErrors)
  | p :: params' =>
      let '(v, found, protocolErrors) := getParam object p protocolErrors in
      let '(args, protocolErrors) := getParams object params' protocolErrors in
      ((if p_optional p && negb found then None else Some v) :: args, protocolErrors)
  end.

(** ** Commands *)

(** An output is put in the result under its name; an optional one only when the
    agent assigned it. *)
Record Out := mkOut { o_name : string; o_optional : bool }.

Record Command := mkCommand {
  c_domain : string;
  c_method : string;
  c_index : nat;               (** the constant [k<domain>_<method>Cmd] *)
  c_params : option (list Param);   (** [None]: the request object is not looked at *)
  c_outs : list Out;           (** of the handler, or of its callback *)
  c_async : bool;              (** the agent answers through a callback *)
  c_errorData : bool;          (** the agent can attach data to its error *)
}.

(** What an agent's method returns. *)
Record AgentResult := mkResult {
  r_error : ustring;
  r_errorData : option JSONValue;
  r_outs : list (option JSONValue);
}.

(** What the dispatcher needs: the registered agents, calls to them, the handlers
    whose call has not returned, and the frontend channel. *)
Class Backend (W : Type) := {
  available : string -> W -> bool;
  invoke : Command -> list (option Arg) -> W -> outcome (Progress AgentResult * W);
  wait : Z -> Command -> W -> W;
  channel : W -> bool;
  sendProtocolResponse : Z -> jobject -> W -> W;
}.

(** The result object; [None] when it holds a null pointer, because a required
    output was not assigned. *)
Fixpoint assemble (outs : list Out) (values : list (option JSONValue)) (result : jobject) : option jobject :=
  match outs with
  | [] => Some result
  | o :: outs' =>
      match hd None values with
      | Some v => assemble outs' (tl values) (setValue (u (o_name o)) v result)
      | None => if o_optional o then assemble outs' (tl values) result else None
      end
  end.

Section WithBackend.
Context {W : Type} {B : Backend W}.

Definition reportProtocolError (callId : Z) (code : CommonErrorCode) (errorMessage : ustring)
    (data : option JSONValue) (w : W) : W :=
  if channel w then sendProtocolResponse callId (protocolError callId code errorMessage data) w else w.

(** The channel serializes the message, which dereferences its members. *)
Definition sendResponse (callId : Z) (invocationError : ustring) (errorData : option JSONValue)
    (result : option jobject) (w : W) : outcome W :=
  match invocationError with
  | _ :: _ => Done (reportProtocolError callId ServerError invocationError errorData w)
  | [] =>
      if channel w then
        match result with
        | Some result => Done (sendProtocolResponse callId (responseMessage callId result) w)
        | None => Crash
        end
      else Done w
  end.

Definition invalidParamsFormat (name : ustring) : ustring :=
  u "Some arguments of method '" ++ name ++ u "' can't be processed".

(** The end of a handler, after the agent's method has returned. *)
Definition respond (c : Command) (callId : Z) (r : AgentResult) (w : W) : outcome W :=
  if c_async c then
    match r_error r with
    | [] => Done w
    | _ => sendResponse callId (r_error r) None (Some []) w
    end
  else
    sendResponse callId (r_error r) (if c_errorData c then r_errorData r else None)
      (match r_error r with [] => assemble (c_outs c) (r_outs r) [] | _ => Some [] end) w.

(** A handler: [commandName] gives the name of a command constant. *)
Definition handler (commandName : nat -> ustring) (c : Command) (callId : Z)
    (requestMessageObject : jobject) (w : W) : outcome W :=
  let protocolErrors := if available (c_domain c) w then []
                        else [JSONString (u (c_domain c) ++ u " handler is not available.")] in
  let '(args, protocolErrors) :=
    match c_params c with
    | None => ([], protocolErrors)
    | Some params => getParams (getObject (u "params") requestMessageObject) params protocolErrors
    end in
  match protocolErrors with
  | _ :: _ =>
      Done (reportProtocolError callId InvalidParams (invalidParamsFormat (commandName (c_index c)))
              (Some (JSONArray protocolErrors)) w)
  | [] =>
      match invoke c args w with
      | Crash => Crash
      | Done (Returned r, w) => respond c callId r w
      | Done (Waiting, w) => Done (wait callId c w)
      end
  end.

(** [dispatch], given the dispatch map.  Without an [id], or with a method that
    is not a string, a null pointer is dereferenced: [callIdValue], or the
    string that [HashMap::find] hashes. *)
Definition dispatch (commandName : nat -> ustring) (m_dispatchMap : ustring -> option Command)
    (message : ustring) (w : W) : outcome W :=
  match parseJSON message with
  | None => Crash
  | Some parsedMessage =>
      match asObject parsedMessage with
      | None => Crash
      | Some messageObject =>
          match get (u "id") messageObject with
          | None => Crash
          | Some callIdValue =>
              let callId := default 0 (asInt callIdValue) in
              match get (u "method") messageObject ≫= asString with
              | None => Crash
              | Some method =>
                  match m_dispatchMap method with
                  | None =>
                      Done (reportProtocolError callId MethodNotFound
                              (u "'" ++ method ++ u "' wasn't found") None w)
                  | Some c => handler commandName c callId messageObject w
                  end
              end
          end
      end
  end.

(** ** Callbacks *)

(** [CallbackBase]: what an asynchronous command gives to its agent. *)
Record Callback := mkCallback { m_id : Z; m_alreadySent : bool }.

Definition sendIfActive (partialMessage : option jobject) (invocationError : ustring)
    (errorData : option JSONValue) (cb : Callback) (w : W) : outcome (Callback * W) :=
  if m_alreadySent cb then Done (cb, w)
  else
    match sendResponse (m_id cb) invocationError errorData partialMessage w with
    | Crash => Crash
    | Done w => Done (mkCallback (m_id cb) true, w)
    end.

(** [sendSuccess] of the callback of a command: its outputs under their names. *)
Definition sendSuccess (c : Command) (values : list (option JSONValue)) (cb : Callback) (w : W)
    : outcome (Callback * W) :=
  sendIfActive (assemble (c_outs c) values []) [] None cb w.

Definition sendFailure (error : ustring) (cb : Callback) (w : W) : outcome (Callback * W) :=
  sendIfActive None error None cb w.

Definition disable (cb : Callback) : Callback := mkCallback (m_id cb) true.

Definition isActive (cb : Callback) (w : W) : bool := negb (m_alreadySent cb) && channel w.

End WithBackend.

(** [getCommandName]. *)
Definition getCommandName (message : ustring) : option ustring :=
  parseJSON message ≫= fun value => asObject value ≫= fun object => getString (u "method") object.

End WithPlatform.
