(* ===== verification/Commands.v ===== *)
(** * The commands of the protocol ([core/InspectorBackendDispatcher.cpp])

    One [Command] per handler of [InspectorBackendDispatcherImpl], with the
    parameters it reads in their order and the outputs it returns (for a command
    with a callback those of the callback's [sendSuccess]), and the two tables that
    the dispatch map is built from. *)

From S2P Require Import Prelude Platform WTFString DecimalNumber JSONValues JSONParser Dispatcher.

(** Required and optional parameters and outputs. *)
Definition req (name : string) (t : ParamType) : Param := mkParam name t false.
Definition opt (name : string) (t : ParamType) : Param := mkParam name t true.
Definition out (name : string) : Out := mkOut name false.
Definition optOut (name : string) : Out := mkOut name true.

Definition commands_1 : list Command :=
  [ mkCommand "Inspector" "enable" 0 None [] false false;
    mkCommand "Inspector" "disable" 1 None [] false false;
    mkCommand "Memory" "getDOMCounters" 2 None [out "documents"; out "nodes"; out
      "jsEventListeners"] false false;
    mkCommand "Page" "enable" 3 None [] false false;
    mkCommand "Page" "disable" 4 None [] false false;
    mkCommand "Page" "addScriptToEvaluateOnLoad" 5 (Some [req "scriptSource" PString]) [out
      "identifier"] false false;
    mkCommand "Page" "removeScriptToEvaluateOnLoad" 6 (Some [req "identifier" PString]) [] false
      false;
    mkCommand "Page" "reload" 7 (Some [opt "ignoreCache" PBoolean; opt "scriptToEvaluateOnLoad"
      PString]) [] false false ].

Definition commands_2 : list Command :=
  [ mkCommand "Page" "navigate" 8 (Some [req "url" PString]) [out "frameId"] false false;
    mkCommand "Page" "getResourceTree" 9 None [out "frameTree"] false false;
    mkCommand "Page" "getResourceContent" 10 (Some [req "frameId" PString; req "url" PString])
      [out "content"; out "base64Encoded"] true false;
    mkCommand "Page" "searchInResource" 11 (Some [req "frameId" PString; req "url" PString; req
      "query" PString; opt "caseSensitive" PBoolean; opt "isRegex" PBoolean]) [out "result"] false
      false;
    mkCommand "Page" "setDocumentContent" 12 (Some [req "frameId" PString; req "html" PString]) []
      false false;
    mkCommand "Page" "setDeviceOrientationOverride" 13 (Some [req "alpha" PDouble; req "beta"
      PDouble; req "gamma" PDouble]) [] false false ].

Definition commands_3 : list Command :=
  [ mkCommand "Page" "clearDeviceOrientationOverride" 14 None [] false false;
    mkCommand "Page" "setTouchEmulationEnabled" 15 (Some [req "enabled" PBoolean; opt
      "configuration" PString]) [] false false;
    mkCommand "Page" "startScreencast" 16 (Some [opt "format" PString; opt "quality" PInt; opt
      "maxWidth" PInt; opt "maxHeight" PInt]) [] false false;
    mkCommand "Page" "stopScreencast" 17 None [] false false;
    mkCommand "Page" "setShowViewportSizeOnResize" 18 (Some [req "show" PBoolean; opt "showGrid"
      PBoolean]) [] false false;
    mkCommand "Page" "setOverlayMessage" 19 (Some [opt "message" PString]) [] false false;
    mkCommand "Rendering" "setShowPaintRects" 20 (Some [req "result" PBoolean]) [] false false ].

Definition commands_4 : list Command :=
  [ mkCommand "Rendering" "setShowDebugBorders" 21 (Some [req "show" PBoolean]) [] false false;
    mkCommand "Rendering" "setShowFPSCounter" 22 (Some [req "show" PBoolean]) [] false false;
    mkCommand "Rendering" "setContinuousPaintingEnabled" 23 (Some [req "enabled" PBoolean]) []
      false false;
    mkCommand "Rendering" "setShowScrollBottleneckRects" 24 (Some [req "show" PBoolean]) [] false
      false;
    mkCommand "Emulation" "resetScrollAndPageScaleFactor" 25 None [] false false;
    mkCommand "Emulation" "setPageScaleFactor" 26 (Some [req "pageScaleFactor" PDouble]) [] false
      false;
    mkCommand "Emulation" "setScriptExecutionDisabled" 27 (Some [req "value" PBoolean]) [] false
      false;
    mkCommand "Emulation" "setTouchEmulationEnabled" 28 (Some [req "enabled" PBoolean; opt
      "configuration" PString]) [] false false ].

Definition commands_5 : list Command :=
  [ mkCommand "Emulation" "setEmulatedMedia" 29 (Some [req "media" PString]) [] false false;
    mkCommand "Runtime" "evaluate" 30 (Some [req "expression" PString; opt "objectGroup" PString;
      opt "includeCommandLineAPI" PBoolean; opt "doNotPauseOnExceptionsAndMuteConsole" PBoolean;
      opt "contextId" PInt; opt "returnByValue" PBoolean; opt "generatePreview" PBoolean]) [out
      "result"; optOut "wasThrown"; optOut "exceptionDetails"] false false;
    mkCommand "Runtime" "callFunctionOn" 31 (Some [req "objectId" PString; req
      "functionDeclaration" PString; opt "arguments" PArray; opt
      "doNotPauseOnExceptionsAndMuteConsole" PBoolean; opt "returnByValue" PBoolean; opt
      "generatePreview" PBoolean]) [out "result"; optOut "wasThrown"] false false;
    mkCommand "Runtime" "getProperties" 32 (Some [req "objectId" PString; opt "ownProperties"
      PBoolean; opt "accessorPropertiesOnly" PBoolean; opt "generatePreview" PBoolean]) [out
      "result"; optOut "internalProperties"; optOut "exceptionDetails"] false false ].

Definition commands_6 : list Command :=
  [ mkCommand "Runtime" "releaseObject" 33 (Some [req "objectId" PString]) [] false false;
    mkCommand "Runtime" "releaseObjectGroup" 34 (Some [req "objectGroup" PString]) [] false false;
    mkCommand "Runtime" "run" 35 None [] false false;
    mkCommand "Runtime" "enable" 36 None [] false false;
    mkCommand "Runtime" "disable" 37 None [] false false;
    mkCommand "Runtime" "isRunRequired" 38 None [out "result"] false false;
    mkCommand "Runtime" "setCustomObjectFormatterEnabled" 39 (Some [req "enabled" PBoolean]) []
      false false;
    mkCommand "Console" "enable" 40 None [] false false ].

Definition commands_7 : list Command :=
  [ mkCommand "Console" "disable" 41 None [] false false;
    mkCommand "Console" "clearMessages" 42 None [] false false;
    mkCommand "Network" "enable" 43 None [] false false;
    mkCommand "Network" "disable" 44 None [] false false;
    mkCommand "Network" "setUserAgentOverride" 45 (Some [req "userAgent" PString]) [] false false;
    mkCommand "Network" "setExtraHTTPHeaders" 46 (Some [req "headers" PObject]) [] false false;
    mkCommand "Network" "getResponseBody" 47 (Some [req "requestId" PString]) [out "body"; out
      "base64Encoded"] true false;
    mkCommand "Network" "replayXHR" 48 (Some [req "requestId" PString]) [] false false ].

Definition commands_8 : list Command :=
  [ mkCommand "Network" "setMonitoringXHREnabled" 49 (Some [req "enabled" PBoolean]) [] false
      false;
    mkCommand "Network" "canClearBrowserCache" 50 None [out "result"] false false;
    mkCommand "Network" "canClearBrowserCookies" 51 None [out "result"] false false;
    mkCommand "Network" "emulateNetworkConditions" 52 (Some [req "offline" PBoolean; req "latency"
      PDouble; req "downloadThroughput" PDouble; req "uploadThroughput" PDouble]) [] false false;
    mkCommand "Network" "setCacheDisabled" 53 (Some [req "cacheDisabled" PBoolean]) [] false false;
    mkCommand "Network" "setDataSizeLimitsForTest" 54 (Some [req "maxTotalSize" PInt; req
      "maxResourceSize" PInt]) [] false false;
    mkCommand "Database" "enable" 55 None [] false false;
    mkCommand "Database" "disable" 56 None [] false false ].

Definition commands_9 : list Command :=
  [ mkCommand "Database" "getDatabaseTableNames" 57 (Some [req "databaseId" PString]) [out
      "tableNames"] false false;
    mkCommand "Database" "executeSQL" 58 (Some [req "databaseId" PString; req "query" PString])
      [optOut "columnNames"; optOut "values"; optOut "sqlError"] true false;
    mkCommand "IndexedDB" "enable" 59 None [] false false;
    mkCommand "IndexedDB" "disable" 60 None [] false false;
    mkCommand "IndexedDB" "requestDatabaseNames" 61 (Some [req "securityOrigin" PString]) [out
      "databaseNames"] true false ].

Definition commands_10 : list Command :=
  [ mkCommand "IndexedDB" "requestDatabase" 62 (Some [req "securityOrigin" PString; req
      "databaseName" PString]) [out "databaseWithObjectStores"] true false;
    mkCommand "IndexedDB" "requestData" 63 (Some [req "securityOrigin" PString; req "databaseName"
      PString; req "objectStoreName" PString; req "indexName" PString; req "skipCount" PInt; req
      "pageSize" PInt; opt "keyRange" PObject]) [out "objectStoreDataEntries"; out "hasMore"] true
      false;
    mkCommand "IndexedDB" "clearObjectStore" 64 (Some [req "securityOrigin" PString; req
      "databaseName" PString; req "objectStoreName" PString]) [] true false;
    mkCommand "CacheStorage" "requestCacheNames" 65 (Some [req "securityOrigin" PString]) [out
      "caches"] true false ].

Definition commands_11 : list Command :=
  [ mkCommand "CacheStorage" "requestEntries" 66 (Some [req "cacheId" PString; req "skipCount"
      PInt; req "pageSize" PInt]) [out "cacheDataEntries"; out "hasMore"] true false;
    mkCommand "CacheStorage" "deleteCache" 67 (Some [req "cacheId" PString]) [] true false;
    mkCommand "CacheStorage" "deleteEntry" 68 (Some [req "cacheId" PString; req "request"
      PString]) [] true false;
    mkCommand "DOMStorage" "enable" 69 None [] false false;
    mkCommand "DOMStorage" "disable" 70 None [] false false ].

Definition commands_12 : list Command :=
  [ mkCommand "DOMStorage" "getDOMStorageItems" 71 (Some [req "storageId" PObject]) [out
      "entries"] false false;
    mkCommand "DOMStorage" "setDOMStorageItem" 72 (Some [req "storageId" PObject; req "key"
      PString; req "value" PString]) [] false false;
    mkCommand "DOMStorage" "removeDOMStorageItem" 73 (Some [req "storageId" PObject; req "key"
      PString]) [] false false;
    mkCommand "ApplicationCache" "getFramesWithManifests" 74 None [out "frameIds"] false false;
    mkCommand "ApplicationCache" "enable" 75 None [] false false;
    mkCommand "ApplicationCache" "getManifestForFrame" 76 (Some [req "frameId" PString]) [out
      "manifestURL"] false false;
    mkCommand "ApplicationCache" "getApplicationCacheForFrame" 77 (Some [req "frameId" PString])
      [out "applicationCache"] false false ].

Definition commands_13 : list Command :=
  [ mkCommand "FileSystem" "enable" 78 None [] false false;
    mkCommand "FileSystem" "disable" 79 None [] false false;
    mkCommand "FileSystem" "requestFileSystemRoot" 80 (Some [req "origin" PString; req "type"
      PString]) [out "errorCode"; optOut "root"] true false;
    mkCommand "FileSystem" "requestDirectoryContent" 81 (Some [req "url" PString]) [out
      "errorCode"; optOut "entries"] true false;
    mkCommand "FileSystem" "requestMetadata" 82 (Some [req "url" PString]) [out "errorCode";
      optOut "metadata"] true false ].

Definition commands_14 : list Command :=
  [ mkCommand "FileSystem" "requestFileContent" 83 (Some [req "url" PString; req "readAsText"
      PBoolean; opt "start" PInt; opt "end" PInt; opt "charset" PString]) [out "errorCode"; optOut
      "content"; optOut "charset"] true false;
    mkCommand "FileSystem" "deleteEntry" 84 (Some [req "url" PString]) [out "errorCode"] true
      false;
    mkCommand "DOM" "enable" 85 None [] false false;
    mkCommand "DOM" "disable" 86 None [] false false;
    mkCommand "DOM" "getDocument" 87 None [out "root"] false false;
    mkCommand "DOM" "requestChildNodes" 88 (Some [req "nodeId" PInt; opt "depth" PInt]) [] false
      false ].

Definition commands_15 : list Command :=
  [ mkCommand "DOM" "querySelector" 89 (Some [req "nodeId" PInt; req "selector" PString]) [out
      "nodeId"] false false;
    mkCommand "DOM" "querySelectorAll" 90 (Some [req "nodeId" PInt; req "selector" PString]) [out
      "nodeIds"] false false;
    mkCommand "DOM" "setNodeName" 91 (Some [req "nodeId" PInt; req "name" PString]) [out "nodeId"]
      false false;
    mkCommand "DOM" "setNodeValue" 92 (Some [req "nodeId" PInt; req "value" PString]) [] false
      false;
    mkCommand "DOM" "removeNode" 93 (Some [req "nodeId" PInt]) [] false false;
    mkCommand "DOM" "setAttributeValue" 94 (Some [req "nodeId" PInt; req "name" PString; req
      "value" PString]) [] false false ].

Definition commands_16 : list Command :=
  [ mkCommand "DOM" "setAttributesAsText" 95 (Some [req "nodeId" PInt; req "text" PString; opt
      "name" PString]) [] false false;
    mkCommand "DOM" "removeAttribute" 96 (Some [req "nodeId" PInt; req "name" PString]) [] false
      false;
    mkCommand "DOM" "getOuterHTML" 97 (Some [req "nodeId" PInt]) [out "outerHTML"] false false;
    mkCommand "DOM" "setOuterHTML" 98 (Some [req "nodeId" PInt; req "outerHTML" PString]) [] false
      false;
    mkCommand "DOM" "performSearch" 99 (Some [req "query" PString; opt "includeUserAgentShadowDOM"
      PBoolean]) [out "searchId"; out "resultCount"] false false;
    mkCommand "DOM" "getSearchResults" 100 (Some [req "searchId" PString; req "fromIndex" PInt;
      req "toIndex" PInt]) [out "nodeIds"] false false ].

Definition commands_17 : list Command :=
  [ mkCommand "DOM" "discardSearchResults" 101 (Some [req "searchId" PString]) [] false false;
    mkCommand "DOM" "requestNode" 102 (Some [req "objectId" PString]) [out "nodeId"] false false;
    mkCommand "DOM" "setInspectModeEnabled" 103 (Some [req "enabled" PBoolean; opt
      "inspectUAShadowDOM" PBoolean; opt "highlightConfig" PObject]) [] false false;
    mkCommand "DOM" "highlightRect" 104 (Some [req "x" PInt; req "y" PInt; req "width" PInt; req
      "height" PInt; opt "color" PObject; opt "outlineColor" PObject]) [] false false;
    mkCommand "DOM" "highlightQuad" 105 (Some [req "quad" PArray; opt "color" PObject; opt
      "outlineColor" PObject]) [] false false;
    mkCommand "DOM" "highlightNode" 106 (Some [req "highlightConfig" PObject; opt "nodeId" PInt;
      opt "backendNodeId" PInt; opt "objectId" PString]) [] false false ].

Definition commands_18 : list Command :=
  [ mkCommand "DOM" "hideHighlight" 107 None [] false false;
    mkCommand "DOM" "highlightFrame" 108 (Some [req "frameId" PString; opt "contentColor" PObject;
      opt "contentOutlineColor" PObject]) [] false false;
    mkCommand "DOM" "pushNodeByPathToFrontend" 109 (Some [req "path" PString]) [out "nodeId"]
      false false;
    mkCommand "DOM" "pushNodesByBackendIdsToFrontend" 110 (Some [req "backendNodeIds" PArray])
      [out "nodeIds"] false false;
    mkCommand "DOM" "setInspectedNode" 111 (Some [req "nodeId" PInt]) [] false false;
    mkCommand "DOM" "resolveNode" 112 (Some [req "nodeId" PInt; opt "objectGroup" PString]) [out
      "object"] false false ].

Definition commands_19 : list Command :=
  [ mkCommand "DOM" "getAttributes" 113 (Some [req "nodeId" PInt]) [out "attributes"] false false;
    mkCommand "DOM" "copyTo" 114 (Some [req "nodeId" PInt; req "targetNodeId" PInt; opt
      "insertBeforeNodeId" PInt]) [out "nodeId"] false false;
    mkCommand "DOM" "moveTo" 115 (Some [req "nodeId" PInt; req "targetNodeId" PInt; opt
      "insertBeforeNodeId" PInt]) [out "nodeId"] false false;
    mkCommand "DOM" "undo" 116 None [] false false;
    mkCommand "DOM" "redo" 117 None [] false false;
    mkCommand "DOM" "markUndoableState" 118 None [] false false;
    mkCommand "DOM" "focus" 119 (Some [req "nodeId" PInt]) [] false false ].

Definition commands_20 : list Command :=
  [ mkCommand "DOM" "setFileInputFiles" 120 (Some [req "nodeId" PInt; req "files" PArray]) []
      false false;
    mkCommand "DOM" "getBoxModel" 121 (Some [req "nodeId" PInt]) [out "model"] false false;
    mkCommand "DOM" "getNodeForLocation" 122 (Some [req "x" PInt; req "y" PInt]) [out "nodeId"]
      false false;
    mkCommand "DOM" "getRelayoutBoundary" 123 (Some [req "nodeId" PInt]) [out "nodeId"] false
      false;
    mkCommand "DOM" "getHighlightObjectForTest" 124 (Some [req "nodeId" PInt]) [out "highlight"]
      false false;
    mkCommand "CSS" "enable" 125 None [] true false ].

Definition commands_21 : list Command :=
  [ mkCommand "CSS" "disable" 126 None [] false false;
    mkCommand "CSS" "getMatchedStylesForNode" 127 (Some [req "nodeId" PInt; opt "excludePseudo"
      PBoolean; opt "excludeInherited" PBoolean]) [optOut "matchedCSSRules"; optOut
      "pseudoElements"; optOut "inherited"] false false;
    mkCommand "CSS" "getInlineStylesForNode" 128 (Some [req "nodeId" PInt]) [optOut "inlineStyle";
      optOut "attributesStyle"] false false;
    mkCommand "CSS" "getComputedStyleForNode" 129 (Some [req "nodeId" PInt]) [out "computedStyle"]
      false false;
    mkCommand "CSS" "getPlatformFontsForNode" 130 (Some [req "nodeId" PInt]) [out "cssFamilyName";
      out "fonts"] false false ].

Definition commands_22 : list Command :=
  [ mkCommand "CSS" "getStyleSheetText" 131 (Some [req "styleSheetId" PString]) [out "text"] false
      false;
    mkCommand "CSS" "setStyleSheetText" 132 (Some [req "styleSheetId" PString; req "text"
      PString]) [] false false;
    mkCommand "CSS" "setPropertyText" 133 (Some [req "styleSheetId" PString; req "range" PObject;
      req "text" PString]) [out "style"] false false;
    mkCommand "CSS" "setRuleSelector" 134 (Some [req "styleSheetId" PString; req "range" PObject;
      req "selector" PString]) [out "rule"] false false;
    mkCommand "CSS" "setMediaText" 135 (Some [req "styleSheetId" PString; req "range" PObject; req
      "text" PString]) [out "media"] false false;
    mkCommand "CSS" "createStyleSheet" 136 (Some [req "frameId" PString]) [out "styleSheetId"]
      false false ].

Definition commands_23 : list Command :=
  [ mkCommand "CSS" "addRule" 137 (Some [req "styleSheetId" PString; req "ruleText" PString; req
      "location" PObject]) [out "rule"] false false;
    mkCommand "CSS" "forcePseudoState" 138 (Some [req "nodeId" PInt; req "forcedPseudoClasses"
      PArray]) [] false false;
    mkCommand "CSS" "getMediaQueries" 139 None [out "medias"] false false;
    mkCommand "Timeline" "enable" 140 None [] false false;
    mkCommand "Timeline" "disable" 141 None [] false false;
    mkCommand "Timeline" "start" 142 (Some [opt "maxCallStackDepth" PInt; opt "bufferEvents"
      PBoolean; opt "liveEvents" PString; opt "includeCounters" PBoolean; opt "includeGPUEvents"
      PBoolean]) [] false false;
    mkCommand "Timeline" "stop" 143 None [] false false ].

Definition commands_24 : list Command :=
  [ mkCommand "Debugger" "enable" 144 None [] false false;
    mkCommand "Debugger" "disable" 145 None [] false false;
    mkCommand "Debugger" "setBreakpointsActive" 146 (Some [req "active" PBoolean]) [] false false;
    mkCommand "Debugger" "setSkipAllPauses" 147 (Some [req "skipped" PBoolean]) [] false false;
    mkCommand "Debugger" "setBreakpointByUrl" 148 (Some [req "lineNumber" PInt; opt "url" PString;
      opt "urlRegex" PString; opt "columnNumber" PInt; opt "condition" PString]) [out
      "breakpointId"; out "locations"] false false;
    mkCommand "Debugger" "setBreakpoint" 149 (Some [req "location" PObject; opt "condition"
      PString]) [out "breakpointId"; out "actualLocation"] false false;
    mkCommand "Debugger" "removeBreakpoint" 150 (Some [req "breakpointId" PString]) [] false false ].

Definition commands_25 : list Command :=
  [ mkCommand "Debugger" "continueToLocation" 151 (Some [req "location" PObject; opt
      "interstatementLocation" PBoolean]) [] false false;
    mkCommand "Debugger" "stepOver" 152 None [] false false;
    mkCommand "Debugger" "stepInto" 153 None [] false false;
    mkCommand "Debugger" "stepOut" 154 None [] false false;
    mkCommand "Debugger" "pause" 155 None [] false false;
    mkCommand "Debugger" "resume" 156 None [] false false;
    mkCommand "Debugger" "stepIntoAsync" 157 None [] false false;
    mkCommand "Debugger" "searchInContent" 158 (Some [req "scriptId" PString; req "query" PString;
      opt "caseSensitive" PBoolean; opt "isRegex" PBoolean]) [out "result"] false false ].

Definition commands_26 : list Command :=
  [ mkCommand "Debugger" "canSetScriptSource" 159 None [out "result"] false false;
    mkCommand "Debugger" "setScriptSource" 160 (Some [req "scriptId" PString; req "scriptSource"
      PString; opt "preview" PBoolean]) [optOut "callFrames"; optOut "result"; optOut
      "asyncStackTrace"] false true;
    mkCommand "Debugger" "restartFrame" 161 (Some [req "callFrameId" PString]) [out "callFrames";
      out "result"; optOut "asyncStackTrace"] false false;
    mkCommand "Debugger" "getScriptSource" 162 (Some [req "scriptId" PString]) [out
      "scriptSource"] false false;
    mkCommand "Debugger" "getFunctionDetails" 163 (Some [req "functionId" PString]) [out
      "details"] false false ].

Definition commands_27 : list Command :=
  [ mkCommand "Debugger" "getGeneratorObjectDetails" 164 (Some [req "objectId" PString]) [out
      "details"] false false;
    mkCommand "Debugger" "getCollectionEntries" 165 (Some [req "objectId" PString]) [out
      "entries"] false false;
    mkCommand "Debugger" "setPauseOnExceptions" 166 (Some [req "state" PString]) [] false false;
    mkCommand "Debugger" "evaluateOnCallFrame" 167 (Some [req "callFrameId" PString; req
      "expression" PString; opt "objectGroup" PString; opt "includeCommandLineAPI" PBoolean; opt
      "doNotPauseOnExceptionsAndMuteConsole" PBoolean; opt "returnByValue" PBoolean; opt
      "generatePreview" PBoolean]) [out "result"; optOut "wasThrown"; optOut "exceptionDetails"]
      false false;
    mkCommand "Debugger" "compileScript" 168 (Some [req "expression" PString; req "sourceURL"
      PString; req "persistScript" PBoolean; opt "executionContextId" PInt]) [optOut "scriptId";
      optOut "exceptionDetails"] false false ].

Definition commands_28 : list Command :=
  [ mkCommand "Debugger" "runScript" 169 (Some [req "scriptId" PString; opt "executionContextId"
      PInt; opt "objectGroup" PString; opt "doNotPauseOnExceptionsAndMuteConsole" PBoolean]) [out
      "result"; optOut "exceptionDetails"] false false;
    mkCommand "Debugger" "setVariableValue" 170 (Some [req "scopeNumber" PInt; req "variableName"
      PString; req "newValue" PObject; opt "callFrameId" PString; opt "functionObjectId" PString])
      [] false false;
    mkCommand "Debugger" "getStepInPositions" 171 (Some [req "callFrameId" PString]) [optOut
      "stepInPositions"] false false;
    mkCommand "Debugger" "getBacktrace" 172 None [out "callFrames"; optOut "asyncStackTrace"]
      false false;
    mkCommand "Debugger" "skipStackFrames" 173 (Some [opt "script" PString; opt
      "skipContentScripts" PBoolean]) [] false false;
    mkCommand "Debugger" "setAsyncCallStackDepth" 174 (Some [req "maxDepth" PInt]) [] false false ].

Definition commands_29 : list Command :=
  [ mkCommand "Debugger" "enablePromiseTracker" 175 (Some [opt "captureStacks" PBoolean]) [] false
      false;
    mkCommand "Debugger" "disablePromiseTracker" 176 None [] false false;
    mkCommand "Debugger" "getPromiseById" 177 (Some [req "promiseId" PInt; opt "objectGroup"
      PString]) [out "promise"] false false;
    mkCommand "Debugger" "flushAsyncOperationEvents" 178 None [] false false;
    mkCommand "Debugger" "setAsyncOperationBreakpoint" 179 (Some [req "operationId" PInt]) []
      false false;
    mkCommand "Debugger" "removeAsyncOperationBreakpoint" 180 (Some [req "operationId" PInt]) []
      false false;
    mkCommand "DOMDebugger" "setDOMBreakpoint" 181 (Some [req "nodeId" PInt; req "type" PString])
      [] false false ].

Definition commands_30 : list Command :=
  [ mkCommand "DOMDebugger" "removeDOMBreakpoint" 182 (Some [req "nodeId" PInt; req "type"
      PString]) [] false false;
    mkCommand "DOMDebugger" "setEventListenerBreakpoint" 183 (Some [req "eventName" PString; opt
      "targetName" PString]) [] false false;
    mkCommand "DOMDebugger" "removeEventListenerBreakpoint" 184 (Some [req "eventName" PString;
      opt "targetName" PString]) [] false false;
    mkCommand "DOMDebugger" "setInstrumentationBreakpoint" 185 (Some [req "eventName" PString]) []
      false false;
    mkCommand "DOMDebugger" "removeInstrumentationBreakpoint" 186 (Some [req "eventName" PString])
      [] false false;
    mkCommand "DOMDebugger" "setXHRBreakpoint" 187 (Some [req "url" PString]) [] false false;
    mkCommand "DOMDebugger" "removeXHRBreakpoint" 188 (Some [req "url" PString]) [] false false ].

Definition commands_31 : list Command :=
  [ mkCommand "DOMDebugger" "getEventListeners" 189 (Some [req "objectId" PString]) [out
      "listeners"] false false;
    mkCommand "Profiler" "enable" 190 None [] false false;
    mkCommand "Profiler" "disable" 191 None [] false false;
    mkCommand "Profiler" "setSamplingInterval" 192 (Some [req "interval" PInt]) [] false false;
    mkCommand "Profiler" "start" 193 None [] false false;
    mkCommand "Profiler" "stop" 194 None [out "profile"] false false;
    mkCommand "HeapProfiler" "enable" 195 None [] false false;
    mkCommand "HeapProfiler" "disable" 196 None [] false false ].

Definition commands_32 : list Command :=
  [ mkCommand "HeapProfiler" "startTrackingHeapObjects" 197 (Some [opt "trackAllocations"
      PBoolean]) [] false false;
    mkCommand "HeapProfiler" "stopTrackingHeapObjects" 198 (Some [opt "reportProgress" PBoolean])
      [] false false;
    mkCommand "HeapProfiler" "takeHeapSnapshot" 199 (Some [opt "reportProgress" PBoolean]) []
      false false;
    mkCommand "HeapProfiler" "collectGarbage" 200 None [] false false;
    mkCommand "HeapProfiler" "getObjectByHeapObjectId" 201 (Some [req "objectId" PString; opt
      "objectGroup" PString]) [out "result"] false false;
    mkCommand "HeapProfiler" "addInspectedHeapObject" 202 (Some [req "heapObjectId" PString]) []
      false false;
    mkCommand "HeapProfiler" "getHeapObjectId" 203 (Some [req "objectId" PString]) [out
      "heapSnapshotObjectId"] false false ].

Definition commands_33 : list Command :=
  [ mkCommand "Worker" "enable" 204 None [] false false;
    mkCommand "Worker" "disable" 205 None [] false false;
    mkCommand "Worker" "sendMessageToWorker" 206 (Some [req "workerId" PString; req "message"
      PString]) [] false false;
    mkCommand "Worker" "connectToWorker" 207 (Some [req "workerId" PString]) [] false false;
    mkCommand "Worker" "disconnectFromWorker" 208 (Some [req "workerId" PString]) [] false false;
    mkCommand "Worker" "setAutoconnectToWorkers" 209 (Some [req "value" PBoolean]) [] false false;
    mkCommand "Input" "dispatchTouchEvent" 210 (Some [req "type" PString; req "touchPoints"
      PArray; opt "modifiers" PInt; opt "timestamp" PDouble]) [] false false;
    mkCommand "LayerTree" "enable" 211 None [] false false ].

Definition commands_34 : list Command :=
  [ mkCommand "LayerTree" "disable" 212 None [] false false;
    mkCommand "LayerTree" "compositingReasons" 213 (Some [req "layerId" PString]) [out
      "compositingReasons"] false false;
    mkCommand "LayerTree" "makeSnapshot" 214 (Some [req "layerId" PString]) [out "snapshotId"]
      false false;
    mkCommand "LayerTree" "loadSnapshot" 215 (Some [req "tiles" PArray]) [out "snapshotId"] false
      false;
    mkCommand "LayerTree" "releaseSnapshot" 216 (Some [req "snapshotId" PString]) [] false false;
    mkCommand "LayerTree" "profileSnapshot" 217 (Some [req "snapshotId" PString; opt
      "minRepeatCount" PInt; opt "minDuration" PDouble; opt "clipRect" PObject]) [out "timings"]
      false false ].

Definition commands_35 : list Command :=
  [ mkCommand "LayerTree" "replaySnapshot" 218 (Some [req "snapshotId" PString; opt "fromStep"
      PInt; opt "toStep" PInt; opt "scale" PDouble]) [out "dataURL"] false false;
    mkCommand "LayerTree" "snapshotCommandLog" 219 (Some [req "snapshotId" PString]) [out
      "commandLog"] false false;
    mkCommand "DeviceOrientation" "setDeviceOrientationOverride" 220 (Some [req "alpha" PDouble;
      req "beta" PDouble; req "gamma" PDouble]) [] false false;
    mkCommand "DeviceOrientation" "clearDeviceOrientationOverride" 221 None [] false false;
    mkCommand "Tracing" "start" 222 (Some [opt "categories" PString; opt "options" PString; opt
      "bufferUsageReportingInterval" PDouble]) [] true false ].

Definition commands_36 : list Command :=
  [ mkCommand "Tracing" "end" 223 None [] true false;
    mkCommand "Animation" "enable" 224 None [] false false;
    mkCommand "Animation" "getAnimationPlayersForNode" 225 (Some [req "nodeId" PInt; req
      "includeSubtreeAnimations" PBoolean]) [out "animationPlayers"] false false;
    mkCommand "Animation" "getPlaybackRate" 226 None [out "playbackRate"] false false;
    mkCommand "Animation" "setPlaybackRate" 227 (Some [req "playbackRate" PDouble]) [] false false;
    mkCommand "Animation" "setCurrentTime" 228 (Some [req "currentTime" PDouble]) [] false false;
    mkCommand "Animation" "setTiming" 229 (Some [req "playerId" PString; req "duration" PDouble;
      req "delay" PDouble]) [] false false ].

Definition commands_37 : list Command :=
  [ mkCommand "Accessibility" "getAXNode" 230 (Some [req "nodeId" PInt]) [optOut
      "accessibilityNode"] false false ].


(** ** The tables *)

(** [commandNames]: the names, each with its terminating zero. *)
Definition commandNamesList : list string := [
   "Inspector.enable"; "Inspector.disable"; "Memory.getDOMCounters";
   "Page.enable"; "Page.disable"; "Page.addScriptToEvaluateOnLoad";
   "Page.removeScriptToEvaluateOnLoad"; "Page.reload"; "Page.navigate";
   "Page.getResourceTree"; "Page.getResourceContent"; "Page.searchInResource";
   "Page.setDocumentContent"; "Page.setDeviceOrientationOverride"; "Page.clearDeviceOrientationOverride";
   "Page.setTouchEmulationEnabled"; "Page.startScreencast"; "Page.stopScreencast";
   "Page.setShowViewportSizeOnResize"; "Page.setOverlayMessage"; "Rendering.setShowPaintRects";
   "Rendering.setShowDebugBorders"; "Rendering.setShowFPSCounter"; "Rendering.setContinuousPaintingEnabled";
   "Rendering.setShowScrollBottleneckRects"; "Emulation.resetScrollAndPageScaleFactor"; "Emulation.setPageScaleFactor";
   "Emulation.setScriptExecutionDisabled"; "Emulation.setTouchEmulationEnabled"; "Emulation.setEmulatedMedia";
   "Runtime.evaluate"; "Runtime.callFunctionOn"; "Runtime.getProperties";
   "Runtime.releaseObject"; "Runtime.releaseObjectGroup"; "Runtime.run";
   "Runtime.enable"; "Runtime.disable"; "Runtime.isRunRequired";
   "Runtime.setCustomObjectFormatterEnabled"; "Console.enable"; "Console.disable";
   "Console.clearMessages"; "Network.enable"; "Network.disable";
   "Network.setUserAgentOverride"; "Network.setExtraHTTPHeaders"; "Network.getResponseBody";
   "Network.replayXHR"; "Network.setMonitoringXHREnabled"; "Network.canClearBrowserCache";
   "Network.canClearBrowserCookies"; "Network.emulateNetworkConditions"; "Network.setCacheDisabled";
   "Network.setDataSizeLimitsForTest"; "Database.enable"; "Database.disable";
   "Database.getDatabaseTableNames"; "Database.executeSQL"; "IndexedDB.enable";
   "IndexedDB.disable"; "IndexedDB.requestDatabaseNames"; "IndexedDB.requestDatabase";
   "IndexedDB.requestData"; "IndexedDB.clearObjectStore"; "CacheStorage.requestCacheNames";
   "CacheStorage.requestEntries"; "CacheStorage.deleteCache"; "CacheStorage.deleteEntry";
   "DOMStorage.enable"; "DOMStorage.disable"; "DOMStorage.getDOMStorageItems";
   "DOMStorage.setDOMStorageItem"; "DOMStorage.removeDOMStorageItem"; "ApplicationCache.getFramesWithManifests";
   "ApplicationCache.enable"; "ApplicationCache.getManifestForFrame"; "ApplicationCache.getApplicationCacheForFrame";
   "FileSystem.enable"; "FileSystem.disable"; "FileSystem.requestFileSystemRoot";
   "FileSystem.requestDirectoryContent"; "FileSystem.requestMetadata"; "FileSystem.requestFileContent";
   "FileSystem.deleteEntry"; "DOM.enable"; "DOM.disable";
   "DOM.getDocument"; "DOM.requestChildNodes"; "DOM.querySelector";
   "DOM.querySelectorAll"; "DOM.setNodeName"; "DOM.setNodeValue";
   "DOM.removeNode"; "DOM.setAttributeValue"; "DOM.setAttributesAsText";
   "DOM.removeAttribute"; "DOM.getOuterHTML"; "DOM.setOuterHTML";
   "DOM.performSearch"; "DOM.getSearchResults"; "DOM.discardSearchResults";
   "DOM.requestNode"; "DOM.setInspectModeEnabled"; "DOM.highlightRect";
   "DOM.highlightQuad"; "DOM.highlightNode"; "DOM.hideHighlight";
   "DOM.highlightFrame"; "DOM.pushNodeByPathToFrontend"; "DOM.pushNodesByBackendIdsToFrontend";
   "DOM.setInspectedNode"; "DOM.resolveNode"; "DOM.getAttributes";
   "DOM.copyTo"; "DOM.moveTo"; "DOM.undo";
   "DOM.redo"; "DOM.markUndoableState"; "DOM.focus";
   "DOM.setFileInputFiles"; "DOM.getBoxModel"; "DOM.getNodeForLocation";
   "DOM.getRelayoutBoundary"; "DOM.getHighlightObjectForTest"; "CSS.enable";
   "CSS.disable"; "CSS.getMatchedStylesForNode"; "CSS.getInlineStylesForNode";
   "CSS.getComputedStyleForNode"; "CSS.getPlatformFontsForNode"; "CSS.getStyleSheetText";
   "CSS.setStyleSheetText"; "CSS.setPropertyText"; "CSS.setRuleSelector";
   "CSS.setMediaText"; "CSS.createStyleSheet"; "CSS.addRule";
   "CSS.forcePseudoState"; "CSS.getMediaQueries"; "Timeline.enable";
   "Timeline.disable"; "Timeline.start"; "Timeline.stop";
   "Debugger.enable"; "Debugger.disable"; "Debugger.setBreakpointsActive";
   "Debugger.setSkipAllPauses"; "Debugger.setBreakpointByUrl"; "Debugger.setBreakpoint";
   "Debugger.removeBreakpoint"; "Debugger.continueToLocation"; "Debugger.stepOver";
   "Debugger.stepInto"; "Debugger.stepOut"; "Debugger.pause";
   "Debugger.resume"; "Debugger.stepIntoAsync"; "Debugger.searchInContent";
   "Debugger.canSetScriptSource"; "Debugger.setScriptSource"; "Debugger.restartFrame";
   "Debugger.getScriptSource"; "Debugger.getFunctionDetails"; "Debugger.getGeneratorObjectDetails";
   "Debugger.getCollectionEntries"; "Debugger.setPauseOnExceptions"; "Debugger.evaluateOnCallFrame";
   "Debugger.compileScript"; "Debugger.runScript"; "Debugger.setVariableValue";
   "Debugger.getStepInPositions"; "Debugger.getBacktrace"; "Debugger.skipStackFrames";
   "Debugger.setAsyncCallStackDepth"; "Debugger.enablePromiseTracker"; "Debugger.disablePromiseTracker";
   "Debugger.getPromiseById"; "Debugger.flushAsyncOperationEvents"; "Debugger.setAsyncOperationBreakpoint";
   "Debugger.removeAsyncOperationBreakpoint"; "DOMDebugger.setDOMBreakpoint"; "DOMDebugger.removeDOMBreakpoint";
   "DOMDebugger.setEventListenerBreakpoint"; "DOMDebugger.removeEventListenerBreakpoint"; "DOMDebugger.setInstrumentationBreakpoint";
   "DOMDebugger.removeInstrumentationBreakpoint"; "DOMDebugger.setXHRBreakpoint"; "DOMDebugger.removeXHRBreakpoint";
   "DOMDebugger.getEventListeners"; "Profiler.enable"; "Profiler.disable";
   "Profiler.setSamplingInterval"; "Profiler.start"; "Profiler.stop";
   "HeapProfiler.enable"; "HeapProfiler.disable"; "HeapProfiler.startTrackingHeapObjects";
   "HeapProfiler.stopTrackingHeapObjects"; "HeapProfiler.takeHeapSnapshot"; "HeapProfiler.collectGarbage";
   "HeapProfiler.getObjectByHeapObjectId"; "HeapProfiler.addInspectedHeapObject"; "HeapProfiler.getHeapObjectId";
   "Worker.enable"; "Worker.disable"; "Worker.sendMessageToWorker";
   "Worker.connectToWorker"; "Worker.disconnectFromWorker"; "Worker.setAutoconnectToWorkers";
   "Input.dispatchTouchEvent"; "LayerTree.enable"; "LayerTree.disable";
   "LayerTree.compositingReasons"; "LayerTree.makeSnapshot"; "LayerTree.loadSnapshot";
   "LayerTree.releaseSnapshot"; "LayerTree.profileSnapshot"; "LayerTree.replaySnapshot";
   "LayerTree.snapshotCommandLog"; "DeviceOrientation.setDeviceOrientationOverride"; "DeviceOrientation.clearDeviceOrientationOverride";
   "Tracing.start"; "Tracing.end"; "Animation.enable";
   "Animation.getAnimationPlayersForNode"; "Animation.getPlaybackRate"; "Animation.setPlaybackRate";
   "Animation.setCurrentTime"; "Animation.setTiming"; "Accessibility.getAXNode"
].

Definition commandNames : ustring := flat_map (fun n => u n ++ [0]) commandNamesList.

Definition commandNamesIndex : list Z := [
   0; 17; 35; 57; 69; 82; 113; 147; 159; 173; 194; 218;
   240; 264; 298; 334; 364; 385; 405; 438; 461; 489; 519; 547;
   586; 625; 665; 694; 731; 766; 793; 810; 833; 855; 877; 904;
   916; 931; 947; 969; 1009; 1024; 1040; 1062; 1077; 1093; 1122; 1150;
   1174; 1192; 1224; 1253; 1284; 1317; 1342; 1375; 1391; 1408; 1439; 1459;
   1476; 1494; 1525; 1551; 1573; 1600; 1631; 1659; 1684; 1709; 1727; 1746;
   1776; 1805; 1837; 1877; 1901; 1938; 1983; 2001; 2020; 2053; 2088; 2115;
   2145; 2168; 2179; 2191; 2207; 2229; 2247; 2268; 2284; 2301; 2316; 2338;
   2362; 2382; 2399; 2416; 2434; 2455; 2480; 2496; 2522; 2540; 2558; 2576;
   2594; 2613; 2642; 2678; 2699; 2715; 2733; 2744; 2755; 2764; 2773; 2795;
   2805; 2827; 2843; 2866; 2890; 2920; 2931; 2943; 2971; 2998; 3026; 3054;
   3076; 3098; 3118; 3138; 3155; 3176; 3188; 3209; 3229; 3245; 3262; 3277;
   3291; 3307; 3324; 3354; 3380; 3408; 3431; 3457; 3485; 3503; 3521; 3538;
   3553; 3569; 3592; 3617; 3645; 3670; 3692; 3717; 3745; 3780; 3810; 3840;
   3869; 3892; 3911; 3937; 3965; 3987; 4012; 4044; 4074; 4105; 4129; 4164;
   4201; 4241; 4270; 4302; 4341; 4383; 4424; 4468; 4497; 4529; 4559; 4575;
   4592; 4621; 4636; 4650; 4670; 4691; 4729; 4766; 4796; 4824; 4861; 4897;
   4926; 4940; 4955; 4982; 5005; 5033; 5064; 5089; 5106; 5124; 5153; 5176;
   5199; 5225; 5251; 5276; 5305; 5352; 5401; 5415; 5427; 5444; 5481; 5507;
   5533; 5558; 5578
].

(** The C string at a position. *)
Fixpoint cString (s : ustring) : ustring :=
  match s with
  | [] => []
  | c :: s' => if c =? 0 then [] else c :: cString s'
  end.

Definition commandName (index : nat) : ustring := 
  cString (drop (Z.to_nat (nth index commandNamesIndex 0)) commandNames).

(** The array of handlers: they are in the order of the file. *)
Definition handlers : list Command :=
  commands_1 ++ commands_2 ++ commands_3 ++ commands_4 ++ commands_5 ++ commands_6 ++ commands_7
  ++ commands_8 ++ commands_9 ++ commands_10 ++ commands_11 ++ commands_12 ++ commands_13 ++
  commands_14 ++ commands_15 ++ commands_16 ++ commands_17 ++ commands_18 ++ commands_19 ++
  commands_20 ++ commands_21 ++ commands_22 ++ commands_23 ++ commands_24 ++ commands_25 ++
  commands_26 ++ commands_27 ++ commands_28 ++ commands_29 ++ commands_30 ++ commands_31 ++
  commands_32 ++ commands_33 ++ commands_34 ++ commands_35 ++ commands_36 ++ commands_37.

(** The loop that fills the dispatch map: [HashMap::add] keeps the first entry of
    a key. *)
Definition dispatchMap : list (ustring * Command) :=
  combine (map commandName (seq 0 (length handlers))) handlers.

Fixpoint lookupCommand (method : ustring) (m : list (ustring * Command)) : option Command :=
  match m with
  | [] => None
  | (k, c) :: m' => if decide (k = method) then Some c else lookupCommand method m'
  end.

Definition m_dispatchMap (method : ustring) : option Command := lookupCommand method dispatchMap.
