(* ===== verification/DispatcherFacts.v ===== *)
(** * Facts about the dispatcher

    Which requests reach an agent, what the frontend is answered, and the
    consistency of the command tables. *)

From S2P Require Import Prelude Platform WTFString DecimalNumber JSONValues JSONParser Dispatcher Commands.

#[export] Instance ParamType_eq_dec : EqDecision ParamType.
Proof. solve_decision. Defined.
#[export] Instance Param_eq_dec : EqDecision Param.
Proof. solve_decision. Defined.
#[export] Instance Out_eq_dec : EqDecision Out.
Proof. solve_decision. Defined.
#[export] Instance Command_eq_dec : EqDecision Command.
Proof. solve_decision. Defined.

(** ** The tables *)

(** The name of a command in the protocol. *)
Definition methodName (c : Command) : ustring := u (c_domain c) ++ u "." ++ u (c_method c).

Definition tableEntryOK (c : Command) : bool :=
  bool_decide (m_dispatchMap (methodName c) = Some c) && bool_decide (commandName (c_index c) = methodName c).

Lemma table_checked : forallb tableEntryOK handlers = true.
Proof. vm_compute. reflexivity. Qed.

Lemma table_entry c :
  c ∈ handlers -> m_dispatchMap (methodName c) = Some c /\ commandName (c_index c) = methodName c.
Proof.
  intros Hc. pose proof table_checked as H. rewrite forallb_forall in H.
  specialize (H c ltac:(by apply list_elem_of_In)). unfold tableEntryOK in H.
  apply andb_prop in H as [H1 H2]. by apply bool_decide_eq_true in H1, H2.
Qed.

(** Each of the 231 handlers is found in the dispatch map under the name of
    its command, and the name it puts in its error messages, read through the
    offset table, is the same one. *)
Theorem command_tables c :
  c ∈ handlers -> m_dispatchMap (methodName c) = Some c /\ commandName (c_index c) = methodName c.
Proof. intros Hc. by apply table_entry. Qed.

Definition setBreakpointByUrlCommand : Command :=
  mkCommand "Debugger" "setBreakpointByUrl" 148
    (Some [req "lineNumber" PInt; opt "url" PString; opt "urlRegex" PString; opt "columnNumber" PInt;
           opt "condition" PString]) [out "breakpointId"; out "locations"] false false.

Lemma command_tables_witness :
  m_dispatchMap (u "Debugger.setBreakpointByUrl") = Some setBreakpointByUrlCommand /\
  commandName (c_index setBreakpointByUrlCommand) = u "Debugger.setBreakpointByUrl".
Proof.
  apply (command_tables setBreakpointByUrlCommand).
  apply (bool_decide_unpack _). vm_compute. exact I.
Defined.

Section WithPlatform.
Context {P : Platform}.

(** ** Which parameters are accepted *)

Definition hasType (t : ParamType) (v : JSONValue) : bool :=
  match t, v with
  | (PInt | PDouble), JSONNumber _ | PString, JSONString _ | PBoolean, JSONBoolean _
  | PObject, JSONObject _ | PArray, JSONArray _ => true
  | _, _ => false
  end.

Definition typeName (t : ParamType) : string :=
  match t with
  | PInt | PDouble => "Number" | PString => "String" | PBoolean => "Boolean"
  | PObject => "Object" | PArray => "Array"
  end.

(** The error a parameter causes: a required one must be there, and one that is
    there must have its type. *)
Definition paramError (object : option jobject) (p : Param) : option ustring :=
  match object with
  | None => if p_optional p then None else Some (missingContainer (p_name p) (typeName (p_type p)))
  | Some o =>
      match get (u (p_name p)) o with
      | None => if p_optional p then None else Some (missingParameter (p_name p) (typeName (p_type p)))
      | Some v => if hasType (p_type p) v then None else Some (wrongType (p_name p) (typeName (p_type p)))
      end
  end.

Lemma getPropertyValueImpl_errors {A} object name optional errors (initial : A) as_method t :
  (forall v, is_Some (as_method v) <-> hasType t v = true) ->
  (getPropertyValueImpl object name optional errors initial as_method (typeName t)).2 =
    errors ++ option_list (JSONString <$> paramError object (mkParam name t optional)).
Proof.
  intros Has. unfold getPropertyValueImpl, paramError. cbn [p_name p_type p_optional].
  destruct object as [o|]; [|destruct optional; cbn; by rewrite ?app_nil_r].
  destruct (get (u name) o) as [v|]; [|destruct optional; cbn; by rewrite ?app_nil_r].
  specialize (Has v). destruct (as_method v) as [a|]; cbn.
  - rewrite (proj1 Has) by (by eexists). cbn. by rewrite app_nil_r.
  - destruct (hasType t v); [|done]. by destruct (proj2 Has eq_refl).
Qed.

Lemma getParam_errors object p errors :
  (getParam object p errors).2 = errors ++ option_list (JSONString <$> paramError object p).
Proof.
  destruct p as [name t optional]. unfold getParam. cbn [p_name p_type p_optional].
  destruct t.
  all: match goal with |- context [getPropertyValueImpl ?o ?n ?b ?e ?i ?f ?tn] =>
    match goal with |- context [mkParam _ ?t _] =>
      pose proof (getPropertyValueImpl_errors o n b e i f t) as H end;
    destruct (getPropertyValueImpl o n b e i f tn) as [[v found] es] eqn:E end; cbn in H |- *; rewrite E in H; apply H.
  all: intros [| | | | |]; cbn; split; try done; by eexists || by intros [].
Qed.

Lemma getParams_errors object params errors :
  (getParams object params errors).2 = errors ++ map JSONString (omap (paramError object) params).
Proof.
  revert errors. induction params as [|p params IH]; intros errors; cbn [getParams].
  { cbn. by rewrite app_nil_r. }
  pose proof (getParam_errors object p errors) as H.
  destruct (getParam object p errors) as [[v found] es]. cbn in H. subst es.
  specialize (IH (errors ++ option_list (JSONString <$> paramError object p))).
  destruct (getParams object params _) as [args es]. cbn in IH |- *. subst es.
  rewrite <- app_assoc. f_equal. by destruct (paramError object p).
Qed.

(** ** Requests *)

(** A message that is a request: an object with an integer id and a method. *)
Record request (message : ustring) (o : jobject) (id : Z) (method : ustring) : Prop := {
  request_object : parseJSON message = Some (JSONObject o);
  request_id : get (u "id") o = Some (JSONInt id);
  request_int : is_int32 id;
  request_method : get (u "method") o = Some (JSONString method);
}.

Section WithBackend.
Context {W : Type} {B : Backend W}.

(** Why a request is refused: no agent for the domain, then the parameters in
    their order. *)
Definition requestErrors (c : Command) (o : jobject) (w : W) : list ustring :=
  (if available (c_domain c) w then [] else [u (c_domain c) ++ u " handler is not available."])
  ++ omap (paramError (getObject (u "params") o)) (default [] (c_params c)).

Lemma handler_errors names c id o w :
  handler names c id o w =
    match requestErrors c o w with
    | [] =>
        match invoke c (match c_params c with
                        | None => []
                        | Some params => (getParams (getObject (u "params") o) params []).1
                        end) w with
        | Crash => Crash
        | Done (Returned r, w) => respond c id r w
        | Done (Waiting, w) => Done (wait id c w)
        end
    | errors => Done (reportProtocolError id InvalidParams (invalidParamsFormat (names (c_index c)))
                        (Some (JSONArray (map JSONString errors))) w)
    end.
Proof.
  unfold handler, requestErrors. destruct (available (c_domain c) w).
  - destruct (c_params c) as [params|]; cbn [default app]; [|done].
    pose proof (getParams_errors (getObject (u "params") o) params []) as H.
    destruct (getParams (getObject (u "params") o) params []) as [args errors]. cbn in H |- *. subst errors.
    by destruct (omap _ params).
  - destruct (c_params c) as [params|]; cbn [default app]; [|done].
    pose proof (getParams_errors (getObject (u "params") o) params
      [JSONString (u (c_domain c) ++ u " handler is not available.")]) as H.
    destruct (getParams (getObject (u "params") o) params _) as [args errors]. cbn in H |- *. by subst errors.
Qed.

Lemma dispatch_request names map message o id method w :
  request message o id method ->
  dispatch names map message w =
    match map method with
    | None => Done (reportProtocolError id MethodNotFound (u "'" ++ method ++ u "' wasn't found") None w)
    | Some c => handler names c id o w
    end.
Proof.
  intros [Ho Hi Hr Hm]. unfold dispatch. rewrite Ho. cbn [asObject]. rewrite Hi, Hm. cbn [mbind option_bind asString].
  unfold JSONInt, asInt. cbn [default]. by rewrite static_cast_int_of_Z.
Qed.

(** C29 A request that names a command but whose agent is missing, or whose
    parameters are missing or have the wrong type, is answered with the error
    -32602 that lists what is wrong in order; the agent is not called. *)
Theorem dispatch_invalid_params message o id c w :
  request message o id (methodName c) -> c ∈ handlers -> requestErrors c o w <> [] ->
  dispatch commandName m_dispatchMap message w =
    Done (reportProtocolError id InvalidParams (invalidParamsFormat (methodName c))
            (Some (JSONArray (map JSONString (requestErrors c o w)))) w).
Proof.
  intros Hq Hc He. rewrite (dispatch_request _ _ _ _ _ _ _ Hq).
  destruct (table_entry c Hc) as [H1 H2]. rewrite H1, handler_errors, H2. by destruct (requestErrors c o w).
Qed.

(** ** Answers *)

(** What the agents and the channel guarantee: sending appends to what the
    frontend has received, and a call to an agent only appends (it can run
    nested requests). *)
Class BackendLaws := {
  responses : W -> list (Z * jobject);
  responses_send : forall id m w, responses (sendProtocolResponse id m w) = responses w ++ [(id, m)];
  responses_invoke : forall c args w r w', invoke c args w = Done (r, w') ->
    exists nested, responses w' = responses w ++ nested;
}.

(** A response to the request [id]: either a result or an error. *)
Definition answers (id : Z) (m : jobject) : Prop :=
  get (u "id") m = Some (JSONInt id) /\
  ((is_Some (get (u "result") m) /\ get (u "error") m = None) \/
   (get (u "result") m = None /\ is_Some (get (u "error") m))).

Lemma responseMessage_answers id result : answers id (responseMessage id result).
Proof. split; [done|]. left. split; [by eexists|done]. Qed.

Lemma protocolError_answers id code message data : answers id (protocolError id code message data).
Proof. split; [done|]. right. split; [done|by eexists]. Qed.

Context {BL : BackendLaws}.

Lemma report_answers id code message data w :
  channel w = true ->
  exists m, responses (reportProtocolError id code message data w) = responses w ++ [(id, m)] /\ answers id m.
Proof.
  intros Hc. unfold reportProtocolError. rewrite Hc.
  exists (protocolError id code message data). split; [apply responses_send|apply protocolError_answers].
Qed.

Lemma sendResponse_answers id error data result w w' :
  sendResponse id error data result w = Done w' -> channel w = true ->
  exists m, responses w' = responses w ++ [(id, m)] /\ answers id m.
Proof.
  unfold sendResponse. intros H Hc. destruct error as [|c error].
  - rewrite Hc in H. destruct result as [o|]; [|done]. injection H as <-.
    exists (responseMessage id o). split; [apply responses_send|apply responseMessage_answers].
  - injection H as <-. by apply report_answers.
Qed.

(** The state in which the answer is sent: after the call to the agent, if it is
    called. *)
Inductive answeredIn (c : Command) (o : jobject) (w : W) : W -> Prop :=
  | answered_refused : requestErrors c o w <> [] -> answeredIn c o w w
  | answered_called args r w1 : requestErrors c o w = [] -> invoke c args w = Done (Returned r, w1) ->
      (c_async c = true -> r_error r <> []) -> answeredIn c o w w1.

Lemma handler_answers names c id o w w' :
  handler names c id o w = Done w' ->
  (exists w1, answeredIn c o w w1 /\
     (channel w1 = true -> exists m, responses w' = responses w1 ++ [(id, m)] /\ answers id m) /\
     (channel w1 = false -> w' = w1)) \/
  (c_async c = true /\ exists args r, invoke c args w = Done (Returned r, w') /\ r_error r = []) \/
  (exists args w1, invoke c args w = Done (Waiting, w1) /\ w' = wait id c w1).
Proof.
  rewrite handler_errors. destruct (requestErrors c o w) as [|e errors] eqn:Ee.
  - destruct (invoke c _ w) as [[[r|] w1]|] eqn:Ei; [|intros [= <-]; right; right; eauto|done].
    unfold respond. destruct (c_async c) eqn:Ea.
    + destruct (r_error r) as [|x error] eqn:Er.
      { intros [= <-]. right. left. eauto. }
      intros H. left. exists w1. split; [|split].
      * eapply answered_called; [done|exact Ei|by rewrite Er].
      * by eapply sendResponse_answers.
      * intros Hc. cbn in H. injection H as <-. unfold reportProtocolError. by rewrite Hc.
    + intros H. left. exists w1. split; [|split].
      * eapply answered_called; [done|exact Ei|congruence].
      * by eapply sendResponse_answers.
      * intros Hc. unfold sendResponse, reportProtocolError in H. rewrite Hc in H.
        by destruct (r_error r); injection H as <-.
  - intros [= <-]. left. exists w. split; [|split].
    + apply answered_refused. by rewrite Ee.
    + apply report_answers.
    + intros Hc. unfold reportProtocolError. by rewrite Hc.
Qed.

End WithBackend.

(** A method that is not in the dispatch map is answered with the error -32601
    and nothing else happens. *)
Theorem dispatch_unknown_method {W} {B : Backend W} message o id method (w : W) :
  request message o id method -> m_dispatchMap method = None ->
  dispatch commandName m_dispatchMap message w =
    Done (reportProtocolError id MethodNotFound (u "'" ++ method ++ u "' wasn't found") None w).
Proof. intros Hq Hm. rewrite (dispatch_request _ _ _ _ _ _ _ Hq). by rewrite Hm. Qed.

(** C34 A message that does not parse, is not an object, has no id or no string
    method makes [dispatch] dereference a null pointer: only assertions, which
    release builds compile out, stand before it. *)
Theorem dispatch_malformed {W} {B : Backend W} message (w : W) :
  (forall o, parseJSON message = Some (JSONObject o) ->
     get (u "id") o = None \/ forall s, get (u "method") o <> Some (JSONString s)) ->
  dispatch commandName m_dispatchMap message w = Crash.
Proof.
  intros H. unfold dispatch. destruct (parseJSON message) as [v|]; [|done].
  destruct v as [| | | |o|]; try done. cbn [asObject]. destruct (H o eq_refl) as [-> |Hm]; [done|].
  destruct (get (u "id") o); [|done].
  destruct (get (u "method") o) as [[]|]; try done. by destruct (Hm m_stringValue).
Qed.
End WithPlatform.

(** ** Callbacks *)

Inductive CallbackOp :=
  | OpSuccess (c : Command) (values : list (option JSONValue)) | OpFailure (error : ustring) | OpDisable.

Section Callbacks.
Context {W : Type} {B : Backend W}.

Definition callbackStep (op : CallbackOp) (cb : Callback) (w : W) : outcome (Callback * W) :=
  match op with
  | OpSuccess c values => sendSuccess c values cb w
  | OpFailure e => sendFailure e cb w
  | OpDisable => Done (disable cb, w)
  end.

Fixpoint callbackRun (ops : list CallbackOp) (cb : Callback) (w : W) : outcome (Callback * W) :=
  match ops with
  | [] => Done (cb, w)
  | op :: ops' =>
      match callbackStep op cb w with
      | Crash => Crash
      | Done (cb, w) => callbackRun ops' cb w
      end
  end.

Context {BL : BackendLaws}.

Lemma callbackStep_sent op cb w cb' w' :
  callbackStep op cb w = Done (cb', w') -> cb' = mkCallback (m_id cb) true /\
  exists l, responses w' = responses w ++ l /\
    (if m_alreadySent cb || negb (channel w) || match op with OpDisable => true | _ => false end then l = []
     else exists m, l = [(m_id cb, m)] /\ answers (m_id cb) m).
Proof.
  destruct cb as [id sent]; unfold callbackStep, sendSuccess, sendFailure, sendIfActive, disable. cbn [m_id m_alreadySent].
  destruct sent; [destruct op; intros [= <- <-]; (split; [done|]); exists []; by rewrite app_nil_r|].
  destruct op as [c values|e|]; [| |intros [= <- <-]; (split; [done|]); exists []; by rewrite app_nil_r, orb_true_r].
  all: destruct (sendResponse id _ _ _ w) as [w1|] eqn:E; [|done]; intros [= <- <-]; (split; [done|]);
    destruct (channel w) eqn:Hc; [destruct (sendResponse_answers _ _ _ _ _ _ E Hc) as (m & -> & Hm); exists [(id, m)]; cbn; eauto|];
    exists []; (split; [|cbn; reflexivity]); rewrite app_nil_r; unfold sendResponse, reportProtocolError in E; rewrite Hc in E.
  - congruence.
  - destruct e; congruence.
Qed.

Lemma callbackRun_disabled ops id w cb' w' :
  callbackRun ops (mkCallback id true) w = Done (cb', w') -> responses w' = responses w.
Proof.
  revert w. induction ops as [|op ops IH]; intros w; cbn; [by intros [= _ <-]|].
  destruct (callbackStep op _ w) as [[cb1 w1]|] eqn:E; [|done].
  destruct (callbackStep_sent _ _ _ _ _ E) as [-> (l & El & ->)]. rewrite app_nil_r in El.
  intros H. by rewrite (IH _ H).
Qed.

(** C33 However an agent uses the callback of an asynchronous command, the frontend
    gets at most one response through it, with the id of the request, and none
    after the callback was disabled; it gets one when it is connected and the
    agent first reports success or failure. *)
Theorem callback_at_most_once op ops cb w cb' w' :
  callbackRun (op :: ops) cb w = Done (cb', w') ->
  exists l, responses w' = responses w ++ l /\
    (if m_alreadySent cb || negb (channel w) || match op with OpDisable => true | _ => false end then l = []
     else exists m, l = [(m_id cb, m)] /\ answers (m_id cb) m).
Proof.
  cbn. destruct (callbackStep op cb w) as [[cb1 w1]|] eqn:E; [|done]. intros H.
  destruct (callbackStep_sent _ _ _ _ _ E) as [-> (l & El & Hl)].
  exists l. split; [|done]. by rewrite (callbackRun_disabled _ _ _ _ _ H).
Qed.
End Callbacks.

(** ** Witnesses: a backend with a log *)

Module LogBackend.
Record t := mk { log : list (Z * jobject); calls : list (ustring * list (option Arg)) }.

#[export] Instance backend : Backend t := {|
  available d w := bool_decide (d = "Debugger" \/ d = "Runtime");
  invoke c args w := Done (Returned (mkResult [] None (map (fun _ => Some JSONNull) (c_outs c))),
                           mk (log w) (calls w ++ [(methodName c, args)]));
  wait _ _ w := w;
  channel w := true;
  sendProtocolResponse id m w := mk (log w ++ [(id, m)]) (calls w);
|}.

#[export] Instance laws : BackendLaws := {|
  responses := log;
  responses_send _ _ _ := eq_refl;
  responses_invoke := ltac:(intros c args w r w' [= <- <-]; exists []; by rewrite app_nil_r);
|}.
End LogBackend.

#[local] Existing Instance IntegerPlatform.platform.
#[local] Existing Instances LogBackend.backend LogBackend.laws.

Definition message (method params : ustring) : ustring :=
  u "{" ++ [dquote] ++ u "id" ++ [dquote] ++ u ":7," ++ [dquote] ++ u "method" ++ [dquote] ++ u ":"
  ++ [dquote] ++ method ++ [dquote] ++ params ++ u "}".

Definition setSkipAllPausesCommand : Command :=
  mkCommand "Debugger" "setSkipAllPauses" 147 (Some [req "skipped" PBoolean]) [] false false.

Definition noParams : jobject := [(u "id", JSONInt 7); (u "method", JSONString (u "Debugger.setSkipAllPauses"))].

Lemma dispatch_invalid_params_witness :
  requestErrors setSkipAllPausesCommand noParams (LogBackend.mk [] []) = [missingContainer "skipped" "Boolean"] /\
  dispatch commandName m_dispatchMap (message (u "Debugger.setSkipAllPauses") []) (LogBackend.mk [] []) =
    Done (reportProtocolError 7 InvalidParams (invalidParamsFormat (methodName setSkipAllPausesCommand))
            (Some (JSONArray (map JSONString (requestErrors setSkipAllPausesCommand noParams (LogBackend.mk [] [])))))
            (LogBackend.mk [] [])).
Proof.
  split; [vm_compute; reflexivity|].
  apply (dispatch_invalid_params (message (u "Debugger.setSkipAllPauses") []) noParams 7
           setSkipAllPausesCommand (LogBackend.mk [] [])).
  - split; [vm_compute; reflexivity..|vm_compute; split; discriminate|vm_compute; reflexivity].
  - apply (bool_decide_unpack _). vm_compute. exact I.
  - vm_compute. discriminate.
Defined.

Definition skipAllPauses : jobject :=
  [(u "id", JSONInt 7); (u "method", JSONString (u "Debugger.setSkipAllPauses"));
   (u "params", JSONObject [(u "skipped", JSONBoolean true)])].

Definition logEnd : LogBackend.t :=
  LogBackend.mk [(7, responseMessage 7 [])] [(u "Debugger.setSkipAllPauses", [Some (ArgBoolean true)])].


Lemma dispatch_unknown_method_witness :
  dispatch commandName m_dispatchMap (message (u "Debugger.fly") []) (LogBackend.mk [] []) =
    Done (reportProtocolError 7 MethodNotFound (u "'Debugger.fly' wasn't found") None (LogBackend.mk [] [])).
Proof.
  apply (dispatch_unknown_method (message (u "Debugger.fly") [])
           [(u "id", JSONInt 7); (u "method", JSONString (u "Debugger.fly"))] 7 (u "Debugger.fly")).
  - split; [vm_compute; reflexivity..|vm_compute; split; discriminate|vm_compute; reflexivity].
  - vm_compute. reflexivity.
Defined.

Lemma dispatch_malformed_witness :
  dispatch commandName m_dispatchMap (u "{}") (LogBackend.mk [] []) = Crash.
Proof.
  apply (dispatch_malformed (u "{}")). intros o Ho. left.
  assert (parseJSON (u "{}") = Some (JSONObject [])) as E by (vm_compute; reflexivity).
  rewrite E in Ho. injection Ho as <-. reflexivity.
Defined.

Lemma callback_at_most_once_witness :
  exists l, LogBackend.log (LogBackend.mk [(7, protocolError 7 ServerError (u "No resource") None)] []) = [] ++ l /\
    exists m, l = [(7, m)] /\ answers 7 m.
Proof.
  destruct (callback_at_most_once (OpFailure (u "No resource")) [OpFailure (u "Again"); OpDisable]
           (mkCallback 7 false) (LogBackend.mk [] []) (mkCallback 7 true)
           (LogBackend.mk [(7, protocolError 7 ServerError (u "No resource") None)] [])) as (l & El & Hl);
    [vm_compute; reflexivity|].
  exists l. split; [exact El|exact Hl].
Defined.
