(* ===== verification/StringSearch.v ===== *)
(** * Searching in strings ([wtf/text/StringImpl.cpp], [wtf/text/TextPosition.cpp])

    Substring search keeps a running sum of the window of units it looks at and
    compares the window only when the sum equals that of the wanted string.
    The lemmas show that the sums change no result. *)

From S2P Require Import Prelude Platform WTFString.

(** [s\[i\]]; out of range never happens in the code below. *)
Definition at_ (s : ustring) (i : nat) : Z := nth i s 0.

(** The unit sum of a window, as the [unsigned] the code adds up. *)
Definition hashStep (hash : Z) (c : Z) : Z := wrapU 32 (hash + c).
Definition windowHash (w : ustring) : Z := fold_left hashStep w 0.

Definition window (s : ustring) (i n : nat) : ustring := take n (drop i s).

(** [WTF::find] for one unit. *)
Fixpoint findCharLoop (c : Z) (index : nat) (rest : ustring) : option nat :=
  match rest with
  | [] => None
  | x :: rest' => if x =? c then Some index else findCharLoop c (S index) rest'
  end.

Definition findChar (c : Z) (s : ustring) (index : nat) : option nat := findCharLoop c index (drop index s).

(** The loop of [findInternal], [remaining] being [delta - i]. *)
Fixpoint findLoop (remaining : nat) (search matched : ustring) (searchHash matchHash : Z) (i : nat) : option nat :=
  if (searchHash =? matchHash) && bool_decide (window search i (length matched) = matched) then Some i
  else match remaining with
       | O => None
       | S remaining' =>
           findLoop remaining' search matched
             (wrapU 32 (hashStep searchHash (at_ search (i + length matched)) - at_ search i)) matchHash (S i)
       end.

Definition findInternal (search matched : ustring) : option nat :=
  findLoop (length search - length matched) search matched
    (windowHash (window search 0 (length matched))) (windowHash matched) 0.

(** [StringImpl::find] of a string from [index] on. *)
Definition find (matched search : ustring) (index : nat) : option nat :=
  match matched with
  | [] => Some (min index (length search))
  | [c] => findChar c search index
  | _ =>
      if (length search <? index)%nat then None
      else if (length search - index <? length matched)%nat then None
      else Nat.add index <$> findInternal (drop index search) matched
  end.

Fixpoint reverseFindLoop (delta : nat) (search matched : ustring) (searchHash matchHash : Z) : option nat :=
  if (searchHash =? matchHash) && bool_decide (window search delta (length matched) = matched) then Some delta
  else match delta with
       | O => None
       | S delta' =>
           reverseFindLoop delta' search matched
             (hashStep (wrapU 32 (searchHash - at_ search (delta' + length matched))) (at_ search delta')) matchHash
       end.

Definition reverseFindInner (search matched : ustring) (index : nat) : option nat :=
  let delta := min index (length search - length matched) in
  reverseFindLoop delta search matched (windowHash (window search delta (length matched))) (windowHash matched).

(** [WTF::reverseFind] for one unit. *)
Fixpoint reverseFindCharLoop (c : Z) (s : ustring) (index : nat) : option nat :=
  if at_ s index =? c then Some index
  else match index with O => None | S index' => reverseFindCharLoop c s index' end.

Definition reverseFindChar (c : Z) (s : ustring) (index : nat) : option nat :=
  match s with
  | [] => None
  | _ => reverseFindCharLoop c s (min index (length s - 1))
  end.

(** [StringImpl::reverseFind]: the last occurrence that starts at [index] or before. *)
Definition reverseFind (matched search : ustring) (index : nat) : option nat :=
  match matched with
  | [] => Some (min index (length search))
  | [c] => reverseFindChar c search index
  | _ => if (length search <? length matched)%nat then None else reverseFindInner search matched index
  end.

(** [StringImpl::substring]. *)
Definition substring (start len : nat) (s : ustring) : ustring :=
  if (length s <=? start)%nat then [] else take len (drop start s).

(** [StringImpl::stripWhiteSpace]. *)
Fixpoint skipStart `{Platform} (s : ustring) : ustring :=
  match s with
  | c :: s' => if isSpaceOrNewline c then skipStart s' else s
  | [] => []
  end.

Definition stripWhiteSpace `{Platform} (s : ustring) : ustring := reverse (skipStart (reverse (skipStart s))).

(** [lineEndings]: the positions of the line feeds and the end of the text. *)
Fixpoint lineEndingsLoop (fuel : nat) (text : ustring) (start : nat) : list nat :=
  match fuel with
  | O => []
  | S fuel' =>
      if (start <? length text)%nat
      then match findChar 10 text start with
           | None => [length text]
           | Some lineEnd => lineEnd :: lineEndingsLoop fuel' text (S lineEnd)
           end
      else [length text]
  end.

Definition lineEndings (text : ustring) : list nat := lineEndingsLoop (S (length text)) text 0.

(** ** What the searches return *)

Definition sum (w : ustring) : Z := foldr Z.add 0 w.

Lemma hashStep_sum w acc : fold_left hashStep w (wrapU 32 acc) = wrapU 32 (acc + sum w).
Proof.
  revert acc. induction w as [|c w IH]; intros acc; cbn [fold_left sum foldr]; [by rewrite Z.add_0_r|].
  replace (hashStep (wrapU 32 acc) c) with (wrapU 32 (acc + c)).
  - rewrite IH. f_equal. unfold sum. lia.
  - unfold hashStep, wrapU. by rewrite Zplus_mod_idemp_l.
Qed.

Lemma windowHash_sum w : windowHash w = wrapU 32 (sum w).
Proof. apply (hashStep_sum w 0). Qed.

Lemma sum_app v w : sum (v ++ w) = sum v + sum w.
Proof. induction v as [|c v IH]; cbn in *; [done|]. unfold sum in *. lia. Qed.

Lemma drop_at s i : (i < length s)%nat -> drop i s = at_ s i :: drop (S i) s.
Proof.
  revert i. induction s as [|c s IH]; intros i Hi; [simpl in Hi; lia|].
  destruct i as [|i]; [done|]. simpl in Hi. cbn [drop]. by rewrite IH by lia.
Qed.

Lemma window_front s i n : (i < length s)%nat -> window s i (S n) = at_ s i :: window s (S i) n.
Proof. intros Hi. unfold window. by rewrite (drop_at s i). Qed.

Lemma window_back s i n : (i + n < length s)%nat -> window s i (S n) = window s i n ++ [at_ s (i + n)].
Proof.
  revert i. induction n as [|n IH]; intros i Hi.
  - rewrite window_front by lia. unfold window. by rewrite Nat.add_0_r, !take_0.
  - rewrite window_front, IH by lia. rewrite (window_front s i n) by lia. cbn [app].
    by replace (S i + n)%nat with (i + S n)%nat by lia.
Qed.

(** Moving the window by one unit. *)
Lemma sum_window s i n :
  (i + n < length s)%nat -> sum (window s (S i) n) + at_ s i = sum (window s i n) + at_ s (i + n).
Proof.
  intros Hi. pose proof (f_equal sum (window_front s i n ltac:(lia))) as Hf.
  rewrite window_back, sum_app in Hf by done. cbn in Hf. unfold sum in *. lia.
Qed.

Lemma hash_up s i n :
  (i + n < length s)%nat ->
  wrapU 32 (hashStep (windowHash (window s i n)) (at_ s (i + n)) - at_ s i) = windowHash (window s (S i) n).
Proof.
  intros Hi. rewrite !windowHash_sum. unfold hashStep, wrapU.
  rewrite Zminus_mod_idemp_l, <- Zminus_mod_idemp_l, Zplus_mod_idemp_l, Zminus_mod_idemp_l.
  f_equal. pose proof (sum_window s i n Hi). lia.
Qed.

Lemma hash_down s i n :
  (i + n < length s)%nat ->
  hashStep (wrapU 32 (windowHash (window s (S i) n) - at_ s (i + n))) (at_ s i) = windowHash (window s i n).
Proof.
  intros Hi. rewrite !windowHash_sum. unfold hashStep, wrapU.
  rewrite Zplus_mod_idemp_l, <- Zplus_mod_idemp_l, Zminus_mod_idemp_l, Zplus_mod_idemp_l.
  f_equal. pose proof (sum_window s i n Hi). lia.
Qed.

Definition occursAt (m s : ustring) (i : nat) : Prop := exists pre post, s = pre ++ m ++ post /\ length pre = i.

(** The first occurrence from a position on, and the last one up to a position. *)
Definition firstFrom (m s : ustring) (lo : nat) (r : option nat) : Prop :=
  match r with
  | Some k => (lo <= k)%nat /\ occursAt m s k /\ forall j, (lo <= j < k)%nat -> ~ occursAt m s j
  | None => forall j, (lo <= j)%nat -> ~ occursAt m s j
  end.

Definition lastUpTo (m s : ustring) (hi : nat) (r : option nat) : Prop :=
  match r with
  | Some k => (k <= hi)%nat /\ occursAt m s k /\ forall j, (k < j <= hi)%nat -> ~ occursAt m s j
  | None => forall j, (j <= hi)%nat -> ~ occursAt m s j
  end.

Lemma occursAt_window m s i : m <> [] -> occursAt m s i <-> window s i (length m) = m.
Proof.
  intros Hm. unfold occursAt, window. split.
  - intros (pre & post & -> & <-). by rewrite drop_app_length, take_app_length.
  - intros E. exists (take i s), (drop (length m) (drop i s)).
    split; [by rewrite <- E at 1; rewrite take_drop, take_drop|].
    apply length_take_le. destruct (Nat.le_gt_cases (length s) i); [|lia].
    rewrite drop_ge, take_nil in E by done. by destruct m.
Qed.

Lemma occursAt_bound m s i : occursAt m s i -> (i + length m <= length s)%nat.
Proof. intros (pre & post & -> & <-). rewrite !length_app. lia. Qed.

(** The test of both loops. *)
Lemma hit_true m s i :
  m <> [] ->
  ((windowHash (window s i (length m)) =? windowHash m) &&
     bool_decide (window s i (length m) = m)) = true <-> occursAt m s i.
Proof.
  intros Hm. rewrite occursAt_window, andb_true_iff, bool_decide_eq_true by done. split; [tauto|].
  intros E. split; [|done]. by rewrite E, Z.eqb_refl.
Qed.

Lemma hit_false m s i :
  m <> [] ->
  ((windowHash (window s i (length m)) =? windowHash m) &&
     bool_decide (window s i (length m) = m)) = false -> ~ occursAt m s i.
Proof. intros Hm E Ho. apply hit_true in Ho; [|done]. congruence. Qed.

Lemma firstFrom_hit m s i : occursAt m s i -> firstFrom m s i (Some i).
Proof. intros. split_and!; [lia|done|intros; lia]. Qed.

Lemma firstFrom_skip m s i r : ~ occursAt m s i -> firstFrom m s (S i) r -> firstFrom m s i r.
Proof.
  intros Hi. assert (forall j, (i <= j)%nat -> j = i \/ (S i <= j)%nat) as Hs by lia.
  destruct r as [k|]; cbn.
  - intros (? & ? & Hr). split_and!; [lia|done|].
    intros j Hj. destruct (Hs j) as [->|]; [lia|done|apply Hr; lia].
  - intros Hr j Hj. destruct (Hs j) as [->|]; [lia|done|auto].
Qed.

Lemma lastUpTo_hit m s i : occursAt m s i -> lastUpTo m s i (Some i).
Proof. intros. split_and!; [lia|done|intros; lia]. Qed.

Lemma lastUpTo_skip m s i r : ~ occursAt m s (S i) -> lastUpTo m s i r -> lastUpTo m s (S i) r.
Proof.
  intros Hi. assert (forall j, (j <= S i)%nat -> j = S i \/ (j <= i)%nat) as Hs by lia.
  destruct r as [k|]; cbn.
  - intros (? & ? & Hr). split_and!; [lia|done|].
    intros j Hj. destruct (Hs j) as [->|]; [lia|done|apply Hr; lia].
  - intros Hr j Hj. destruct (Hs j) as [->|]; [lia|done|auto].
Qed.

Lemma lastUpTo_none m s : ~ occursAt m s 0 -> lastUpTo m s 0 None.
Proof. intros Hn j Hj. by replace j with 0%nat by lia. Qed.

Lemma findLoop_spec remaining s m i :
  m <> [] -> (i + remaining + length m = length s)%nat ->
  firstFrom m s i (findLoop remaining s m (windowHash (window s i (length m))) (windowHash m) i).
Proof.
  intros Hm. revert i. induction remaining as [|r IH]; intros i Hi; cbn [findLoop]; destruct (_ && _) eqn:E.
  - apply firstFrom_hit. by apply hit_true in E.
  - apply hit_false in E; [|done]. apply firstFrom_skip; [done|]. intros j Hj Ho.
    pose proof (occursAt_bound _ _ _ Ho). lia.
  - apply firstFrom_hit. by apply hit_true in E.
  - apply hit_false in E; [|done]. apply firstFrom_skip; [done|].
    rewrite hash_up by (destruct m; [done|simpl in *; lia]). apply IH. lia.
Qed.

Lemma reverseFindLoop_spec delta s m :
  m <> [] -> (delta + length m <= length s)%nat ->
  lastUpTo m s delta (reverseFindLoop delta s m (windowHash (window s delta (length m))) (windowHash m)).
Proof.
  intros Hm. induction delta as [|d IH]; intros Hd; cbn [reverseFindLoop]; destruct (_ && _) eqn:E.
  - apply lastUpTo_hit. by apply hit_true in E.
  - apply hit_false in E; [|done]. by apply lastUpTo_none.
  - apply lastUpTo_hit. by apply hit_true in E.
  - apply hit_false in E; [|done]. apply lastUpTo_skip; [done|]. rewrite hash_down by lia. apply IH. lia.
Qed.

Lemma occursAt_char c s i : (i < length s)%nat -> occursAt [c] s i <-> at_ s i = c.
Proof.
  intros Hi. rewrite occursAt_window by done. unfold window. rewrite drop_at by done. cbn.
  split; [by intros [= ->]|by intros ->].
Qed.

Lemma findCharLoop_spec c s index rest :
  drop index s = rest -> firstFrom [c] s index (findCharLoop c index rest).
Proof.
  revert index. induction rest as [|x rest IH]; intros index E; cbn [findCharLoop].
  - intros j Hj Ho. pose proof (occursAt_bound _ _ _ Ho) as Hb. simpl in Hb.
    apply (f_equal length) in E. rewrite length_drop in E. simpl in E. lia.
  - assert (index < length s)%nat as Hl.
    { apply (f_equal length) in E. rewrite length_drop in E. simpl in E. lia. }
    rewrite drop_at in E by done. injection E as <- Er.
    destruct (Z.eqb_spec (at_ s index) c) as [Hc|Hc]; rewrite <- (occursAt_char c) in Hc by done.
    + by apply firstFrom_hit.
    + apply firstFrom_skip; [done|]. by apply IH.
Qed.

Lemma occursAt_drop m s n i :
  (n <= length s)%nat -> occursAt m (drop n s) i <-> occursAt m s (n + i).
Proof.
  intros Hn. split.
  - intros (pre & post & E & Hl). exists (take n s ++ pre), post.
    rewrite <- app_assoc, <- E, take_drop, length_app, length_take. split; [done|lia].
  - intros (pre & post & -> & Hl). exists (drop n pre), post.
    rewrite drop_app_le, length_drop by lia. split; [done|lia].
Qed.

(** [find] returns the first occurrence from the index on. *)
Lemma find_first m s index : m <> [] -> firstFrom m s index (find m s index).
Proof.
  intros Hm. unfold find. destruct m as [|c [|c' m]]; [done|by apply findCharLoop_spec|].
  set (w := c :: c' :: m) in *. clearbody w. destruct (Nat.ltb_spec (length s) index).
  { intros j Hj Ho. apply occursAt_bound in Ho. lia. }
  destruct (Nat.ltb_spec (length s - index) (length w)).
  { intros j Hj Ho. apply occursAt_bound in Ho. lia. }
  pose proof (findLoop_spec (length (drop index s) - length w) (drop index s) w 0 Hm) as Hf.
  rewrite length_drop in Hf. specialize (Hf ltac:(lia)). unfold findInternal.
  rewrite length_drop. destruct (findLoop _ _ _ _ _) as [k|]; cbn in *.
  - destruct Hf as (_ & Ho & Hf). rewrite <- occursAt_drop by done. split_and!; [lia|done|].
    intros j Hj Ho'. apply (Hf (j - index)%nat); [lia|]. apply occursAt_drop; [done|].
    by replace (index + (j - index))%nat with j by lia.
  - intros j Hj Ho'. apply (Hf (j - index)%nat); [lia|]. apply occursAt_drop; [done|].
    by replace (index + (j - index))%nat with j by lia.
Qed.

Lemma reverseFindCharLoop_spec c s index :
  (index < length s)%nat -> lastUpTo [c] s index (reverseFindCharLoop c s index).
Proof.
  induction index as [|i IH]; intros Hi; cbn [reverseFindCharLoop];
    case Z.eqb_spec; intros Hc; rewrite <- (occursAt_char c) in Hc by done.
  - by apply lastUpTo_hit.
  - by apply lastUpTo_none.
  - by apply lastUpTo_hit.
  - apply lastUpTo_skip; [done|]. apply IH. lia.
Qed.

(** A bound beyond the last possible position is no restriction. *)
Lemma lastUpTo_min m s hi n r :
  (length s <= n + length m)%nat -> lastUpTo m s (min hi n) r -> lastUpTo m s hi r.
Proof.
  intros Hn. assert (forall j, (j <= hi)%nat -> occursAt m s j -> (j <= min hi n)%nat) as Hb.
  { intros j Hj Ho%occursAt_bound. lia. }
  destruct r as [k|]; cbn.
  - intros (? & ? & Hr). split_and!; [lia|done|]. intros j Hj Ho.
    apply (Hr j); [|done]. split; [lia|]. apply Hb; [lia|done].
  - intros Hr j Hj Ho. apply (Hr j); [|done]. by apply Hb.
Qed.

(** [reverseFind] returns the last occurrence up to the index. *)
Lemma reverseFind_last m s index : m <> [] -> lastUpTo m s index (reverseFind m s index).
Proof.
  intros Hm. unfold reverseFind. destruct m as [|c [|c' m]]; [done| |].
  - unfold reverseFindChar. destruct s as [|x s].
    { intros j _ Ho%occursAt_bound. simpl in Ho. lia. }
    eapply lastUpTo_min; [|apply reverseFindCharLoop_spec; cbn [length]; lia]. cbn [length]. lia.
  - set (w := c :: c' :: m) in *. clearbody w. destruct (Nat.ltb_spec (length s) (length w)).
    { intros j Hj Ho%occursAt_bound. lia. }
    unfold reverseFindInner. eapply lastUpTo_min; [|apply reverseFindLoop_spec; [done|lia]].
    lia.
Qed.
