(* ===== verification/HashTables.v ===== *)
(** * Hash tables

    [wtf/HashTable.h] and [wtf/HashMap.h]: open addressing with double hashing, a
    key that marks empty buckets and one that marks deleted buckets.  The allocator
    is the default one, and always finds memory.  Pointers to buckets are indices. *)

From S2P Require Import Prelude.

(** The loops of a table end, or visit its buckets over and over; a
    [RELEASE_ASSERT] stops the program. *)
Inductive Ends (A : Type) : Type :=
  | Returns (a : A)
  | Hangs
  | Aborts.
Arguments Returns {A} a.
Arguments Hangs {A}.
Arguments Aborts {A}.

#[export] Instance Ends_ret : MRet Ends := fun A a => Returns a.
#[export] Instance Ends_bind : MBind Ends := fun A B k m =>
  match m with
  | Returns a => k a
  | Hangs => Hangs
  | Aborts => Aborts
  end.

(** ** Hash functions ([wtf/HashFunctions.h]) *)

Abbreviation bitNot32 key := (Z.lxor key 4294967295).

Definition intHash (key : Z) : Z :=
  let key := wrapU 32 (key + bitNot32 (wrapU 32 (Z.shiftl key 15))) in
  let key := Z.lxor key (Z.shiftr key 10) in
  let key := wrapU 32 (key + wrapU 32 (Z.shiftl key 3)) in
  let key := Z.lxor key (Z.shiftr key 6) in
  let key := wrapU 32 (key + bitNot32 (wrapU 32 (Z.shiftl key 11))) in
  Z.lxor key (Z.shiftr key 16).

(** What a table knows of its keys ([wtf/HashTraits.h] and the hash functions). *)
Class KeyTraits (K : Type) := {
  emptyValue : K;
  deletedValue : K;
  hash : K -> Z;
  safeToCompareToEmptyOrDeleted : bool;
  minimumTableSize : Z;
}.

(** [HashTraits<int>] and [IntHash<int>]. *)
Definition intTraits : KeyTraits Z := {|
  emptyValue := 0;
  deletedValue := -1;
  hash key := intHash (wrapU 32 key);
  safeToCompareToEmptyOrDeleted := true;
  minimumTableSize := 8;
|}.

Module HashTable.

Record t (K V : Type) := mk {
  m_table : list (K * V);
  m_tableSize : Z;
  m_keyCount : Z;
  m_deletedCount : Z;
}.
Arguments mk {K V}.
Arguments m_table {K V}.
Arguments m_tableSize {K V}.
Arguments m_keyCount {K V}.
Arguments m_deletedCount {K V}.

#[export] Instance fields_ {K V} : Fields (t K V) := fun r => mk (m_table r) (m_tableSize r) (m_keyCount r) (m_deletedCount r).

Definition doubleHash (key : Z) : Z :=
  let key := wrapU 32 (bitNot32 key + Z.shiftr key 23) in
  let key := Z.lxor key (wrapU 32 (Z.shiftl key 12)) in
  let key := Z.lxor key (Z.shiftr key 7) in
  let key := Z.lxor key (wrapU 32 (Z.shiftl key 2)) in
  Z.lxor key (Z.shiftr key 20).

(** The step of a probe, computed when it is first needed, and the next index. *)
Definition probeStep (h k : Z) : Z := if k =? 0 then Z.lor 1 (doubleHash h) else k.

Section Keys.
Context {K V : Type} `{EqDecision K} {T : KeyTraits K}.
Implicit Types (b : K * V) (r : t K V).

Definition new : t K V := mk [] 0 0 0.

Definition isEmptyBucket b : bool := bool_decide (b.1 = emptyValue).
Definition isDeletedBucket b : bool := bool_decide (b.1 = deletedValue).
Definition isEmptyOrDeletedBucket b : bool := isEmptyBucket b || isDeletedBucket b.

Definition tableSizeMask r : Z := m_tableSize r - 1.

Definition shouldExpand r : bool := m_tableSize r <=? wrapU 32 (wrapU 32 (m_keyCount r + m_deletedCount r) * 2).
Definition mustRehashInPlace r : bool := wrapU 32 (m_keyCount r * 6) <? wrapU 32 (m_tableSize r * 2).
Definition shouldShrink r : bool := (wrapU 32 (m_keyCount r * 6) <? m_tableSize r) && (minimumTableSize <? m_tableSize r).

(** ** Finding *)

(** [while (1)]: after as many steps as there are buckets a probe is back at its
    start. *)
Fixpoint lookupLoop (fuel : nat) (table : list (K * V)) (sizeMask h : Z) (key : K) (k i : Z) : Ends (option Z) :=
  match fuel with
  | O => Hangs
  | S fuel' =>
      match table !! Z.to_nat i with
      | None => Aborts
      | Some entry =>
          let continue :=
            let k := probeStep h k in
            lookupLoop fuel' table sizeMask h key k (Z.land (i + k) sizeMask) in
          if safeToCompareToEmptyOrDeleted then
            if decide (entry.1 = key) then Returns (Some i)
            else if isEmptyBucket entry then Returns None
            else continue
          else
            if isEmptyBucket entry then Returns None
            else if negb (isDeletedBucket entry) && bool_decide (entry.1 = key) then Returns (Some i)
            else continue
      end
  end.

(** A null pointer is no table. *)
Definition lookup (key : K) r : Ends (option Z) :=
  match m_table r with
  | [] => Returns None
  | table =>
      let sizeMask := tableSizeMask r in
      let h := hash key in
      lookupLoop (length table) table sizeMask h key 0 (Z.land h sizeMask)
  end.

(** The bucket of the key, or the one to put it in: the last deleted one that the
    probe has passed, or the empty one at its end. *)
Fixpoint writingLoop (fuel : nat) (table : list (K * V)) (sizeMask h : Z) (key : K) (deletedEntry : option Z) (k i : Z)
    : Ends (Z * bool) :=
  match fuel with
  | O => Hangs
  | S fuel' =>
      match table !! Z.to_nat i with
      | None => Aborts
      | Some entry =>
          let continue deletedEntry :=
            let k := probeStep h k in
            writingLoop fuel' table sizeMask h key deletedEntry k (Z.land (i + k) sizeMask) in
          if isEmptyBucket entry then Returns (default i deletedEntry, false)
          else if safeToCompareToEmptyOrDeleted then
            if decide (entry.1 = key) then Returns (i, true)
            else continue (if isDeletedBucket entry then Some i else deletedEntry)
          else
            if isDeletedBucket entry then continue (Some i)
            else if decide (entry.1 = key) then Returns (i, true)
            else continue deletedEntry
      end
  end.

Definition lookupForWriting (key : K) r : Ends (Z * bool) :=
  let sizeMask := tableSizeMask r in
  let h := hash key in
  writingLoop (length (m_table r)) (m_table r) sizeMask h key None 0 (Z.land h sizeMask).

(** ** Changing the size *)

Definition setBucket (i : Z) b r : t K V := r <| m_table := <[Z.to_nat i := b]> (m_table r) |>.

Definition reinsert b r : Ends (Z * t K V) :=
  p ← lookupForWriting b.1 r;
  mret (p.1, setBucket p.1 b r).

(** Moves the buckets of the old table, numbered from [i]; the new place of [entry]. *)
Fixpoint rehashLoop (oldTable : list (K * V)) (i : Z) (entry newEntry : option Z) r : Ends (option Z * t K V) :=
  match oldTable with
  | [] => mret (newEntry, r)
  | b :: oldTable' =>
      if isEmptyOrDeletedBucket b then rehashLoop oldTable' (i + 1) entry newEntry r
      else
        p ← reinsert b r;
        rehashLoop oldTable' (i + 1) entry (if decide (entry = Some i) then Some p.1 else newEntry) p.2
  end.

Definition rehashTo (newTable : list (K * V)) (newTableSize : Z) (entry : option Z) r : Ends (option Z * t K V) :=
  p ← rehashLoop (m_table r) 0 entry None (r <| m_table := newTable |> <| m_tableSize := newTableSize |>);
  mret (p.1, p.2 <| m_deletedCount := 0 |>).

Section Values.
Context (emptyMapped : V).

Definition emptyBucket : K * V := (emptyValue, emptyMapped).
Definition deletedBucket : K * V := (deletedValue, emptyMapped).

Definition allocateTable (size : Z) : list (K * V) := replicate (Z.to_nat size) emptyBucket.

Definition rehash (newTableSize : Z) (entry : option Z) r : Ends (option Z * t K V) :=
  rehashTo (allocateTable newTableSize) newTableSize entry r.

Definition expand (entry : option Z) r : Ends (option Z * t K V) :=
  if m_tableSize r =? 0 then rehash minimumTableSize entry r
  else if mustRehashInPlace r then rehash (m_tableSize r) entry r
  else
    let newSize := wrapU 32 (m_tableSize r * 2) in
    if m_tableSize r <? newSize then rehash newSize entry r else Aborts.

Definition shrink r : Ends (t K V) :=
  p ← rehash (m_tableSize r / 2) None r;
  mret p.2.

(** ** Adding and removing *)

(** [AddResult]: the bucket and whether it is new.  The loop of [add] is that of
    [lookupForWriting], and it has passed a deleted bucket when the one to write to is
    deleted; [addPassingHashCode] is written that way. *)
Definition add (key : K) (extra : V) r : Ends (Z * bool * t K V) :=
  r ← match m_table r with
      | [] => p ← expand None r; mret p.2
      | _ => mret r
      end;
  p ← lookupForWriting key r;
  let '(entry, found) := (p : Z * bool) in
  if found then mret (entry, false, r)
  else
    let deleted := match m_table r !! Z.to_nat entry with Some b => isDeletedBucket b | None => false end in
    let r := if deleted then r <| m_deletedCount := wrapU 31 (m_deletedCount r - 1) |> else r in
    let r := setBucket entry (key, extra) r in
    let r := r <| m_keyCount := wrapU 32 (m_keyCount r + 1) |> in
    if shouldExpand r
    then p ← expand (Some entry) r; mret (default 0 p.1, true, p.2)
    else mret (entry, true, r).

Definition removeBucket (pos : Z) r : Ends (t K V) :=
  let r := setBucket pos deletedBucket r in
  let r := r <| m_deletedCount := wrapU 31 (m_deletedCount r + 1) |> <| m_keyCount := wrapU 32 (m_keyCount r - 1) |> in
  if shouldShrink r then shrink r else mret r.

Definition remove (key : K) r : Ends (t K V) :=
  it ← lookup key r;
  match it with
  | None => mret r
  | Some pos => removeBucket pos r
  end.

(** The number of deleted buckets stays. *)
Definition clear r : t K V :=
  match m_table r with
  | [] => r
  | _ => r <| m_table := [] |> <| m_tableSize := 0 |> <| m_keyCount := 0 |>
  end.

(** What the iterators of a table visit. *)
Definition elements r : list (K * V) :=
  if m_keyCount r =? 0 then [] else List.filter (fun b => negb (isEmptyOrDeletedBucket b)) (m_table r).

(** The copy constructor adds the elements one by one. *)
Fixpoint addAll (l : list (K * V)) r : Ends (t K V) :=
  match l with
  | [] => mret r
  | b :: l' => p ← add b.1 b.2 r; addAll l' p.2
  end.

Definition copy other : Ends (t K V) := addAll (elements other) new.

Definition swap r other : t K V * t K V :=
  (r <| m_table := m_table other |> <| m_tableSize := m_tableSize other |> <| m_keyCount := m_keyCount other |>
     <| m_deletedCount := m_deletedCount other |>,
   other <| m_table := m_table r |> <| m_tableSize := m_tableSize r |> <| m_keyCount := m_keyCount r |>
     <| m_deletedCount := m_deletedCount r |>).

(** [operator=]. *)
Definition assign other r : Ends (t K V) :=
  tmp ← copy other;
  mret (swap r tmp).1.

End Values.
End Keys.
End HashTable.

(** ** Maps *)

Module HashMap.
Section Maps.
Context {K V : Type} `{EqDecision K} {T : KeyTraits K} (emptyMapped : V).
Implicit Types r : HashTable.t K V.

(** With the [storedValue] of its result. *)
Definition set (key : K) (mapped : V) r : Ends (Z * HashTable.t K V) :=
  p ← HashTable.add emptyMapped key mapped r;
  let '(entry, isNewEntry, r) := (p : Z * bool * HashTable.t K V) in
  if isNewEntry : bool then mret (entry, r)
  else
    match HashTable.m_table r !! Z.to_nat entry with
    | Some b => mret (entry, HashTable.setBucket entry (b.1, mapped) r)
    | None => Aborts
    end.

Definition add (key : K) (mapped : V) r : Ends (HashTable.t K V) :=
  p ← HashTable.add emptyMapped key mapped r;
  mret p.2.

Definition get (key : K) r : Ends V :=
  it ← HashTable.lookup key r;
  mret (default emptyMapped (snd <$> (it ≫= fun i => HashTable.m_table r !! Z.to_nat i))).

Definition contains (key : K) r : Ends bool :=
  it ← HashTable.lookup key r;
  mret (match it with Some _ => true | None => false end).

Definition remove (key : K) r : Ends (HashTable.t K V) := HashTable.remove emptyMapped key r.

(** The value of the key, which is removed. *)
Definition take (key : K) r : Ends (V * HashTable.t K V) :=
  it ← HashTable.lookup key r;
  match it with
  | None => mret (emptyMapped, r)
  | Some pos =>
      r' ← HashTable.removeBucket emptyMapped pos r;
      mret (default emptyMapped (snd <$> (HashTable.m_table r !! Z.to_nat pos)), r')
  end.

Definition clear r : HashTable.t K V := HashTable.clear r.
Definition size r : Z := HashTable.m_keyCount r.
Definition isEmpty r : bool := size r =? 0.

End Maps.
End HashMap.
