(* ===== verification/HashTableFacts.v ===== *)
(** * Hash tables are maps

    A table whose keys are valid (neither the empty nor the deleted one) implements
    a finite map: the probes of the loops visit every bucket, so they end while there
    is an empty bucket, which the load of a table guarantees.  A lookup of the empty
    key finds an empty bucket, and removing it makes the table lose count. *)

From S2P Require Import Prelude HashTables.

#[local] Existing Instance HashTable.fields_.

(** ** Probes *)

Section Probes.
Implicit Types h s : Z.

Definition stride h : Z := Z.lor 1 (HashTable.doubleHash h).

Lemma stride_odd h : Z.odd (stride h) = true.
Proof. rewrite <- Z.bit0_odd. unfold stride. by rewrite Z.lor_spec. Qed.

Lemma stride_coprime h s : 0 <= s -> Z.gcd (2 ^ s) (stride h) = 1.
Proof.
  intros Hs. apply Z.coprime_pow_l; [done|]. pose proof (stride_odd h) as Ho. apply Z.odd_spec in Ho as [q ->].
  unfold Z.coprime. rewrite Z.gcd_comm, (Z.add_comm _ 1), Z.mul_comm. rewrite Z.gcd_comm. by rewrite Z.gcd_add_mult_diag_r.
Qed.

(** The bucket that the step [n] of a probe looks at. *)
Definition position h (size : Z) (n : nat) : Z := (h + Z.of_nat n * stride h) mod size.

Lemma position_range h s n : 0 <= s -> 0 <= position h (2 ^ s) n < 2 ^ s.
Proof. intros Hs. apply Z.mod_pos_bound. lia. Qed.

Lemma position_inj h s n m :
  0 <= s -> (Z.of_nat n < 2 ^ s) -> (Z.of_nat m < 2 ^ s) -> position h (2 ^ s) n = position h (2 ^ s) m -> n = m.
Proof.
  unfold position. intros Hs Hn Hm He. assert (2 ^ s <> 0) as Hz by lia.
  assert ((2 ^ s | stride h * (Z.of_nat n - Z.of_nat m))) as Hd.
  { apply Z.mod_divide; [done|]. replace (stride h * _) with (h + Z.of_nat n * stride h - (h + Z.of_nat m * stride h)) by lia.
    rewrite Zminus_mod, He, Z.sub_diag. by apply Z.mod_0_l. }
  apply Z.gauss in Hd; [|by apply stride_coprime]. destruct Hd as [q Hq].
  assert (q = 0) as -> by nia. lia.
Qed.

(** All buckets, in the order of the probe. *)
Definition path h (size : Z) : list Z := map (position h size) (seq 0 (Z.to_nat size)).

Lemma path_nodup h s : 0 <= s -> NoDup (path h (2 ^ s)).
Proof.
  intros Hs. apply NoDup_fmap_2_strong; [|apply NoDup_seq]. intros n m Hn%elem_of_seq Hm%elem_of_seq.
  apply position_inj; lia.
Qed.

Lemma path_covers h s p : 0 <= s -> 0 <= p < 2 ^ s -> p ∈ path h (2 ^ s).
Proof.
  intros Hs Hp. assert (path h (2 ^ s) ≡ₚ map Z.of_nat (seq 0 (Z.to_nat (2 ^ s)))) as ->.
  - apply submseteq_length_Permutation; [|unfold path; by rewrite !length_map].
    apply NoDup_submseteq; [by apply path_nodup|]. intros x (n & -> & _)%list_elem_of_fmap.
    pose proof (position_range h s n Hs). apply list_elem_of_fmap. exists (Z.to_nat (position h (2 ^ s) n)).
    split; [lia|]. apply elem_of_seq. lia.
  - apply list_elem_of_fmap. exists (Z.to_nat p). split; [lia|]. apply elem_of_seq. lia.
Qed.

(** The loops compute the positions one from the other. *)
Definition strideAt h (n : nat) : Z := match n with O => 0 | S _ => stride h end.

Lemma probeStep_at h n : HashTable.probeStep h (strideAt h n) = stride h.
Proof.
  unfold HashTable.probeStep. destruct n; [done|]. cbn [strideAt]. destruct (Z.eqb_spec (stride h) 0) as [E|]; [|done].
  pose proof (stride_odd h) as Ho. by rewrite E in Ho.
Qed.

Lemma position_next h s n :
  0 <= s -> Z.land (position h (2 ^ s) n + stride h) (2 ^ s - 1) = position h (2 ^ s) (S n).
Proof.
  intros Hs. rewrite Z.sub_1_r, <- Z.ones_equiv, Z.land_ones by done. unfold position. rewrite Zplus_mod_idemp_l.
  f_equal. lia.
Qed.

Lemma position_first h s : 0 <= s -> Z.land h (2 ^ s - 1) = position h (2 ^ s) 0.
Proof. intros Hs. rewrite Z.sub_1_r, <- Z.ones_equiv, Z.land_ones by done. unfold position. f_equal. lia. Qed.
End Probes.

(** ** Tables *)

(** The two marks differ, and tables start with a power of two of buckets. *)
Class KeyLaws (K : Type) `{T : KeyTraits K} : Prop := {
  marks_differ : emptyValue <> deletedValue;
  minimum_power : exists s, 1 <= s <= 30 /\ minimumTableSize = 2 ^ s;
}.

Section Tables.
Context {K V : Type} `{Countable K} {T : KeyTraits K} {KL : KeyLaws K} (emptyMapped : V).
Implicit Types (b : K * V) (table : list (K * V)) (r : HashTable.t K V) (m : gmap K V).

Definition validKey (key : K) : Prop := key <> emptyValue /\ key <> deletedValue.
Definition vacant b : bool := HashTable.isEmptyBucket b.
Definition deleted b : bool := HashTable.isDeletedBucket b.
Definition live b : bool := negb (HashTable.isEmptyOrDeletedBucket b).

Lemma live_valid b : live b = true <-> validKey b.1.
Proof.
  unfold live, HashTable.isEmptyOrDeletedBucket, HashTable.isEmptyBucket, HashTable.isDeletedBucket, validKey.
  rewrite negb_true_iff, orb_false_iff, !bool_decide_eq_false. done.
Qed.

Lemma valid_not_vacant b : validKey b.1 -> vacant b = false.
Proof. intros [He _]. unfold vacant, HashTable.isEmptyBucket. by apply bool_decide_eq_false. Qed.

Lemma valid_not_deleted b : validKey b.1 -> deleted b = false.
Proof. intros [_ Hd]. unfold deleted, HashTable.isDeletedBucket. by apply bool_decide_eq_false. Qed.

Lemma vacant_not_deleted b : vacant b = true -> deleted b = false.
Proof.
  unfold vacant, deleted, HashTable.isEmptyBucket, HashTable.isDeletedBucket. rewrite bool_decide_eq_true, bool_decide_eq_false.
  intros ->. apply marks_differ.
Qed.

Lemma not_live b : live b = false -> vacant b = true \/ deleted b = true.
Proof. unfold live, HashTable.isEmptyOrDeletedBucket. intros Hb%negb_false_iff. by apply orb_prop in Hb. Qed.

Definition bucket table (p : Z) : option (K * V) := table !! Z.to_nat p.

(** The loops along a list of positions. *)
Fixpoint lookupAlong table (key : K) (ps : list Z) : Ends (option Z) :=
  match ps with
  | [] => Hangs
  | p :: ps' =>
      match bucket table p with
      | None => Aborts
      | Some b =>
          if decide (b.1 = key) then Returns (Some p)
          else if vacant b then Returns None
          else lookupAlong table key ps'
      end
  end.

Fixpoint writingAlong table (key : K) (deletedEntry : option Z) (ps : list Z) : Ends (Z * bool) :=
  match ps with
  | [] => Hangs
  | p :: ps' =>
      match bucket table p with
      | None => Aborts
      | Some b =>
          if vacant b then Returns (default p deletedEntry, false)
          else if decide (b.1 = key) then Returns (p, true)
          else writingAlong table key (if deleted b then Some p else deletedEntry) ps'
      end
  end.

Lemma lookupLoop_along table s h key fuel n :
  0 <= s -> validKey key ->
  HashTable.lookupLoop fuel table (2 ^ s - 1) h key (strideAt h n) (position h (2 ^ s) n) =
  lookupAlong table key (map (position h (2 ^ s)) (seq n fuel)).
Proof.
  intros Hs Hk. revert n. induction fuel as [|fuel IH]; intros n; [done|]. cbn [HashTable.lookupLoop seq map lookupAlong].
  unfold bucket. destruct (table !! Z.to_nat (position h (2 ^ s) n)) as [b|]; [|done].
  rewrite probeStep_at, position_next by done. change (stride h) with (strideAt h (S n)). rewrite IH.
  fold (vacant b) (deleted b). destruct safeToCompareToEmptyOrDeleted; [done|]. destruct (decide (b.1 = key)) as [<-|Hn].
  - rewrite (valid_not_vacant b Hk), (valid_not_deleted b Hk). by rewrite bool_decide_eq_true_2.
  - rewrite (bool_decide_eq_false_2 _ Hn), andb_false_r. by destruct (vacant b).
Qed.

Lemma writingLoop_along table s h key d fuel n :
  0 <= s -> validKey key ->
  HashTable.writingLoop fuel table (2 ^ s - 1) h key d (strideAt h n) (position h (2 ^ s) n) =
  writingAlong table key d (map (position h (2 ^ s)) (seq n fuel)).
Proof.
  intros Hs Hk. revert n d. induction fuel as [|fuel IH]; intros n d; [done|]. cbn [HashTable.writingLoop seq map writingAlong].
  unfold bucket. destruct (table !! Z.to_nat (position h (2 ^ s) n)) as [b|]; [|done].
  rewrite probeStep_at, position_next by done. change (stride h) with (strideAt h (S n)). rewrite !IH.
  fold (vacant b) (deleted b). destruct (vacant b), safeToCompareToEmptyOrDeleted; try done.
  destruct (decide (b.1 = key)) as [<-|Hn]; [by rewrite (valid_not_deleted b Hk)|by destruct (deleted b)].
Qed.

(** A probe passes buckets that are in use and not of the key. *)
Definition passed table (key : K) (p : Z) : Prop := exists b, bucket table p = Some b /\ vacant b = false /\ b.1 <> key.

Lemma lookupAlong_found table key ps p b ps' :
  Forall (passed table key) ps -> bucket table p = Some b -> b.1 = key ->
  lookupAlong table key (ps ++ p :: ps') = Returns (Some p).
Proof.
  intros Hps Hb Hk. induction Hps as [|q ps (c & Hc & Hv & Hn) _ IH]; cbn.
  - by rewrite Hb, decide_True.
  - by rewrite Hc, decide_False, Hv.
Qed.

Lemma lookupAlong_absent table key ps p b ps' :
  Forall (passed table key) ps -> bucket table p = Some b -> b.1 <> key -> vacant b = true ->
  lookupAlong table key (ps ++ p :: ps') = Returns None.
Proof.
  intros Hps Hb Hk Hv. induction Hps as [|q ps (c & Hc & Hv' & Hn) _ IH]; cbn.
  - by rewrite Hb, decide_False, Hv.
  - by rewrite Hc, decide_False, Hv'.
Qed.

Lemma writingAlong_found table key d ps p b ps' :
  Forall (passed table key) ps -> bucket table p = Some b -> b.1 = key -> vacant b = false ->
  writingAlong table key d (ps ++ p :: ps') = Returns (p, true).
Proof.
  intros Hps Hb Hk Hv. revert d. induction Hps as [|q ps (c & Hc & Hv' & Hn) _ IH]; intros d; cbn.
  - by rewrite Hb, Hv, decide_True.
  - by rewrite Hc, Hv', decide_False.
Qed.

(** The place for a new key: the last deleted bucket passed, or the vacant one. *)
Lemma writingAlong_absent table key d ps p b ps' :
  Forall (passed table key) ps -> bucket table p = Some b -> vacant b = true ->
  exists q, writingAlong table key d (ps ++ p :: ps') = Returns (q, false) /\
    (q = p \/ d = Some q \/ q ∈ ps /\ exists c, bucket table q = Some c /\ deleted c = true).
Proof.
  intros Hps Hb Hv. revert d. induction Hps as [|q ps (c & Hc & Hv' & Hn) _ IH]; intros d; cbn.
  - rewrite Hb, Hv. destruct d as [q|]; cbn; eauto.
  - rewrite Hc, Hv', decide_False by done. destruct (IH (if deleted c then Some q else d)) as (x & Hx & Hq).
    exists x. split; [exact Hx|].
    destruct Hq as [->|[Hq|[Hq Hdel]]]; [by left| |right; right; split; [by apply list_elem_of_further|done]].
    destruct (deleted c) eqn:Ed; [|by right; left]. injection Hq as <-. right. right.
    split; [apply list_elem_of_here|eauto].
Qed.

(** *** Counting buckets *)

Definition count (P : K * V -> bool) table : Z := Z.of_nat (length (List.filter P table)).

Lemma count_cons P b table : count P (b :: table) = Z.b2z (P b) + count P table.
Proof. unfold count. cbn. destruct (P b); cbn; lia. Qed.

Lemma count_insert P table (p : nat) b c :
  table !! p = Some b -> count P (<[p := c]> table) = count P table - Z.b2z (P b) + Z.b2z (P c).
Proof.
  revert p. induction table as [|d table IH]; intros [|p] Hp; try done.
  - injection Hp as ->. change (<[0%nat := c]> (b :: table)) with (c :: table). rewrite !count_cons. lia.
  - change (<[S p := c]> (d :: table)) with (d :: <[p := c]> table). rewrite !count_cons, (IH p Hp). lia.
Qed.

Lemma bucket_kinds b : Z.b2z (live b) + Z.b2z (deleted b) + Z.b2z (vacant b) = 1.
Proof.
  unfold live, HashTable.isEmptyOrDeletedBucket. fold (vacant b) (deleted b).
  destruct (vacant b) eqn:Ev; [|by destruct (deleted b)]. by rewrite (vacant_not_deleted b Ev).
Qed.

Lemma count_vacant table : count live table + count deleted table + count vacant table = Z.of_nat (length table).
Proof. induction table as [|b table IH]; [done|]. rewrite !count_cons. pose proof (bucket_kinds b). cbn [length]. lia. Qed.

Lemma exists_vacant table :
  count live table + count deleted table < Z.of_nat (length table) -> exists p b, table !! p = Some b /\ vacant b = true.
Proof.
  intros Hc. assert (0 < count vacant table) as Hv by (pose proof (count_vacant table); lia). clear Hc.
  induction table as [|b table IH]; [done|]. rewrite count_cons in Hv. destruct (vacant b) eqn:Eb; [by exists 0%nat, b|].
  cbn in Hv. destruct IH as (p & c & Hp & Hc); [lia|]. by exists (S p), c.
Qed.

(** *** The keys are where the probes find them *)

Definition used table (p : Z) : Prop := exists b, bucket table p = Some b /\ vacant b = false.

Definition reaches table (size : Z) (key : K) (p : Z) : Prop :=
  exists ps ps', path (hash key) size = ps ++ p :: ps' /\ Forall (used table) ps.

Record placed table (size : Z) : Prop := {
  placed_power : exists s, 0 <= s <= 30 /\ size = 2 ^ s;
  placed_length : Z.of_nat (length table) = size;
  placed_unique : forall (p q : nat) b c, table !! p = Some b -> table !! q = Some c ->
    live b = true -> live c = true -> b.1 = c.1 -> p = q;
  placed_reach : forall (p : nat) b, table !! p = Some b -> live b = true -> reaches table size b.1 (Z.of_nat p);
}.

(** The map that a table stands for. *)
Definition represents table m : Prop := forall k v, m !! k = Some v <-> validKey k /\ (k, v) ∈ table.

Lemma bucket_nat table (p : nat) : bucket table (Z.of_nat p) = table !! p.
Proof. unfold bucket. by rewrite Nat2Z.id. Qed.

Lemma path_bucket table size h p : placed table size -> p ∈ path h size -> 0 <= p /\ is_Some (bucket table p).
Proof.
  intros [(s & Hs & ->) Hl _ _] (n & -> & _)%list_elem_of_fmap. pose proof (position_range h s n ltac:(lia)) as Hp.
  split; [lia|]. unfold bucket. apply lookup_lt_is_Some. lia.
Qed.

(** The first vacant bucket of a probe. *)
Lemma first_vacant table ps :
  (forall p, p ∈ ps -> is_Some (bucket table p)) -> (exists p b, p ∈ ps /\ bucket table p = Some b /\ vacant b = true) ->
  exists ps1 p b ps2, ps = ps1 ++ p :: ps2 /\ Forall (used table) ps1 /\ bucket table p = Some b /\ vacant b = true.
Proof.
  induction ps as [|q ps IH]; intros Hr (p & b & Hp & Hb & Hv); [by apply not_elem_of_nil in Hp|].
  destruct (Hr q (list_elem_of_here _ _)) as [c Hc]. destruct (vacant c) eqn:Ec.
  { exists [], q, c, ps. eauto. }
  destruct IH as (ps1 & p' & b' & ps2 & -> & Hu & Hb' & Hv').
  - intros x Hx. by apply Hr, list_elem_of_further.
  - apply elem_of_cons in Hp as [->|Hp]; [|by exists p, b]. congruence.
  - exists (q :: ps1), p', b', ps2. split; [done|]. split; [|done]. constructor; [by exists c|done].
Qed.

Lemma probe_ends table size h :
  placed table size -> count live table + count deleted table < size ->
  exists ps1 p b ps2, path h size = ps1 ++ p :: ps2 /\ Forall (used table) ps1 /\ bucket table p = Some b /\ vacant b = true.
Proof.
  intros Hp Hc. pose proof Hp as [(s & Hs & Es) Hl _ _]. apply first_vacant.
  - intros p Hin. by eapply path_bucket.
  - destruct (exists_vacant table) as (p & b & Hb & Hv); [lia|]. exists (Z.of_nat p), b.
    rewrite bucket_nat. split; [|done]. rewrite Es in *. apply path_covers; [lia|]. apply lookup_lt_Some in Hb. lia.
Qed.

(** *** Finding keys *)

(** Where a key is, or that it is nowhere. *)
Lemma key_cases table key :
  (exists (p : nat) b, table !! p = Some b /\ b.1 = key) \/ (forall (p : nat) b, table !! p = Some b -> b.1 <> key).
Proof.
  destruct (decide (Exists (fun b => b.1 = key) table)) as [He|Hn].
  - left. apply Exists_exists in He as (b & (p & Hp)%list_elem_of_lookup & Hb). eauto.
  - right. intros p b Hp Hb. apply Hn, Exists_exists. exists b. split; [|done]. by eapply list_elem_of_lookup_2.
Qed.

Lemma passed_before table size key (p : nat) b ps ps' :
  placed table size -> validKey key -> table !! p = Some b -> b.1 = key ->
  path (hash key) size = ps ++ Z.of_nat p :: ps' -> Forall (used table) ps -> Forall (passed table key) ps.
Proof.
  intros Ht Hk Hp Hb Hps Hu. pose proof Ht as [(s & Hs & ->) _ Hq _]. pose proof (path_nodup (hash key) s ltac:(lia)) as Hnd.
  rewrite Hps in Hnd. apply NoDup_app in Hnd as (_ & Hnd & _). rewrite Forall_forall in Hu |- *. intros q Hin.
  destruct (Hu q Hin) as (c & Hc & Hv). exists c. repeat split; try done. intros Hck. apply (Hnd q Hin).
  assert (q ∈ path (hash key) (2 ^ s)) as Hq0 by (rewrite Hps; set_solver). apply (path_bucket table (2 ^ s)) in Hq0 as [Hq0 _]; [|done].
  rewrite (Hq p (Z.to_nat q) b c) by (try done; try apply live_valid; congruence). rewrite Z2Nat.id by done. apply list_elem_of_here.
Qed.

Lemma passed_absent table key ps :
  (forall (p : nat) b, table !! p = Some b -> b.1 <> key) -> Forall (used table) ps -> Forall (passed table key) ps.
Proof. intros Ha Hu. apply (Forall_impl _ _ _ Hu). intros q (c & Hc & Hv). exists c. repeat split; try done. by eapply Ha. Qed.

Section Placed.
Context table size (Ht : placed table size) (key : K) (Hk : validKey key).

Lemma lookup_found (p : nat) b :
  table !! p = Some b -> b.1 = key -> lookupAlong table key (path (hash key) size) = Returns (Some (Z.of_nat p)).
Proof.
  intros Hp Hb. assert (live b = true) as Hl by (apply live_valid; congruence).
  destruct (placed_reach _ _ Ht p b Hp Hl) as (ps & ps' & Hps & Hu). rewrite Hb in Hps. rewrite Hps.
  apply (lookupAlong_found table key ps (Z.of_nat p) b ps'); [|by rewrite bucket_nat|done]. by eapply passed_before.
Qed.

Lemma lookup_absent :
  (forall (p : nat) b, table !! p = Some b -> b.1 <> key) -> count live table + count deleted table < size ->
  lookupAlong table key (path (hash key) size) = Returns None.
Proof.
  intros Ha Hc. destruct (probe_ends table size (hash key) Ht Hc) as (ps & p & b & ps' & -> & Hu & Hb & Hv).
  eapply lookupAlong_absent; eauto. by apply passed_absent.
Qed.

Lemma writing_found (p : nat) b :
  table !! p = Some b -> b.1 = key -> writingAlong table key None (path (hash key) size) = Returns (Z.of_nat p, true).
Proof.
  intros Hp Hb. assert (live b = true) as Hl by (apply live_valid; congruence).
  destruct (placed_reach _ _ Ht p b Hp Hl) as (ps & ps' & Hps & Hu). rewrite Hb in Hps. rewrite Hps.
  apply (writingAlong_found table key None ps (Z.of_nat p) b ps'); try done; try (by rewrite bucket_nat); try (by eapply passed_before); []. apply valid_not_vacant. by rewrite Hb.
Qed.

Lemma writing_absent :
  (forall (p : nat) b, table !! p = Some b -> b.1 <> key) -> count live table + count deleted table < size ->
  exists (p : nat) b, writingAlong table key None (path (hash key) size) = Returns (Z.of_nat p, false) /\
    table !! p = Some b /\ live b = false /\ reaches table size key (Z.of_nat p).
Proof.
  intros Ha Hc. destruct (probe_ends table size (hash key) Ht Hc) as (ps & p & b & ps' & Hps & Hu & Hb & Hv).
  destruct (writingAlong_absent table key None ps p b ps') as (q & Hw & Hq); [by apply passed_absent|done|done|].
  assert (q ∈ path (hash key) size) as Hin by (rewrite Hps; destruct Hq as [->|[?|[Hq _]]]; [|done|]; set_solver).
  apply (path_bucket table size) in Hin as [Hq0 [c Hcq]]; [|done].
  exists (Z.to_nat q), c. rewrite Z2Nat.id, Hps by done. split; [done|]. split; [done|].
  destruct Hq as [->|[?|(Hq & c' & Hc' & Hd)]]; [|done|].
  - split; [|by exists ps, ps']. rewrite Hb in Hcq. injection Hcq as <-. pose proof (bucket_kinds b). rewrite Hv in *.
    by destruct (live b), (deleted b).
  - rewrite Hc' in Hcq. injection Hcq as <-. split; [pose proof (bucket_kinds c'); rewrite Hd in *; by destruct (live c'), (vacant c')|].
    apply list_elem_of_split in Hq as (ps1 & ps2 & ->). apply Forall_app in Hu as [Hu _].
    exists ps1, (ps2 ++ p :: ps'). by rewrite Hps, <- app_assoc.
Qed.
End Placed.

(** *** Writing a bucket *)

Lemma insert_cases table (p q : nat) b c d :
  table !! p = Some b -> <[p := c]> table !! q = Some d -> q = p /\ d = c \/ q <> p /\ table !! q = Some d.
Proof.
  intros Hp Hq. destruct (decide (q = p)) as [->|Hn].
  - left. rewrite list_lookup_insert_eq in Hq by (by eapply lookup_lt_Some). by injection Hq as <-.
  - right. by rewrite list_lookup_insert_ne in Hq by done.
Qed.

Lemma used_insert table (p : nat) c q : vacant c = false -> used table q -> used (<[p := c]> table) q.
Proof.
  intros Hc (b & Hb & Hv). unfold used, bucket in *. destruct (decide (Z.to_nat q = p)) as [<-|Hn].
  - exists c. rewrite list_lookup_insert_eq by (by eapply lookup_lt_Some). done.
  - exists b. by rewrite list_lookup_insert_ne by done.
Qed.

Lemma reaches_insert table size key (p : nat) c q :
  vacant c = false -> reaches table size key q -> reaches (<[p := c]> table) size key q.
Proof.
  intros Hc (ps & ps' & Hps & Hu). exists ps, ps'. split; [done|]. apply (Forall_impl _ _ _ Hu). intros x. by apply used_insert.
Qed.

(** A bucket that is not made vacant keeps the other keys in place. *)
Lemma placed_insert table size (p : nat) b c :
  placed table size -> table !! p = Some b -> vacant c = false ->
  (live c = true -> reaches table size c.1 (Z.of_nat p) /\
     forall (q : nat) d, q <> p -> table !! q = Some d -> live d = true -> d.1 <> c.1) ->
  placed (<[p := c]> table) size.
Proof.
  intros [Hs Hl Hu Hr] Hp Hv Hc. split; [done|by rewrite length_insert| |].
  - intros q1 q2 d1 d2 [[-> ->]|[Hn1 H1]]%(insert_cases _ _ _ _ _ _ Hp) [[-> ->]|[Hn2 H2]]%(insert_cases _ _ _ _ _ _ Hp) L1 L2 He;
      [done| | |by eapply Hu].
    + destruct (Hc L1) as [_ Hd]. by destruct (Hd q2 d2 Hn2 H2 L2).
    + destruct (Hc L2) as [_ Hd]. by destruct (Hd q1 d1 Hn1 H1 L1).
  - intros q d [[-> ->]|[Hn Hq]]%(insert_cases _ _ _ _ _ _ Hp) Hld; apply reaches_insert; try done; [by apply Hc|by apply Hr].
Qed.

Lemma elem_insert table (p : nat) b c d :
  table !! p = Some b -> d ∈ <[p := c]> table <-> d = c \/ exists q, q <> p /\ table !! q = Some d.
Proof.
  intros Hp. rewrite list_elem_of_lookup. split.
  - intros (q & [[-> ->]|[Hn Hq]]%(insert_cases _ _ _ _ _ _ Hp)); eauto.
  - intros [->|(q & Hn & Hq)]; [exists p; apply list_lookup_insert_eq; by eapply lookup_lt_Some|].
    exists q. by rewrite list_lookup_insert_ne.
Qed.

Lemma represents_absent table m key :
  represents table m -> validKey key -> m !! key = None <-> forall (p : nat) b, table !! p = Some b -> b.1 <> key.
Proof.
  intros Hm Hk. split.
  - intros Hn p [k v] Hp Hb. cbn in Hb. subst k. assert (m !! key = Some v) by (apply Hm; split; [done|by eapply list_elem_of_lookup_2]).
    congruence.
  - intros Ha. destruct (m !! key) as [v|] eqn:E; [|done]. apply Hm in E as [_ [p Hp]%list_elem_of_lookup]. by destruct (Ha p (key, v) Hp).
Qed.

Lemma represents_live table m (p : nat) b :
  represents table m -> table !! p = Some b -> validKey b.1 -> m !! b.1 = Some b.2.
Proof. intros Hm Hp Hb. apply Hm. split; [done|]. destruct b. by eapply list_elem_of_lookup_2. Qed.

(** A key in a bucket that held none. *)
Lemma represents_place table m (p : nat) b key v :
  represents table m -> table !! p = Some b -> live b = false -> validKey key -> m !! key = None ->
  represents (<[p := (key, v)]> table) (<[key := v]> m).
Proof.
  intros Hm Hp Hb Hk Hn k w. rewrite (elem_insert _ _ _ _ _ Hp), lookup_insert_Some, (Hm k w). split.
  - intros [[<- <-]|(Hne & Hv & [q Hq]%list_elem_of_lookup)]; [by split; [|left]|]. split; [done|]. right. exists q. split; [|done].
    intros ->. rewrite Hp in Hq. injection Hq as ->. by rewrite (proj2 (live_valid (k, w)) Hv) in Hb.
  - intros [Hv [[= -> ->]|(q & Hne & Hq)]]; [by left|]. right. split; [|split; [done|by eapply list_elem_of_lookup_2]].
    intros ->. by apply (proj1 (represents_absent _ _ _ Hm Hk) Hn q (k, w) Hq).
Qed.

(** Another value for the key of a bucket. *)
Lemma represents_change table size m (p : nat) b v :
  placed table size -> represents table m -> table !! p = Some b -> validKey b.1 ->
  represents (<[p := (b.1, v)]> table) (<[b.1 := v]> m).
Proof.
  intros Ht Hm Hp Hb k w. rewrite (elem_insert _ _ _ _ _ Hp), lookup_insert_Some, (Hm k w). split.
  - intros [[<- <-]|(Hne & Hv & [q Hq]%list_elem_of_lookup)]; [by split; [|left]|]. split; [done|]. right. exists q. split; [|done].
    intros ->. rewrite Hp in Hq. by injection Hq as ->.
  - intros [Hv [[= -> ->]|(q & Hne & Hq)]]; [by left|]. right. split; [|split; [done|by eapply list_elem_of_lookup_2]].
    intros He. apply Hne. by eapply (placed_unique _ _ Ht q p (k, w) b); try done; apply live_valid.
Qed.

(** A mark over a key. *)
Lemma represents_erase table size m (p : nat) b c :
  placed table size -> represents table m -> table !! p = Some b -> validKey b.1 -> live c = false ->
  represents (<[p := c]> table) (delete b.1 m).
Proof.
  intros Ht Hm Hp Hb Hc k w. rewrite (elem_insert _ _ _ _ _ Hp), lookup_delete_Some, (Hm k w). split.
  - intros (Hne & Hv & [q Hq]%list_elem_of_lookup). split; [done|]. right. exists q. split; [|done].
    intros ->. rewrite Hp in Hq. by injection Hq as ->.
  - intros [Hv [<-|(q & Hne & Hq)]]; [by rewrite (proj2 (live_valid (k, w)) Hv) in Hc|].
    split; [|split; [done|by eapply list_elem_of_lookup_2]].
    intros He. apply Hne. by eapply (placed_unique _ _ Ht q p (k, w) b); try done; apply live_valid.
Qed.

(** *** Moving the keys to another table *)

Lemma count_replicate P n b : count P (replicate n b) = if P b then Z.of_nat n else 0.
Proof. induction n as [|n IH]; cbn [replicate]; [by destruct (P b)|]. rewrite count_cons, IH. destruct (P b); cbn; lia. Qed.

Lemma fresh_vacant : vacant (HashTable.emptyBucket emptyMapped) = true.
Proof. by apply bool_decide_eq_true. Qed.

Lemma vacant_dead b : vacant b = true -> live b = false.
Proof. intros Hv. pose proof (bucket_kinds b). rewrite Hv in *. by destruct (live b), (deleted b). Qed.

Lemma fresh_lookup n (p : nat) b : replicate n (HashTable.emptyBucket emptyMapped) !! p = Some b -> live b = false.
Proof. intros [-> _]%lookup_replicate. apply vacant_dead, fresh_vacant. Qed.

Lemma fresh_placed s : 0 <= s <= 30 -> placed (HashTable.allocateTable emptyMapped (2 ^ s)) (2 ^ s).
Proof.
  intros Hs. split; [eauto|unfold HashTable.allocateTable; rewrite length_replicate; lia| |].
  - intros p q b c Hp%fresh_lookup. congruence.
  - intros p b Hp%fresh_lookup. congruence.
Qed.

Lemma fresh_represents n : represents (HashTable.allocateTable emptyMapped n) ∅.
Proof.
  intros k v. rewrite lookup_empty. split; [done|]. intros [Hk [p Hp%fresh_lookup]%list_elem_of_lookup].
  by rewrite (proj2 (live_valid (k, v)) Hk) in Hp.
Qed.

Definition placedIn r : Prop := placed (HashTable.m_table r) (HashTable.m_tableSize r).
Definition liveIn r : Z := count live (HashTable.m_table r).
Definition deletedIn r : Z := count deleted (HashTable.m_table r).

Lemma lookupForWriting_along r key :
  placedIn r -> validKey key ->
  HashTable.lookupForWriting key r = writingAlong (HashTable.m_table r) key None (path (hash key) (HashTable.m_tableSize r)).
Proof.
  intros [(s & Hs & Es) Hl _ _] Hk. unfold HashTable.lookupForWriting, HashTable.tableSizeMask, path. rewrite Es in *.
  rewrite position_first by lia. change 0 with (strideAt (hash key) 0) at 1. rewrite writingLoop_along by (done || lia).
  by replace (length (HashTable.m_table r)) with (Z.to_nat (2 ^ s)) by lia.
Qed.

Lemma lookup_along r key :
  placedIn r -> validKey key ->
  HashTable.lookup key r = lookupAlong (HashTable.m_table r) key (path (hash key) (HashTable.m_tableSize r)).
Proof.
  intros [(s & Hs & Es) Hl _ _] Hk. unfold HashTable.lookup, HashTable.tableSizeMask, path. rewrite Es in *.
  destruct (HashTable.m_table r) as [|b table] eqn:Et; [cbn in Hl; lia|].
  rewrite position_first by lia. change 0 with (strideAt (hash key) 0) at 1. rewrite lookupLoop_along by (done || lia).
  by replace (length (b :: table)) with (Z.to_nat (2 ^ s)) by lia.
Qed.

(** What writing a new key makes of a table. *)
Record grown r m key v (p : nat) b r' : Prop := {
  grown_placed : placedIn r';
  grown_map : represents (HashTable.m_table r') (<[key := v]> m);
  grown_size : HashTable.m_tableSize r' = HashTable.m_tableSize r;
  grown_live : liveIn r' = liveIn r + 1;
  grown_deleted : deletedIn r' = deletedIn r - Z.b2z (deleted b);
  grown_bucket : HashTable.m_table r' !! p = Some (key, v);
  grown_others : forall q c, HashTable.m_table r !! q = Some c -> live c = true -> HashTable.m_table r' !! q = Some c;
}.

Lemma place_grown r m key v (p : nat) b :
  placedIn r -> represents (HashTable.m_table r) m -> validKey key -> m !! key = None ->
  HashTable.m_table r !! p = Some b -> live b = false ->
  reaches (HashTable.m_table r) (HashTable.m_tableSize r) key (Z.of_nat p) ->
  grown r m key v p b (HashTable.setBucket (Z.of_nat p) (key, v) r).
Proof.
  intros Ht Hm Hk Hn Hp Hb Hr. pose proof (valid_not_vacant (key, v) Hk) as Hv. pose proof (valid_not_deleted (key, v) Hk) as Hd.
  pose proof (proj2 (live_valid (key, v)) Hk) as Hl. pose proof (proj1 (represents_absent _ _ _ Hm Hk) Hn) as Ha.
  unfold HashTable.setBucket. rewrite Nat2Z.id. split; cbn; try done.
  - apply (placed_insert _ _ p b (key, v)); try done. intros _. split; [done|]. intros q d _ Hq _. by apply Ha with q.
  - by eapply represents_place.
  - unfold liveIn. cbn. rewrite (count_insert _ _ _ _ _ Hp), Hb, Hl. cbn. lia.
  - unfold deletedIn. cbn. rewrite (count_insert _ _ _ _ _ Hp), Hd. cbn. lia.
  - apply list_lookup_insert_eq. by eapply lookup_lt_Some.
  - intros q c Hq Hc. rewrite list_lookup_insert_ne; [done|]. intros ->. congruence.
Qed.

Lemma reinsert_new r m b :
  placedIn r -> represents (HashTable.m_table r) m -> validKey b.1 -> m !! b.1 = None ->
  liveIn r + deletedIn r < HashTable.m_tableSize r ->
  exists (p : nat) c, HashTable.reinsert b r = Returns (Z.of_nat p, HashTable.setBucket (Z.of_nat p) b r) /\
    grown r m b.1 b.2 p c (HashTable.setBucket (Z.of_nat p) b r).
Proof.
  intros Ht Hm Hk Hn Hc. destruct (writing_absent _ _ Ht b.1) as (p & c & Hw & Hp & Hl & Hr);
    [done|by apply (represents_absent _ _ _ Hm Hk)|done|].
  exists p, c. unfold HashTable.reinsert. rewrite lookupForWriting_along, Hw by done. split; [done|].
  destruct b as [key v]. by apply place_grown.
Qed.

Definition distinct table : Prop := forall (p q : nat) b c,
  table !! p = Some b -> table !! q = Some c -> live b = true -> live c = true -> b.1 = c.1 -> p = q.

Lemma distinct_tail b table : distinct (b :: table) -> distinct table.
Proof. intros Hd p q c d Hp Hq Hc Hd' He. specialize (Hd (S p) (S q) c d Hp Hq Hc Hd' He). lia. Qed.

Lemma represents_tail b table m :
  represents (b :: table) m -> distinct (b :: table) ->
  if live b then m !! b.1 = Some b.2 /\ represents table (delete b.1 m) else represents table m.
Proof.
  intros Hm Hd. destruct (live b) eqn:El.
  - split; [apply (represents_live (b :: table) m 0 b); [done..|by apply live_valid]|].
    intros k v. rewrite lookup_delete_Some, (Hm k v), elem_of_cons. split.
    + intros (Hn & Hk & [<-|Hin]); [by destruct Hn|done].
    + intros [Hk Hin]. split; [|split; [done|by right]]. intros He.
      apply list_elem_of_lookup in Hin as [p Hp]. by specialize (Hd 0%nat (S p) b (k, v) eq_refl Hp El (proj2 (live_valid (k, v)) Hk) He).
  - intros k v. rewrite (Hm k v), elem_of_cons. split; [|tauto]. intros [Hk [<-|Hin]]; [|done].
    by rewrite (proj2 (live_valid (k, v)) Hk) in El.
Qed.

(** The entry to follow is still to come, or has its new place. *)
Definition tracked (old : list (K * V)) (i : Z) (entry newEntry : option Z) r b : Prop :=
  live b = true /\
  ((exists j : nat, entry = Some (i + Z.of_nat j) /\ old !! j = Some b) \/
   (exists e (p : nat), entry = Some e /\ e < i /\ newEntry = Some (Z.of_nat p) /\ HashTable.m_table r !! p = Some b)).

Record moved (old : list (K * V)) (i : Z) (entry newEntry : option Z) r m newEntry' r' : Prop := {
  moved_placed : placedIn r';
  moved_map : represents (HashTable.m_table r') m;
  moved_size : HashTable.m_tableSize r' = HashTable.m_tableSize r;
  moved_keys : HashTable.m_keyCount r' = HashTable.m_keyCount r;
  moved_live : liveIn r' = liveIn r + count live old;
  moved_deleted : deletedIn r' = 0;
  moved_entry : forall b, tracked old i entry newEntry r b ->
    exists p : nat, newEntry' = Some (Z.of_nat p) /\ HashTable.m_table r' !! p = Some b;
}.

Lemma tracked_skip c old i entry newEntry r b :
  live c = false -> tracked (c :: old) i entry newEntry r b -> tracked old (i + 1) entry newEntry r b.
Proof.
  intros Hc [Hb [(j & -> & Hj)|(e & p & -> & He & Hp)]]; (split; [done|]); [left|right; exists e, p; split; [done|split; [lia|done]]].
  destruct j as [|j]; [injection Hj as ->; congruence|]. exists j. split; [f_equal; lia|done].
Qed.

Lemma tracked_move c old i entry newEntry r b m (p : nat) d r' :
  grown r m c.1 c.2 p d r' -> tracked (c :: old) i entry newEntry r b ->
  tracked old (i + 1) entry (if decide (entry = Some i) then Some (Z.of_nat p) else newEntry) r' b.
Proof.
  intros Hg [Hb [(j & -> & Hj)|(e & q & -> & He & Hq & Hr)]]; split; try done.
  - destruct j as [|j].
    + injection Hj as ->. right. exists (i + 0), p. rewrite decide_True by (f_equal; lia). repeat split; [lia|].
      destruct b. apply (grown_bucket _ _ _ _ _ _ _ Hg).
    + left. exists j. split; [f_equal; lia|done].
  - right. exists e, q. rewrite decide_False by (intros [=]; lia). repeat split; try done; [lia|]. by apply (grown_others _ _ _ _ _ _ _ Hg).
Qed.

Lemma count_nonneg P table : 0 <= count P table.
Proof. unfold count. lia. Qed.

Lemma rehashLoop_moves old i entry newEntry r m mo :
  distinct old -> represents old mo -> m ##ₘ mo -> placedIn r -> represents (HashTable.m_table r) m ->
  deletedIn r = 0 -> liveIn r + count live old < HashTable.m_tableSize r ->
  exists newEntry' r', HashTable.rehashLoop old i entry newEntry r = Returns (newEntry', r') /\
    moved old i entry newEntry r (m ∪ mo) newEntry' r'.
Proof.
  revert i newEntry r m mo. induction old as [|b old IH]; intros i newEntry r m mo Hu Hmo Hdis Ht Hm Hdel Hlive.
  - exists newEntry, r. split; [done|]. assert (mo = ∅) as ->.
    { apply map_empty. intros k. apply eq_None_not_Some. intros [v [_ Hv]%Hmo]. by apply not_elem_of_nil in Hv. }
    rewrite map_union_empty. split; try done; [unfold count; cbn; lia|].
    intros b [_ [(j & _ & Hj)|(e & p & _ & _ & Hp)]]; [done|eauto].
  - cbn [HashTable.rehashLoop]. rewrite count_cons in Hlive. pose proof (represents_tail _ _ _ Hmo Hu) as Htl.
    pose proof (distinct_tail _ _ Hu) as Hu'. pose proof (count_nonneg live old).
    destruct (HashTable.isEmptyOrDeletedBucket b) eqn:Eb; pose proof (f_equal negb Eb) as El; fold (live b) in El; cbn in El; rewrite El in *.
    + destruct (IH (i + 1) newEntry r m mo) as (e' & r' & -> & [? ? ? ? Hlv ? He]); try done; [].
      exists e', r'. split; [done|]. split; try done; [rewrite Hlv, count_cons, El; cbn; lia|].
      intros c Hc. by apply He, (tracked_skip b).
    + destruct Htl as [Hb Hmo']. assert (m !! b.1 = None) as Hnew by (by eapply map_disjoint_Some_r).
      destruct (reinsert_new r m b) as (p & c & -> & Hg); try done; [by apply live_valid|cbn in *; lia|]. cbn [mbind Ends_bind fst snd].
      pose proof Hg as [Hp Hm' Hsz Hlv Hde _ _]. pose proof (count_nonneg deleted (HashTable.m_table (HashTable.setBucket (Z.of_nat p) b r))).
      destruct (IH (i + 1) (if decide (entry = Some i) then Some (Z.of_nat p) else newEntry) (HashTable.setBucket (Z.of_nat p) b r)
        (<[b.1 := b.2]> m) (delete b.1 mo)) as (e' & r' & -> & [? Hm'' ? ? Hlv' ? He]); try done.
      * apply map_disjoint_insert_l. split; [apply lookup_delete_eq|by apply map_disjoint_delete_r].
      * unfold deletedIn in *. destruct (deleted c); cbn in *; lia.
      * cbn in *. lia.
      * exists e', r'. split; [done|]. split; try done; [| rewrite Hlv', Hlv, count_cons, El; cbn; lia | ].
        -- rewrite <- insert_union_l, insert_union_r, insert_delete_id in Hm'' by done. done.
        -- intros d Hd. by eapply He, tracked_move.
Qed.

(** *** The invariant of a table *)

(** The counters tell the truth. *)
Record counted r m : Prop := {
  counted_keys : HashTable.m_keyCount r = liveIn r;
  counted_size : HashTable.m_keyCount r = Z.of_nat (size m);
  counted_deleted : HashTable.m_deletedCount r = deletedIn r;
}.

Record tableOf r m : Prop := {
  of_placed : placedIn r;
  of_map : represents (HashTable.m_table r) m;
  of_counted : counted r m;
  of_minimum : minimumTableSize <= HashTable.m_tableSize r;
  of_load : (liveIn r + deletedIn r) * 2 < HashTable.m_tableSize r;
}.

(** A table before its first key, or after it was cleared, has no buckets. *)
Record nullOf r m : Prop := {
  null_table : HashTable.m_table r = [];
  null_size : HashTable.m_tableSize r = 0;
  null_keys : HashTable.m_keyCount r = 0;
  null_map : m = ∅;
}.

Definition implements r m : Prop := nullOf r m \/ tableOf r m.

(** The bucket of an entry after a rehash. *)
Definition followed (entry newEntry : option Z) r r' : Prop := forall (p : nat) b,
  entry = Some (Z.of_nat p) -> HashTable.m_table r !! p = Some b -> live b = true ->
  exists q : nat, newEntry = Some (Z.of_nat q) /\ HashTable.m_table r' !! q = Some b.

Lemma rehash_moves r m entry s :
  distinct (HashTable.m_table r) -> represents (HashTable.m_table r) m ->
  HashTable.m_keyCount r = liveIn r -> HashTable.m_keyCount r = Z.of_nat (size m) ->
  0 <= s <= 30 -> minimumTableSize <= 2 ^ s -> liveIn r * 2 < 2 ^ s ->
  exists newEntry r', HashTable.rehash emptyMapped (2 ^ s) entry r = Returns (newEntry, r') /\ tableOf r' m /\
    HashTable.m_tableSize r' = 2 ^ s /\ followed entry newEntry r r'.
Proof.
  intros Hd Hm Hk Hsz Hs Hmin Hload. unfold HashTable.rehash, HashTable.rehashTo.
  set (r0 := r <| _ := _ |> <| _ := _ |>). pose proof (count_nonneg live (HashTable.m_table r)). unfold liveIn in *.
  assert (liveIn r0 = 0 /\ deletedIn r0 = 0) as [Hl0 Hd0].
  { unfold liveIn, deletedIn. subst r0. cbn. unfold HashTable.allocateTable. rewrite !count_replicate.
    by rewrite (vacant_dead _ fresh_vacant), (vacant_not_deleted _ fresh_vacant). }
  destruct (rehashLoop_moves (HashTable.m_table r) 0 entry None r0 ∅ m) as (e' & r' & -> & [Hp' Hm' Hs' Hk' Hl' Hd' He']); try done.
  - by apply map_disjoint_empty_l.
  - by apply fresh_placed.
  - by apply fresh_represents.
  - rewrite Hl0. subst r0. cbn. lia.
  - rewrite map_empty_union in Hm'. cbn [mbind Ends_bind fst snd]. eexists _, _. split; [done|]. unfold placedIn, liveIn, deletedIn in *.
    subst r0. cbn in *. split; [split; cbn; unfold placedIn, liveIn, deletedIn; cbn; try done|split; [done|]].
    + split; unfold liveIn, deletedIn; cbn; congruence || lia.
    + by rewrite Hs'.
    + rewrite Hs', Hl', Hd', Hl0. lia.
    + intros p b -> Hp Hb. destruct (He' b) as (q & -> & Hq); [split; [done|]; left; by exists p|]. by exists q.
Qed.

Lemma tableOf_distinct r m : tableOf r m -> distinct (HashTable.m_table r).
Proof. intros Hr. exact (placed_unique _ _ (of_placed _ _ Hr)). Qed.

Lemma minimum_two : 2 <= minimumTableSize.
Proof. destruct minimum_power as (s & Hs & ->). pose proof (Z.pow_le_mono_r 2 1 s). lia. Qed.

Lemma power_bound s : 0 <= s -> 2 ^ s < 2 ^ 30 -> s + 1 <= 30.
Proof. intros Hs Hlt. apply Z.pow_lt_mono_r_iff in Hlt; lia. Qed.

Lemma expand_null r m :
  nullOf r m -> exists newEntry r', HashTable.expand emptyMapped None r = Returns (newEntry, r') /\ tableOf r' m.
Proof.
  intros [Ht Hz Hk ->]. unfold HashTable.expand. rewrite Hz, Z.eqb_refl. destruct minimum_power as (s & Hs & Es). rewrite Es.
  destruct (rehash_moves r ∅ None s) as (e & r' & -> & Hr' & _); unfold liveIn; rewrite ?Ht, ?Hk; try done; try lia; [|change (count live []) with 0; lia|eauto].
  intros k v. rewrite lookup_empty. split; [done|]. intros [_ Hin]. by apply not_elem_of_nil in Hin.
Qed.

(** A table that has become too full. *)
Lemma expand_full r m entry :
  placedIn r -> represents (HashTable.m_table r) m -> counted r m -> minimumTableSize <= HashTable.m_tableSize r ->
  (liveIn r + deletedIn r) * 2 <= HashTable.m_tableSize r + 1 -> Z.of_nat (size m) < 2 ^ 28 ->
  exists newEntry r', HashTable.expand emptyMapped entry r = Returns (newEntry, r') /\ tableOf r' m /\ followed entry newEntry r r'.
Proof.
  intros Ht Hm [Hk Hn Hd] Hmin Hload Hsmall. pose proof Ht as [(s & Hs & Es) _ Hu _]. pose proof minimum_two.
  pose proof (count_nonneg deleted (HashTable.m_table r)) as Hdel. fold (deletedIn r) in Hdel.
  pose proof (Z.pow_le_mono_r 2 s 30 ltac:(lia) ltac:(lia)).
  unfold HashTable.expand, HashTable.mustRehashInPlace. rewrite (proj2 (Z.eqb_neq _ 0)) by lia.
  rewrite !wrapU_small by lia. destruct (Z.ltb_spec (HashTable.m_keyCount r * 6) (HashTable.m_tableSize r * 2)) as [Hin|Hout].
  - rewrite Es in *. destruct (rehash_moves r m entry s) as (e & r' & -> & Hr' & _ & Hf); try done; [lia|eauto].
  - rewrite (proj2 (Z.ltb_lt _ _)) by lia. assert (s + 1 <= 30) by (apply power_bound; lia).
    assert (HashTable.m_tableSize r * 2 = 2 ^ (s + 1)) as E2 by (rewrite Es, Z.pow_add_r; lia). rewrite E2.
    destruct (rehash_moves r m entry (s + 1)) as (e & r' & -> & Hr' & _ & Hf); try done; try lia. eauto.
Qed.

Lemma shrink_sparse r m :
  placedIn r -> represents (HashTable.m_table r) m -> counted r m -> minimumTableSize < HashTable.m_tableSize r ->
  HashTable.m_keyCount r * 6 < HashTable.m_tableSize r -> exists r', HashTable.shrink emptyMapped r = Returns r' /\ tableOf r' m.
Proof.
  intros Ht Hm [Hk Hn Hd] Hmin Hload. pose proof Ht as [(s & Hs & Es) _ Hu _]. destruct minimum_power as (s0 & Hs0 & Es0).
  unfold HashTable.shrink. rewrite Es, Es0 in *. assert (s0 < s) by (apply Z.pow_lt_mono_r_iff in Hmin; lia).
  replace s with (s - 1 + 1) by lia. rewrite Z.pow_add_r, Z.div_mul by lia. rewrite <- (Z.sub_add 1 s), Z.pow_add_r in Hload by lia.
  destruct (rehash_moves r m None (s - 1)) as (e & r' & -> & Hr' & _); try done; [lia| |lia|eauto].
  rewrite Es0. apply Z.pow_le_mono_r; lia.
Qed.

(** *** Adding and removing keys *)

Lemma implements_small r m : implements r m -> HashTable.m_keyCount r = Z.of_nat (size m).
Proof. intros [[_ _ -> ->]|Hr]; [done|apply (counted_size _ _ (of_counted _ _ Hr))]. Qed.

Lemma tableOf_find r m key v :
  tableOf r m -> validKey key -> m !! key = Some v -> exists p : nat, HashTable.m_table r !! p = Some (key, v).
Proof. intros Hr Hk [_ [p Hp]%list_elem_of_lookup]%(of_map _ _ Hr). eauto. Qed.

(** An expansion where one is due. *)
Lemma grown_expands r m key v (p : nat) b r' :
  tableOf r m -> grown r m key v p b r' -> m !! key = None -> Z.of_nat (size m) + 1 < 2 ^ 28 -> validKey key ->
  HashTable.m_keyCount r' = HashTable.m_keyCount r + 1 ->
  HashTable.m_deletedCount r' = HashTable.m_deletedCount r - Z.b2z (deleted b) ->
  exists (q : nat) r'', (if HashTable.shouldExpand r'
    then e ← HashTable.expand emptyMapped (Some (Z.of_nat p)) r'; mret (default 0 e.1, true, e.2)
    else mret (Z.of_nat p, true, r')) = Returns (Z.of_nat q, true, r'') /\
    tableOf r'' (<[key := v]> m) /\ HashTable.m_table r'' !! q = Some (key, v).
Proof.
  intros [Ht Hm [Hk Hn Hd] Hmin Hload] [Hp' Hm' Hs' Hl' Hd' Hb' _] Hnone Hsmall Hkey Hk' Hdel'.
  pose proof Ht as [(s & Hs & Es) _ _ _]. pose proof (Z.pow_le_mono_r 2 s 30 ltac:(lia) ltac:(lia)).
  pose proof (count_nonneg deleted (HashTable.m_table r')) as Hnn. fold (deletedIn r') in Hnn.
  assert (counted r' (<[key := v]> m)) as Hc'. { split; [lia| |lia]. rewrite map_size_insert_None by done. lia. }
  assert (Z.b2z (deleted b) = 0 \/ Z.b2z (deleted b) = 1) as Hb by (destruct (deleted b); auto).
  unfold HashTable.shouldExpand. rewrite !wrapU_small by (rewrite ?wrapU_small; lia).
  destruct (Z.leb_spec (HashTable.m_tableSize r') ((HashTable.m_keyCount r' + HashTable.m_deletedCount r') * 2)) as [Hfull|Hfit].
  - destruct (expand_full r' (<[key := v]> m) (Some (Z.of_nat p))) as (e & r'' & -> & Hr'' & Hf); try done; [lia|lia| |].
    { rewrite map_size_insert_None by done. lia. }
    destruct (Hf p (key, v)) as (q & -> & Hq); [done|done|by apply live_valid|]. exists q, r''. done.
  - exists p, r'. split; [done|]. split; [|done]. split; try done; lia.
Qed.

Lemma add_tableOf r m key extra :
  tableOf r m -> validKey key -> Z.of_nat (size m) + 1 < 2 ^ 28 ->
  exists (p : nat) r', HashTable.add emptyMapped key extra r = Returns (Z.of_nat p, bool_decide (m !! key = None), r') /\
    tableOf r' (<[key := default extra (m !! key)]> m) /\ HashTable.m_table r' !! p = Some (key, default extra (m !! key)).
Proof.
  intros Hr Hk Hsmall. pose proof Hr as [Ht Hm [Hkc Hn Hd] Hmin Hload].
  pose proof Ht as [(s & Hs & Es) Hlen _ _]. pose proof (Z.pow_le_mono_r 2 s 30 ltac:(lia) ltac:(lia)).
  pose proof (count_nonneg live (HashTable.m_table r)) as Hnl. pose proof (count_nonneg deleted (HashTable.m_table r)) as Hnd.
  fold (liveIn r) in Hnl. fold (deletedIn r) in Hnd.
  assert ((match HashTable.m_table r with [] => e ← HashTable.expand emptyMapped None r; mret e.2 | _ => mret r end) = Returns r) as Hstart.
  { destruct (HashTable.m_table r); [cbn in Hlen; lia|done]. }
  unfold HashTable.add. rewrite Hstart. cbn [mbind Ends_bind]. rewrite lookupForWriting_along by done. destruct (m !! key) as [v|] eqn:Ek.
  - destruct (tableOf_find r m key v Hr Hk Ek) as [p Hp]. rewrite (writing_found _ _ Ht key Hk p (key, v) Hp eq_refl).
    exists p, r. cbn. rewrite insert_id by done. done.
  - destruct (writing_absent _ _ Ht key Hk) as (p & b & -> & Hp & Hl & Hre); [by apply (represents_absent _ _ _ Hm Hk)|unfold liveIn, deletedIn in *; lia|].
    pose proof (place_grown r m key extra p b Ht Hm Hk Ek Hp Hl Hre) as Hg. cbn [mbind Ends_bind default]. rewrite Nat2Z.id, Hp.
    pose proof (count_insert deleted _ p b (key, extra) Hp) as Hci. pose proof (count_nonneg deleted (<[p:=(key, extra)]> (HashTable.m_table r))) as Hcn.
    rewrite (valid_not_deleted (key, extra) Hk) in Hci. fold (deleted b). fold (deletedIn r) in Hci. cbn in Hci.
    destruct (grown_expands r m key extra p b (HashTable.setBucket (Z.of_nat p) (key, extra) r
      <| HashTable.m_keyCount := HashTable.m_keyCount r + 1 |> <| HashTable.m_deletedCount := HashTable.m_deletedCount r - Z.b2z (deleted b) |>))
      as (q & r'' & He & Hr''); try done; [by destruct Hg; split|].
    exists q, r''. split; [|done]. rewrite bool_decide_eq_true_2 by done. rewrite <- He.
    destruct (deleted b); cbn; rewrite ?wrapU_small by (cbn in *; lia); rewrite ?Z.sub_0_r; done.
Qed.

Lemma implements_add r m key extra :
  implements r m -> validKey key -> Z.of_nat (size m) + 1 < 2 ^ 28 ->
  exists (p : nat) r', HashTable.add emptyMapped key extra r = Returns (Z.of_nat p, bool_decide (m !! key = None), r') /\
    tableOf r' (<[key := default extra (m !! key)]> m) /\ HashTable.m_table r' !! p = Some (key, default extra (m !! key)).
Proof.
  intros [Hn|Hr] Hk Hsmall; [|by apply add_tableOf]. destruct (expand_null r m Hn) as (e & r1 & He & Hr1).
  destruct (add_tableOf r1 m key extra Hr1 Hk Hsmall) as (p & r' & Ha & Hr'). exists p, r'. split; [|done]. rewrite <- Ha.
  unfold HashTable.add. rewrite (null_table _ _ Hn), He. cbn [mbind Ends_bind fst snd]. pose proof Hr1 as [[(s & Hs & Es) Hlen _ _] _ _ _ _].
  destruct (HashTable.m_table r1); [cbn in Hlen; lia|done].
Qed.

Lemma mark_dead : live (HashTable.deletedBucket emptyMapped) = false.
Proof.
  unfold live, HashTable.isEmptyOrDeletedBucket, HashTable.isDeletedBucket. cbn. by rewrite bool_decide_eq_true_2, orb_true_r.
Qed.

Lemma mark_deleted : deleted (HashTable.deletedBucket emptyMapped) = true.
Proof. by apply bool_decide_eq_true. Qed.

Lemma mark_used : vacant (HashTable.deletedBucket emptyMapped) = false.
Proof. pose proof (bucket_kinds (HashTable.deletedBucket emptyMapped)) as Hb. rewrite mark_deleted, mark_dead in Hb. by destruct (vacant _). Qed.

Lemma removeBucket_tableOf r m (p : nat) b :
  tableOf r m -> HashTable.m_table r !! p = Some b -> validKey b.1 ->
  exists r', HashTable.removeBucket emptyMapped (Z.of_nat p) r = Returns r' /\ tableOf r' (delete b.1 m).
Proof.
  intros [Ht Hm [Hk Hn Hd] Hmin Hload] Hp Hv. pose proof Ht as [(s & Hs & Es) Hlen _ _].
  pose proof (Z.pow_le_mono_r 2 s 30 ltac:(lia) ltac:(lia)). pose proof (proj2 (live_valid b) Hv) as Hlv.
  pose proof (count_insert live _ p b (HashTable.deletedBucket emptyMapped) Hp) as Hl.
  pose proof (count_insert deleted _ p b (HashTable.deletedBucket emptyMapped) Hp) as Hdl.
  rewrite Hlv, mark_dead in Hl. rewrite (valid_not_deleted b Hv), mark_deleted in Hdl.
  pose proof (count_nonneg live (<[p := HashTable.deletedBucket emptyMapped]> (HashTable.m_table r))).
  pose proof (count_nonneg deleted (HashTable.m_table r)). pose proof (represents_live _ _ _ _ Hm Hp Hv) as Hb.
  assert (is_Some (m !! b.1)) as His by by eexists. pose proof (map_size_delete_Some b.1 m His) as Hsz.
  unfold HashTable.removeBucket, HashTable.setBucket. rewrite Nat2Z.id. cbn [HashTable.m_deletedCount HashTable.m_keyCount].
  unfold liveIn, deletedIn in *. cbn in Hl, Hdl.
  set (r' := _ <| HashTable.m_keyCount := _ |>). assert (placedIn r') as Ht'.
  { apply (placed_insert _ _ p b); try done; [apply mark_used|]. by rewrite mark_dead. }
  assert (represents (HashTable.m_table r') (delete b.1 m)) as Hm' by (eapply represents_erase; eauto using mark_dead).
  assert (counted r' (delete b.1 m)) as Hc'.
  { subst r'. split; unfold liveIn, deletedIn; cbn; rewrite ?wrapU_small; lia. }
  unfold HashTable.shouldShrink. rewrite (counted_keys _ _ Hc'), wrapU_small by (unfold liveIn; subst r'; cbn; lia).
  destruct (andb _ _) eqn:Esh.
  - apply andb_prop in Esh as [E1%Z.ltb_lt E2%Z.ltb_lt]. apply shrink_sparse; try done. by rewrite (counted_keys _ _ Hc').
  - exists r'. split; [done|]. split; try done. unfold liveIn, deletedIn. subst r'. cbn. lia.
Qed.

Lemma implements_lookup r m key :
  implements r m -> validKey key ->
  match m !! key with
  | Some v => exists p : nat, HashTable.lookup key r = Returns (Some (Z.of_nat p)) /\ HashTable.m_table r !! p = Some (key, v) /\ tableOf r m
  | None => HashTable.lookup key r = Returns None
  end.
Proof.
  intros [Hn|Hr] Hk.
  - rewrite (null_map _ _ Hn), lookup_empty. unfold HashTable.lookup. by rewrite (null_table _ _ Hn).
  - pose proof Hr as [Ht Hm _ _ Hload]. rewrite lookup_along by done. destruct (m !! key) as [v|] eqn:Ek.
    + destruct (tableOf_find r m key v Hr Hk Ek) as [p Hp]. exists p. split; [|done]. by apply (lookup_found _ _ Ht key Hk p (key, v)).
    + pose proof (count_nonneg live (HashTable.m_table r)). pose proof (count_nonneg deleted (HashTable.m_table r)).
      unfold liveIn, deletedIn in *. apply lookup_absent; try done; [by apply (represents_absent _ _ _ Hm Hk)|lia].
Qed.

(** *** The operations of maps *)

(** A value changed in its bucket, through an iterator. *)
Lemma change_tableOf r m (p : nat) key w v :
  tableOf r m -> validKey key -> HashTable.m_table r !! p = Some (key, w) ->
  tableOf (HashTable.setBucket (Z.of_nat p) (key, v) r) (<[key := v]> m).
Proof.
  intros [Ht Hm [Hk' Hn Hd] Hmin Hload] Hk Hp. unfold HashTable.setBucket. rewrite Nat2Z.id.
  pose proof (represents_live _ _ _ _ Hm Hp Hk) as Hw. cbn [fst snd] in Hw.
  pose proof (count_insert live _ p _ (key, v) Hp) as Hl. pose proof (count_insert deleted _ p _ (key, v) Hp) as Hdl.
  rewrite !(proj2 (live_valid _)) in Hl by done. rewrite !valid_not_deleted in Hdl by done. unfold liveIn, deletedIn in *.
  split; unfold liveIn, deletedIn; cbn; try done; [| |split; unfold liveIn, deletedIn; cbn; [lia| |lia]|lia].
  - apply (placed_insert _ _ p (key, w)); try done; [by apply valid_not_vacant|]. intros Hlv. split.
    + apply (placed_reach _ _ Ht p (key, w)); [done|by apply live_valid].
    + intros q d Hne Hq Hld He. apply Hne. apply (placed_unique _ _ Ht q p d (key, w)); try done; by apply live_valid.
  - by apply (represents_change _ _ _ p (key, w) v Ht).
  - rewrite map_size_insert_Some by (by eexists). done.
Qed.

Lemma set_implements r m key v :
  implements r m -> validKey key -> Z.of_nat (size m) + 1 < 2 ^ 28 ->
  exists (p : nat) r', HashMap.set emptyMapped key v r = Returns (Z.of_nat p, r') /\ tableOf r' (<[key := v]> m) /\
    HashTable.m_table r' !! p = Some (key, v).
Proof.
  intros Hr Hk Hsmall. destruct (implements_add r m key v Hr Hk Hsmall) as (p & r' & Ha & Hr' & Hp).
  unfold HashMap.set. rewrite Ha. cbn [mbind Ends_bind]. exists p. destruct (m !! key) as [w|] eqn:Ek; cbn [default] in *.
  - rewrite bool_decide_eq_false_2 by done. rewrite Nat2Z.id, Hp. eexists. split; [done|]. rewrite insert_id in Hr' by done.
    split; [by apply (change_tableOf r' m p key w v)|]. cbn. rewrite Nat2Z.id. apply list_lookup_insert_eq. by eapply lookup_lt_Some.
  - rewrite bool_decide_eq_true_2 by done. exists r'. done.
Qed.

Lemma add_implements r m key v :
  implements r m -> validKey key -> Z.of_nat (size m) + 1 < 2 ^ 28 ->
  exists r', HashMap.add emptyMapped key v r = Returns r' /\ implements r' (<[key := default v (m !! key)]> m).
Proof.
  intros Hr Hk Hsmall. destruct (implements_add r m key v Hr Hk Hsmall) as (p & r' & Ha & Hr' & Hp).
  unfold HashMap.add. rewrite Ha. exists r'. split; [done|]. by right.
Qed.

Lemma get_implements r m key :
  implements r m -> validKey key -> HashMap.get emptyMapped key r = Returns (default emptyMapped (m !! key)).
Proof.
  intros Hr Hk. pose proof (implements_lookup r m key Hr Hk) as Hl. unfold HashMap.get.
  destruct (m !! key); [|by rewrite Hl]. destruct Hl as (p & -> & Hp & _). cbn. by rewrite Nat2Z.id, Hp.
Qed.

Lemma take_implements r m key :
  implements r m -> validKey key ->
  exists r', HashMap.take emptyMapped key r = Returns (default emptyMapped (m !! key), r') /\ implements r' (delete key m).
Proof.
  intros Hr Hk. pose proof (implements_lookup r m key Hr Hk) as Hl. unfold HashMap.take. destruct (m !! key) as [v|] eqn:Ek.
  - destruct Hl as (p & -> & Hp & Ht). cbn [mbind Ends_bind]. destruct (removeBucket_tableOf r m p (key, v) Ht Hp Hk) as (r' & -> & Hr').
    cbn [mbind Ends_bind]. rewrite Nat2Z.id, Hp. exists r'. split; [done|]. by right.
  - rewrite Hl. exists r. split; [done|]. by rewrite delete_id.
Qed.

Lemma remove_implements r m key :
  implements r m -> validKey key -> exists r', HashMap.remove emptyMapped key r = Returns r' /\ implements r' (delete key m).
Proof.
  intros Hr Hk. pose proof (implements_lookup r m key Hr Hk) as Hl. unfold HashMap.remove, HashTable.remove. destruct (m !! key) as [v|] eqn:Ek.
  - destruct Hl as (p & -> & Hp & Ht). cbn [mbind Ends_bind]. destruct (removeBucket_tableOf r m p (key, v) Ht Hp Hk) as (r' & -> & Hr').
    exists r'. split; [done|]. by right.
  - rewrite Hl. exists r. split; [done|]. by rewrite delete_id.
Qed.

Lemma clear_implements r m : implements r m -> implements (HashMap.clear r) ∅.
Proof.
  intros Hr. left. unfold HashMap.clear, HashTable.clear. destruct (HashTable.m_table r) eqn:Et; [|by split].
  destruct Hr as [[? ? ? _]|[[(s & Hs & Es) Hlen _ _] _ _ _ _]]; [by split|]. rewrite Et in Hlen. cbn in Hlen. lia.
Qed.

Lemma new_implements : implements HashTable.new ∅.
Proof. by left. Qed.

(** *** Iteration *)

Lemma live_elements_nodup table : distinct table -> NoDup (List.filter live table).
Proof.
  induction table as [|b table IH]; intros Hd; [constructor|]. cbn. specialize (IH (distinct_tail _ _ Hd)).
  destruct (live b) eqn:Eb; [|done]. constructor; [|done].
  intros [Hin%list_elem_of_In _]%list_elem_of_In%filter_In. apply list_elem_of_lookup in Hin as [p Hp].
  by specialize (Hd 0%nat (S p) b b eq_refl Hp Eb Eb eq_refl).
Qed.

Lemma elements_implements r m : implements r m -> HashTable.elements r ≡ₚ map_to_list m.
Proof.
  intros Hr. unfold HashTable.elements. pose proof (implements_small r m Hr) as Hs.
  destruct (Z.eqb_spec (HashTable.m_keyCount r) 0) as [E|E].
  - assert (m = ∅) as -> by (apply map_size_empty_iff; lia). by rewrite map_to_list_empty.
  - destruct Hr as [[_ _ Hk _]|Ht]; [done|]. apply NoDup_Permutation.
    + apply live_elements_nodup. by eapply tableOf_distinct.
    + apply NoDup_map_to_list.
    + intros [k v]. rewrite elem_of_map_to_list, (of_map _ _ Ht k v), list_elem_of_In, filter_In, <- list_elem_of_In.
      fold (live (k, v)). rewrite live_valid. cbn. tauto.
Qed.

(** *** Copies *)

Lemma addAll_implements l r m m' :
  implements r m -> l ≡ₚ map_to_list m' -> m ##ₘ m' -> (forall k, is_Some (m' !! k) -> validKey k) ->
  Z.of_nat (size m + size m') < 2 ^ 28 ->
  exists r', HashTable.addAll emptyMapped l r = Returns r' /\ implements r' (m ∪ m').
Proof.
  revert r m m'. induction l as [|[k v] l IH]; intros r m m' Hr Hl Hd Hv Hs.
  - apply Permutation_nil in Hl. apply map_to_list_empty_iff in Hl as ->. exists r. by rewrite map_union_empty.
  - assert (m' !! k = Some v) as Hk by (apply elem_of_map_to_list; rewrite <- Hl; apply list_elem_of_here).
    pose proof (map_disjoint_Some_r _ _ _ _ Hd Hk) as Hn. assert (is_Some (m' !! k)) as Hik by by eexists.
    rewrite <- (insert_delete_id m' k v Hk), map_to_list_insert in Hl by apply lookup_delete_eq. apply Permutation_cons_inv in Hl.
    pose proof (map_size_delete_Some k m' Hik). assert (size m' <> 0%nat). { intros E%map_size_empty_iff. by rewrite E, lookup_empty in Hk. }
    destruct (implements_add r m k v Hr (Hv k Hik)) as (p & r1 & Ha & Hr1 & _); [lia|]. cbn [HashTable.addAll fst snd]. rewrite Ha, Hn in *.
    cbn [mbind Ends_bind snd default] in *. destruct (IH r1 (<[k := v]> m) (delete k m')) as (r' & -> & Hr').
    + by right.
    + done.
    + apply map_disjoint_insert_l. split; [apply lookup_delete_eq|by apply map_disjoint_delete_r].
    + intros j [_ Hj]%lookup_delete_is_Some. by apply Hv.
    + rewrite map_size_insert_None by done. lia.
    + exists r'. split; [done|]. by rewrite <- insert_union_l, insert_union_r, insert_delete_id in Hr' by done.
Qed.

Lemma implements_valid r m k : implements r m -> is_Some (m !! k) -> validKey k.
Proof.
  intros [Hn|Ht] [v Hv]; [by rewrite (null_map _ _ Hn), lookup_empty in Hv|]. by apply (of_map _ _ Ht) in Hv as [].
Qed.

Lemma assign_implements r other m :
  implements other m -> Z.of_nat (size m) < 2 ^ 28 ->
  exists r', HashTable.assign emptyMapped other r = Returns r' /\ implements r' m.
Proof.
  intros Ho Hs. unfold HashTable.assign, HashTable.copy.
  destruct (addAll_implements (HashTable.elements other) HashTable.new ∅ m new_implements) as (tmp & -> & Ht).
  - by apply elements_implements.
  - apply map_disjoint_empty_l.
  - intros k. by apply (implements_valid other).
  - by rewrite map_size_empty.
  - rewrite map_empty_union in Ht. eexists. split; [done|]. by destruct tmp.
Qed.
End Tables.
