(* ===== verification/HashMaps.v ===== *)
(** * What hash maps promise

    Every sequence of operations on a [HashMap] with valid keys answers like the
    same sequence on a finite map, and always returns.  With the empty key, which
    the operations only exclude by an [ASSERT], removals of nothing use up the empty
    buckets of a table, and then looking a key up does not return. *)

From S2P Require Import Prelude HashTables HashTableFacts.

#[local] Existing Instance HashTable.fields_.

(** ** Sequences of operations *)

(** The operations of a map; a copy takes its place ([OpCopy]). *)
Inductive mapOp (K V : Type) : Type :=
  | OpSet (key : K) (mapped : V)
  | OpAdd (key : K) (mapped : V)
  | OpGet (key : K)
  | OpContains (key : K)
  | OpRemove (key : K)
  | OpTake (key : K)
  | OpClear
  | OpCopy
  | OpSize.
Arguments OpSet {K V} key mapped.
Arguments OpAdd {K V} key mapped.
Arguments OpGet {K V} key.
Arguments OpContains {K V} key.
Arguments OpRemove {K V} key.
Arguments OpTake {K V} key.
Arguments OpClear {K V}.
Arguments OpCopy {K V}.
Arguments OpSize {K V}.

Inductive mapAnswer (V : Type) : Type :=
  | NoAnswer
  | AnswerValue (v : V)
  | AnswerBool (b : bool)
  | AnswerSize (n : Z).
Arguments NoAnswer {V}.
Arguments AnswerValue {V} v.
Arguments AnswerBool {V} b.
Arguments AnswerSize {V} n.

Section Operations.
Context {K V : Type} `{Countable K} {T : KeyTraits K} (emptyMapped : V).
Implicit Types (o : mapOp K V) (r : HashTable.t K V) (m : gmap K V).

Definition performOp o r : Ends (mapAnswer V * HashTable.t K V) :=
  match o with
  | OpSet key v => p ← HashMap.set emptyMapped key v r; mret (NoAnswer, p.2)
  | OpAdd key v => r ← HashMap.add emptyMapped key v r; mret (NoAnswer, r)
  | OpGet key => v ← HashMap.get emptyMapped key r; mret (AnswerValue v, r)
  | OpContains key => b ← HashMap.contains key r; mret (AnswerBool b, r)
  | OpRemove key => r ← HashMap.remove emptyMapped key r; mret (NoAnswer, r)
  | OpTake key => p ← HashMap.take emptyMapped key r; mret (AnswerValue p.1, p.2)
  | OpClear => mret (NoAnswer, HashMap.clear r)
  | OpCopy => r ← HashTable.assign emptyMapped r HashTable.new; mret (NoAnswer, r)
  | OpSize => mret (AnswerSize (HashMap.size r), r)
  end.

Fixpoint performOps (os : list (mapOp K V)) r : Ends (list (mapAnswer V) * HashTable.t K V) :=
  match os with
  | [] => mret ([], r)
  | o :: os' => p ← performOp o r; q ← performOps os' p.2; mret (p.1 :: q.1, q.2)
  end.

(** The same on a finite map. *)
Definition specOp o m : mapAnswer V * gmap K V :=
  match o with
  | OpSet key v => (NoAnswer, <[key := v]> m)
  | OpAdd key v => (NoAnswer, <[key := default v (m !! key)]> m)
  | OpGet key => (AnswerValue (default emptyMapped (m !! key)), m)
  | OpContains key => (AnswerBool (bool_decide (is_Some (m !! key))), m)
  | OpRemove key => (NoAnswer, delete key m)
  | OpTake key => (AnswerValue (default emptyMapped (m !! key)), delete key m)
  | OpClear => (NoAnswer, ∅)
  | OpCopy => (NoAnswer, m)
  | OpSize => (AnswerSize (Z.of_nat (size m)), m)
  end.

Fixpoint specOps (os : list (mapOp K V)) m : list (mapAnswer V) * gmap K V :=
  match os with
  | [] => ([], m)
  | o :: os' => let p := specOp o m in let q := specOps os' p.2 in (p.1 :: q.1, q.2)
  end.

Definition validOp o : Prop :=
  match o with
  | OpSet key _ | OpAdd key _ | OpGet key | OpContains key | OpRemove key | OpTake key => validKey key
  | OpClear | OpCopy | OpSize => True
  end.

Context {KL : KeyLaws K}.

Lemma specOp_size o m : (size (specOp o m).2 <= size m + 1)%nat.
Proof.
  destruct o as [key v|key v|key|key|key|key| | |]; cbn [specOp snd]; rewrite ?map_size_insert, ?map_size_delete, ?map_size_empty;
    try destruct (m !! key); cbn; lia.
Qed.

Lemma performOp_implements o r m :
  implements r m -> validOp o -> Z.of_nat (size m) + 1 < 2 ^ 28 ->
  exists r', performOp o r = Returns ((specOp o m).1, r') /\ implements r' (specOp o m).2.
Proof.
  intros Hr Hk Hs. destruct o as [key v|key v|key|key|key|key| | |]; cbn [performOp specOp fst snd validOp] in *.
  - destruct (set_implements emptyMapped r m key v Hr Hk Hs) as (p & r' & -> & Hr' & _). exists r'. split; [done|by right].
  - destruct (add_implements emptyMapped r m key v Hr Hk Hs) as (r' & -> & Hr'). by exists r'.
  - exists r. split; [|done]. by rewrite (get_implements emptyMapped r m key Hr Hk).
  - exists r. split; [|done]. pose proof (implements_lookup r m key Hr Hk) as Hl. unfold HashMap.contains.
    destruct (m !! key); [|by rewrite Hl]. by destruct Hl as (p & -> & _).
  - destruct (remove_implements emptyMapped r m key Hr Hk) as (r' & -> & Hr'). by exists r'.
  - destruct (take_implements emptyMapped r m key Hr Hk) as (r' & -> & Hr'). by exists r'.
  - eexists. split; [done|]. by eapply clear_implements.
  - destruct (assign_implements emptyMapped HashTable.new r m Hr) as (r' & -> & Hr'); [lia|]. by exists r'.
  - exists r. split; [|done]. unfold HashMap.size. by rewrite (implements_small r m Hr).
Qed.

Lemma performOps_implements os r m :
  implements r m -> Forall validOp os -> Z.of_nat (size m + length os) < 2 ^ 28 ->
  exists r', performOps os r = Returns ((specOps os m).1, r') /\ implements r' (specOps os m).2.
Proof.
  intros Hr Hos. revert r m Hr. induction Hos as [|o os Ho _ IH]; intros r m Hr Hs; [by exists r|]. cbn [length performOps specOps] in *.
  destruct (performOp_implements o r m Hr Ho) as (r1 & -> & Hr1); [lia|]. cbn [mbind Ends_bind fst snd].
  pose proof (specOp_size o m). destruct (IH r1 _ Hr1) as (r' & -> & Hr'); [lia|]. by exists r'.
Qed.

(** C18 A hash map refines a finite map: every sequence of fewer than 2^28 operations
    with valid keys on a new map returns (no probe hangs and no expansion overflows), every
    answer is that of the finite map, and an iteration over the map at the end visits each
    entry of the finite map once. *)
Theorem hashMap_refines (os : list (mapOp K V)) :
  Forall validOp os -> Z.of_nat (length os) < 2 ^ 28 ->
  exists r, performOps os HashTable.new = Returns ((specOps os ∅).1, r) /\
    HashMap.size r = Z.of_nat (size (specOps os ∅).2) /\
    HashTable.elements r ≡ₚ map_to_list (specOps os ∅).2.
Proof.
  intros Hos Hlen. destruct (performOps_implements os HashTable.new ∅ new_implements Hos) as (r & Hp & Hr); [by rewrite map_size_empty|].
  exists r. split; [done|]. split; [by apply implements_small|by apply elements_implements].
Qed.

(** ** The empty key *)

Context (Hsafe : safeToCompareToEmptyOrDeleted = true).

(** Comparing keys first, the loop does not need a valid key. *)
Lemma lookupLoop_safe table s h key fuel n :
  0 <= s ->
  HashTable.lookupLoop (V := V) fuel table (2 ^ s - 1) h key (strideAt h n) (position h (2 ^ s) n) =
  lookupAlong table key (map (position h (2 ^ s)) (seq n fuel)).
Proof.
  intros Hs. revert n. induction fuel as [|fuel IH]; intros n; [done|]. cbn [HashTable.lookupLoop seq map lookupAlong].
  unfold bucket. destruct (table !! Z.to_nat (position h (2 ^ s) n)) as [b|]; [|done].
  rewrite probeStep_at, position_next by done. change (stride h) with (strideAt h (S n)). by rewrite IH, Hsafe.
Qed.

(** The empty key is found in the first empty bucket of its probe. *)
Lemma lookup_emptyValue r :
  placedIn r -> 0 < count vacant (HashTable.m_table r) ->
  exists (p : nat) b, HashTable.lookup emptyValue r = Returns (Some (Z.of_nat p)) /\ HashTable.m_table r !! p = Some b /\ vacant b = true.
Proof.
  intros Ht Hv. pose proof Ht as [(s & Hs & Es) Hlen _ _]. pose proof (count_vacant (HashTable.m_table r)).
  destruct (probe_ends _ _ (hash emptyValue) Ht) as (ps & p & b & ps' & Hps & Hu & Hb & Hvb); [lia|].
  assert (0 <= p) as Hp0 by (eapply (path_bucket _ _ _ p Ht); rewrite Hps; set_solver).
  exists (Z.to_nat p), b. split; [|done]. rewrite Z2Nat.id by done. unfold HashTable.lookup, HashTable.tableSizeMask. rewrite Es in *.
  destruct (HashTable.m_table r) as [|c table] eqn:Et; [done|]. rewrite position_first by lia.
  change 0 with (strideAt (hash emptyValue) 0) at 1. rewrite lookupLoop_safe by lia.
  replace (length (c :: table)) with (Z.to_nat (2 ^ s)) by lia. fold (path (hash emptyValue) (2 ^ s)). rewrite Hps.
  apply (lookupAlong_found _ _ _ _ b); [|done|by apply bool_decide_eq_true in Hvb].
  apply (Forall_impl _ _ _ Hu). intros q (d & Hd & Hvd). exists d. split; [done|]. split; [done|]. by apply bool_decide_eq_false in Hvd.
Qed.

(** So removing it marks that bucket, and counts a key less. *)
Lemma remove_emptyValue r :
  placedIn r -> HashTable.m_tableSize r = minimumTableSize -> 0 < count vacant (HashTable.m_table r) ->
  exists r', HashMap.remove emptyMapped emptyValue r = Returns r' /\ placedIn r' /\ HashTable.m_tableSize r' = minimumTableSize /\
    count vacant (HashTable.m_table r') = count vacant (HashTable.m_table r) - 1 /\
    HashTable.m_keyCount r' = wrapU 32 (HashTable.m_keyCount r - 1) /\
    forall m, represents (HashTable.m_table r) m -> represents (HashTable.m_table r') m.
Proof.
  intros Ht Hmin Hv. destruct (lookup_emptyValue r Ht Hv) as (p & b & Hl & Hp & Hb). unfold HashMap.remove, HashTable.remove. rewrite Hl.
  cbn [mbind Ends_bind]. unfold HashTable.removeBucket, HashTable.shouldShrink, HashTable.setBucket. rewrite Nat2Z.id.
  set (r' := _ <| HashTable.m_keyCount := _ |>). replace (HashTable.m_tableSize r') with minimumTableSize by (symmetry; exact Hmin).
  rewrite Z.ltb_irrefl, andb_false_r. exists r'. split; [done|]. subst r'. cbn.
  split; [|split; [done|split; [|split; [done|]]]].
  - unfold placedIn. cbn. apply (placed_insert _ _ p b); try done; [apply mark_used|]. by rewrite mark_dead.
  - rewrite (count_insert _ _ _ _ _ Hp), Hb, mark_used. cbn. lia.
  - intros m Hm k v. rewrite (Hm k v), (elem_insert _ _ _ _ _ Hp). split.
    + intros [Hk [q Hq]%list_elem_of_lookup]. split; [done|]. right. exists q. split; [|done]. intros ->.
      rewrite Hp in Hq. injection Hq as ->. by rewrite valid_not_vacant in Hb.
    + intros [Hk [[= -> ->]|(q & _ & Hq)]]; [by destruct Hk|]. split; [done|by eapply list_elem_of_lookup_2].
Qed.

Lemma remove_emptyValue_often n r m :
  placedIn r -> HashTable.m_tableSize r = minimumTableSize -> represents (HashTable.m_table r) m ->
  count vacant (HashTable.m_table r) = Z.of_nat n ->
  exists r', performOps (replicate n (OpRemove emptyValue)) r = Returns (replicate n NoAnswer, r') /\ placedIn r' /\
    count vacant (HashTable.m_table r') = 0 /\ represents (HashTable.m_table r') m.
Proof.
  revert r. induction n as [|n IH]; intros r Ht Hmin Hm Hv; [by exists r|]. cbn [replicate performOps performOp].
  destruct (remove_emptyValue r Ht Hmin) as (r1 & -> & Ht1 & Hmin1 & Hv1 & _ & Hm1); [lia|]. cbn [mbind Ends_bind mret Ends_ret fst snd].
  destruct (IH r1) as (r' & -> & Hr'); try done; [by apply Hm1|lia|]. by exists r'.
Qed.

Lemma lookupAlong_full (table : list (K * V)) key ps :
  (forall p, p ∈ ps -> is_Some (bucket table p)) -> count vacant table = 0 -> (forall (p : nat) b, table !! p = Some b -> b.1 <> key) ->
  lookupAlong table key ps = Hangs.
Proof.
  intros Hr Hv Ha. induction ps as [|p ps IH]; [done|]. cbn. destruct (Hr p (list_elem_of_here _ _)) as [b Hb]. rewrite Hb.
  rewrite decide_False by (by eapply Ha). destruct (vacant b) eqn:Eb.
  - pose proof (count_insert vacant table _ b (HashTable.deletedBucket emptyMapped) Hb) as Hc. rewrite Eb, mark_used in Hc. cbn in Hc.
    pose proof (count_nonneg vacant (<[Z.to_nat p := HashTable.deletedBucket emptyMapped]> table)). lia.
  - apply IH. intros q Hq. by apply Hr, list_elem_of_further.
Qed.

(** C40 The empty key is not excluded in release builds: on a map with a table of the
    smallest size, as many removals of the empty key as the table has empty buckets return,
    and after them the loop that looks up any key that is not in the map never ends, however
    many steps it makes. *)
Theorem empty_key_hangs r (m : gmap K V) :
  tableOf r m -> HashTable.m_tableSize r = minimumTableSize ->
  exists n r', Z.of_nat n <= minimumTableSize /\
    performOps (replicate n (OpRemove emptyValue)) r = Returns (replicate n NoAnswer, r') /\
    forall key fuel, validKey key -> m !! key = None ->
      HashTable.lookupLoop fuel (HashTable.m_table r') (HashTable.tableSizeMask r') (hash key) key 0
        (Z.land (hash key) (HashTable.tableSizeMask r')) = Hangs.
Proof.
  intros [Ht Hm _ _ _] Hmin. pose proof (count_nonneg vacant (HashTable.m_table r)). pose proof (count_vacant (HashTable.m_table r)).
  pose proof (count_nonneg live (HashTable.m_table r)). pose proof (count_nonneg deleted (HashTable.m_table r)).
  pose proof (placed_length _ _ Ht).
  destruct (remove_emptyValue_often (Z.to_nat (count vacant (HashTable.m_table r))) r m) as (r' & Hp & Ht' & Hv & Hm'); try done; [lia|].
  eexists _, r'. split; [|split; [exact Hp|]]; [lia|]. intros key fuel Hk Hn. pose proof Ht' as [(s & Hs & Es) Hlen _ _].
  unfold HashTable.tableSizeMask. rewrite Es in *. rewrite position_first by lia.
  change 0 with (strideAt (hash key) 0) at 1. rewrite lookupLoop_safe by lia. apply lookupAlong_full; [|done|].
  - intros p (i & -> & _)%list_elem_of_fmap. pose proof (position_range (hash key) s i ltac:(lia)).
    apply lookup_lt_is_Some. lia.
  - by apply (represents_absent _ _ _ Hm' Hk).
Qed.
End Operations.

(** ** Maps with integer keys *)

#[local] Existing Instance intTraits.

#[export] Instance intLaws : KeyLaws Z (T := intTraits).
Proof. split; [done|]. by exists 3. Qed.

Lemma hashMap_refines_witness :
  exists r, performOps (-7) [OpSet 5 50; OpAdd 5 55; OpSet 13 130; OpTake 13; OpCopy; OpTake 13; OpGet 5; OpSize] HashTable.new =
    Returns ([NoAnswer; NoAnswer; NoAnswer; AnswerValue 130; NoAnswer; AnswerValue (-7); AnswerValue 50; AnswerSize 1], r) /\
    HashMap.size r = 1 /\ HashTable.elements r ≡ₚ [(5, 50)].
Proof.
  destruct (hashMap_refines (-7) [OpSet 5 50; OpAdd 5 55; OpSet 13 130; OpTake 13; OpCopy; OpTake 13; OpGet 5; OpSize])
    as (r & Hp & Hs & He); [by repeat constructor|done|]. exists r. vm_compute in Hp, Hs, He. done.
Defined.

(** The map after its first key. *)
Definition oneKey : HashTable.t Z Z :=
  match HashMap.set 0 5 1 HashTable.new with
  | Returns p => p.2
  | _ => HashTable.new
  end.

Lemma oneKey_table : tableOf oneKey {[5 := 1]}.
Proof.
  destruct (set_implements 0 HashTable.new ∅ 5 1 new_implements) as (p & r & Hr & Ht & _); [done..|].
  unfold oneKey. by rewrite Hr.
Qed.

Lemma empty_key_hangs_witness :
  exists n r', Z.of_nat n <= 8 /\ performOps 0 (replicate n (OpRemove 0)) oneKey = Returns (replicate n NoAnswer, r') /\
    forall fuel, HashTable.lookupLoop fuel (HashTable.m_table r') (HashTable.tableSizeMask r') (hash 6) 6 0
      (Z.land (hash 6) (HashTable.tableSizeMask r')) = Hangs.
Proof.
  destruct (empty_key_hangs (T := intTraits) 0 eq_refl oneKey {[5 := 1]} oneKey_table eq_refl) as (n & r' & Hn & Hp & Hl).
  exists n, r'. split; [exact Hn|]. split; [exact Hp|]. intros fuel. by apply (Hl 6 fuel).
Defined.
