(* ===== verification/StringHashing.v ===== *)
(** * Hashes of strings

    [wtf/StringHasher.h]: the hash of a string, two characters at a time, and the
    interface that takes the characters in pieces; [StringImpl::hash], which keeps the
    hash in the string; and what a hash table needs of strings as keys
    ([wtf/text/StringHash.h]). *)

From S2P Require Import Prelude WTFString HashTables HashTableFacts.

(** ** The hasher *)

Module StringHasher.

Definition stringHashingStartValue : Z := 0x9E3779B9.
Definition flagCount : Z := 8.

Record t := mk {
  m_hash : Z;
  m_hasPendingCharacter : bool;
  m_pendingCharacter : Z;
}.

#[export] Instance fields_ : Fields t := fun h => mk (m_hash h) (m_hasPendingCharacter h) (m_pendingCharacter h).

Definition new : t := mk stringHashingStartValue false 0.

(** [addCharactersAssumingAligned(UChar, UChar)]. *)
Definition addPairAssumingAligned (a b : Z) (h : t) : t :=
  let hash := wrapU 32 (m_hash h + a) in
  let hash := Z.lxor (wrapU 32 (Z.shiftl hash 16)) (Z.lxor (Z.shiftl b 11) hash) in
  h <| m_hash := wrapU 32 (hash + Z.shiftr hash 11) |>.

Definition addCharacter (character : Z) (h : t) : t :=
  if m_hasPendingCharacter h
  then addPairAssumingAligned (m_pendingCharacter h) character (h <| m_hasPendingCharacter := false |>)
  else h <| m_pendingCharacter := character |> <| m_hasPendingCharacter := true |>.

(** [addCharacters(UChar, UChar)]. *)
Definition addPair (a b : Z) (h : t) : t :=
  if m_hasPendingCharacter h
  then (addPairAssumingAligned (m_pendingCharacter h) a h) <| m_pendingCharacter := b |>
  else addPairAssumingAligned a b h.

Fixpoint addCharactersAssumingAligned (data : ustring) (h : t) : t :=
  match data with
  | a :: b :: data' => addCharactersAssumingAligned data' (addPairAssumingAligned a b h)
  | [c] => addCharacter c h
  | [] => h
  end.

Definition addCharacters (data : ustring) (h : t) : t :=
  match data with
  | c :: data' =>
      if m_hasPendingCharacter h
      then addCharactersAssumingAligned data'
             (addPairAssumingAligned (m_pendingCharacter h) c (h <| m_hasPendingCharacter := false |>))
      else addCharactersAssumingAligned data h
  | [] => addCharactersAssumingAligned data h
  end.

Definition avalancheBits (h : t) : Z :=
  let result := m_hash h in
  let result :=
    if m_hasPendingCharacter h then
      let result := wrapU 32 (result + m_pendingCharacter h) in
      let result := Z.lxor result (wrapU 32 (Z.shiftl result 11)) in
      wrapU 32 (result + Z.shiftr result 17)
    else result in
  let result := Z.lxor result (wrapU 32 (Z.shiftl result 3)) in
  let result := wrapU 32 (result + Z.shiftr result 5) in
  let result := Z.lxor result (wrapU 32 (Z.shiftl result 2)) in
  let result := wrapU 32 (result + Z.shiftr result 15) in
  Z.lxor result (wrapU 32 (Z.shiftl result 10)).

Definition hashWithTop8BitsMasked (h : t) : Z :=
  let result := Z.land (avalancheBits h) (Z.shiftl 1 (32 - flagCount) - 1) in
  if result =? 0 then Z.shiftr 0x80000000 flagCount else result.

Definition hash (h : t) : Z :=
  let result := avalancheBits h in
  if result =? 0 then 0x80000000 else result.

Definition computeHashAndMaskTop8Bits (data : ustring) : Z := hashWithTop8BitsMasked (addCharactersAssumingAligned data new).

Definition computeHash (data : ustring) : Z := hash (addCharactersAssumingAligned data new).

End StringHasher.

#[export] Existing Instance StringHasher.fields_.

(** [StringImpl::hash]: the hash, and the field [m_hash] of 24 bits that keeps it, zero
    before it is first asked for. *)
Definition hashSlowCase (characters : ustring) : Z := wrapU 24 (StringHasher.computeHashAndMaskTop8Bits characters).

Definition StringImpl_hash (characters : ustring) (m_hash : Z) : Z * Z :=
  let hasHash := negb (m_hash =? 0) in
  if hasHash then (m_hash, m_hash) else (hashSlowCase characters, hashSlowCase characters).

(** ** Strings as keys *)

(** What a bucket for a [String] holds. *)
Inductive StringKey :=
  | NullString
  | HashTableDeletedValue
  | AString (s : ustring).

#[export] Instance StringKey_eq_dec : EqDecision StringKey.
Proof. solve_decision. Defined.

#[export] Instance StringKey_countable : Countable StringKey.
Proof.
  apply (inj_countable' (fun k => match k with NullString => None | HashTableDeletedValue => Some None | AString s => Some (Some s) end)
    (fun o => match o with None => NullString | Some None => HashTableDeletedValue | Some (Some s) => AString s end)).
  by intros [].
Defined.

#[export] Instance AString_inj : Inj (=) (=) AString.
Proof. by intros s s' [=]. Qed.

(** [HashTraits<String>] and [StringHash].  Hashing a null string would dereference a
    null pointer. *)
Definition stringTraits : KeyTraits StringKey := {|
  emptyValue := NullString;
  deletedValue := HashTableDeletedValue;
  hash key := match key with AString s => fst (StringImpl_hash s 0) | _ => 0 end;
  safeToCompareToEmptyOrDeleted := false;
  minimumTableSize := 8;
|}.

(** ** The pieces do not matter *)

(** The pending character counts only when there is one. *)
Definition sameHasher (h h' : StringHasher.t) : Prop :=
  StringHasher.m_hash h = StringHasher.m_hash h' /\
  StringHasher.m_hasPendingCharacter h = StringHasher.m_hasPendingCharacter h' /\
  (StringHasher.m_hasPendingCharacter h = true -> StringHasher.m_pendingCharacter h = StringHasher.m_pendingCharacter h').

#[export] Instance sameHasher_equiv : Equiv StringHasher.t := sameHasher.

#[export] Instance sameHasher_equivalence : Equivalence (≡@{StringHasher.t}).
Proof.
  split.
  - by intros h.
  - intros h h' (H1 & H2 & H3). split; [done|]. split; [done|]. rewrite <- H2. intros Hp. by rewrite H3.
  - intros h h' h'' (H1 & H2 & H3) (H4 & H5 & H6). split; [congruence|]. split; [congruence|]. intros Hp. rewrite H3 by done. apply H6. congruence.
Qed.

#[export] Instance addPairAssumingAligned_proper a b : Proper ((≡) ==> (≡)) (StringHasher.addPairAssumingAligned a b).
Proof. intros h h' (H1 & H2 & H3). unfold StringHasher.addPairAssumingAligned. rewrite H1. by split. Qed.

#[export] Instance addCharacter_proper c : Proper ((≡) ==> (≡)) (StringHasher.addCharacter c).
Proof.
  intros h h' (H1 & H2 & H3). unfold StringHasher.addCharacter. rewrite <- H2. destruct (StringHasher.m_hasPendingCharacter h).
  - rewrite H3 by done. apply addPairAssumingAligned_proper. by split.
  - by split.
Qed.

#[export] Instance avalancheBits_proper : Proper ((≡) ==> (=)) StringHasher.avalancheBits.
Proof.
  intros h h' (H1 & H2 & H3). unfold StringHasher.avalancheBits. rewrite <- H2, H1.
  destruct (StringHasher.m_hasPendingCharacter h); [by rewrite H3|done].
Qed.

#[export] Instance hashWithTop8BitsMasked_proper : Proper ((≡) ==> (=)) StringHasher.hashWithTop8BitsMasked.
Proof. intros h h' Hh. unfold StringHasher.hashWithTop8BitsMasked. by rewrite (avalancheBits_proper h h' Hh). Qed.

#[export] Instance hash_proper : Proper ((≡) ==> (=)) StringHasher.hash.
Proof. intros h h' Hh. unfold StringHasher.hash. by rewrite (avalancheBits_proper h h' Hh). Qed.

(** The characters one by one. *)
Fixpoint addEach (data : ustring) (h : StringHasher.t) : StringHasher.t :=
  match data with
  | [] => h
  | c :: data' => addEach data' (StringHasher.addCharacter c h)
  end.

#[export] Instance addEach_proper data : Proper ((≡) ==> (≡)) (addEach data).
Proof. induction data as [|c data IH]; intros h h' Hh; [done|]. by apply IH, addCharacter_proper. Qed.

Lemma addEach_app data data' h : addEach (data ++ data') h = addEach data' (addEach data h).
Proof. revert h. induction data as [|c data IH]; intros h; [done|]. apply IH. Qed.

Lemma addPair_each a b h : StringHasher.addPair a b h ≡ StringHasher.addCharacter b (StringHasher.addCharacter a h).
Proof. unfold StringHasher.addPair, StringHasher.addCharacter. by destruct h as [hash [] pending]. Qed.

Lemma addCharactersAssumingAligned_each data h :
  StringHasher.m_hasPendingCharacter h = false -> StringHasher.addCharactersAssumingAligned data h ≡ addEach data h.
Proof.
  intros Hh. assert (forall c h, StringHasher.m_hasPendingCharacter h = false ->
    StringHasher.addCharactersAssumingAligned data h ≡ addEach data h /\
    StringHasher.addCharactersAssumingAligned (c :: data) h ≡ addEach (c :: data) h) as Hboth; [|by apply (Hboth 0)].
  clear h Hh. induction data as [|b data IH]; intros c h Hh; [done|]. split; [by apply (IH b)|].
  cbn [StringHasher.addCharactersAssumingAligned addEach]. rewrite (proj1 (IH 0 (StringHasher.addPairAssumingAligned c b h) Hh)).
  apply addEach_proper. rewrite <- addPair_each. unfold StringHasher.addPair. by rewrite Hh.
Qed.

Lemma addCharacters_each data h : StringHasher.addCharacters data h ≡ addEach data h.
Proof.
  unfold StringHasher.addCharacters. destruct (StringHasher.m_hasPendingCharacter h) eqn:Eh.
  - destruct data as [|c data]; [done|]. rewrite addCharactersAssumingAligned_each by done. cbn [addEach].
    unfold StringHasher.addCharacter. by rewrite Eh.
  - destruct data as [|c data]; by apply addCharactersAssumingAligned_each.
Qed.

(** A piece given to the hasher. *)
Inductive piece :=
  | OneCharacter (c : Z)
  | TwoCharacters (a b : Z)
  | ManyCharacters (data : ustring).

Definition pieceCharacters (p : piece) : ustring :=
  match p with OneCharacter c => [c] | TwoCharacters a b => [a; b] | ManyCharacters data => data end.

Definition addPiece (h : StringHasher.t) (p : piece) : StringHasher.t :=
  match p with
  | OneCharacter c => StringHasher.addCharacter c h
  | TwoCharacters a b => StringHasher.addPair a b h
  | ManyCharacters data => StringHasher.addCharacters data h
  end.

Lemma addPiece_each h p : addPiece h p ≡ addEach (pieceCharacters p) h.
Proof. destruct p; cbn [addPiece pieceCharacters]; [done|apply addPair_each|apply addCharacters_each]. Qed.

Lemma addPieces_each ps h : foldl addPiece h ps ≡ addEach (concat (map pieceCharacters ps)) h.
Proof.
  revert h. induction ps as [|p ps IH]; intros h; [done|]. cbn [foldl map concat]. rewrite IH, addEach_app. apply addEach_proper, addPiece_each.
Qed.

Lemma masked_range h : 0 < StringHasher.hashWithTop8BitsMasked h < 2 ^ 24.
Proof.
  unfold StringHasher.hashWithTop8BitsMasked. change (Z.shiftl 1 (32 - StringHasher.flagCount) - 1) with (Z.ones 24).
  rewrite Z.land_ones by done. pose proof (Z.mod_pos_bound (StringHasher.avalancheBits h) (2 ^ 24) ltac:(done)).
  destruct (Z.eqb_spec (StringHasher.avalancheBits h `mod` 2 ^ 24) 0); [done|lia].
Qed.

(** Asking for the hash any number of times. *)
Fixpoint askHash (n : nat) (characters : ustring) (m_hash : Z) : list Z :=
  match n with
  | O => []
  | S n' => let p := StringImpl_hash characters m_hash in p.1 :: askHash n' characters p.2
  end.

Lemma StringImpl_hash_computed s m_hash :
  m_hash = 0 \/ m_hash = StringHasher.computeHashAndMaskTop8Bits s ->
  StringImpl_hash s m_hash = (StringHasher.computeHashAndMaskTop8Bits s, StringHasher.computeHashAndMaskTop8Bits s).
Proof.
  assert (0 < StringHasher.computeHashAndMaskTop8Bits s < 2 ^ 24) as Hr by apply masked_range.
  unfold StringImpl_hash, hashSlowCase. rewrite wrapU_small by lia. intros [->| ->]; [done|]. by rewrite (proj2 (Z.eqb_neq _ _)) by lia.
Qed.

(** The hash of a string does not depend on the pieces in which the hasher is given
    its characters, and on whether they are given one, two or many at a time; and a
    string that is asked for its hash any number of times computes it at most once and
    always answers the hash of its characters, which fits the 24 bits of its field and is
    never the zero that stands for no hash. *)
Theorem string_hash (s : ustring) (ps : list piece) (n : nat) :
  concat (map pieceCharacters ps) = s ->
  StringHasher.hash (foldl addPiece StringHasher.new ps) = StringHasher.computeHash s /\
  StringHasher.hashWithTop8BitsMasked (foldl addPiece StringHasher.new ps) = StringHasher.computeHashAndMaskTop8Bits s /\
  askHash n s 0 = replicate n (StringHasher.computeHashAndMaskTop8Bits s) /\
  0 < StringHasher.computeHashAndMaskTop8Bits s < 2 ^ 24.
Proof.
  intros <-. unfold StringHasher.computeHash. split; [|split; [|split]].
  - by rewrite addPieces_each, addCharactersAssumingAligned_each.
  - unfold StringHasher.computeHashAndMaskTop8Bits. by rewrite addPieces_each, addCharactersAssumingAligned_each.
  - generalize (or_introl (B := 0 = StringHasher.computeHashAndMaskTop8Bits (concat (map pieceCharacters ps))) (eq_refl 0)).
    generalize 0 at 1 3 4. induction n as [|n IH]; intros m_hash Hm; [done|]. cbn [askHash replicate].
    rewrite StringImpl_hash_computed by done. cbn [fst snd]. f_equal. apply IH. by right.
  - apply masked_range.
Qed.

Lemma string_hash_witness :
  concat (map pieceCharacters [OneCharacter 0x61; TwoCharacters 0x62 0x63; ManyCharacters [0x64; 0x65]]) = u "abcde" /\
  StringHasher.hash (foldl addPiece StringHasher.new [OneCharacter 0x61; TwoCharacters 0x62 0x63; ManyCharacters [0x64; 0x65]]) =
    StringHasher.computeHash (u "abcde").
Proof.
  split; [reflexivity|].
  apply (string_hash (u "abcde") [OneCharacter 0x61; TwoCharacters 0x62 0x63; ManyCharacters [0x64; 0x65]] 2). reflexivity.
Defined.

#[local] Existing Instance stringTraits.

#[export] Instance stringLaws : KeyLaws StringKey (T := stringTraits).
Proof. split; [done|]. by exists 3. Qed.
