(* ===== verification/NativeTables.v ===== *)
(** * The object registry on hash tables

    [core/inspector/InjectedScriptNative.cpp] once more, now with the hash tables that
    it is written with, down to their buckets: [NativeObjects], on which the agents are
    built, has finite maps in their place.  [NativeRefinement] shows that this makes no
    difference. *)

From S2P Require Import Prelude WTFString HashTables StringHashing.

#[export] Existing Instance intTraits.
#[export] Existing Instance stringTraits.

(** ** Maps of V8's values ([bindings/core/v8/V8GlobalValueMap.h])

    A value is a pointer, null where there is none. *)
Module V8GlobalValueMap.

Definition Impl : Type := HashTable.t Z (option Z).

Definition Get (key : Z) (impl : Impl) : Ends (option Z) := HashMap.get None key impl.

(** With the old value. *)
Definition Set_ (key value : Z) (impl : Impl) : Ends (option Z * Impl) :=
  oldValue ← Get key impl;
  p ← HashMap.set None key (Some value) impl;
  mret (oldValue, p.2).

Definition Remove (key : Z) (impl : Impl) : Ends (option Z * Impl) := HashMap.take None key impl.

End V8GlobalValueMap.

(** ** The registry *)

(** A [String] is null or its characters. *)
Record NativeTables := mkNativeTables {
  t_lastBoundObjectId : Z;
  t_idToWrappedObject : V8GlobalValueMap.Impl;
  t_idToObjectGroupName : HashTable.t Z (option ustring);
  t_nameToObjectGroup : HashTable.t StringKey (list Z);
}.

#[export] Instance NativeTables_fields : Fields NativeTables := fun n =>
  mkNativeTables (t_lastBoundObjectId n) (t_idToWrappedObject n) (t_idToObjectGroupName n) (t_nameToObjectGroup n).

Module NativeTable.

Definition new : NativeTables := mkNativeTables 1 HashTable.new HashTable.new HashTable.new.

(** [it->value.append(objectId)]. *)
Definition appendTo (it objectId : Z) (r : HashTable.t StringKey (list Z)) : Ends (HashTable.t StringKey (list Z)) :=
  match HashTable.m_table r !! Z.to_nat it with
  | Some b => mret (HashTable.setBucket it (b.1, b.2 ++ [objectId]) r)
  | None => Aborts
  end.

Definition addObjectToGroup (objectId : Z) (groupName : ustring) (n : NativeTables) : Ends NativeTables :=
  match groupName with
  | [] => mret n
  | _ =>
      if objectId <=? 0 then mret n
      else
        p ← HashMap.set None objectId (Some groupName) (t_idToObjectGroupName n);
        let n := n <| t_idToObjectGroupName := p.2 |> in
        groupIt ← HashTable.lookup (AString groupName) (t_nameToObjectGroup n);
        groups ← match groupIt with
                 | None =>
                     q ← HashMap.set [] (AString groupName) [] (t_nameToObjectGroup n);
                     appendTo q.1 objectId q.2
                 | Some it => appendTo it objectId (t_nameToObjectGroup n)
                 end;
        mret (n <| t_nameToObjectGroup := groups |>)
  end.

Definition bind (value : Z) (groupName : ustring) (n : NativeTables) : Ends (Z * NativeTables) :=
  let id := if t_lastBoundObjectId n <=? 0 then 1 else t_lastBoundObjectId n in
  let n := n <| t_lastBoundObjectId := wrapS 32 (id + 1) |> in
  p ← V8GlobalValueMap.Set_ id value (t_idToWrappedObject n);
  n ← addObjectToGroup id groupName (n <| t_idToWrappedObject := p.2 |>);
  mret (id, n).

Definition unbind (id : Z) (n : NativeTables) : Ends NativeTables :=
  p ← V8GlobalValueMap.Remove id (t_idToWrappedObject n);
  names ← HashMap.remove None id (t_idToObjectGroupName n);
  mret (n <| t_idToWrappedObject := p.2 |> <| t_idToObjectGroupName := names |>).

Definition objectForId (id : Z) (n : NativeTables) : Ends (option Z) := V8GlobalValueMap.Get id (t_idToWrappedObject n).

Fixpoint unbindAll (ids : list Z) (n : NativeTables) : Ends NativeTables :=
  match ids with
  | [] => mret n
  | id :: ids' => n ← unbind id n; unbindAll ids' n
  end.

Definition releaseObjectGroup (groupName : ustring) (n : NativeTables) : Ends NativeTables :=
  match groupName with
  | [] => mret n
  | _ =>
      groupIt ← HashTable.lookup (AString groupName) (t_nameToObjectGroup n);
      match groupIt with
      | None => mret n
      | Some it =>
          match HashTable.m_table (t_nameToObjectGroup n) !! Z.to_nat it with
          | None => Aborts
          | Some b =>
              n ← unbindAll b.2 n;
              groups ← HashTable.removeBucket [] it (t_nameToObjectGroup n);
              mret (n <| t_nameToObjectGroup := groups |>)
          end
      end
  end.

Definition groupName (objectId : Z) (n : NativeTables) : Ends (option ustring) :=
  if objectId <=? 0 then mret None else HashMap.get None objectId (t_idToObjectGroupName n).

End NativeTable.
