(* ===== verification/ContentSearch.v ===== *)
(** * Searching in script sources ([core/inspector/ContentSearchUtils.cpp])

    Searching line by line, and the magic comments that give a script its URL
    and the URL of its source map. *)

From S2P Require Import Prelude Platform WTFString JSONValues StringSearch.

(** ** Regular expressions ([bindings/core/v8/ScriptRegexp.cpp])

    V8 compiles and runs the expressions: [regexpCompiles] is the success of
    [v8::RegExp::New], [regexpExec] the offset and length of what [exec]
    matches.  The flags are "ignore case" and "multiline". *)
Class RegExpEngine := {
  regexpCompiles : ustring -> bool -> bool -> bool;
  regexpExec : ustring -> bool -> bool -> ustring -> option (Z * Z);
}.

Inductive TextCaseSensitivity := TextCaseSensitive | TextCaseInsensitive.
Inductive MultilineMode := MultilineDisabled | MultilineEnabled.
Inductive MagicCommentType := JavaScriptMagicComment | CSSMagicComment.

Section WithRegExp.
Context {R : RegExpEngine}.

(** [m_regex] is whether the expression compiled. *)
Record ScriptRegexp := mkRegexp {
  r_pattern : ustring;
  r_ignoreCase : bool;
  r_multiline : bool;
  m_regex : bool;
}.

Definition newScriptRegexp (pattern : ustring) (caseSensitivity : TextCaseSensitivity)
    (multilineMode : MultilineMode) : ScriptRegexp :=
  let ignoreCase := match caseSensitivity with TextCaseInsensitive => true | TextCaseSensitive => false end in
  let multiline := match multilineMode with MultilineEnabled => true | MultilineDisabled => false end in
  mkRegexp pattern ignoreCase multiline (regexpCompiles pattern ignoreCase multiline).

(** [ScriptRegexp::match]: the position, or -1; a null string never matches. *)
Definition regexMatch (regex : ScriptRegexp) (string : option ustring) (startFrom : nat) : Z :=
  match string with
  | None => -1
  | Some string =>
      if negb (m_regex regex) then -1
      else if int32_max <? Z.of_nat (length string) then -1
      else match regexpExec (r_pattern regex) (r_ignoreCase regex) (r_multiline regex)
                   (substring startFrom (length string) string) with
           | None => -1
           | Some (offset, _) => offset + Z.of_nat startFrom
           end
  end.

(** ** Searching by lines *)

Definition regexSpecialCharacters : ustring := u "[](){}+-*.,?\^$|".

Definition createSearchRegexSource (text : ustring) : ustring :=
  flat_map (fun c => match findChar c regexSpecialCharacters 0 with
                     | Some _ => [ch "\"; c]
                     | None => [c]
                     end) text.

Definition createSearchRegex (query : ustring) (caseSensitive isRegex : bool) : ScriptRegexp :=
  newScriptRegexp (if isRegex then query else createSearchRegexSource query)
    (if caseSensitive then TextCaseSensitive else TextCaseInsensitive) MultilineDisabled.

Definition endsWith (c : Z) (s : ustring) : bool :=
  match s with [] => false | _ => at_ s (length s - 1) =? c end.

(** [line] without a carriage return at its end. *)
Definition withoutCR (line : ustring) : ustring :=
  if endsWith 13 line then substring 0 (length line - 1) line else line.

Fixpoint matchLines (regex : ScriptRegexp) (text : ustring) (endings : list nat) (lineNumber : Z)
    (start : nat) : list (Z * ustring) :=
  match endings with
  | [] => []
  | lineEnd :: endings' =>
      let line := withoutCR (substring start (lineEnd - start) text) in
      let rest := matchLines regex text endings' (lineNumber + 1) (S lineEnd) in
      if regexMatch regex (Some line) 0 =? -1 then rest else (lineNumber, line) :: rest
  end.

Definition getScriptRegexpMatchesByLines (regex : ScriptRegexp) (text : ustring) : list (Z * ustring) :=
  match text with
  | [] => []
  | _ => matchLines regex text (lineEndings text) 0 0
  end.

Definition buildObjectForSearchMatch (lineNumber : Z) (lineContent : ustring) : JSONValue :=
  JSONObject (setString (u "lineContent") lineContent (setInt (u "lineNumber") lineNumber [])).

Definition searchInTextByLines (text query : ustring) (caseSensitive isRegex : bool) : list JSONValue :=
  map (fun m => buildObjectForSearchMatch m.1 m.2)
    (getScriptRegexpMatchesByLines (createSearchRegex query caseSensitive isRegex) text).

End WithRegExp.

(** ** Magic comments *)

Inductive MagicSearch :=
  | MagicNone
  | MagicAt (pos equalSignPos closingCommentPos : nat)
  | MagicOutOfFuel.

(** The checks on what surrounds the name found at [pos + 4]. *)
Definition magicHeader (content : ustring) (commentType : MagicCommentType) (pos : nat) : bool :=
  (at_ content pos =? ch "/") &&
  match commentType with
  | JavaScriptMagicComment => at_ content (pos + 1) =? ch "/"
  | CSSMagicComment => at_ content (pos + 1) =? ch "*"
  end &&
  ((at_ content (pos + 2) =? ch "#") || (at_ content (pos + 2) =? ch "@")) &&
  ((at_ content (pos + 3) =? ch " ") || (at_ content (pos + 3) =? 9)).

Definition equalSign (content : ustring) (equalSignPos : nat) : bool :=
  negb ((equalSignPos <? length content)%nat && negb (at_ content equalSignPos =? ch "=")).

Fixpoint magicLoop (fuel : nat) (content name : ustring) (commentType : MagicCommentType) (pos : nat)
    : MagicSearch :=
  match fuel with
  | O => MagicOutOfFuel
  | S fuel' =>
      match reverseFind name content pos with
      | None => MagicNone
      | Some pos =>
          if (pos <? 4)%nat then MagicNone
          else
            let pos := (pos - 4)%nat in
            let equalSignPos := (pos + 4 + length name)%nat in
            if negb (magicHeader content commentType pos && equalSign content equalSignPos)
            then magicLoop fuel' content name commentType pos
            else match commentType with
                 | JavaScriptMagicComment => MagicAt pos equalSignPos 0
                 | CSSMagicComment =>
                     match find (u "*/") content (S equalSignPos) with
                     | None => MagicNone
                     | Some closingCommentPos => MagicAt pos equalSignPos closingCommentPos
                     end
                 end
      end
  end.

Section WithPlatform.
Context {P : Platform}.

Definition disallowedChars : ustring := [34; ch "'"; ch " "; 9].

(** The text after the equal sign up to the end of its line, trimmed; empty when
    it holds white space or quotes. *)
Definition magicValue (matched : ustring) : ustring :=
  let matched := match findChar 10 matched 0 with
                 | Some newLine => substring 0 newLine matched
                 | None => matched
                 end in
  let matched := stripWhiteSpace matched in
  if existsb (fun c => match findChar c disallowedChars 0 with Some _ => true | None => false end) matched
  then [] else matched.

(** The value, null without a comment, and the [deprecated] flag. *)
Definition findMagicComment (content name : ustring) (commentType : MagicCommentType)
    : option ustring * bool :=
  match magicLoop (S (length content)) content name commentType (length content) with
  | MagicAt pos equalSignPos closingCommentPos =>
      let urlPos := S equalSignPos in
      (Some (magicValue
         match commentType with
         | CSSMagicComment => substring urlPos (closingCommentPos - urlPos) content
         | JavaScriptMagicComment => substring urlPos (length content) content
         end),
       at_ content (pos + 2) =? ch "@")
  | _ => (None, false)
  end.

Definition findSourceURL (content : ustring) (commentType : MagicCommentType) : option ustring :=
  (findMagicComment content (u "sourceURL") commentType).1.

Definition findSourceMapURL (content : ustring) (commentType : MagicCommentType) : option ustring :=
  (findMagicComment content (u "sourceMappingURL") commentType).1.

End WithPlatform.
