(* ===== verification/ContentSearchFacts.v ===== *)
(** * What the searches in script sources return

    The search by lines against a plain splitting of the text, and the magic
    comments against a description of the comment that is found. *)

From S2P Require Import Prelude Platform WTFString JSONValues StringSearch ContentSearch.

(** ** Substring search *)

(** The searches with running sums find what comparing every position finds:
    [find] the first occurrence at or after the index, [reverseFind] the last
    one at or before it. *)
Theorem string_search_exact m s index :
  m <> [] -> firstFrom m s index (find m s index) /\ lastUpTo m s index (reverseFind m s index).
Proof. intros Hm. split; [by apply find_first|by apply reverseFind_last]. Qed.

Lemma string_search_exact_witness :
  find (u "ana") (u "bananas") 0 = Some 1%nat /\ reverseFind (u "ana") (u "bananas") 7 = Some 3%nat /\
  firstFrom (u "ana") (u "bananas") 0 (find (u "ana") (u "bananas") 0) /\
  lastUpTo (u "ana") (u "bananas") 0 (reverseFind (u "ana") (u "bananas") 0).
Proof.
  split; [vm_compute; reflexivity|]. split; [vm_compute; reflexivity|].
  apply (string_search_exact (u "ana") (u "bananas") 0). discriminate.
Defined.

(** ** Lines *)

Fixpoint splitLines (s : ustring) : list ustring :=
  match s with
  | [] => [[]]
  | c :: s' =>
      if c =? 10 then [] :: splitLines s'
      else match splitLines s' with
           | l :: ls => (c :: l) :: ls
           | [] => [[c]]
           end
  end.

(** The first line and the rest of a text, by the position of its first line feed. *)
Lemma splitLines_at s n :
  firstFrom [10] s 0 (Some n) -> splitLines s = take n s :: splitLines (drop (S n) s).
Proof.
  intros (_ & Ho & Hf). revert n Ho Hf. induction s as [|c s IH]; intros n Ho Hf.
  { apply occursAt_bound in Ho. simpl in Ho. lia. }
  assert (forall i, (i <= length s)%nat -> occursAt [10] (c :: s) (S i) <-> occursAt [10] s i) as Hs.
  { intros i Hi. symmetry. apply (occursAt_drop [10] (c :: s) 1). simpl. lia. }
  cbn [splitLines]. destruct (Z.eqb_spec c 10) as [->|Hc].
  - destruct n as [|n]; [done|]. exfalso. apply (Hf 0%nat); [lia|]. by apply occursAt_char; [simpl; lia|].
  - destruct n as [|n].
    { exfalso. apply occursAt_char in Ho; [done|simpl; lia]. }
    pose proof (occursAt_bound _ _ _ Ho) as Hb. simpl in Hb.
    rewrite (IH n); [done|by apply Hs; [lia|]|].
    intros j Hj Hoj. apply (Hf (S j)); [lia|]. by apply Hs; [lia|].
Qed.

Lemma splitLines_last s : firstFrom [10] s 0 None -> splitLines s = [s].
Proof.
  cbn. induction s as [|c s IH]; intros Hf; [done|]. cbn [splitLines].
  destruct (Z.eqb_spec c 10) as [->|Hc].
  { exfalso. apply (Hf 0%nat); [lia|]. by apply occursAt_char; [simpl; lia|]. }
  rewrite IH; [done|]. intros j Hj Ho. apply (Hf (S j)); [lia|].
  apply (occursAt_drop [10] (c :: s) 1); [simpl; lia|done].
Qed.

(** Lines of [text] from [start] on: the endings from there, cut at them. *)
Fixpoint cutAt (text : ustring) (endings : list nat) (start : nat) : list ustring :=
  match endings with
  | [] => []
  | lineEnd :: endings' => substring start (lineEnd - start) text :: cutAt text endings' (S lineEnd)
  end.

Lemma findChar_drop c s n :
  (n <= length s)%nat -> firstFrom [c] (drop n s) 0 ((fun k => k - n)%nat <$> findChar c s n).
Proof.
  intros Hn. pose proof (find_first [c] s n ltac:(done)) as Hf. cbn [find] in Hf.
  destruct (findChar c s n) as [k|]; cbn in *.
  - destruct Hf as (? & Ho & Hf). rewrite occursAt_drop by done.
    replace (n + (k - n))%nat with k by lia. split_and!; [lia|done|].
    intros j Hj. rewrite occursAt_drop by done. apply Hf. lia.
  - intros j Hj. rewrite occursAt_drop by done. apply Hf. lia.
Qed.

Lemma lineEndingsLoop_lines fuel text start :
  (start <= length text)%nat -> (length text - start < fuel)%nat ->
  cutAt text (lineEndingsLoop fuel text start) start = splitLines (drop start text).
Proof.
  revert start. induction fuel as [|fuel IH]; intros start Hs Hf; [lia|]. cbn [lineEndingsLoop].
  destruct (Nat.ltb_spec start (length text)) as [Hl|Hl].
  - pose proof (findChar_drop 10 text start ltac:(lia)) as Hc.
    destruct (findChar 10 text start) as [k|] eqn:Ek; cbn [fmap option_fmap option_map] in Hc; cbn [cutAt].
    + pose proof (find_first [10] text start ltac:(done)) as Hk. cbn [find] in Hk. rewrite Ek in Hk.
      destruct Hk as (? & Ho%occursAt_bound & _). simpl in Ho.
      rewrite (splitLines_at _ _ Hc), IH by lia. rewrite drop_drop. unfold substring.
      destruct (Nat.leb_spec (length text) start); [lia|]. do 3 f_equal. lia.
    + rewrite (splitLines_last _ Hc). unfold substring. destruct (Nat.leb_spec (length text) start); [lia|].
      by rewrite take_ge by (rewrite length_drop; lia).
  - cbn [cutAt]. unfold substring. destruct (Nat.leb_spec (length text) start); [|lia].
    by rewrite drop_ge.
Qed.

Section WithRegExp.
Context {R : RegExpEngine}.

(** The lines that match, with their numbers. *)
Fixpoint matchingLines (regex : ScriptRegexp) (lines : list ustring) (lineNumber : Z) : list (Z * ustring) :=
  match lines with
  | [] => []
  | line :: lines' =>
      (if regexMatch regex (Some (withoutCR line)) 0 =? -1 then [] else [(lineNumber, withoutCR line)])
        ++ matchingLines regex lines' (lineNumber + 1)
  end.

Lemma matchLines_cutAt regex text endings lineNumber start :
  matchLines regex text endings lineNumber start = matchingLines regex (cutAt text endings start) lineNumber.
Proof.
  revert lineNumber start. induction endings as [|e endings IH]; intros; cbn; [done|].
  rewrite IH. by destruct (_ =? -1).
Qed.

(** Searching a script by lines finds exactly the lines, split at the line
    feeds and without a carriage return at their end, that the regular
    expression matches, in order and with their numbers. *)
Theorem search_by_lines regex text :
  text <> [] -> getScriptRegexpMatchesByLines regex text = matchingLines regex (splitLines text) 0.
Proof.
  intros Ht. unfold getScriptRegexpMatchesByLines, lineEndings. destruct text as [|c text]; [done|].
  rewrite matchLines_cutAt, lineEndingsLoop_lines; [done|lia|lia].
Qed.

End WithRegExp.

(** An engine for the witnesses: expressions without special characters. *)
Definition literalEngine : RegExpEngine := {|
  regexpCompiles _ _ _ := true;
  regexpExec pattern _ _ s := (fun i => (Z.of_nat i, Z.of_nat (length pattern))) <$> find pattern s 0;
|}.

Section Witness.
#[local] Existing Instance literalEngine.

Definition searchText : ustring := u "let a" ++ [13; 10] ++ u "b" ++ [10] ++ u "var a".

Lemma search_by_lines_witness :
  getScriptRegexpMatchesByLines (createSearchRegex (u "a") true true) searchText =
    matchingLines (createSearchRegex (u "a") true true) (splitLines searchText) 0 /\
  matchingLines (createSearchRegex (u "a") true true) (splitLines searchText) 0 =
    [(0, u "let a"); (2, u "var a")].
Proof.
  split; [|vm_compute; reflexivity].
  apply (search_by_lines (createSearchRegex (u "a") true true) searchText). discriminate.
Defined.

End Witness.

(** ** Magic comments *)

(** A comment "//# name=" (or with "@", or a tab) whose first slash is at [pos]. *)
Definition magicAt (content name : ustring) (commentType : MagicCommentType) (pos : nat) : Prop :=
  magicHeader content commentType pos = true /\ occursAt name content (pos + 4) /\
  equalSign content (pos + 4 + length name) = true.

(** The name does not start again within its first four units, so that two
    occurrences are at least four units apart. *)
Definition spaced (name : ustring) : Prop :=
  (4 <= length name)%nat /\ forall k, (1 <= k <= 3)%nat -> at_ name k <> at_ name 0.

Lemma occursAt_at m s i k : occursAt m s i -> (k < length m)%nat -> at_ s (i + k) = at_ m k.
Proof.
  intros (pre & post & -> & <-) Hk. unfold at_.
  rewrite app_nth2 by lia. rewrite app_nth1 by lia. f_equal. lia.
Qed.

Lemma spaced_apart name s i j :
  spaced name -> occursAt name s i -> occursAt name s j -> (i < j)%nat -> (i + 4 <= j)%nat.
Proof.
  intros [Hl Hd] Hi Hj Hij. destruct (Nat.le_gt_cases (i + 4) j); [done|]. exfalso.
  apply (Hd (j - i)%nat); [lia|]. rewrite <- (occursAt_at name s i (j - i)) by (done || lia).
  rewrite <- (occursAt_at name s j 0) by (done || lia). f_equal. lia.
Qed.

(** What the loop returns when it is started at [pos]: it is never out of turns,
    and it stops at the last comment whose name starts at [pos] or before. *)
Lemma magicLoop_spec fuel content name pos :
  spaced name -> (pos < fuel)%nat ->
  match magicLoop fuel content name JavaScriptMagicComment pos with
  | MagicAt p e _ => magicAt content name JavaScriptMagicComment p /\ e = (p + 4 + length name)%nat /\
      (p + 4 <= pos)%nat /\
      forall p', (p < p')%nat -> (p' + 4 <= pos)%nat -> ~ magicAt content name JavaScriptMagicComment p'
  | MagicNone => forall p', (p' + 4 <= pos)%nat -> ~ magicAt content name JavaScriptMagicComment p'
  | MagicOutOfFuel => False
  end.
Proof.
  intros Hn. assert (name <> []) as Hne by (destruct Hn as [Hn _]; by destruct name; [simpl in Hn; lia|]).
  revert pos. induction fuel as [|fuel IH]; intros pos Hf; [lia|]. cbn [magicLoop].
  pose proof (reverseFind_last name content pos Hne) as Hr.
  destruct (reverseFind name content pos) as [k|]; cbn in Hr.
  2:{ intros p' Hp (_ & Ho & _). by eapply Hr. }
  destruct Hr as (Hk & Ho & Hlast).
  assert (forall p', (p' + 4 <= pos)%nat -> magicAt content name JavaScriptMagicComment p' -> (p' + 4 <= k)%nat) as Hle.
  { intros p' Hp (_ & Ho' & _). destruct (Nat.le_gt_cases (p' + 4) k); [done|]. exfalso. eapply Hlast; [|done]. lia. }
  destruct (Nat.ltb_spec k 4).
  { intros p' Hp Hm. pose proof (Hle p' Hp Hm). lia. }
  replace (k - 4 + 4)%nat with k by lia.
  destruct (_ && _) eqn:E; cbn [negb].
  - apply andb_prop in E as [Eh Ee]. split_and!; [|lia|lia|].
    + split_and!; [done|by replace (k - 4 + 4)%nat with k by lia|].
      by replace (k - 4 + 4)%nat with k by lia.
    + intros p' Hp Hp' Hm. pose proof (Hle p' Hp' Hm). lia.
  - assert (forall p', (p' + 4 <= pos)%nat -> magicAt content name JavaScriptMagicComment p' -> (p' + 4 <= k - 4)%nat) as Hle'.
    { intros p' Hp Hm. pose proof (Hle p' Hp Hm). destruct (Nat.eq_dec (p' + 4)%nat k) as [<-|Hd].
      - destruct Hm as (Hh & _ & He). replace (p' + 4 - 4)%nat with p' in E by lia. by rewrite Hh, He in E.
      - destruct Hm as (_ & Ho' & _). pose proof (spaced_apart _ _ _ _ Hn Ho' Ho ltac:(lia)). lia. }
    specialize (IH (k - 4)%nat ltac:(lia)). destruct (magicLoop _ _ _ _ _) as [|p e cl|]; [|destruct IH as (?&?&?&IH)|done].
    + intros p' Hp Hm. by apply (IH p'); [apply Hle'|].
    + split_and!; [done|done|lia|]. intros p' Hlt Hp Hm. by apply (IH p'); [|apply Hle'|].
Qed.

Section WithPlatform.
Context {P : Platform}.

(** The URL of a script, or of its source map, is the one the last magic
    comment of the source gives: the text between its equal sign and the end of
    the line, trimmed, and empty when it holds blanks or quotes.  Without such a
    comment it is null.  The search ends on every source. *)
Theorem magic_comment_last content name :
  name = u "sourceURL" \/ name = u "sourceMappingURL" ->
  match (findMagicComment content name JavaScriptMagicComment).1 with
  | Some url => exists pos, magicAt content name JavaScriptMagicComment pos /\
      (forall pos', (pos < pos')%nat -> ~ magicAt content name JavaScriptMagicComment pos') /\
      url = magicValue (substring (S (pos + 4 + length name)) (length content) content)
  | None => forall pos, ~ magicAt content name JavaScriptMagicComment pos
  end.
Proof.
  intros Hname. assert (spaced name) as Hn.
  { destruct Hname as [-> | ->]; (split; [vm_compute; lia|]);
      intros k Hk; (assert (k = 1 \/ k = 2 \/ k = 3)%nat as [-> |[-> | ->]] by lia); by vm_compute. }
  assert (forall p, magicAt content name JavaScriptMagicComment p -> (p + 4 <= length content)%nat) as Hb.
  { intros p (_ & Ho & _). apply occursAt_bound in Ho. lia. }
  pose proof (magicLoop_spec (S (length content)) content name (length content) Hn ltac:(lia)) as Hl.
  unfold findMagicComment. destruct (magicLoop _ _ _ _ _) as [|p e cl|]; cbn [fst]; [| |done].
  - intros p Hp. apply (Hl p); auto.
  - destruct Hl as (Hp & -> & _ & Hl). exists p. split_and!; [done| |done].
    intros p' Hlt Hm. apply (Hl p'); auto.
Qed.

End WithPlatform.

Section MagicWitness.
#[local] Existing Instance IntegerPlatform.platform.

Definition magicSource : ustring :=
  u "//# sourceURL=a.js" ++ [10] ++ u "f()" ++ [10] ++ u "//@ sourceURL=b.js " ++ [10] ++ u "g()".

Lemma magic_comment_last_witness :
  findSourceURL magicSource JavaScriptMagicComment = Some (u "b.js") /\
  match (findMagicComment magicSource (u "sourceURL") JavaScriptMagicComment).1 with
  | Some url => exists pos, magicAt magicSource (u "sourceURL") JavaScriptMagicComment pos /\
      (forall pos', (pos < pos')%nat -> ~ magicAt magicSource (u "sourceURL") JavaScriptMagicComment pos') /\
      url = magicValue (substring (S (pos + 4 + length (u "sourceURL"))) (length magicSource) magicSource)
  | None => forall pos, ~ magicAt magicSource (u "sourceURL") JavaScriptMagicComment pos
  end.
Proof.
  split; [vm_compute; reflexivity|].
  apply (magic_comment_last magicSource (u "sourceURL")). by left.
Defined.

End MagicWitness.
