(* ===== verification/Engine.v ===== *)
(** * The JavaScript engine as the inspector sees it

    V8 is third-party code.  [V8Engine] gathers the functions of its debug
    interface that [bindings/core/v8/V8Debugger.cpp] and the debugger script
    [bindings/core/v8/DebuggerScript.js] call, over an abstract state [E] of the
    isolate; [V8Laws] states what V8 documents about breakpoints.  A pointer to a
    context ([ScriptState*]) or to a JavaScript object is modelled by a number.

    The file also holds [ScriptDebugListener::Script]. *)

From S2P Require Import Prelude Platform WTFString JSONValues.

Abbreviation ScriptState := Z.

(** A call frame, as [JavaScriptCallFrame] reads it from the debugger script's
    frame object. *)
Record Frame := mkFrame {
  sourceID : Z;
  line : Z;
  column : Z;
  functionName : ustring;
  scriptName : ustring;
  isAtReturn : bool;
}.

(** A frame of a captured stack trace ([v8::StackFrame]). *)
Record StackFrame := mkStackFrame {
  sf_scriptId : Z;
  sf_scriptNameOrSourceURL : option ustring;
  sf_functionName : option ustring;
  sf_lineNumber : Z;
  sf_column : Z;
}.

(** A [ScriptValue] that holds call frames: the context and the frames, the top
    one first. *)
Record CallFrames := mkCallFrames {
  cf_scriptState : ScriptState;
  cf_frames : list Frame;
}.

Inductive StepAction := StepIn | StepNext | StepOutAction | StepFrameAction.

(** A message about an exception ([v8::Message]). *)
Record V8Message := mkV8Message {
  msg_text : ustring;
  msg_lineNumber : Z;
  msg_startColumn : Z;
  msg_stackTrace : list StackFrame;
}.

(** The functions of the injected script that the inspector calls for an answer,
    with their arguments; frames of another context arrive as [undefined]. *)
Inductive InjectedCall :=
  | CallRestartFrame (callFrames : option CallFrames) (callFrameId : ustring)
  | CallGetStepInPositions (callFrames : option CallFrames) (callFrameId : ustring)
  | CallSetVariableValue (callFrame : option (option CallFrames * ustring)) (functionObjectId : option ustring)
      (scopeNumber : Z) (variableName newValue : ustring)
  | CallGetFunctionDetails (functionId : ustring)
  | CallGetGeneratorObjectDetails (objectId : ustring)
  | CallGetCollectionEntries (objectId : ustring)
  | CallGetProperties (objectId : ustring) (ownProperties accessorPropertiesOnly generatePreview : bool)
  | CallGetInternalProperties (objectId : ustring)
  | CallClearLastEvaluationResult
  | CallSetCustomObjectFormatterEnabled (enabled : bool).

(** The returned value as JSON, [None] when it is nested too deeply; or the text of
    the message about an exception. *)
Inductive CallResult :=
  | CallReturned (value : option JSONValue)
  | CallThrew (text : option ustring).

(** What happens while the injected script runs: it asks for numbers of the
    objects that it describes, for the object or the name of the group that belong to
    a number, and returns. *)
Inductive JS (A : Type) :=
  | JSReturn (a : A)
  | JSBind (value : Z) (groupName : ustring) (k : Z -> JS A)
  | JSObjectForId (id : Z) (k : option Z -> JS A)
  | JSGroupName (id : Z) (k : option ustring -> JS A).
Arguments JSReturn {A} a.
Arguments JSBind {A} value groupName k.
Arguments JSObjectForId {A} id k.
Arguments JSGroupName {A} id k.

Fixpoint JSall {A} (Q : A -> Prop) (t : JS A) : Prop :=
  match t with
  | JSReturn a => Q a
  | JSBind _ _ k => forall id, JSall Q (k id)
  | JSObjectForId _ k => forall value, JSall Q (k value)
  | JSGroupName _ k => forall name, JSall Q (k name)
  end.

(** The result of replacing the source of a script. *)
Inductive LiveEditResult :=
  | LiveEditDone (result : option JSONValue)
  | LiveEditCompileError (error message : ustring) (lineNumber columnNumber : Z)
  | LiveEditUnknown
  | LiveEditThrew (text : option ustring).

(** A script as V8 describes it to the debugger script. *)
Record V8Script := mkV8Script {
  s_id : Z;
  s_nameOrSourceURL : option ustring;
  s_source_url : option ustring;
  s_source_mapping_url : option ustring;
  s_source : ustring;
  s_line_ends : list Z;
  s_line_offset : Z;
  s_column_offset : Z;
  s_context_data : ustring;
  s_is_debugger_script : bool;
}.

Class V8Engine (E : Type) := {
  (** breakpoints: the new break id, the places it was set at, removal by the
      text of an id *)
  setScriptBreakPointById : ustring -> Z -> Z -> ustring -> bool -> E -> Z * E;
  findBreakPointActualLocations : Z -> E -> list (Z * Z);
  findBreakPoint_remove : ustring -> E -> E;
  clearAllBreakPoints : E -> E;
  breakPointsActive_setValue : bool -> E -> E;
  setBreakOnException : bool -> E -> E;
  setBreakOnUncaughtException : bool -> E -> E;
  (** [DebugBreak] and [CancelDebugBreak], [CheckDebugBreak] *)
  setDebugBreak : bool -> E -> E;
  checkDebugBreak : E -> bool;
  (** the JavaScript stack *)
  inContext : E -> bool;
  currentContext : E -> ScriptState;
  hasStackTrace : E -> bool;
  execFrames : E -> list Frame;
  currentStackTrace : Z -> E -> list StackFrame;
  recursionLevel : E -> Z;
  contextIsValid : ScriptState -> E -> bool;
  (** stepping *)
  prepareStep : StepAction -> E -> E;
  clearSteppingV8 : E -> E;
  (** whether the debugger script can be loaded and compiled *)
  debuggerScriptCompiles : E -> bool;
  (** the clock of the embedder, and the context an object was created in *)
  currentTimeMS : E -> double;
  creationContext : Z -> E -> ScriptState;
  (** the compiled scripts *)
  debugScripts : E -> list V8Script;
  (** replaces the source of a script *)
  liveEditScriptSource : ustring -> ustring -> bool -> E -> LiveEditResult * E;
  (** the injected script of a context: whether it could be created; its
      functions *)
  createInjectedScript : ScriptState -> Z -> E -> bool * E;
  injectedWrapCallFrames : ScriptState -> option CallFrames -> Z -> E -> JS (option JSONValue * E);
  injectedWrapObject : ScriptState -> Z -> ustring -> E -> JS (option jobject * E);
  injectedCall : ScriptState -> InjectedCall -> E -> JS (CallResult * E);
}.

(** What V8 documents about breakpoints: each has a number, which is in use from
    the call that sets it until its removal and is never given out again; nothing
    else the inspector does to the engine changes them. *)
Class V8Laws E `{V8Engine E} := {
  inUse : E -> gset Z;
  issued : E -> gset Z;
  inUse_issued : forall e, inUse e ⊆ issued e;
  set_fresh : forall s l c k b e n e', setScriptBreakPointById s l c k b e = (n, e') ->
    (n ∉ issued e) /\ inUse e' = {[n]} ∪ inUse e /\ issued e' = {[n]} ∪ issued e;
  remove_number : forall n e, let e' := findBreakPoint_remove (String_number n) e in
    inUse e' = inUse e ∖ {[n]} /\ issued e' = issued e;
  clear_all : forall e, inUse (clearAllBreakPoints e) = ∅ /\ issued (clearAllBreakPoints e) = issued e;
  keep : E -> E -> Prop := fun e e' => inUse e' = inUse e /\ issued e' = issued e;
  keep_active : forall b e, keep e (breakPointsActive_setValue b e);
  keep_exception : forall b e, keep e (setBreakOnException b e);
  keep_uncaught : forall b e, keep e (setBreakOnUncaughtException b e);
  keep_break : forall b e, keep e (setDebugBreak b e);
  keep_step : forall a e, keep e (prepareStep a e);
  keep_clearStep : forall e, keep e (clearSteppingV8 e);
  keep_create : forall s i e, keep e (createInjectedScript s i e).2;
  keep_liveEdit : forall s c b e, keep e (liveEditScriptSource s c b e).2;
  keep_wrapFrames : forall s c o e, JSall (fun r => keep e r.2) (injectedWrapCallFrames s c o e);
  keep_wrapObject : forall s v g e, JSall (fun r => keep e r.2) (injectedWrapObject s v g e);
  keep_call : forall s c e, JSall (fun r => keep e r.2) (injectedCall s c e);
}.

(** The two scripts that the inspector reads from files are there and compile. *)
Class ScriptsLoad E `{V8Engine E} : Prop := {
  debuggerScript_loads : forall e, debuggerScriptCompiles e = true;
  injectedScript_loads : forall s i e, (createInjectedScript s i e).1 = true;
}.

(** [setVariableValue] answers with the text of what was thrown, which the program
    chooses. *)
Definition definite (c : InjectedCall) : bool := match c with CallSetVariableValue _ _ _ _ _ => false | _ => true end.

(** What [InjectedScriptSource.js] answers: a string is the text of an error, and is
    not empty; [wrapObject] describes any object.  [ScriptEngine] proves this of the
    script. *)
Class ScriptAnswers E `{V8Engine E} : Prop := {
  call_answers : forall s c e, definite c = true -> JSall (fun r => r.1 <> CallReturned (Some (JSONString []))) (injectedCall s c e);
  wrapObject_answers : forall s v g e, JSall (fun r => is_Some r.1) (injectedWrapObject s v g e);
}.

(** ** Scripts ([core/inspector/ScriptDebugListener.cpp]) *)

Definition kBlackboxUnknown : Z := 0.

Record Script := mkScript {
  m_url : option ustring;
  m_sourceURL : option ustring;
  m_sourceMappingURL : option ustring;
  m_source : option ustring;
  m_startLine : Z;
  m_startColumn : Z;
  m_endLine : Z;
  m_endColumn : Z;
  m_isContentScript : bool;
  m_isInternalScript : bool;
  m_isBlackboxedURL : bool;
  m_blackboxGeneration : Z;
}.

#[export] Instance Script_fields : Fields Script := fun s =>
  mkScript (m_url s) (m_sourceURL s) (m_sourceMappingURL s) (m_source s) (m_startLine s) (m_startColumn s)
    (m_endLine s) (m_endColumn s) (m_isContentScript s) (m_isInternalScript s) (m_isBlackboxedURL s)
    (m_blackboxGeneration s).

(** [String::isEmpty], true of a null string too. *)
Definition isEmpty (s : option ustring) : bool := match s with Some (_ :: _) => false | _ => true end.

Definition hasSourceURL (s : Script) : bool := negb (isEmpty (m_sourceURL s)).
Definition sourceURL (s : Script) : option ustring := if isEmpty (m_sourceURL s) then m_url s else m_sourceURL s.

Definition setSourceURL (url : option ustring) (s : Script) : Script :=
  s <| m_sourceURL := url |> <| m_blackboxGeneration := kBlackboxUnknown |>.

(** The cached answer, if it is of this generation. *)
Definition getBlackboxedState (blackboxGeneration : Z) (s : Script) : option bool :=
  if (m_blackboxGeneration s =? kBlackboxUnknown) || negb (m_blackboxGeneration s =? blackboxGeneration) then None
  else Some (m_isBlackboxedURL s).

Definition setBlackboxedState (blackboxGeneration : Z) (isBlackboxed : bool) (s : Script) : Script :=
  s <| m_isBlackboxedURL := isBlackboxed |> <| m_blackboxGeneration := blackboxGeneration |>.

Inductive CompileResult := CompileSuccess | CompileError.

Module ScriptDebugListener.

Inductive SkipPauseRequest := NoSkip | Continue | StepInto | StepOut | StepFrame.

#[export] Instance SkipPauseRequest_eq_dec : EqDecision SkipPauseRequest.
Proof. solve_decision. Defined.

End ScriptDebugListener.
