(* ===== verification/CallStacks.v ===== *)
(** * Call stacks for the console

    [core/inspector/ScriptCallFrame.cpp], [ScriptCallStack.cpp] and
    [bindings/core/v8/ScriptCallStackFactory.cpp]: stacks that V8 captures while
    JavaScript runs, as the protocol describes them.  No stack is linked to an
    asynchronous one. *)

From S2P Require Import Prelude Platform WTFString JSONValues Engine.

Record ScriptCallFrame := mkScriptCallFrame {
  f_functionName : ustring;
  f_scriptId : ustring;
  f_scriptName : ustring;
  f_lineNumber : Z;
  f_column : Z;
}.

(** The constructor without arguments. *)
Definition undefinedCallFrame : ScriptCallFrame := mkScriptCallFrame (u "undefined") [] (u "undefined") 0 0.

Definition buildInspectorObject (frame : ScriptCallFrame) : jobject :=
  let o := setString (u "functionName") (f_functionName frame) [] in
  let o := setString (u "scriptId") (f_scriptId frame) o in
  let o := setString (u "url") (f_scriptName frame) o in
  let o := setInt (u "lineNumber") (f_lineNumber frame) o in
  setInt (u "columnNumber") (f_column frame) o.

Definition buildInspectorArray (frames : list ScriptCallFrame) : JSONValue :=
  JSONArray (map (fun frame => JSONObject (buildInspectorObject frame)) frames).

Definition maxCallStackSizeToCapture : Z := 200.

Module CallStackFactory.
Section WithEngine.
Context {E : Type} `{V8Engine E}.

(** A null string is written like an empty one. *)
Definition toScriptCallFrame (frame : StackFrame) : ScriptCallFrame :=
  mkScriptCallFrame (default [] (sf_functionName frame)) (String_number (sf_scriptId frame))
    (default [] (sf_scriptNameOrSourceURL frame)) (sf_lineNumber frame) (sf_column frame).

Definition toScriptCallFramesVector (stackTrace : list StackFrame) (maxStackSize : Z) (emptyStackIsAllowed : bool)
    : list ScriptCallFrame :=
  let frameCount := Z.of_nat (length stackTrace) in
  let frameCount := if maxStackSize <? frameCount then maxStackSize else frameCount in
  let scriptCallFrames := map toScriptCallFrame (take (Z.to_nat frameCount) stackTrace) in
  if (frameCount =? 0) && negb emptyStackIsAllowed then scriptCallFrames ++ [undefinedCallFrame] else scriptCallFrames.

(** Null outside of JavaScript. *)
Definition createScriptCallStack (maxStackSize : Z) (emptyStackIsAllowed : bool) (e : E) : option (list ScriptCallFrame) :=
  if inContext e
  then Some (toScriptCallFramesVector (currentStackTrace maxStackSize e) maxStackSize emptyStackIsAllowed)
  else None.

End WithEngine.
End CallStackFactory.
