(* ===== verification/NativeObjects.v ===== *)
(** * Objects the frontend refers to ([core/inspector/InjectedScriptNative.cpp])

    An injected script gives an object that it describes to the frontend a number,
    and can put it in a group; the frontend later releases single objects or
    groups.  JavaScript values are numbers. *)

From S2P Require Import Prelude Platform WTFString.

Record InjectedScriptNative := mkNative {
  m_lastBoundObjectId : Z;
  m_idToWrappedObject : gmap Z Z;
  m_idToObjectGroupName : gmap Z ustring;
  m_nameToObjectGroup : gmap ustring (list Z);
}.

#[export] Instance InjectedScriptNative_fields : Fields InjectedScriptNative := fun n =>
  mkNative (m_lastBoundObjectId n) (m_idToWrappedObject n) (m_idToObjectGroupName n) (m_nameToObjectGroup n).

Module Native.

Definition new : InjectedScriptNative := mkNative 1 ∅ ∅ ∅.

Definition addObjectToGroup (objectId : Z) (groupName : ustring) (n : InjectedScriptNative) : InjectedScriptNative :=
  match groupName with
  | [] => n
  | _ =>
      if objectId <=? 0 then n
      else n <| m_idToObjectGroupName := <[objectId := groupName]> (m_idToObjectGroupName n) |>
             <| m_nameToObjectGroup :=
                  <[groupName := default [] (m_nameToObjectGroup n !! groupName) ++ [objectId]]> (m_nameToObjectGroup n) |>
  end.

(** The counter starts again at one after the largest integer. *)
Definition bind (value : Z) (groupName : ustring) (n : InjectedScriptNative) : Z * InjectedScriptNative :=
  let id := if m_lastBoundObjectId n <=? 0 then 1 else m_lastBoundObjectId n in
  (id, addObjectToGroup id groupName
         (n <| m_lastBoundObjectId := wrapS 32 (id + 1) |>
            <| m_idToWrappedObject := <[id := value]> (m_idToWrappedObject n) |>)).

Definition unbind (id : Z) (n : InjectedScriptNative) : InjectedScriptNative :=
  n <| m_idToWrappedObject := delete id (m_idToWrappedObject n) |>
    <| m_idToObjectGroupName := delete id (m_idToObjectGroupName n) |>.

Definition objectForId (id : Z) (n : InjectedScriptNative) : option Z := m_idToWrappedObject n !! id.

Definition releaseObjectGroup (groupName : ustring) (n : InjectedScriptNative) : InjectedScriptNative :=
  match groupName with
  | [] => n
  | _ =>
      match m_nameToObjectGroup n !! groupName with
      | None => n
      | Some ids =>
          let n := foldl (fun n id => unbind id n) n ids in
          n <| m_nameToObjectGroup := delete groupName (m_nameToObjectGroup n) |>
      end
  end.

(** Null for an object without a group. *)
Definition groupName (objectId : Z) (n : InjectedScriptNative) : option ustring :=
  if objectId <=? 0 then None else m_idToObjectGroupName n !! objectId.

End Native.
