(* ===== verification/NativeRefinement.v ===== *)
(** * The registry on hash tables is the registry on finite maps

    Every sequence of operations answers the same on both, for the object numbers that
    are not marks of the tables. *)

From S2P Require Import Prelude WTFString HashTables HashTableFacts HashMaps StringHashing NativeObjects NativeTables.

(** ** Operations *)

Inductive nativeOp :=
  | NativeBind (value : Z) (groupName : ustring)
  | NativeUnbind (id : Z)
  | NativeObjectForId (id : Z)
  | NativeReleaseObjectGroup (groupName : ustring)
  | NativeGroupName (id : Z).

Inductive nativeAnswer :=
  | BoundId (id : Z)
  | Nothing
  | BoundObject (value : option Z)
  | BoundGroup (name : option ustring).

Definition performNative (o : nativeOp) (t : NativeTables) : Ends (nativeAnswer * NativeTables) :=
  match o with
  | NativeBind value groupName => p ← NativeTable.bind value groupName t; mret (BoundId p.1, p.2)
  | NativeUnbind id => t ← NativeTable.unbind id t; mret (Nothing, t)
  | NativeObjectForId id => v ← NativeTable.objectForId id t; mret (BoundObject v, t)
  | NativeReleaseObjectGroup groupName => t ← NativeTable.releaseObjectGroup groupName t; mret (Nothing, t)
  | NativeGroupName id => g ← NativeTable.groupName id t; mret (BoundGroup g, t)
  end.

Fixpoint performNatives (os : list nativeOp) (t : NativeTables) : Ends (list nativeAnswer * NativeTables) :=
  match os with
  | [] => mret ([], t)
  | o :: os' => p ← performNative o t; q ← performNatives os' p.2; mret (p.1 :: q.1, q.2)
  end.

Definition specNative (o : nativeOp) (n : InjectedScriptNative) : nativeAnswer * InjectedScriptNative :=
  match o with
  | NativeBind value groupName => let p := Native.bind value groupName n in (BoundId p.1, p.2)
  | NativeUnbind id => (Nothing, Native.unbind id n)
  | NativeObjectForId id => (BoundObject (Native.objectForId id n), n)
  | NativeReleaseObjectGroup groupName => (Nothing, Native.releaseObjectGroup groupName n)
  | NativeGroupName id => (BoundGroup (Native.groupName id n), n)
  end.

Fixpoint specNatives (os : list nativeOp) (n : InjectedScriptNative) : list nativeAnswer * InjectedScriptNative :=
  match os with
  | [] => ([], n)
  | o :: os' => let p := specNative o n in let q := specNatives os' p.2 in (p.1 :: q.1, q.2)
  end.

(** Zero and minus one are the marks of tables with integer keys. *)
Definition allowedNative (o : nativeOp) : Prop :=
  match o with
  | NativeUnbind id | NativeObjectForId id => id <> 0 /\ id <> -1
  | _ => True
  end.

(** ** Simulation *)

Record tablesOf (t : NativeTables) (n : InjectedScriptNative) : Prop := {
  of_last : t_lastBoundObjectId t = m_lastBoundObjectId n;
  of_objects : implements (t_idToWrappedObject t) (Some <$> m_idToWrappedObject n);
  of_names : implements (t_idToObjectGroupName t) (Some <$> m_idToObjectGroupName n);
  of_groups : implements (t_nameToObjectGroup t) (kmap AString (m_nameToObjectGroup n));
  of_members : map_Forall (fun _ ids => Forall (fun id => 0 < id) ids) (m_nameToObjectGroup n);
}.

(** No map has more than [k] entries. *)
Definition atMost (k : nat) (n : InjectedScriptNative) : Prop :=
  (size (m_idToWrappedObject n) <= k)%nat /\ (size (m_idToObjectGroupName n) <= k)%nat /\ (size (m_nameToObjectGroup n) <= k)%nat.

Lemma valid_id id : 0 < id -> validKey id.
Proof. split; cbn; lia. Qed.

Lemma valid_string s : validKey (AString s).
Proof. done. Qed.

Lemma kmap_size (m : gmap ustring (list Z)) : size (kmap AString m : gmap StringKey (list Z)) = size m.
Proof. rewrite <- !length_map_to_list. by rewrite map_to_list_kmap, length_fmap by apply _. Qed.

Lemma appendTo_implements r m (p : nat) name ids id :
  tableOf r m -> HashTable.m_table r !! p = Some (AString name, ids) ->
  exists r', NativeTable.appendTo (Z.of_nat p) id r = Returns r' /\ implements r' (<[AString name := ids ++ [id]]> m).
Proof.
  intros Hr Hp. unfold NativeTable.appendTo. rewrite Nat2Z.id, Hp. eexists. split; [done|]. right.
  by apply (change_tableOf r m p (AString name) ids).
Qed.

Lemma addObjectToGroup_refines id name t n :
  tablesOf t n -> Z.of_nat (size (m_idToObjectGroupName n)) + 1 < 2 ^ 28 -> Z.of_nat (size (m_nameToObjectGroup n)) + 1 < 2 ^ 28 ->
  exists t', NativeTable.addObjectToGroup id name t = Returns t' /\ tablesOf t' (Native.addObjectToGroup id name n).
Proof.
  intros Ht Hs2 Hs3. pose proof Ht as [H1 H2 H3 H4 H5]. unfold NativeTable.addObjectToGroup, Native.addObjectToGroup.
  destruct name as [|c name]; [by exists t|]. set (s := c :: name). destruct (Z.leb_spec id 0); [by exists t|].
  destruct (set_implements None _ _ id (Some s) H3) as (p & names & -> & Hn & _); [by apply valid_id|rewrite map_size_fmap; lia|].
  cbn [mbind Ends_bind snd t_nameToObjectGroup setField].
  assert (exists groups, (groupIt ← HashTable.lookup (AString s) (t_nameToObjectGroup t);
     match groupIt with
     | None => q ← HashMap.set [] (AString s) [] (t_nameToObjectGroup t); NativeTable.appendTo q.1 id q.2
     | Some it => NativeTable.appendTo it id (t_nameToObjectGroup t)
     end) = Returns groups /\
     implements groups (kmap AString (<[s := default [] (m_nameToObjectGroup n !! s) ++ [id]]> (m_nameToObjectGroup n)))) as (groups & Hg & Hi).
  { rewrite kmap_insert by apply _. pose proof (implements_lookup _ _ _ H4 (valid_string s)) as Hl. rewrite lookup_kmap in Hl by apply _.
    destruct (m_nameToObjectGroup n !! s) as [ids|].
    - destruct Hl as (q & -> & Hq & Hr). by apply appendTo_implements.
    - rewrite Hl. cbn [mbind Ends_bind default].
      destruct (set_implements [] _ _ (AString s) [] H4 (valid_string s)) as (q & r & -> & Hr & Hq); [rewrite kmap_size; lia|].
      cbn [mbind Ends_bind fst snd]. destruct (appendTo_implements r _ q s [] id Hr Hq) as (r' & -> & Hr'). exists r'. split; [done|].
      by rewrite insert_insert_eq in Hr'. }
  change (t_nameToObjectGroup (t <| t_idToObjectGroupName := names |>)) with (t_nameToObjectGroup t).
  destruct (HashTable.lookup _ _) as [it| |]; try done. cbn [mbind Ends_bind] in *. rewrite Hg. eexists. split; [done|].
  split; cbn; try done; [right; by rewrite fmap_insert|]. apply map_Forall_insert_2; [|done].
  apply Forall_app_2; [|by repeat constructor]. destruct (m_nameToObjectGroup n !! s) as [ids|] eqn:Es; [|constructor]. by apply (H5 s).
Qed.

Lemma bind_refines k value name t n :
  tablesOf t n -> atMost k n -> Z.of_nat k + 1 < 2 ^ 28 ->
  exists t', NativeTable.bind value name t = Returns ((Native.bind value name n).1, t') /\ tablesOf t' (Native.bind value name n).2.
Proof.
  intros [H1 H2 H3 H4 H5] (Hs1 & Hs2 & Hs3) Hk. unfold NativeTable.bind, Native.bind, V8GlobalValueMap.Set_, V8GlobalValueMap.Get. rewrite H1.
  set (id := if m_lastBoundObjectId n <=? 0 then 1 else m_lastBoundObjectId n). assert (0 < id) as Hid by (subst id; destruct (Z.leb_spec (m_lastBoundObjectId n) 0); lia).
  cbn [fst snd]. change (t_idToWrappedObject (t <| t_lastBoundObjectId := wrapS 32 (id + 1) |>)) with (t_idToWrappedObject t).
  rewrite (get_implements None _ _ id H2 (valid_id id Hid)). cbn [mbind Ends_bind].
  destruct (set_implements None _ _ id (Some value) H2 (valid_id id Hid)) as (p & objects & -> & Ho & _); [rewrite map_size_fmap; lia|].
  cbn [mbind Ends_bind mret Ends_ret snd].
  edestruct (addObjectToGroup_refines id name) as (t' & -> & Ht'); [| | |exists t'; split; [done|exact Ht']]; [|cbn; lia..].
  split; cbn; try done. right. by rewrite fmap_insert.
Qed.

Lemma unbind_refines id t n :
  tablesOf t n -> validKey id -> exists t', NativeTable.unbind id t = Returns t' /\ tablesOf t' (Native.unbind id n).
Proof.
  intros [H1 H2 H3 H4 H5] Hid. unfold NativeTable.unbind, V8GlobalValueMap.Remove.
  destruct (take_implements None _ _ id H2 Hid) as (objects & -> & Ho). cbn [mbind Ends_bind].
  destruct (remove_implements None _ _ id H3 Hid) as (names & -> & Hn). eexists. split; [done|]. split; cbn; try done; by rewrite fmap_delete.
Qed.

Lemma unbindAll_refines ids t n :
  tablesOf t n -> Forall (fun id => 0 < id) ids ->
  exists t', NativeTable.unbindAll ids t = Returns t' /\ tablesOf t' (foldl (fun n id => Native.unbind id n) n ids) /\
    t_nameToObjectGroup t' = t_nameToObjectGroup t.
Proof.
  intros Ht Hids. revert t n Ht. induction Hids as [|id ids Hid _ IH]; intros t n Ht; [by exists t|]. cbn [NativeTable.unbindAll foldl].
  destruct (unbind_refines id t n Ht (valid_id id Hid)) as (t1 & H1 & Ht1). rewrite H1. cbn [mbind Ends_bind].
  destruct (IH t1 _ Ht1) as (t' & -> & Ht' & Hg). exists t'. split; [done|]. split; [done|]. rewrite Hg.
  unfold NativeTable.unbind in H1. destruct (V8GlobalValueMap.Remove _ _) as [p| |]; try done. cbn [mbind Ends_bind] in H1.
  destruct (HashMap.remove _ _ _); try done. by injection H1 as <-.
Qed.

Lemma unbindAll_groups ids n : m_nameToObjectGroup (foldl (fun n id => Native.unbind id n) n ids) = m_nameToObjectGroup n.
Proof. revert n. induction ids as [|id ids IH]; intros n; [done|]. cbn. by rewrite IH. Qed.

Lemma releaseObjectGroup_refines name t n :
  tablesOf t n -> exists t', NativeTable.releaseObjectGroup name t = Returns t' /\ tablesOf t' (Native.releaseObjectGroup name n).
Proof.
  intros Ht. unfold NativeTable.releaseObjectGroup, Native.releaseObjectGroup. destruct name as [|c name]; [by exists t|]. set (s := c :: name).
  pose proof (implements_lookup _ _ _ (of_groups _ _ Ht) (valid_string s)) as Hl. rewrite lookup_kmap in Hl by apply _.
  destruct (m_nameToObjectGroup n !! s) as [ids|] eqn:Es; [|rewrite Hl; by exists t]. destruct Hl as (p & -> & Hp & Hr). cbn [mbind Ends_bind].
  rewrite Nat2Z.id, Hp. cbn [snd]. destruct (unbindAll_refines ids t n Ht) as (t1 & -> & [H1 H2 H3 H4 H5] & Hg); [by apply (of_members _ _ Ht s)|].
  cbn [mbind Ends_bind]. rewrite Hg in *. destruct (removeBucket_tableOf [] _ _ p _ Hr Hp (valid_string s)) as (r' & -> & Hr').
  eexists. split; [done|]. split; cbn; try done.
  - right. rewrite unbindAll_groups, kmap_delete by apply _. done.
  - by apply map_Forall_delete.
Qed.

Lemma performNative_refines k o t n :
  tablesOf t n -> allowedNative o -> atMost k n -> Z.of_nat k + 1 < 2 ^ 28 ->
  exists t', performNative o t = Returns ((specNative o n).1, t') /\ tablesOf t' (specNative o n).2.
Proof.
  intros Ht Ho Hs Hk. destruct o as [value name|id|id|name|id]; cbn [performNative specNative allowedNative fst snd] in *.
  - destruct (bind_refines k value name t n Ht Hs Hk) as (t' & -> & Ht'). by exists t'.
  - destruct (unbind_refines id t n Ht Ho) as (t' & -> & Ht'). by exists t'.
  - exists t. split; [|done]. unfold NativeTable.objectForId, V8GlobalValueMap.Get. rewrite (get_implements None _ _ id (of_objects _ _ Ht) Ho).
    cbn. rewrite lookup_fmap. unfold Native.objectForId. by destruct (_ !! id).
  - destruct (releaseObjectGroup_refines name t n Ht) as (t' & -> & Ht'). by exists t'.
  - exists t. split; [|done]. unfold NativeTable.groupName, Native.groupName. destruct (Z.leb_spec id 0); [done|].
    rewrite (get_implements None _ _ id (of_names _ _ Ht)) by (by apply valid_id). cbn. rewrite lookup_fmap. by destruct (_ !! id).
Qed.

Lemma unbindAll_atMost k ids n : atMost k n -> atMost k (foldl (fun n id => Native.unbind id n) n ids).
Proof.
  revert n. induction ids as [|id ids IH]; intros n (H1 & H2 & H3); [done|]. apply IH. split; [|split; [|done]]; cbn;
    rewrite map_size_delete; destruct (_ !! id); cbn; lia.
Qed.

Lemma specNative_atMost k o n : atMost k n -> atMost (S k) (specNative o n).2.
Proof.
  intros Hs. pose proof Hs as (H1 & H2 & H3). destruct o as [value name|id|id|name|id]; cbn [specNative snd].
  - unfold Native.bind, Native.addObjectToGroup, atMost. cbn [snd]. repeat case_match; cbn; rewrite ?map_size_insert;
      repeat match goal with |- context [?m !! ?i] => destruct (m !! i); cbn end; lia.
  - unfold Native.unbind, atMost. cbn. rewrite !map_size_delete. repeat match goal with |- context [?m !! ?i] => destruct (m !! i); cbn end; lia.
  - unfold atMost. lia.
  - unfold Native.releaseObjectGroup. destruct name as [|c name]; [unfold atMost; lia|].
    destruct (m_nameToObjectGroup n !! (c :: name)) as [ids|]; [|unfold atMost; lia].
    pose proof (unbindAll_atMost k ids n Hs) as (H4 & H5 & H6). unfold atMost. cbn. rewrite map_size_delete. destruct (_ !! _); cbn; lia.
  - unfold atMost. lia.
Qed.

Lemma performNatives_refines os t n k :
  tablesOf t n -> Forall allowedNative os -> atMost k n -> Z.of_nat (k + length os) < 2 ^ 28 ->
  exists t', performNatives os t = Returns ((specNatives os n).1, t') /\ tablesOf t' (specNatives os n).2.
Proof.
  intros Ht Hos. revert t n k Ht. induction Hos as [|o os Ho _ IH]; intros t n k Ht Hs Hk; [by exists t|]. cbn [length performNatives specNatives] in *.
  destruct (performNative_refines k o t n Ht Ho Hs) as (t1 & -> & Ht1); [lia|]. cbn [mbind Ends_bind fst snd].
  destruct (IH t1 _ (S k) Ht1) as (t' & -> & Ht'); [by apply specNative_atMost|lia|]. by exists t'.
Qed.

(** C19 The registry of objects on its three hash tables refines the one on finite maps that
    the agents are verified with: fewer than 2^28 operations on a new registry all return,
    with the same numbers, objects and names of groups, provided that no object with one
    of the numbers 0 and -1 is released or asked for; numbers that the registry itself
    gives are never among these, so that releasing groups is always safe. *)
Theorem native_refines (os : list nativeOp) :
  Forall allowedNative os -> Z.of_nat (length os) < 2 ^ 28 ->
  exists t, performNatives os NativeTable.new = Returns ((specNatives os Native.new).1, t) /\ tablesOf t (specNatives os Native.new).2.
Proof.
  intros Hos Hlen. apply (performNatives_refines os NativeTable.new Native.new 0); try done. split; try done; cbn; rewrite ?fmap_empty, ?kmap_empty; apply new_implements.
Qed.

Lemma native_refines_witness :
  exists t, performNatives [NativeBind 70 (u "console"); NativeBind 71 (u "console"); NativeBind 72 []; NativeGroupName 2;
      NativeUnbind 1; NativeReleaseObjectGroup (u "console"); NativeObjectForId 2; NativeObjectForId 3] NativeTable.new =
    Returns ([BoundId 1; BoundId 2; BoundId 3; BoundGroup (Some (u "console")); Nothing; Nothing; BoundObject None; BoundObject (Some 72)], t).
Proof.
  destruct (native_refines [NativeBind 70 (u "console"); NativeBind 71 (u "console"); NativeBind 72 []; NativeGroupName 2;
      NativeUnbind 1; NativeReleaseObjectGroup (u "console"); NativeObjectForId 2; NativeObjectForId 3]) as (t & Ht & _);
    [by repeat constructor|done|]. exists t. exact Ht.
Defined.
