(* ===== verification/ModelEngine.v ===== *)
(** * A small JavaScript engine

    An instance of [V8Engine] that satisfies [V8Laws]: the theorems about the
    debugger are applied to it.  It keeps breakpoints, scripts and a stack of
    frames, and nothing runs. *)

From S2P Require Import Prelude Platform WTFString JSONValues StringSearch ContentSearch Engine.

Record Isolate := mkIsolate {
  breakPoints : gmap Z (Z * Z);
  removedBreakPoints : gset Z;
  stackFrames : list Frame;
  loadedScripts : list V8Script;
  debugBreak : bool;
}.

#[export] Instance Isolate_fields : Fields Isolate := fun r =>
  mkIsolate (breakPoints r) (removedBreakPoints r) (stackFrames r) (loadedScripts r) (debugBreak r).

Definition knownBreakPoints (e : Isolate) : gset Z := dom (breakPoints e) ∪ removedBreakPoints e.

(** The numbers count up from one. *)
Definition nextBreakPoint (e : Isolate) : Z := set_fold Z.max 0 (knownBreakPoints e) + 1.

Lemma nextBreakPoint_fresh e : nextBreakPoint e ∉ knownBreakPoints e.
Proof.
  unfold nextBreakPoint. assert (forall x, x ∈ knownBreakPoints e -> x <= set_fold Z.max 0 (knownBreakPoints e)) as Hm.
  { apply (set_fold_ind_L (fun r X => forall x, x ∈ X -> x <= r)); [set_solver|].
    intros x X r _ IH y [->%elem_of_singleton|Hy%IH]%elem_of_union; lia. }
  intros Hn%Hm. lia.
Qed.

Definition modelEngine : V8Engine Isolate := {|
  setScriptBreakPointById _ line column _ _ e :=
    (nextBreakPoint e, e <| breakPoints := <[nextBreakPoint e := (line, column)]> (breakPoints e) |>);
  findBreakPointActualLocations n e := match breakPoints e !! n with Some l => [l] | None => [] end;
  findBreakPoint_remove text e :=
    e <| breakPoints := filter (fun kv => String_number kv.1 <> text) (breakPoints e) |>
      <| removedBreakPoints := knownBreakPoints e |>;
  clearAllBreakPoints e := e <| breakPoints := ∅ |> <| removedBreakPoints := knownBreakPoints e |>;
  breakPointsActive_setValue _ e := e;
  setBreakOnException _ e := e;
  setBreakOnUncaughtException _ e := e;
  setDebugBreak b e := e <| debugBreak := b |>;
  checkDebugBreak e := debugBreak e;
  inContext _ := true;
  currentContext _ := 1;
  hasStackTrace e := match stackFrames e with [] => false | _ => true end;
  execFrames e := stackFrames e;
  currentStackTrace _ e :=
    map (fun f => mkStackFrame (sourceID f) (Some (scriptName f)) (Some (functionName f)) (line f + 1) (column f + 1))
      (stackFrames e);
  currentTimeMS _ := S754_zero false;
  creationContext _ _ := 1;
  recursionLevel e := Z.of_nat (length (stackFrames e));
  contextIsValid _ _ := true;
  prepareStep _ e := e;
  clearSteppingV8 e := e;
  debuggerScriptCompiles _ := true;
  debugScripts e := loadedScripts e;
  liveEditScriptSource _ _ _ e := (LiveEditUnknown, e);
  createInjectedScript _ _ e := (true, e);
  injectedWrapCallFrames _ _ _ e := JSReturn (Some (JSONArray []), e);
  injectedWrapObject _ value group e :=
    JSBind value group (fun id => JSReturn (Some (setString (u "objectId") (String_number id) []), e));
  injectedCall _ _ e := JSReturn (CallReturned (Some JSONNull), e);
|}.

Definition modelLaws : @V8Laws Isolate modelEngine.
Proof.
  refine (@Build_V8Laws Isolate modelEngine (fun e => dom (breakPoints e)) knownBreakPoints _ _ _ _ _ _ _ _ _ _ _ _ _ _ _);
    try done.
  - intros e. unfold knownBreakPoints. set_solver.
  - intros s l c k b e n e' [= <- <-]. split; [apply nextBreakPoint_fresh|]. unfold knownBreakPoints. cbn.
    rewrite dom_insert_L. set_solver.
  - intros n e. cbn. unfold knownBreakPoints. split; [|cbn].
    + apply set_eq. intros x. rewrite elem_of_difference, elem_of_singleton, !elem_of_dom.
      split.
      * intros [p [Hp Hne]%map_lookup_filter_Some]. split; [eauto|]. intros ->. done.
      * intros [[p Hp] Hne]. exists p. apply map_lookup_filter_Some. split; [done|]. cbn.
        intros ?%String_number_inj. done.
    + apply set_eq. intros x. pose proof (dom_filter_subseteq (fun kv => String_number kv.1 <> String_number n) (breakPoints e)).
      set_solver.
  - intros e. unfold knownBreakPoints. cbn. rewrite dom_empty_L. set_solver.
Defined.

Definition modelLoads : @ScriptsLoad Isolate modelEngine.
Proof. by split. Qed.

Definition modelAnswers : @ScriptAnswers Isolate modelEngine.
Proof. split; cbn; eauto. Qed.
