(* ===== verification/JSValues.v ===== *)
(** * JavaScript as the injected script uses it

    [core/inspector/InjectedScriptSource.js] runs inside V8, in the context of the
    program that is inspected: reading a property of an object can run code of that
    program, which can throw anything, change everything, or never return.  This file
    has the values, the completions of code, the monad in which the script is written,
    and the class [JSEngine] of what V8 does for it. *)

From S2P Require Import Prelude Platform WTFString JSONValues Engine.

(** ** Values *)

(** Symbols and objects are references. *)
Inductive jsvalue :=
  | JSUndefined
  | JSNull
  | JSBoolean (b : bool)
  | JSNumber (d : double)
  | JSString (s : ustring)
  | JSSymbol (id : Z)
  | JSObject (id : Z).

#[export] Instance jsvalue_eq_dec : EqDecision jsvalue.
Proof. solve_decision. Defined.

Inductive jskey :=
  | KeyString (s : ustring)
  | KeySymbol (id : Z).

#[export] Instance jskey_eq_dec : EqDecision jskey.
Proof. solve_decision. Defined.

Definition keyValue (k : jskey) : jsvalue :=
  match k with KeyString s => JSString s | KeySymbol id => JSSymbol id end.

#[export] Instance double_countable : Countable double.
Proof.
  refine (inj_countable'
    (fun d => match d with
              | S754_zero s => inl (inl s)
              | S754_infinity s => inl (inr s)
              | S754_nan => inr (inl tt)
              | S754_finite s m e => inr (inr (s, m, e))
              end)
    (fun x : (bool + bool) + (unit + bool * positive * Z) =>
       match x with
       | inl (inl s) => S754_zero s
       | inl (inr s) => S754_infinity s
       | inr (inl _) => S754_nan
       | inr (inr (s, m, e)) => S754_finite s m e
       end) _).
  by intros [].
Defined.

#[export] Instance jsvalue_countable : Countable jsvalue.
Proof.
  refine (inj_countable'
    (fun v => match v with
              | JSUndefined => inl (inl false)
              | JSNull => inl (inl true)
              | JSBoolean b => inl (inr b)
              | JSNumber d => inr (inl d)
              | JSString s => inr (inr (inl s))
              | JSSymbol id => inr (inr (inr (false, id)))
              | JSObject id => inr (inr (inr (true, id)))
              end)
    (fun x : (bool + bool) + (double + (list Z + bool * Z)) =>
       match x with
       | inl (inl b) => if b then JSNull else JSUndefined
       | inl (inr b) => JSBoolean b
       | inr (inl d) => JSNumber d
       | inr (inr (inl s)) => JSString s
       | inr (inr (inr (b, id))) => if b : bool then JSObject id else JSSymbol id
       end) _).
  by intros [].
Defined.

(** The agents and the registry of objects know values by numbers. *)
Definition valueNumber (v : jsvalue) : Z := Zpos (encode v).

Definition numberedValue (n : Z) : jsvalue :=
  match n with Zpos p => default JSUndefined (decode p) | _ => JSUndefined end.

Lemma numberedValue_number v : numberedValue (valueNumber v) = v.
Proof. cbn. by rewrite decode_encode. Qed.

(** What the script builds for the inspector: object and array literals, with values in
    them. *)
#[local] Unset Elimination Schemes.
Inductive built :=
  | Value (v : jsvalue)
  | Literal (members : list (ustring * built))
  | Elements (l : list built).
#[local] Set Elimination Schemes.

Definition text (s : ustring) : built := Value (JSString s).
Definition flag (b : bool) : built := Value (JSBoolean b).
Definition number (z : Z) : built := Value (JSNumber (Double.of_Z z)).

(** A member that is set under a condition. *)
Definition member {A} (name : string) (f : A -> built) (a : option A) : list (ustring * built) :=
  match a with Some a => [(u name, f a)] | None => [] end.

(** The result of [Object.getOwnPropertyDescriptor]. *)
Record Descriptor := mkDescriptor {
  d_get : option jsvalue;
  d_set : option jsvalue;
  d_value : option jsvalue;
  d_writable : option bool;
  d_enumerable : option bool;
  d_configurable : option bool;
}.

(** ** Code *)

(** Code ends, throws a value, or goes on forever. *)
Inductive completion (A : Type) :=
  | Normal (a : A)
  | Throws (v : jsvalue)
  | Hangs.
Arguments Normal {A} a.
Arguments Throws {A} v.
Arguments Hangs {A}.

Fixpoint JSthen {A B} (t : JS A) (k : A -> JS B) : JS B :=
  match t with
  | JSReturn a => k a
  | JSBind v g f => JSBind v g (fun id => JSthen (f id) k)
  | JSObjectForId id f => JSObjectForId id (fun v => JSthen (f v) k)
  | JSGroupName id f => JSGroupName id (fun n => JSthen (f n) k)
  end.

(** Code of the script over a state [S]; it calls the inspector through the effects of
    [JS]. *)
Definition JSM (S A : Type) : Type := S -> JS (completion A * S).

#[export] Instance JSM_ret S : MRet (JSM S) := fun A a s => JSReturn (Normal a, s).
#[export] Instance JSM_bind S : MBind (JSM S) := fun A B k m s =>
  JSthen (m s) (fun r =>
    match r.1 with
    | Normal a => k a r.2
    | Throws v => JSReturn (Throws v, r.2)
    | Hangs => JSReturn (Hangs, r.2)
    end).

Section Code.
Context {S : Type}.

Definition throw {A} (v : jsvalue) : JSM S A := fun s => JSReturn (Throws v, s).
Definition hang {A} : JSM S A := fun s => JSReturn (Hangs, s).
Definition read {A} (f : S -> A) : JSM S A := fun s => JSReturn (Normal (f s), s).
Definition update (f : S -> S) : JSM S unit := fun s => JSReturn (Normal tt, f s).

(** [try { m } catch (e) { h(e) }]. *)
Definition tryCatch {A} (m : JSM S A) (h : jsvalue -> JSM S A) : JSM S A := fun s =>
  JSthen (m s) (fun r => match r.1 with Throws v => h v r.2 | c => JSReturn (c, r.2) end).

(** [try { m } finally { f }]. *)
Definition tryFinally {A} (m : JSM S A) (f : JSM S unit) : JSM S A := fun s =>
  JSthen (m s) (fun r =>
    match r.1 with
    | Hangs => JSReturn (Hangs, r.2)
    | c => JSthen (f r.2) (fun r' =>
        JSReturn (match r'.1 with Normal _ => c | Throws v => Throws v | Hangs => Hangs end, r'.2))
    end).

(** [if (c) m]. *)
Definition whenJS (c : bool) (m : JSM S unit) : JSM S unit := if c then m else mret tt.

Fixpoint mapJS {A B} (f : A -> JSM S B) (l : list A) : JSM S (list B) :=
  match l with
  | [] => mret []
  | a :: l' => b ← f a; l'' ← mapJS f l'; mret (b :: l'')
  end.

(** Objects that only the code itself can reach are a second state [C], which is there
    also after an exception. *)
Definition lift {C A} (m : JSM S A) : JSM (S * C) A := fun s =>
  JSthen (m s.1) (fun r => JSReturn (r.1, (r.2, s.2))).

Definition withLocal {C A} (c : C) (m : JSM (S * C) A) (h : jsvalue -> C -> C) : JSM S C := fun s =>
  JSthen (m (s, c)) (fun r =>
    JSReturn (match r.1 with Normal _ => Normal r.2.2 | Throws v => Normal (h v r.2.2) | Hangs => Hangs end, r.2.1)).

(** The same, with an exception passed on. *)
Definition inLocal {C A} (c : C) (m : JSM (S * C) A) : JSM S C := fun s =>
  JSthen (m (s, c)) (fun r =>
    JSReturn (match r.1 with Normal _ => Normal r.2.2 | Throws v => Throws v | Hangs => Hangs end, r.2.1)).

End Code.

Definition local {S C} : JSM (S * C) C := read snd.
Definition setLocal {S C} (f : C -> C) : JSM (S * C) unit := update (fun s => (s.1, f s.2)).

(** ** The engine *)

(** What [v8::Value] can be asked about an object. *)
Inductive V8Kind :=
  | IsArray | IsTypedArray | IsArgumentsObject | IsDate | IsRegExp | IsMap | IsWeakMap | IsSet | IsWeakSet
  | IsMapIterator | IsSetIterator | IsGeneratorObject | IsNativeError.

(** A function as V8 describes it; the text of its name is asked for apart. *)
Record FunctionInfo := mkFunctionInfo {
  fi_line : Z;
  fi_column : Z;
  fi_scriptId : Z;
  fi_isGenerator : bool;
}.

(** An entry of a collection; the entries of a set have no key. *)
Record CollectionEntry := mkCollectionEntry {
  ce_key : option jsvalue;
  ce_value : jsvalue;
}.

(** A value of [$_] and the names that [CommandLineAPI] defines. *)
Record CommandLineAPI := mkCommandLineAPI {
  api_members : list ustring;
  api_lastResult : jsvalue;
}.

(** Where an expression is evaluated: in the context, or on the n-th frame of a stack
    with the command line API as a scope of its own. *)
Inductive EvaluationPlace :=
  | InContext
  | OnFrame (frames : CallFrames) (n : nat) (scopeExtension : option CommandLineAPI).

(** The message of an exception, which [createExceptionDetails] describes. *)
Record MessageInfo := mkMessageInfo {
  mi_text : ustring;
  mi_url : jsvalue;
  mi_scriptId : Z;
  mi_line : Z;
  mi_column : Z;
  mi_stackTrace : option (list StackFrame);
}.

(** What V8 does for the script; any of these can run code of the program. *)
Inductive JSOp : Type -> Type :=
  (** [new Error(message)], and an object made of a literal *)
  | newError : ustring -> JSOp jsvalue
  | newObject : built -> JSOp jsvalue
  (** conversions and operators, on values that are not just numbers and strings *)
  | objectToString : Z -> JSOp ustring
  | valueToUint32 : jsvalue -> JSOp Z
  | valueToNumber : jsvalue -> JSOp double
  | lessThan : jsvalue -> jsvalue -> JSOp bool
  | lessOrEqual : jsvalue -> jsvalue -> JSOp bool
  | plus : jsvalue -> jsvalue -> JSOp jsvalue
  | looselyEqual : jsvalue -> jsvalue -> JSOp bool
  (** properties *)
  | getProperty : jsvalue -> jskey -> JSOp jsvalue
  | setProperty : jsvalue -> jskey -> jsvalue -> JSOp unit
  | hasProperty : jsvalue -> ustring -> JSOp bool
  | hasOwnProperty : jsvalue -> ustring -> JSOp bool
  | getOwnPropertyDescriptor : jsvalue -> jskey -> JSOp (option Descriptor)
  | objectKeys : jsvalue -> JSOp (list jskey)
  | getOwnPropertyNames : jsvalue -> JSOp (list jskey)
  | getOwnPropertySymbols : jsvalue -> JSOp (list jskey)
  (** calls: of a method, of a function, of [Symbol.prototype.toString] *)
  | invoke : jsvalue -> ustring -> list jsvalue -> JSOp jsvalue
  | callFunction : jsvalue -> jsvalue -> list jsvalue -> JSOp jsvalue
  | symbolToString : Z -> JSOp jsvalue
  (** [instanceof] a function of the window *)
  | instanceOfWindow : jsvalue -> ustring -> JSOp bool
  (** the global object *)
  | inWindow : ustring -> JSOp bool
  | getGlobal : ustring -> JSOp jsvalue
  | setNonEnumProperty : ustring -> built -> JSOp unit
  | installCommandLineAPI : CommandLineAPI -> JSOp unit
  | deleteGlobal : ustring -> JSOp unit
  | consoleErrorLater : ustring -> JSOp unit
  (** JSON *)
  | jsonStringify : jsvalue -> JSOp jsvalue
  | jsonParse : ustring -> JSOp jsvalue
  (** running a text, without and with the details of an exception *)
  | runInternal : ustring -> JSOp jsvalue
  | runWithDetails : EvaluationPlace -> ustring -> JSOp (jsvalue * option MessageInfo)
  (** the debugger's view of an object *)
  | internalProperties : Z -> JSOp (option (list (ustring * jsvalue)))
  | collectionEntriesOf : Z -> JSOp (option (list CollectionEntry))
  | functionScopes : Z -> JSOp (option (list (Z * jsvalue)))
  | generatorDetails : Z -> JSOp (option (list (ustring * jsvalue)))
  | setFunctionVariable : Z -> Z -> ustring -> jsvalue -> JSOp jsvalue
  (** call frames, beyond [Frame] *)
  | frameScopes : CallFrames -> nat -> JSOp (list (Z * jsvalue))
  | frameThis : CallFrames -> nat -> JSOp jsvalue
  | frameReturnValue : CallFrames -> nat -> JSOp jsvalue
  | frameStepInPositions : CallFrames -> nat -> JSOp ustring
  | frameRestart : CallFrames -> nat -> JSOp jsvalue
  | frameSetVariable : CallFrames -> nat -> Z -> ustring -> jsvalue -> JSOp jsvalue.

Class JSEngine (E : Type) := {
  (** the text of a number, and the number that a text is, modulo 2^32 *)
  numberText : double -> ustring;
  textUint32 : ustring -> Z;
  (** objects, without running code of the program *)
  callable : Z -> E -> bool;
  undetectable : Z -> E -> bool;
  isKind : V8Kind -> Z -> E -> bool;
  getConstructorName : Z -> E -> option ustring;
  hasRealNamedProperty : Z -> ustring -> E -> bool;
  hasRealNamedCallbackProperty : Z -> ustring -> E -> bool;
  getRealNamedProperty : Z -> ustring -> E -> option jsvalue;
  getDisplayName : Z -> E -> jsvalue;
  getName : Z -> E -> jsvalue;
  getInferredName : Z -> E -> jsvalue;
  functionInfo : Z -> E -> FunctionInfo;
  arrayLength : Z -> E -> Z;
  propertyNames : Z -> E -> list (Z + ustring);
  (** a call frame, beyond [Frame] *)
  frameFunctionPosition : CallFrames -> nat -> E -> Z * Z;
  (** the text of the message about an exception *)
  messageText : jsvalue -> E -> option ustring;
  perform {A} : JSOp A -> E -> completion A * E;
}.

(** The injected script's own state: the number of its context, [_lastResult],
    [_customObjectFormatterEnabled] and [_customPreviewRecursionDepth]. *)
Record InjectedState := mkInjectedState {
  injectedScriptId : Z;
  lastResult : jsvalue;
  customObjectFormatterEnabled : bool;
  customPreviewRecursionDepth : nat;
}.

#[export] Instance InjectedState_fields : Fields InjectedState := fun i =>
  mkInjectedState (injectedScriptId i) (lastResult i) (customObjectFormatterEnabled i) (customPreviewRecursionDepth i).

Abbreviation Injected E A := (JSM (E * InjectedState) A).

Definition run {E} {J : JSEngine E} {A} (op : JSOp A) : Injected E A := fun s =>
  let '(c, e) := perform op s.1 in JSReturn (c, (e, s.2)).
Definition observe {E A} (f : E -> A) : Injected E A := read (fun s => f s.1).
Definition own {E A} (f : InjectedState -> A) : Injected E A := read (fun s => f s.2).
Definition setOwn {E} (f : InjectedState -> InjectedState) : Injected E unit := update (fun s => (s.1, f s.2)).

(** ** The language *)

Section Language.
Context {E : Type} {J : JSEngine E}.

Definition typeof (v : jsvalue) (e : E) : string :=
  match v with
  | JSUndefined => "undefined"
  | JSNull => "object"
  | JSBoolean _ => "boolean"
  | JSNumber _ => "number"
  | JSString _ => "string"
  | JSSymbol _ => "symbol"
  | JSObject o => if undetectable o e then "undefined" else if callable o e then "function" else "object"
  end.

(** [!!v]. *)
Definition truthy (v : jsvalue) (e : E) : bool :=
  match v with
  | JSUndefined | JSNull => false
  | JSBoolean b => b
  | JSNumber d => match d with S754_zero _ | S754_nan => false | _ => true end
  | JSString s => match s with [] => false | _ => true end
  | JSSymbol _ => true
  | JSObject o => negb (undetectable o e)
  end.

(** [a === b]. *)
Definition strictlyEqual (a b : jsvalue) : bool :=
  match a, b with
  | JSNumber d, JSNumber d' => SFeqb d d'
  | _, _ => bool_decide (a = b)
  end.

(** Throws a new [Error] or [TypeError]. *)
Definition throwError {A} (message : ustring) : Injected E A :=
  v ← run (newError message); throw v.

(** ["" + v]; a symbol has no text. *)
Definition stringOf (v : jsvalue) : Injected E ustring :=
  match v with
  | JSUndefined => mret (u "undefined")
  | JSNull => mret (u "null")
  | JSBoolean b => mret (if b then u "true" else u "false")
  | JSNumber d => mret (numberText d)
  | JSString s => mret s
  | JSSymbol _ => throwError (u "Cannot convert a Symbol value to a string")
  | JSObject o => run (objectToString o)
  end.

(** [d >>> 0]. *)
Definition numberUint32 (d : double) : Z := if Double.isfinite d then wrapU 32 (Double.trunc d) else 0.

Definition toUint32 (v : jsvalue) : Injected E Z :=
  match v with
  | JSNumber d => mret (numberUint32 d)
  | JSString s => mret (textUint32 s)
  | _ => run (valueToUint32 v)
  end.

(** [o.name] and [o[i]]. *)
Definition getNamed (v : jsvalue) (name : string) : Injected E jsvalue := run (getProperty v (KeyString (u name))).
Definition getIndex (v : jsvalue) (i : Z) : Injected E jsvalue := run (getProperty v (KeyString (String_number i))).

(** [for (var i = 0; i < a.length; ++i)], with the length read each time; the body says
    whether to go on, and at most [n] rounds are made. *)
Fixpoint forIndexes {A} (n : nat) (i : Z) (a : jsvalue) (done_ : A) (body : Z -> Injected E (option A)) : Injected E A :=
  length ← getNamed a "length";
  more ← run (lessThan (JSNumber (Double.of_Z i)) length);
  if more : bool
  then match n with
       | O => hang
       | S n' => r ← body i; match r with Some r => mret r | None => forIndexes n' (i + 1) a done_ body end
       end
  else mret done_.

End Language.
