(* ===== verification/InjectedHost.v ===== *)
(** * The host object of the injected script

    [bindings/core/v8/inspector/V8InjectedScriptHost.cpp]: what the injected script can
    ask the inspector; and [bindings/core/v8/ScriptValue.cpp]: results as JSON. *)

From S2P Require Import Prelude Platform WTFString JSONValues Engine JSValues.

Module Host.
Section Host.
Context {E : Type} {J : JSEngine E}.

Definition isObjectOf (k : V8Kind) (v : jsvalue) (e : E) : bool :=
  match v with JSObject o => isKind k o e | _ => false end.

(** [subtypeCallback]. *)
Definition subtype (v : jsvalue) (e : E) : option string :=
  let has k := isObjectOf k v e in
  if has IsArray || has IsTypedArray || has IsArgumentsObject then Some "array"%string
  else if has IsDate then Some "date"%string
  else if has IsRegExp then Some "regexp"%string
  else if has IsMap || has IsWeakMap then Some "map"%string
  else if has IsSet || has IsWeakSet then Some "set"%string
  else if has IsMapIterator || has IsSetIterator then Some "iterator"%string
  else if has IsGeneratorObject then Some "generator"%string
  else if has IsNativeError then Some "error"%string
  else None.

(** The callbacks [isDOMWrapperCallback] and [isHTMLAllCollectionCallback] are empty. *)
Definition isDOMWrapper (v : jsvalue) : bool := false.
Definition isHTMLAllCollection (v : jsvalue) : bool := false.

Definition isTypedArray (v : jsvalue) (e : E) : bool := isObjectOf IsTypedArray v e.

Definition functionDisplayName (function : Z) (e : E) : option ustring :=
  let named v := match v with JSString (c :: s) => Some (c :: s) | _ => None end in
  match named (getDisplayName function e) with
  | Some name => Some name
  | None =>
      match named (getName function e) with
      | Some name => Some name
      | None => named (getInferredName function e)
      end
  end.

(** [internalConstructorNameCallback]. *)
Definition internalConstructorName (v : jsvalue) (e : E) : jsvalue :=
  match v with
  | JSObject object =>
      match getConstructorName object e with
      | None => JSUndefined
      | Some result =>
          if decide (result = u "Object") then
            let result :=
              if hasRealNamedProperty object (u "constructor") e && negb (hasRealNamedCallbackProperty object (u "constructor") e)
              then match getRealNamedProperty object (u "constructor") e with
                   | Some (JSObject constructor) =>
                       if callable constructor e then default result (functionDisplayName constructor e) else result
                   | _ => result
                   end
              else result in
            JSString (if decide (result = u "Object") then if callable object e then u "Function" else result else result)
          else JSString result
      end
  | _ => JSUndefined
  end.

(** [functionDetailsCallback], without the scopes. *)
Definition functionDetails (function : Z) (e : E) : list (ustring * built) :=
  let info := functionInfo function e in
  [(u "location", Literal [(u "lineNumber", number (fi_line info)); (u "columnNumber", number (fi_column info));
                           (u "scriptId", text (String_number (fi_scriptId info)))]);
   (u "functionName", text (default [] (functionDisplayName function e)));
   (u "isGenerator", flag (fi_isGenerator info))].

(** [JavaScriptCallFrame::createExceptionDetails]; V8 describes a frame by the members
    that were asked for when the stack was captured. *)
Definition stackFrameObject (f : StackFrame) : built :=
  Literal ([(u "column", number (sf_column f)); (u "lineNumber", number (sf_lineNumber f)); (u "scriptId", number (sf_scriptId f))]
    ++ member "scriptNameOrSourceURL" text (sf_scriptNameOrSourceURL f) ++ member "functionName" text (sf_functionName f)).

Definition createExceptionDetails (message : MessageInfo) : built :=
  Literal [(u "text", text (mi_text message)); (u "url", Value (mi_url message)); (u "scriptId", number (mi_scriptId message));
           (u "line", number (mi_line message)); (u "column", number (mi_column message));
           (u "stackTrace", match mi_stackTrace message with
                            | Some frames => Elements (map stackFrameObject frames)
                            | None => Value JSUndefined
                            end)].

(** [collectionEntriesCallback] and [getInternalPropertiesCallback]: nothing for a value
    that is not an object. *)
Definition collectionEntries (v : jsvalue) : Injected E (option (list CollectionEntry)) :=
  match v with JSObject o => run (collectionEntriesOf o) | _ => mret None end.

Definition getInternalProperties (v : jsvalue) : Injected E (option (list (ustring * jsvalue))) :=
  match v with JSObject o => run (internalProperties o) | _ => mret None end.

Definition generatorObjectDetails (v : jsvalue) : Injected E (option (list (ustring * jsvalue))) :=
  match v with JSObject o => run (generatorDetails o) | _ => mret None end.

(** [bindCallback], [objectForIdCallback] and [idToObjectGroupNameCallback]; an id that is
    not a 32-bit integer has no object, and an empty name is not given. *)
Definition bind (v : jsvalue) (groupName : ustring) : Injected E Z := fun s =>
  JSBind (valueNumber v) groupName (fun id => JSReturn (Normal id, s)).

Definition int32Value (v : jsvalue) : option Z :=
  match v with
  | JSNumber d =>
      let z := Double.trunc d in
      if Double.isfinite d && bool_decide (d = Double.of_Z z) && (int32_min <=? z) && (z <=? int32_max) then Some z else None
  | _ => None
  end.

Definition objectForId (id : jsvalue) : Injected E jsvalue := fun s =>
  match int32Value id with
  | Some id => JSObjectForId id (fun v => JSReturn (Normal (default JSUndefined (numberedValue <$> v)), s))
  | None => JSReturn (Normal JSUndefined, s)
  end.

Definition idToObjectGroupName (id : jsvalue) : Injected E (option ustring) := fun s =>
  match int32Value id with
  | Some id => JSGroupName id (fun n => JSReturn (Normal (match n with Some [] => None | n => n end), s))
  | None => JSReturn (Normal None, s)
  end.

(** [setFunctionVariableValueCallback]. *)
Definition setFunctionVariableValue (f : jsvalue) (scopeNumber : Z) (variableName : ustring) (newValue : jsvalue)
    : Injected E unit :=
  match f with
  | JSObject o => run (setFunctionVariable o scopeNumber variableName newValue);; mret tt
  | _ => mret tt
  end.

(** ** Results as JSON *)

(** [JSONValue::maxDepth]. *)
Definition maxDepth : nat := 1000.

(** A value that cannot be read is an empty handle. *)
Definition readProperty (v : jsvalue) (k : jskey) : Injected E (option jsvalue) :=
  tryCatch (value ← run (getProperty v k); mret (Some value)) (fun _ => mret None).

Fixpoint toJSONElements (f : option jsvalue -> Injected E (option JSONValue)) (v : jsvalue) (indexes : list Z)
    : Injected E (option (list JSONValue)) :=
  match indexes with
  | [] => mret (Some [])
  | i :: indexes' =>
      value ← readProperty v (KeyString (String_number i));
      element ← f value;
      match element with
      | None => mret None
      | Some element => rest ← toJSONElements f v indexes'; mret (cons element <$> rest)
      end
  end.

(** The names that [GetPropertyNames] gives are those of the prototypes too; what is not a
    property of the object itself is skipped, unless it is an index. *)
Definition nameText (name : Z + ustring) : ustring := match name with inl i => String_number i | inr s => s end.

Fixpoint toJSONMembers (f : option jsvalue -> Injected E (option JSONValue)) (o : Z) (names : list (Z + ustring)) (acc : jobject)
    : Injected E (option jobject) :=
  match names with
  | [] => mret (Some acc)
  | name :: names' =>
      real ← (match name with inl _ => mret true | inr s => observe (hasRealNamedProperty o s) end);
      if real : bool then
        value ← readProperty (JSObject o) (KeyString (nameText name));
        member ← f value;
        match member with
        | None => mret None
        | Some m => toJSONMembers f o names' (setValue (nameText name) m acc)
        end
      else toJSONMembers f o names' acc
  end.

(** [v8ToJSONValueInternal]; [None] is a null pointer. *)
Fixpoint v8ToJSONValueInternal (depth : nat) (v : option jsvalue) : Injected E (option JSONValue) :=
  match v, depth with
  | None, _ | _, O => mret None
  | Some v, S depth' =>
      match v with
      | JSUndefined | JSNull => mret (Some JSONNull)
      | JSBoolean b => mret (Some (JSONBoolean b))
      | JSNumber d => mret (Some (JSONNumber d))
      | JSString s => mret (Some (JSONString s))
      | JSSymbol _ => mret None
      | JSObject o =>
          isArray ← observe (isKind IsArray o);
          if isArray : bool then
            length ← observe (arrayLength o);
            l ← toJSONElements (v8ToJSONValueInternal depth') v (seqZ 0 length);
            mret (JSONArray <$> l)
          else
            names ← observe (propertyNames o);
            members ← toJSONMembers (v8ToJSONValueInternal depth') o names [];
            mret (JSONObject <$> members)
      end
  end.

(** The same for what the script builds itself, whose members are all its own. *)
Fixpoint builtToJSON (depth : nat) (b : built) : Injected E (option JSONValue) :=
  match depth with
  | O => mret None
  | S depth' =>
      match b with
      | Value v => v8ToJSONValueInternal depth (Some v)
      | Elements l =>
          r ← (fix elements (l : list built) : Injected E (option (list JSONValue)) :=
                 match l with
                 | [] => mret (Some [])
                 | b :: l' =>
                     element ← builtToJSON depth' b;
                     match element with
                     | None => mret None
                     | Some element => rest ← elements l'; mret (cons element <$> rest)
                     end
                 end) l;
          mret (JSONArray <$> r)
      | Literal ms =>
          r ← (fix members (ms : list (ustring * built)) (acc : jobject) : Injected E (option jobject) :=
                 match ms with
                 | [] => mret (Some acc)
                 | (name, b) :: ms' =>
                     member ← builtToJSON depth' b;
                     match member with
                     | None => mret None
                     | Some m => members ms' (setValue name m acc)
                     end
                 end) ms [];
          mret (JSONObject <$> r)
      end
  end.

(** [ScriptValue::toJSONValue]. *)
Definition toJSONValue (b : built) : Injected E (option JSONValue) := builtToJSON maxDepth b.

End Host.
End Host.
