(* ===== verification/InjectedObjects.v ===== *)
(** * The injected script: describing values

    The part of [core/inspector/InjectedScriptSource.js] that describes values to the
    frontend: remote objects with their previews and custom previews, and the properties
    of objects.

    Loops whose end the inspected program decides (walking prototypes, arrays of the
    program) take a number [n] of rounds, and hang when it is used up. *)

From S2P Require Import Prelude Platform WTFString JSONValues Engine JSValues InjectedHost.

(** ** What the script makes *)

Record PropertyPreview (P : Type) := mkPropertyPreview {
  pp_name : jsvalue;
  pp_type : string;
  pp_subtype : option string;
  pp_value : option jsvalue;
  pp_valuePreview : option P;
}.
Arguments mkPropertyPreview {P}.
Arguments pp_name {P}.
Arguments pp_type {P}.
Arguments pp_subtype {P}.
Arguments pp_value {P}.
Arguments pp_valuePreview {P}.

Record EntryPreview (P : Type) := mkEntryPreview {
  ep_value : P;
  ep_key : option P;
}.
Arguments mkEntryPreview {P}.
Arguments ep_value {P}.
Arguments ep_key {P}.

#[local] Unset Elimination Schemes.
Inductive Preview := mkPreview {
  pv_type : string;
  pv_subtype : option string;
  pv_description : jsvalue;
  pv_lossless : bool;
  pv_overflow : bool;
  pv_properties : list (PropertyPreview Preview);
  pv_entries : option (list (EntryPreview Preview));
}.
#[local] Set Elimination Schemes.

#[export] Instance Preview_fields : Fields Preview := fun p =>
  mkPreview (pv_type p) (pv_subtype p) (pv_description p) (pv_lossless p) (pv_overflow p) (pv_properties p) (pv_entries p).

Record CustomPreview := mkCustomPreview {
  cp_header : jsvalue;
  cp_hasBody : bool;
  cp_formatterObjectId : ustring;
  cp_configObjectId : option ustring;
}.

Record RemoteObject := mkRemoteObject {
  ro_type : string;
  ro_value : option jsvalue;
  ro_objectId : option ustring;
  ro_subtype : option string;
  ro_className : option ustring;
  ro_description : option jsvalue;
  ro_preview : option Preview;
  ro_customPreview : option CustomPreview;
}.

#[export] Instance RemoteObject_fields : Fields RemoteObject := fun r =>
  mkRemoteObject (ro_type r) (ro_value r) (ro_objectId r) (ro_subtype r) (ro_className r) (ro_description r)
    (ro_preview r) (ro_customPreview r).

(** A descriptor that [_propertyDescriptors] yields. *)
Record PropertyDescriptor := mkPropertyDescriptor {
  pd_name : jsvalue;
  pd_get : option jsvalue;
  pd_set : option jsvalue;
  pd_value : option jsvalue;
  pd_writable : option bool;
  pd_enumerable : option bool;
  pd_configurable : option bool;
  pd_wasThrown : bool;
  pd_isOwn : bool;
  pd_symbol : option jsvalue;
}.

(** These as object literals. *)
Definition builtSubtype : option string -> list (ustring * built) := member "subtype" (fun s => text (u s)).

Fixpoint builtPreview (p : Preview) : built :=
  let property pp := Literal ([(u "name", Value (pp_name pp)); (u "type", text (u (pp_type pp)))]
    ++ builtSubtype (pp_subtype pp) ++ member "value" Value (pp_value pp)
    ++ member "valuePreview" builtPreview (pp_valuePreview pp)) in
  let entry ep := Literal ([(u "value", builtPreview (ep_value ep))] ++ member "key" builtPreview (ep_key ep)) in
  Literal ([(u "type", text (u (pv_type p))); (u "description", Value (pv_description p));
            (u "lossless", flag (pv_lossless p)); (u "overflow", flag (pv_overflow p));
            (u "properties", Elements (map property (pv_properties p)))]
    ++ builtSubtype (pv_subtype p)
    ++ member "entries" (fun l => Elements (map entry l)) (pv_entries p)).

Definition builtCustomPreview (c : CustomPreview) : built :=
  Literal ([(u "header", Value (cp_header c)); (u "hasBody", flag (cp_hasBody c));
            (u "formatterObjectId", text (cp_formatterObjectId c))]
    ++ member "configObjectId" text (cp_configObjectId c)).

Definition builtRemoteObject (r : RemoteObject) : built :=
  Literal ([(u "type", text (u (ro_type r)))] ++ member "value" Value (ro_value r) ++ member "objectId" text (ro_objectId r)
    ++ builtSubtype (ro_subtype r) ++ member "className" text (ro_className r)
    ++ member "description" Value (ro_description r) ++ member "preview" builtPreview (ro_preview r)
    ++ member "customPreview" builtCustomPreview (ro_customPreview r)).

Module Source.

(** [secondLevelKeys] is missing, null, or a list; so are the columns of a table. *)
Inductive SecondLevelKeys := NoSecondLevel | EverySecondLevel | SecondLevel (keys : list ustring).

Section Source.
Context {E : Type} {J : JSEngine E}.

(** ** Helpers *)

Definition typeIs (t : string) (v : jsvalue) (e : E) : bool := bool_decide (typeof v e = t).

Definition _isHTMLAllCollection (v : jsvalue) (e : E) : bool := typeIs "undefined" v e && Host.isHTMLAllCollection v.
Definition _isDefined (v : jsvalue) (e : E) : bool := truthy v e || _isHTMLAllCollection v e.

Definition primitiveTypes (t : string) : bool :=
  bool_decide (t ∈ ["undefined"; "boolean"; "number"; "string"]%string).

Definition isPrimitiveValue (v : jsvalue) (e : E) : bool := primitiveTypes (typeof v e) && negb (_isHTMLAllCollection v e).

Definition isSymbol (v : jsvalue) : bool := match v with JSSymbol _ => true | _ => false end.

(** [internalConstructorName(obj) || subtype(obj) || typeof obj]. *)
Definition errorName (v : jsvalue) (e : E) : ustring :=
  match Host.internalConstructorName v e with
  | JSString (c :: s) => c :: s
  | _ => match Host.subtype v e with Some t => u t | None => u (typeof v e) end
  end.

Definition toString (v : jsvalue) : Injected E ustring :=
  tryCatch (stringOf v) (fun _ => name ← observe (errorName v); mret (u "#<" ++ name ++ u ">")).

Definition toStringDescription (v : jsvalue) : Injected E ustring :=
  match v with
  | JSNumber (S754_zero true) => mret (u "-0")
  | _ => toString v
  end.

(** [obj > 0 || 1 / obj > 0]. *)
Definition notNegative (d : double) : bool :=
  match d with
  | S754_zero s | S754_infinity s | S754_finite s _ _ => negb s
  | S754_nan => false
  end.

(** ["" + (obj >>> 0) === obj]. *)
Definition isIndexText (v : jsvalue) : Injected E bool := n ← toUint32 v; mret (strictlyEqual (JSString (String_number n)) v).

Definition isUInt32 (v : jsvalue) : Injected E bool :=
  match v with
  | JSNumber d => mret (SFeqb (Double.of_Z (numberUint32 d)) d && notNegative d)
  | _ => isIndexText v
  end.

Definition isArrayLike (v : jsvalue) : Injected E bool :=
  object ← observe (typeIs "object" v);
  if negb object then mret false
  else tryCatch
    (splice ← getNamed v "splice";
     function ← observe (typeIs "function" splice);
     if function : bool then
       len ← getNamed v "length";
       match len with JSNumber _ => isUInt32 len | _ => mret false end
     else mret false)
    (fun _ => mret false).

Definition newLine : Z := 10.

(** [indexOf(str, "\n")], of a string and of anything else. *)
Fixpoint indexOfString (k : Z) (s : ustring) : Z :=
  match s with
  | [] => -1
  | c :: s' => if c =? newLine then k else indexOfString (k + 1) s'
  end.

Fixpoint indexOfLoop (n : nat) (str len : jsvalue) (k : Z) : Injected E Z :=
  more ← run (lessThan (JSNumber (Double.of_Z k)) len);
  if more : bool then
    match n with
    | O => hang
    | S n' =>
        c ← getIndex str k;
        if strictlyEqual c (JSString [newLine]) then mret k else indexOfLoop n' str len (k + 1)
    end
  else mret (-1).

Definition indexOf (n : nat) (str : jsvalue) : Injected E Z :=
  match str with
  | JSString s => mret (indexOfString 0 s)
  | _ => len ← getNamed str "length"; indexOfLoop n str len 0
  end.

(** [s.substr(start, length)] of a string. *)
Definition substr (start length : Z) (s : ustring) : ustring := take (Z.to_nat length) (drop (Z.to_nat start) s).

(** ["..." + v] and [v + "..."] with a text. *)
Definition appendText (v : jsvalue) (t : ustring) : Injected E jsvalue :=
  match v with JSString s => mret (JSString (s ++ t)) | _ => run (plus v (JSString t)) end.

Definition ellipsis : ustring := [8230].

(** [_abbreviateString]: a description that is not a string is treated like one.  Only
    strings are shortened in the middle: values, and the texts of regular expressions. *)
Definition _abbreviateString (string : jsvalue) (maxLength : Z) (middle : bool) : Injected E jsvalue :=
  match string with
  | JSString s =>
      let length := Z.of_nat (length s) in
      mret (JSString (
        if length <=? maxLength then s
        else if middle then
          let leftHalf := Z.shiftr maxLength 1 in
          let rightHalf := maxLength - leftHalf - 1 in
          substr 0 leftHalf s ++ ellipsis ++ substr (length - rightHalf) rightHalf s
        else substr 0 maxLength s ++ ellipsis))
  | _ =>
      length ← getNamed string "length";
      fits ← run (lessOrEqual length (JSNumber (Double.of_Z maxLength)));
      if fits : bool then mret string
      else
        start ← run (invoke string (u "substr") [JSNumber (Double.of_Z 0); JSNumber (Double.of_Z maxLength)]);
        appendText start ellipsis
  end.

(** ** Descriptions *)

(** [_subtype]; [None] is null. *)
Definition _subtype (v : jsvalue) : Injected E (option string) :=
  match v with
  | JSNull => mret (Some "null"%string)
  | _ =>
      primitive ← observe (isPrimitiveValue v);
      if primitive : bool then mret None
      else
        subtype ← observe (Host.subtype v);
        match subtype with
        | Some subtype => mret (Some subtype)
        | None => array ← isArrayLike v; mret (if array : bool then Some "array"%string else None)
        end
  end.

(** [className.trim().replace(/\s+/g, ".")]. *)
Definition isSpace (c : Z) : bool :=
  bool_decide (c ∈ [9; 10; 11; 12; 13; 32; 160; 5760; 8232; 8233; 8239; 8287; 12288; 65279]) || (8192 <=? c) && (c <=? 8202).

Fixpoint dropSpaces (s : ustring) : ustring :=
  match s with
  | [] => []
  | c :: s' => if isSpace c then dropSpaces s' else s
  end.

Fixpoint dotted (s : ustring) : ustring :=
  match s with
  | [] => []
  | c :: s' =>
      if isSpace c
      then match s' with c' :: _ => if isSpace c' then dotted s' else ch "." :: dotted s' | [] => [ch "."] end
      else c :: dotted s'
  end.

Definition trim (s : ustring) : ustring := reverse (dropSpaces (reverse (dropSpaces s))).

(** The description of a node of a document. *)
Definition describeNode (v : jsvalue) : Injected E jsvalue :=
  nodeName ← getNamed v "nodeName";
  description ← run (invoke nodeName (u "toLowerCase") []);
  nodeType ← getNamed v "nodeType";
  if strictlyEqual nodeType (JSNumber (Double.of_Z 1)) then
    id ← getNamed v "id";
    hasId ← observe (truthy id);
    id ← (if hasId : bool then id ← getNamed v "id"; t ← stringOf id; mret (u "#" ++ t) else mret []);
    description ← appendText description id;
    className ← getNamed v "className";
    appendText description (match className with JSString (c :: s) => u "." ++ dotted (trim (c :: s)) | _ => [] end)
  else if strictlyEqual nodeType (JSNumber (Double.of_Z 10)) then
    t ← stringOf description;
    mret (JSString (u "<!DOCTYPE " ++ t ++ u ">"))
  else mret description.

(** The message and the stack of an error; [className] is the text of its name. *)
Definition describeError (n : nat) (v : jsvalue) (className : ustring) : Injected E ustring :=
  stack ← getNamed v "stack";
  message ← getNamed v "message";
  hasMessage ← observe (truthy message);
  hasText ← (if hasMessage : bool
             then message ← getNamed v "message"; length ← getNamed message "length"; observe (truthy length)
             else mret false);
  message ← (if hasText : bool then message ← getNamed v "message"; t ← stringOf message; mret (u ": " ++ t) else mret []);
  hasStack ← observe (truthy stack);
  stackMessageEnd ← (if hasStack : bool then indexOf n stack else mret (-1));
  if stackMessageEnd =? -1 then mret (className ++ message)
  else
    stackTrace ← (match stack with
                  | JSString s => mret (drop (Z.to_nat (stackMessageEnd + 1)) s)
                  | _ => t ← run (invoke stack (u "substr") [JSNumber (Double.of_Z (stackMessageEnd + 1))]); stringOf t
                  end);
    mret (className ++ message ++ [newLine] ++ stackTrace).

Definition describeSymbol (id : Z) : Injected E jsvalue :=
  tryCatch (t ← run (symbolToString id); given ← observe (truthy t); mret (if given : bool then t else JSString (u "Symbol")))
    (fun _ => mret (JSString (u "Symbol"))).

Definition subtypeIs (t : string) (subtype : option string) : bool := bool_decide (subtype = Some t).

Definition _describe (n : nat) (v : jsvalue) : Injected E jsvalue :=
  primitive ← observe (isPrimitiveValue v);
  if primitive : bool then mret JSNull
  else
    subtype ← _subtype v;
    if subtypeIs "regexp" subtype || subtypeIs "date" subtype then t ← toString v; mret (JSString t)
    else if subtypeIs "node" subtype then describeNode v
    else
      className ← observe (Host.internalConstructorName v);
      if subtypeIs "array" subtype then
        length ← getNamed v "length";
        match length with
        | JSNumber _ =>
            length ← getNamed v "length";
            t ← stringOf length;
            name ← stringOf className;
            mret (JSString (name ++ u "[" ++ t ++ u "]"))
        | _ => mret className
        end
      else
        function ← observe (typeIs "function" v);
        if function : bool then t ← toString v; mret (JSString t)
        else
          match v with
          | JSSymbol id => describeSymbol id
          | _ =>
              hostSubtype ← observe (Host.subtype v);
              if subtypeIs "error" hostSubtype then
                tryCatch (name ← stringOf className; t ← describeError n v name; mret (JSString t)) (fun _ => mret className)
              else mret className
          end.

(** ** Object ids *)

Definition objectIdText (injectedScriptId id : Z) : ustring :=
  u "{" ++ [dquote] ++ u "injectedScriptId" ++ [dquote] ++ u ":" ++ String_number injectedScriptId ++
  u "," ++ [dquote] ++ u "id" ++ [dquote] ++ u ":" ++ String_number id ++ u "}".

(** A missing group is the empty one. *)
Definition _bind (v : jsvalue) (objectGroupName : option ustring) : Injected E ustring :=
  id ← Host.bind v (default [] objectGroupName);
  scriptId ← own injectedScriptId;
  mret (objectIdText scriptId id).

Definition nullifyObjectProto (v : jsvalue) : Injected E unit :=
  object ← observe (fun e => truthy v e && typeIs "object" v e);
  whenJS object (run (setProperty v (KeyString (u "__proto__")) JSNull)).

Definition evalParenthesized (t : ustring) : Injected E jsvalue := run (runInternal (u "(" ++ t ++ u ")")).

Definition _parseObjectId (objectId : ustring) : Injected E jsvalue :=
  parsed ← evalParenthesized objectId;
  nullifyObjectProto parsed;;
  mret parsed.

Definition _objectForId (objectId : jsvalue) : Injected E jsvalue :=
  world ← getNamed objectId "injectedScriptId";
  scriptId ← own injectedScriptId;
  if strictlyEqual world (JSNumber (Double.of_Z scriptId))
  then id ← getNamed objectId "id"; Host.objectForId id
  else mret JSUndefined.

Definition findObjectById (objectId : ustring) : Injected E jsvalue :=
  parsedObjectId ← _parseObjectId objectId; _objectForId parsedObjectId.

(** ** Properties *)

Definition hasAccessor (d : Descriptor) : bool := bool_decide (is_Some (d_get d) \/ is_Some (d_set d)).

(** [doesAttributeHaveObservableSideEffectOnGet]: the first interface that the object is
    an instance of decides. *)
Fixpoint doesAttributeHaveObservableSideEffectOnGet (interfaces : list (string * list string)) (object attribute : jsvalue)
    : Injected E bool :=
  match interfaces with
  | [] => mret false
  | (interfaceName, attributes) :: interfaces' =>
      isInstance ← run (instanceOfWindow object (u interfaceName));
      if isInstance : bool then mret (bool_decide (attribute ∈ (JSString ∘ u) <$> attributes))
      else doesAttributeHaveObservableSideEffectOnGet interfaces' object attribute
  end.

Definition domAttributesWithObservableSideEffectOnGet : list (string * list string) :=
  [("Request", ["body"]); ("Response", ["body"])]%string.

(** Whether an accessor of a wrapper of the document is called for its value. *)
Definition readsAttribute (object name : jsvalue) (d : Descriptor) : Injected E bool :=
  if bool_decide (is_Some (d_get d)) && bool_decide (is_Some (d_set d)) then
    proto ← (match name with JSString s => mret (bool_decide (s = u "__proto__")) | _ => run (looselyEqual name (JSString (u "__proto__"))) end);
    if negb proto && Host.isDOMWrapper object then
      effect ← doesAttributeHaveObservableSideEffectOnGet domAttributesWithObservableSideEffectOnGet object name;
      mret (negb effect)
    else mret false
  else mret false.

Definition ofDescriptor (d : Descriptor) (name : jsvalue) (isOwn : bool) (symbol : option jsvalue) : PropertyDescriptor :=
  mkPropertyDescriptor name (d_get d) (d_set d) (d_value d) (d_writable d) (d_enumerable d) (d_configurable d) false isOwn symbol.

(** What [process] yields for one property of [o]: nothing, its descriptor, one made up
    for a property without a descriptor, or the exception that reading it threw. *)
Definition propertyOf (object o : jsvalue) (accessorPropertiesOnly : bool) (property : jskey) (name : jsvalue)
    : Injected E (option PropertyDescriptor) :=
  let isOwn := strictlyEqual o object in
  let symbol := match property with KeySymbol id => Some (JSSymbol id) | KeyString _ => None end in
  tryCatch
    (descriptor ← run (getOwnPropertyDescriptor o property);
     match descriptor with
     | Some d =>
         if accessorPropertiesOnly && negb (hasAccessor d) then mret None
         else
           reads ← readsAttribute object name d;
           if reads : bool then
             attribute ← stringOf name;
             value ← run (getProperty object (KeyString attribute));
             mret (Some (ofDescriptor (mkDescriptor None None (Some value) (d_writable d) (d_enumerable d) (d_configurable d))
                           name isOwn symbol))
           else mret (Some (ofDescriptor d name isOwn symbol))
     | None =>
         if accessorPropertiesOnly then mret None
         else tryCatch
           (value ← run (getProperty o property);
            mret (Some (mkPropertyDescriptor name None None (Some value) (Some false) (Some false) (Some false) false isOwn None)))
           (fun _ => mret None)
     end)
    (fun e =>
       mret (if accessorPropertiesOnly then None
             else Some (mkPropertyDescriptor name None None (Some e) None None None true isOwn symbol))).

(** The names of the indexes below a length. *)
Definition indexCount (d : double) : Z :=
  let z := Double.trunc d in if SFltb (Double.of_Z z) d then z + 1 else z.

Definition arrayIndexNames (length : jsvalue) : Injected E (list jskey) :=
  d ← (match length with JSNumber d => mret d | _ => run (valueToNumber length) end);
  if Double.isfinite d then mret (KeyString ∘ String_number <$> seqZ 0 (indexCount d))
  else match d with S754_infinity false => hang | _ => mret [] end.

Definition isIn (k : jskey) (l : list jskey) : bool := bool_decide (k ∈ l).

(** The generators, with what is done for each descriptor that they yield; it answers
    whether to go on, and the generators answer that too. *)
Section Generators.
Context {C : Type} (n : nat) (yield_ : PropertyDescriptor -> JSM ((E * InjectedState) * C) bool).

Fixpoint process (object o : jsvalue) (accessorPropertiesOnly : bool) (properties propertyProcessed : list jskey)
    : JSM ((E * InjectedState) * C) (bool * list jskey) :=
  match properties with
  | [] => mret (true, propertyProcessed)
  | property :: properties' =>
      if isIn property propertyProcessed then process object o accessorPropertiesOnly properties' propertyProcessed
      else
        name ← lift (match property with KeyString s => mret (JSString s) | KeySymbol id => _describe n (JSSymbol id) end);
        descriptor ← lift (propertyOf object o accessorPropertiesOnly property name);
        more ← (match descriptor with Some descriptor => yield_ descriptor | None => mret true end);
        if more : bool then process object o accessorPropertiesOnly properties' (property :: propertyProcessed)
        else mret (false, property :: propertyProcessed)
  end.

(** The object on the chain of prototypes that has a property. *)
Fixpoint ownerOf (rounds : nat) (o : jsvalue) (ownProperties : bool) (name : ustring) : Injected E (option jsvalue) :=
  defined ← observe (_isDefined o);
  if negb defined then mret None
  else
    has ← run (hasOwnProperty o name);
    if has : bool then mret (Some o)
    else if ownProperties then mret None
    else match rounds with
         | O => hang
         | S rounds' => proto ← getNamed o "__proto__"; ownerOf rounds' proto ownProperties name
         end.

Fixpoint namedProperties (object : jsvalue) (ownProperties accessorPropertiesOnly : bool) (names : list ustring)
    (propertyProcessed : list jskey) : JSM ((E * InjectedState) * C) unit :=
  match names with
  | [] => mret tt
  | name :: names' =>
      owner ← lift (ownerOf n object ownProperties name);
      r ← (match owner with
           | Some o => process object o accessorPropertiesOnly [KeyString name] propertyProcessed
           | None => mret (true, propertyProcessed)
           end);
      let '(more, propertyProcessed) := r : bool * list jskey in
      if more then namedProperties object ownProperties accessorPropertiesOnly names' propertyProcessed else mret tt
  end.

(** Goes on only if the generator before did. *)
Definition thenProcess (r : bool * list jskey) (object o : jsvalue) (accessorPropertiesOnly : bool) (names : Injected E (list jskey))
    : JSM ((E * InjectedState) * C) (bool * list jskey) :=
  if r.1 then names ← lift names; process object o accessorPropertiesOnly names r.2 else mret r.

Fixpoint prototypeWalk (rounds : nat) (object o : jsvalue) (ownProperties accessorPropertiesOnly skipGetOwnPropertyNames : bool)
    (propertyProcessed : list jskey) : JSM ((E * InjectedState) * C) unit :=
  defined ← lift (observe (_isDefined o));
  if negb defined then mret tt
  else
    r ← (if skipGetOwnPropertyNames && strictlyEqual o object
         then thenProcess (true, propertyProcessed) object o accessorPropertiesOnly
                (length ← getNamed o "length"; arrayIndexNames length)
         else r ← thenProcess (true, propertyProcessed) object o accessorPropertiesOnly (run (objectKeys o));
              thenProcess r object o accessorPropertiesOnly (run (getOwnPropertyNames o)));
    r ← thenProcess r object o accessorPropertiesOnly (run (getOwnPropertySymbols o));
    if negb r.1 then mret tt
    else if ownProperties then
      proto ← lift (getNamed object "__proto__");
      hasProto ← lift (observe (truthy proto));
      if hasProto && negb accessorPropertiesOnly then
        proto ← lift (getNamed object "__proto__");
        yield_ (mkPropertyDescriptor (JSString (u "__proto__")) None None (Some proto) (Some true) (Some false) (Some true) false true None);;
        mret tt
      else mret tt
    else match rounds with
         | O => lift hang
         | S rounds' =>
             proto ← lift (getNamed o "__proto__");
             prototypeWalk rounds' object proto ownProperties accessorPropertiesOnly skipGetOwnPropertyNames r.2
         end.

Definition _propertyDescriptors (object : jsvalue) (ownProperties accessorPropertiesOnly : bool)
    (propertyNamesOnly : option (list ustring)) : JSM ((E * InjectedState) * C) unit :=
  match propertyNamesOnly with
  | Some names => namedProperties object ownProperties accessorPropertiesOnly names []
  | None =>
      skipGetOwnPropertyNames ← lift (tryCatch
        (typed ← observe (Host.isTypedArray object);
         if typed : bool then
           length ← getNamed object "length"; run (lessThan (JSNumber (Double.of_Z 500000)) length)
         else mret false)
        (fun _ => mret false));
      prototypeWalk n object object ownProperties accessorPropertiesOnly skipGetOwnPropertyNames []
  end.

End Generators.

(** ** Previews *)

(** [propertiesThreshold]. *)
Record Threshold := mkThreshold {
  th_properties : Z;
  th_indexes : Z;
}.

Definition exceeded (t : Threshold) : bool := (th_indexes t <? 0) || (th_properties t <? 0).

(** The preview that is being made and what it may still hold. *)
Abbreviation Previewing A := (JSM ((E * InjectedState) * (Preview * Threshold)) A).

Definition setPreview (f : Preview -> Preview) : Previewing unit := setLocal (fun p => (f p.1, p.2)).
Definition lossy : Previewing unit := setPreview (fun p => p <| pv_lossless := false |>).
Definition overflows : Previewing unit := setPreview (fun p => p <| pv_overflow := true |> <| pv_lossless := false |>).

Definition _createEmptyPreview (self : RemoteObject) : Injected E Preview :=
  let description := default JSUndefined (ro_description self) in
  given ← observe (truthy description);
  description ← (if given : bool then mret description
                 else t ← toStringDescription (default JSUndefined (ro_value self)); mret (JSString t));
  mret (mkPreview (ro_type self) (ro_subtype self) description true false [] None).

Definition _appendPropertyPreview (property : PropertyPreview Preview) : Previewing unit :=
  index ← lift (isIndexText (pp_name property));
  setLocal (fun p => (p.1, if index : bool then mkThreshold (th_properties p.2) (th_indexes p.2 - 1)
                           else mkThreshold (th_properties p.2 - 1) (th_indexes p.2)));;
  p ← local;
  if exceeded p.2 then overflows
  else setPreview (fun p => p <| pv_properties := pv_properties p ++ [property] |>).

(** Properties that are not shown, and do not make the preview lossy. *)
Definition ignored (self : RemoteObject) (d : PropertyDescriptor) : bool :=
  bool_decide (pd_name d = JSString (u "__proto__")) ||
  negb (pd_isOwn d) && negb (default false (pd_enumerable d)) ||
  subtypeIs "array" (ro_subtype self) && bool_decide (pd_name d = JSString (u "length")) ||
  (subtypeIs "map" (ro_subtype self) || subtypeIs "set" (ro_subtype self)) && bool_decide (pd_name d = JSString (u "size")).

Definition maxLength : Z := 100.

(** The preview of a property with a value that is neither null nor primitive. *)
Definition objectPropertyPreview (n : nat) (subPreview : option (jsvalue -> Injected E Preview)) (name value : jsvalue) (type : string)
    : Previewing (PropertyPreview Preview) :=
  subtype ← lift (_subtype value);
  match subPreview with
  | Some generate =>
      sub ← lift (generate value);
      setPreview (fun p => p <| pv_lossless := pv_lossless p && pv_lossless sub |> <| pv_overflow := pv_overflow p || pv_overflow sub |>);;
      mret (mkPropertyPreview name type subtype None (Some sub))
  | None =>
      description ← (if bool_decide (type = "function"%string) then mret (JSString [])
                     else description ← lift (_describe n value);
                          lift (_abbreviateString description maxLength (subtypeIs "regexp" subtype)));
      lossy;;
      mret (mkPropertyPreview name type subtype (Some description) None)
  end.

(** The body of the loop of [_appendPropertyDescriptors] for a property with a value. *)
Definition appendValue (n : nat) (self : RemoteObject) (subPreview : option (jsvalue -> Injected E Preview)) (name value : jsvalue)
    : Previewing unit :=
  type ← lift (observe (typeof value));
  index ← (if bool_decide (type = "function"%string) && subtypeIs "array" (ro_subtype self) then lift (isUInt32 name) else mret false);
  if bool_decide (type = "function"%string) && negb index then lossy
  else
    all ← lift (observe (_isHTMLAllCollection value));
    let type := if bool_decide (type = "undefined"%string) && all then "object"%string else type in
    match value with
    | JSNull => _appendPropertyPreview (mkPropertyPreview name "object" (Some "null"%string) (Some (JSString (u "null"))) None)
    | _ =>
        if primitiveTypes type then
          value ← (match value with
                   | JSString s =>
                       if maxLength <? Z.of_nat (length s)
                       then value ← lift (_abbreviateString value maxLength true); lossy;; mret value
                       else mret value
                   | _ => mret value
                   end);
          t ← lift (toStringDescription value);
          _appendPropertyPreview (mkPropertyPreview name type None (Some (JSString t)) None)
        else
          property ← objectPropertyPreview n subPreview name value type;
          _appendPropertyPreview property
    end.

Definition appendPropertyDescriptor (n : nat) (self : RemoteObject) (subPreview : option (jsvalue -> Injected E Preview))
    (d : PropertyDescriptor) : Previewing bool :=
  p ← local;
  if exceeded p.2 then mret false
  else
    (if pd_wasThrown d then lossy
     else if ignored self d then mret tt
     else match (if pd_isOwn d then pd_value d else None) with
          | None => lossy
          | Some value => appendValue n self subPreview (pd_name d) value
          end);;
    mret true.

(** [_appendPropertyDescriptors] of an array of descriptors. *)
Fixpoint _appendPropertyDescriptors (n : nat) (self : RemoteObject) (subPreview : option (jsvalue -> Injected E Preview))
    (ds : list PropertyDescriptor) : Previewing unit :=
  match ds with
  | [] => mret tt
  | d :: ds' =>
      more ← appendPropertyDescriptor n self subPreview d;
      if more : bool then _appendPropertyDescriptors n self subPreview ds' else mret tt
  end.

(** [generateValuePreview], where [make] makes a remote object with a preview. *)
Definition generateValuePreview (make : jsvalue -> Injected E RemoteObject) (value : jsvalue) : Previewing Preview :=
  remoteObject ← lift (make value);
  valuePreview ← (match ro_preview remoteObject with Some p => mret p | None => lift (_createEmptyPreview remoteObject) end);
  setPreview (fun p => p <| pv_lossless := pv_lossless p && pv_lossless valuePreview |>);;
  mret valuePreview.

Definition entriesThreshold : nat := 5.

Fixpoint appendEntries (make : jsvalue -> Injected E RemoteObject) (entries : list CollectionEntry) : Previewing unit :=
  match entries with
  | [] => mret tt
  | entry :: entries' =>
      p ← local;
      if (entriesThreshold <=? length (default [] (pv_entries p.1)))%nat then overflows
      else
        value ← generateValuePreview make (ce_value entry);
        key ← (match ce_key entry with
               | Some key => key ← generateValuePreview make key; mret (Some key)
               | None => mret None
               end);
        setPreview (fun p => p <| pv_entries := Some (default [] (pv_entries p) ++ [mkEntryPreview value key]) |>);;
        appendEntries make entries'
  end.

Definition _appendEntriesPreview (make : jsvalue -> Injected E RemoteObject) (object : jsvalue) (skipEntriesPreview : bool)
    : Previewing unit :=
  entries ← lift (Host.collectionEntries object);
  match entries with
  | None => mret tt
  | Some entries =>
      if skipEntriesPreview then match entries with [] => mret tt | _ => overflows end
      else setPreview (fun p => p <| pv_entries := Some [] |>);; appendEntries make entries
  end.

(** Names and values alternate in the array of the internal properties. *)
Definition internalDescriptor (p : ustring * jsvalue) : PropertyDescriptor :=
  mkPropertyDescriptor (JSString p.1) None None (Some p.2) None (Some true) None false true None.

Definition threshold (isTable : bool) (firstLevelKeys : option (list ustring)) : Threshold :=
  let firstLevelKeysCount := Z.of_nat (length (default [] firstLevelKeys)) in
  mkThreshold (if isTable then 1000 else Z.max 5 firstLevelKeysCount) (if isTable then 1000 else Z.max 100 firstLevelKeysCount).

(** [_generatePreview], where [make] makes remote objects for entries and [subPreview]
    the previews of values, if there are any. *)
Definition generateWith (n : nat) (make : jsvalue -> Injected E RemoteObject) (subPreview : option (jsvalue -> Injected E Preview))
    (self : RemoteObject) (object : jsvalue) (firstLevelKeys : option (list ustring)) (isTable skipEntriesPreview : bool)
    : Injected E Preview :=
  preview ← _createEmptyPreview self;
  r ← withLocal (preview, threshold isTable firstLevelKeys)
    (_propertyDescriptors n (appendPropertyDescriptor n self subPreview) object false false firstLevelKeys;;
     p ← local;
     if exceeded p.2 then mret tt
     else
       rawInternalProperties ← lift (Host.getInternalProperties object);
       _appendPropertyDescriptors n self subPreview (map internalDescriptor (default [] rawInternalProperties));;
       if subtypeIs "map" (ro_subtype self) || subtypeIs "set" (ro_subtype self) || subtypeIs "iterator" (ro_subtype self)
       then _appendEntriesPreview make object skipEntriesPreview
       else mret tt)
    (fun _ p => (p.1 <| pv_lossless := false |>, p.2));
  mret r.1.

(** The previews of the second level have no further level; [self] stays the remote object
    of the first. *)
Definition _generatePreview (n : nat) (make : jsvalue -> Injected E RemoteObject) (self : RemoteObject) (object : jsvalue)
    (firstLevelKeys : option (list ustring)) (secondLevelKeys : SecondLevelKeys) (isTable skipEntriesPreview : bool)
    : Injected E Preview :=
  let second keys value := generateWith n make None self value keys isTable false in
  let subPreview :=
    match secondLevelKeys with
    | NoSecondLevel => None
    | EverySecondLevel => Some (second None)
    | SecondLevel keys => Some (second (Some keys))
    end in
  generateWith n make subPreview self object firstLevelKeys isTable skipEntriesPreview.

(** ** Remote objects *)

(** The arguments of the constructor [RemoteObject]. *)
Record WrapOptions := mkWrapOptions {
  doNotBind : bool;
  forceValueType : bool;
  generatePreview : bool;
  columnNames : SecondLevelKeys;
  isTable : bool;
  skipEntriesPreview : bool;
  customObjectConfig : jsvalue;
}.

Definition plain : WrapOptions := mkWrapOptions false false false NoSecondLevel false false JSUndefined.

(** [_wrapObject], where [make] is the constructor of remote objects. *)
Definition wrapWith (n : nat) (make : jsvalue -> option ustring -> WrapOptions -> Injected E RemoteObject)
    (object : jsvalue) (objectGroupName : option ustring) (options : WrapOptions) : Injected E RemoteObject :=
  tryCatch (make object objectGroupName options)
    (fun e =>
       description ← tryCatch (_describe n e) (fun _ => mret (JSString (u "<failed to convert exception to string>")));
       make description None plain).

Definition maxCustomPreviewRecursionDepth : nat := 20.

Definition addDepth (f : nat -> nat) : Injected E unit :=
  setOwn (fun i => i <| customPreviewRecursionDepth := f (customPreviewRecursionDepth i) |>).

(** The JSON ML of a formatter is an array of the program; the attributes of an "object"
    tag in it are replaced by a remote object.  [depth] bounds the recursion, which the
    counter of the script ends before. *)
Fixpoint _substituteObjectTagsInCustomPreview (depth n : nat) (wrap : jsvalue -> option ustring -> WrapOptions -> Injected E RemoteObject)
    (objectGroupName : option ustring) (jsonMLObject : jsvalue) : Injected E unit :=
  addDepth S;;
  tryFinally
    (recursion ← own customPreviewRecursionDepth;
     if (maxCustomPreviewRecursionDepth <=? recursion)%nat
     then throwError (u "Too deep hierarchy of inlined custom previews")
     else
       array ← isArrayLike jsonMLObject;
       if negb array then mret tt
       else
         tag ← getIndex jsonMLObject 0;
         if strictlyEqual tag (JSString (u "object")) then
           attributes ← getIndex jsonMLObject 1;
           originObject ← getNamed attributes "object";
           config ← getNamed attributes "config";
           undefined ← observe (typeIs "undefined" originObject);
           if undefined : bool then throwError (u "Illegal format: obligatory attribute " ++ [dquote] ++ u "object" ++ [dquote] ++ u " isn't specified")
           else
             remoteObject ← wrap originObject objectGroupName (mkWrapOptions false false false EverySecondLevel false false config);
             wrapped ← run (newObject (builtRemoteObject remoteObject));
             run (setProperty jsonMLObject (KeyString (String_number 1)) wrapped)
         else
           match depth with
           | O => hang
           | S depth' =>
               forIndexes n 0 jsonMLObject tt (fun i =>
                 element ← getIndex jsonMLObject i;
                 _substituteObjectTagsInCustomPreview depth' n wrap objectGroupName element;;
                 mret None)
           end)
    (addDepth pred).

Definition logError (error : jsvalue) : Injected E unit :=
  message ← getNamed error "message";
  t ← stringOf message;
  run (consoleErrorLater (u "Custom Formatter Failed: " ++ t)).

(** The custom preview that one formatter gives. *)
Definition formatWith (n : nat) (wrap : jsvalue -> option ustring -> WrapOptions -> Injected E RemoteObject)
    (formatters object : jsvalue) (objectGroupName : option ustring) (config : jsvalue) (i : Z) : Injected E (option CustomPreview) :=
  formatter ← getIndex formatters i;
  formatted ← run (invoke formatter (u "header") [object; config]);
  given ← observe (truthy formatted);
  if negb given then mret None
  else
    formatter ← getIndex formatters i;
    hasBody ← run (invoke formatter (u "hasBody") [object; config]);
    _substituteObjectTagsInCustomPreview maxCustomPreviewRecursionDepth n wrap objectGroupName formatted;;
    formatter ← getIndex formatters i;
    formatterObjectId ← _bind formatter objectGroupName;
    header ← run (jsonStringify formatted);
    hasBody ← observe (truthy hasBody);
    hasConfig ← observe (truthy config);
    configObjectId ← (if hasConfig : bool then id ← _bind config objectGroupName; mret (Some id) else mret None);
    mret (Some (mkCustomPreview header hasBody formatterObjectId configObjectId)).

Definition _customPreview (n : nat) (wrap : jsvalue -> option ustring -> WrapOptions -> Injected E RemoteObject)
    (object : jsvalue) (objectGroupName : option ustring) (config : jsvalue) : Injected E (option CustomPreview) :=
  tryCatch
    (formatters ← run (getGlobal (u "devtoolsFormatters"));
     given ← observe (truthy formatters);
     array ← (if given : bool then isArrayLike formatters else mret false);
     if negb array then mret None
     else forIndexes n 0 formatters None (fun i =>
       preview ← tryCatch (formatWith n wrap formatters object objectGroupName config i) (fun e => logError e;; mret None);
       mret (Some <$> preview)))
    (fun e => logError e;; mret None).

(** The description of a number, and its value, which JSON cannot always hold. *)
Definition unserializable : list ustring := [u "NaN"; u "Infinity"; u "-Infinity"; u "-0"].

Definition primitiveRemoteObject (object : jsvalue) (type : string) : Injected E RemoteObject :=
  let value := if bool_decide (type = "undefined"%string) then None else Some object in
  let subtype := match object with JSNull => Some "null"%string | _ => None end in
  if bool_decide (type = "number"%string) then
    description ← toStringDescription object;
    let value := if bool_decide (description ∈ unserializable) then Some (JSString description) else value in
    mret (mkRemoteObject type value None subtype None (Some (JSString description)) None None)
  else mret (mkRemoteObject type value None subtype None None None None).

(** The constructor [InjectedScript.RemoteObject].  The remote objects that it makes for
    entries and in custom previews are nested at most [levels] deep, which the counter of
    the script sees to. *)
Fixpoint remoteObject (levels n : nat) (object : jsvalue) (objectGroupName : option ustring) (options : WrapOptions)
    : Injected E RemoteObject :=
  type ← observe (typeof object);
  all ← observe (_isHTMLAllCollection object);
  let type := if bool_decide (type = "undefined"%string) && all then "object"%string else type in
  primitive ← observe (isPrimitiveValue object);
  if primitive || bool_decide (object = JSNull) || forceValueType options then primitiveRemoteObject object type
  else
    match levels with
    | O => hang
    | S levels' =>
        let wrap := wrapWith n (remoteObject levels' n) in
        let make value := remoteObject levels' n value None (mkWrapOptions true false true NoSecondLevel false true JSUndefined) in
        objectId ← (if doNotBind options then mret None else id ← _bind object objectGroupName; mret (Some id));
        subtype ← _subtype object;
        className ← observe (Host.internalConstructorName object);
        description ← _describe n object;
        let self := mkRemoteObject type None objectId subtype
                      (match className with JSString (c :: s) => Some (c :: s) | _ => None end) (Some description) None None in
        preview ← (if generatePreview options && bool_decide (type = "object"%string) && negb (subtypeIs "node" subtype)
                   then p ← _generatePreview n make self object None (columnNames options) (isTable options) (skipEntriesPreview options);
                        mret (Some p)
                   else mret None);
        enabled ← own customObjectFormatterEnabled;
        customPreview ← (if enabled : bool then _customPreview n wrap object objectGroupName (customObjectConfig options) else mret None);
        mret (self <| ro_preview := preview |> <| ro_customPreview := customPreview |>)
    end.

Definition remoteObjectLevels : nat := 24.

Definition _wrapObject (n : nat) (object : jsvalue) (objectGroupName : option ustring) (options : WrapOptions)
    : Injected E RemoteObject := wrapWith n (remoteObject remoteObjectLevels n) object objectGroupName options.

Definition _fallbackWrapper (object : jsvalue) : Injected E RemoteObject :=
  type ← observe (typeof object);
  primitive ← observe (isPrimitiveValue object);
  if primitive : bool then mret (mkRemoteObject type (Some object) None None None None None None)
  else t ← toString object; mret (mkRemoteObject type None None None None (Some (JSString t)) None None).

(** A worker's context can always be accessed. *)
Definition wrapObject (n : nat) (object : jsvalue) (groupName : ustring) (canAccessInspectedWindow generate : bool)
    : Injected E RemoteObject :=
  if canAccessInspectedWindow
  then _wrapObject n object (Some groupName) (mkWrapOptions false false generate NoSecondLevel false false JSUndefined)
  else _fallbackWrapper object.

(** The names of an array of columns. *)
Fixpoint columnTexts (n : nat) (columns : jsvalue) (i : Z) : Injected E (list ustring) :=
  length ← getNamed columns "length";
  more ← run (lessThan (JSNumber (Double.of_Z i)) length);
  if more : bool then
    match n with
    | O => hang
    | S n' => column ← getIndex columns i; name ← toString column; names ← columnTexts n' columns (i + 1); mret (name :: names)
    end
  else mret [].

(** [columns] of a table: a name, an array of names, or none. *)
Definition wrapTable (n : nat) (canAccessInspectedWindow : bool) (table columns : jsvalue) : Injected E RemoteObject :=
  if negb canAccessInspectedWindow then _fallbackWrapper table
  else
    array ← observe (fun e => subtypeIs "array" (Host.subtype columns e));
    columnNames ←
      (match columns with
       | JSString s => mret (SecondLevel [s])
       | _ =>
           if array : bool then names ← columnTexts n columns 0; mret (SecondLevel names)
           else mret EverySecondLevel
       end);
    _wrapObject n table (Some (u "console")) (mkWrapOptions false false true columnNames true false JSUndefined).

End Source.
End Source.
