(* ===== verification/InjectedCalls.v ===== *)
(** * The injected script: what the inspector asks

    The part of [core/inspector/InjectedScriptSource.js] that the inspector calls: objects
    and their properties, call frames, and evaluation. *)

From S2P Require Import Prelude Platform WTFString JSONValues Engine JSValues InjectedHost InjectedObjects.

Import Source.

Module Calls.
Section Calls.
Context {E : Type} {J : JSEngine E}.

(** ** Objects *)

Definition couldNotFindObject : ustring := u "Could not find object with given id".

(** The object, the group it is in, and the numbers it is known by. *)
Definition resolve (objectId : ustring) : Injected E (jsvalue * option ustring) :=
  parsedObjectId ← _parseObjectId objectId;
  object ← _objectForId parsedObjectId;
  id ← getNamed parsedObjectId "id";
  objectGroupName ← Host.idToObjectGroupName id;
  mret (object, objectGroupName).

Definition wrapOptional (n : nat) (objectGroupName : option ustring) (options : WrapOptions) (v : option jsvalue)
    : Injected E (option RemoteObject) :=
  match v with Some v => r ← _wrapObject n v objectGroupName options; mret (Some r) | None => mret None end.

Definition withPreview (generate : bool) : WrapOptions := mkWrapOptions false false generate NoSecondLevel false false JSUndefined.

(** A descriptor with its values wrapped; the order of its members is a fixed one. *)
Definition wrapDescriptor (n : nat) (objectGroupName : option ustring) (generate : bool) (d : PropertyDescriptor) : Injected E built :=
  get ← wrapOptional n objectGroupName plain (pd_get d);
  set ← wrapOptional n objectGroupName plain (pd_set d);
  value ← wrapOptional n objectGroupName (withPreview generate) (pd_value d);
  symbol ← wrapOptional n objectGroupName plain (pd_symbol d);
  mret (Literal (member "value" builtRemoteObject value ++ member "writable" flag (pd_writable d)
    ++ member "get" builtRemoteObject get ++ member "set" builtRemoteObject set
    ++ [(u "enumerable", flag (default false (pd_enumerable d))); (u "configurable", flag (default false (pd_configurable d)))]
    ++ (if pd_wasThrown d then [(u "wasThrown", flag true)] else [])
    ++ [(u "name", Value (pd_name d))] ++ (if pd_isOwn d then [(u "isOwn", flag true)] else [])
    ++ member "symbol" builtRemoteObject symbol)).

Definition getProperties (n : nat) (objectId : ustring) (ownProperties accessorPropertiesOnly generate : bool) : Injected E built :=
  r ← resolve objectId;
  let '(object, objectGroupName) := r : jsvalue * option ustring in
  defined ← observe (_isDefined object);
  if negb defined || isSymbol object then mret (flag false)
  else
    descriptors ← inLocal []
      (_propertyDescriptors n (fun d =>
         wrapped ← lift (wrapDescriptor n objectGroupName generate d);
         setLocal (fun l => l ++ [wrapped]);; mret true) object ownProperties accessorPropertiesOnly None);
    mret (Elements descriptors).

Definition wrapInternal (n : nat) (objectGroupName : option ustring) (p : ustring * jsvalue) : Injected E built :=
  value ← _wrapObject n p.2 objectGroupName plain;
  mret (Literal [(u "name", text p.1); (u "value", builtRemoteObject value)]).

Definition getInternalProperties (n : nat) (objectId : ustring) : Injected E built :=
  r ← resolve objectId;
  let '(object, objectGroupName) := r : jsvalue * option ustring in
  defined ← observe (_isDefined object);
  if negb defined || isSymbol object then mret (flag false)
  else
    internal ← Host.getInternalProperties object;
    l ← mapJS (wrapInternal n objectGroupName) (default [] internal);
    mret (Elements l).

(** [_scopeTypeNames]; another type has no name. *)
Definition scopeTypeName (code : Z) : jsvalue :=
  match nth_error ["global"; "local"; "with"; "closure"; "catch"; "block"; "script"]%string (Z.to_nat code) with
  | Some t => if 0 <=? code then JSString (u t) else JSUndefined
  | None => JSUndefined
  end.

Definition _createScopeJson (n : nat) (groupId : option ustring) (scope : Z * jsvalue) : Injected E built :=
  object ← _wrapObject n scope.2 groupId plain;
  mret (Literal [(u "object", builtRemoteObject object); (u "type", Value (scopeTypeName scope.1))]).

Definition getFunctionDetails (n : nat) (functionId : ustring) : Injected E built :=
  parsedFunctionId ← _parseObjectId functionId;
  func ← _objectForId parsedFunctionId;
  function ← observe (typeIs "function" func);
  match func with
  | JSObject f =>
      if function : bool then
        details ← observe (Host.functionDetails f);
        rawScopes ← run (functionScopes f);
        match rawScopes with
        | None => mret (Literal details)
        | Some rawScopes =>
            id ← getNamed parsedFunctionId "id";
            objectGroupName ← Host.idToObjectGroupName id;
            scopes ← mapJS (_createScopeJson n objectGroupName) rawScopes;
            mret (Literal (details ++ [(u "scopeChain", Elements scopes)]))
        end
      else mret (text (u "Cannot resolve function by id."))
  | _ => mret (text (u "Cannot resolve function by id."))
  end.

(** [!object || typeof object !== "object"]. *)
Definition notAnObject (object : jsvalue) (e : E) : bool := negb (truthy object e) || negb (typeIs "object" object e).

(** [details["function"]] is replaced where it is, or comes last. *)
Fixpoint replaceMember (name : ustring) (b : built) (l : list (ustring * jsvalue)) : list (ustring * built) :=
  match l with
  | [] => [(name, b)]
  | (k, v) :: l' =>
      if decide (k = name) then (k, b) :: ((fun kv => (kv.1, Value kv.2)) <$> l') else (k, Value v) :: replaceMember name b l'
  end.

Definition valueOf (name : ustring) (l : list (ustring * jsvalue)) : jsvalue :=
  default JSUndefined (snd <$> List.find (fun kv => bool_decide (kv.1 = name)) l).

Definition getGeneratorObjectDetails (n : nat) (objectId : ustring) : Injected E built :=
  parsedObjectId ← _parseObjectId objectId;
  object ← _objectForId parsedObjectId;
  none ← observe (notAnObject object);
  if none : bool then mret (text couldNotFindObject)
  else
    details ← Host.generatorObjectDetails object;
    match details with
    | None => mret (text (u "Object is not a generator"))
    | Some details =>
        id ← getNamed parsedObjectId "id";
        objectGroupName ← Host.idToObjectGroupName id;
        f ← _wrapObject n (valueOf (u "function") details) objectGroupName plain;
        mret (Literal (replaceMember (u "function") (builtRemoteObject f) details))
    end.

Definition wrapEntry (n : nat) (objectGroupName : option ustring) (entry : CollectionEntry) : Injected E built :=
  key ← wrapOptional n objectGroupName plain (ce_key entry);
  value ← _wrapObject n (ce_value entry) objectGroupName plain;
  mret (Literal (member "key" builtRemoteObject key ++ [(u "value", builtRemoteObject value)])).

Definition getCollectionEntries (n : nat) (objectId : ustring) : Injected E built :=
  parsedObjectId ← _parseObjectId objectId;
  object ← _objectForId parsedObjectId;
  none ← observe (notAnObject object);
  if none : bool then mret (text couldNotFindObject)
  else
    entries ← Host.collectionEntries object;
    match entries with
    | None => mret (text (u "Object with given id is not a collection"))
    | Some entries =>
        id ← getNamed parsedObjectId "id";
        objectGroupName ← Host.idToObjectGroupName id;
        l ← mapJS (wrapEntry n objectGroupName) entries;
        mret (Elements l)
    end.

(** ** Call frames *)

Definition callFrameIdText (ordinal injectedScriptId asyncOrdinal : Z) : ustring :=
  u "{" ++ [dquote] ++ u "ordinal" ++ [dquote] ++ u ":" ++ String_number ordinal ++
  u "," ++ [dquote] ++ u "injectedScriptId" ++ [dquote] ++ u ":" ++ String_number injectedScriptId ++
  (if asyncOrdinal =? 0 then [] else u "," ++ [dquote] ++ u "asyncOrdinal" ++ [dquote] ++ u ":" ++ String_number asyncOrdinal) ++
  u "}".

Definition backtrace : option ustring := Some (u "backtrace").

Definition builtLocation (scriptId : ustring) (line column : Z) : built :=
  Literal [(u "scriptId", text scriptId); (u "lineNumber", number line); (u "columnNumber", number column)].

(** The constructor [CallFrameProxy] for the frame number [ordinal]. *)
Definition callFrameProxy (n : nat) (frames : CallFrames) (asyncOrdinal : Z) (ordinal : nat) (frame : Frame) : Injected E built :=
  scriptId ← own injectedScriptId;
  position ← observe (frameFunctionPosition frames ordinal);
  functionScriptId ← toString (JSNumber (Double.of_Z (sourceID frame)));
  sourceId ← toString (JSNumber (Double.of_Z (sourceID frame)));
  scopes ← run (frameScopes frames ordinal);
  scopeChain ← mapJS (_createScopeJson n backtrace) scopes;
  this ← run (frameThis frames ordinal);
  this ← _wrapObject n this backtrace plain;
  returnValue ← (if isAtReturn frame
                 then v ← run (frameReturnValue frames ordinal); r ← _wrapObject n v backtrace plain; mret (Some r)
                 else mret None);
  mret (Literal ([(u "callFrameId", text (callFrameIdText (Z.of_nat ordinal) scriptId asyncOrdinal));
                  (u "functionName", text (functionName frame));
                  (u "functionLocation", builtLocation functionScriptId position.1 position.2);
                  (u "location", builtLocation sourceId (line frame) (column frame));
                  (u "scopeChain", Elements scopeChain); (u "this", builtRemoteObject this)]
    ++ member "returnValue" builtRemoteObject returnValue)).

Fixpoint wrapFrames (n : nat) (frames : CallFrames) (asyncOrdinal : Z) (depth : nat) (l : list Frame) : Injected E (list built) :=
  match l with
  | [] => mret []
  | frame :: l' =>
      proxy ← callFrameProxy n frames asyncOrdinal depth frame;
      rest ← wrapFrames n frames asyncOrdinal (S depth) l';
      mret (proxy :: rest)
  end.

(** Frames of another context arrive as [undefined]. *)
Definition wrapCallFrames (n : nat) (callFrames : option CallFrames) (asyncOrdinal : Z) : Injected E built :=
  match callFrames with
  | None => mret (flag false)
  | Some frames => l ← wrapFrames n frames asyncOrdinal 0 (cf_frames frames); mret (Elements l)
  end.

Definition toNumber (v : jsvalue) : Injected E double := match v with JSNumber d => mret d | _ => run (valueToNumber v) end.

(** [a[d]] of an array of the inspector, and how often [--d >= 0] holds, at most [max]
    times. *)
Definition elementAt {A} (l : list A) (d : double) : option A :=
  let z := Double.trunc d in
  if Double.isfinite d && SFeqb (Double.of_Z z) d && (0 <=? z) then l !! Z.to_nat z else None.

Definition countDown (d : double) (max : nat) : nat :=
  match d with
  | S754_infinity false => max
  | _ => if notNegative d then Z.to_nat (Double.trunc d) else O
  end.

(** A frame is its stack and its number. *)
Abbreviation CallFrame := (CallFrames * nat)%type.

Definition frameAt (frames : option CallFrames) (ordinal : double) : option CallFrame :=
  match frames with
  | None => None
  | Some frames =>
      let k := countDown ordinal (length (cf_frames frames)) in
      if decide (k < length (cf_frames frames))%nat then Some (frames, k) else None
  end.

Definition _callFrameForParsedId (topCallFrame : option CallFrames) (parsedCallFrameId : jsvalue)
    (asyncCallStacks : list (option CallFrames)) : Injected E (option CallFrame) :=
  asyncOrdinal ← getNamed parsedCallFrameId "asyncOrdinal";
  async ← observe (truthy asyncOrdinal);
  top ← (if async : bool then d ← toNumber asyncOrdinal; mret (mjoin (elementAt asyncCallStacks (SFsub 53 1024 d (Double.of_Z 1))))
         else mret topCallFrame);
  ordinal ← getNamed parsedCallFrameId "ordinal";
  d ← toNumber ordinal;
  mret (frameAt top d).

Definition _callFrameForId (topCallFrame : option CallFrames) (callFrameId : ustring) : Injected E (option CallFrame) :=
  parsedCallFrameId ← evalParenthesized callFrameId;
  nullifyObjectProto parsedCallFrameId;;
  _callFrameForParsedId topCallFrame parsedCallFrameId [].

Definition couldNotFindFrame : ustring := u "Could not find call frame with given id".

Definition restartFrame (topCallFrame : option CallFrames) (callFrameId : ustring) : Injected E built :=
  callFrame ← _callFrameForId topCallFrame callFrameId;
  match callFrame with
  | None => mret (text couldNotFindFrame)
  | Some (frames, k) =>
      result ← run (frameRestart frames k);
      mret (if strictlyEqual result (JSBoolean false) then text (u "Restart frame is not supported") else Value result)
  end.

Definition getStepInPositions (topCallFrame : option CallFrames) (callFrameId : ustring) : Injected E built :=
  callFrame ← _callFrameForId topCallFrame callFrameId;
  match callFrame with
  | None => mret (text couldNotFindFrame)
  | Some (frames, k) =>
      positions ← run (frameStepInPositions frames k);
      unpacked ← run (jsonParse positions);
      object ← observe (typeIs "object" unpacked);
      mret (if object : bool then Value unpacked else text (u "Step in positions not available"))
  end.

(** ** Evaluation *)

(** A value from a [CallArgument]; the texts that it throws are strings. *)
Definition _resolveCallArgument (callArgumentJson : jsvalue) : Injected E jsvalue :=
  nullifyObjectProto callArgumentJson;;
  objectId ← getNamed callArgumentJson "objectId";
  given ← observe (truthy objectId);
  if given : bool then
    objectId ← stringOf objectId;
    parsedArgId ← _parseObjectId objectId;
    parsed ← observe (truthy parsedArgId);
    scriptId ← own injectedScriptId;
    same ← (if parsed : bool then world ← getNamed parsedArgId "injectedScriptId"; mret (strictlyEqual world (JSNumber (Double.of_Z scriptId)))
            else mret false);
    if negb same then throw (JSString (u "Arguments should belong to the same JavaScript world as the target object."))
    else
      resolvedArg ← _objectForId parsedArgId;
      defined ← observe (_isDefined resolvedArg);
      if defined : bool then mret resolvedArg else throw (JSString couldNotFindObject)
  else
    hasValue ← run (hasProperty callArgumentJson (u "value"));
    if hasValue : bool then
      value ← getNamed callArgumentJson "value";
      type ← getNamed callArgumentJson "type";
      match value with
      | JSNumber _ => mret value
      | _ => if strictlyEqual type (JSString (u "number")) then d ← run (valueToNumber value); mret (JSNumber d) else mret value
      end
    else mret JSUndefined.

Definition setVariableValue (topCallFrame : option (option CallFrames * ustring)) (functionObjectId : option ustring) (scopeNumber : Z)
    (variableName newValueJsonString : ustring) : Injected E built :=
  tryCatch
    (newValueJson ← evalParenthesized newValueJsonString;
     resolvedValue ← _resolveCallArgument newValueJson;
     match topCallFrame with
     | Some (top, callFrameId) =>
         callFrame ← _callFrameForId top callFrameId;
         match callFrame with
         | None => mret (text couldNotFindFrame)
         | Some (frames, k) => run (frameSetVariable frames k scopeNumber variableName resolvedValue);; mret (Value JSUndefined)
         end
     | None =>
         parsedFunctionId ← _parseObjectId (default (u "false") functionObjectId);
         func ← _objectForId parsedFunctionId;
         function ← observe (typeIs "function" func);
         if function : bool
         then Host.setFunctionVariableValue func scopeNumber variableName resolvedValue;; mret (Value JSUndefined)
         else mret (text (u "Could not resolve function by id"))
     end)
    (fun e => t ← toString e; mret (text t)).

Definition members_ : list ustring :=
  map u ["$"; "$$"; "$x"; "dir"; "dirxml"; "keys"; "values"; "profile"; "profileEnd"; "monitorEvents"; "unmonitorEvents";
         "inspect"; "copy"; "clear"; "getEventListeners"; "debug"; "undebug"; "monitor"; "unmonitor"; "table";
         "$0"; "$1"; "$2"; "$3"; "$4"]%string.

Fixpoint inScopes (name : ustring) (scopes : list (Z * jsvalue)) : Injected E bool :=
  match scopes with
  | [] => mret false
  | (_, scope) :: scopes' => has ← run (hasProperty scope name); if has : bool then mret true else inScopes name scopes'
  end.

Definition inScopeVariables (callFrame : option CallFrame) (name : ustring) : Injected E bool :=
  match callFrame with
  | None => run (inWindow name)
  | Some (frames, k) => scopes ← run (frameScopes frames k); inScopes name scopes
  end.

(** [new CommandLineAPI(...)]: a name that is a variable already is left out. *)
Definition commandLineAPI (callFrame : option CallFrame) : Injected E CommandLineAPI :=
  members ← mapJS (fun name => taken ← inScopeVariables callFrame name; mret (if taken : bool then None else Some name)) members_;
  last ← own lastResult;
  mret (mkCommandLineAPI (omap id members) last).

Definition commandLineAPIName : ustring := u "__commandLineAPI".
Definition scopeChainName : ustring := u "__scopeChainForEval".

Definition withCommandLineAPI : ustring := u "with (typeof __commandLineAPI !== 'undefined' ? __commandLineAPI : { __proto__: null }) {".

(** The text around an expression: [prefix] and [suffix] with one more scope. *)
Definition addScope (i : Z) (around : ustring * ustring) : ustring * ustring :=
  let '(prefix, suffix) := around in
  (u "with (typeof __scopeChainForEval !== 'undefined' ? __scopeChainForEval[" ++ String_number i ++ u "] : { __proto__: null }) {"
     ++ (match suffix with [] => [] | _ => u " " end) ++ prefix,
   match suffix with [] => u "}" | _ => suffix ++ u " }" end).

Definition around (injectCommandLineAPI : bool) (scopes : Z) (expression : ustring) : ustring :=
  let '(prefix, suffix) :=
    foldl (fun a i => addScope i a) (if injectCommandLineAPI then (withCommandLineAPI, u "}") else ([], [])) (seqZ 0 scopes) in
  match prefix with
  | [] => expression
  | _ => prefix ++ [newLine] ++ expression ++ [newLine] ++ suffix
  end.

(** [delete inspectedWindow[name]], without an exception. *)
Definition deleteQuietly (name : ustring) : Injected E unit := tryCatch (run (deleteGlobal name)) (fun _ => mret tt).

Definition isConsole (objectGroup : ustring) : bool := bool_decide (objectGroup = u "console").

(** The value or the exception, with its details. *)
Definition _evaluateOn (callFrame : option CallFrame) (objectGroup expression : ustring) (injectCommandLineAPI : bool)
    (scopeChain : list jsvalue) : Injected E (jsvalue * option MessageInfo) :=
  extension ← (match callFrame with
               | Some frame => if injectCommandLineAPI then api ← commandLineAPI (Some frame); mret (Some api) else mret None
               | None => mret None
               end);
  inject ← (match callFrame with
            | Some _ => mret false
            | None => if injectCommandLineAPI then present ← run (inWindow commandLineAPIName); mret (negb present) else mret false
            end);
  injectScopes ← (match scopeChain with
                  | [] => mret false
                  | _ => present ← run (inWindow scopeChainName); mret (negb present)
                  end);
  tryFinally
    (whenJS inject (api ← commandLineAPI None; run (installCommandLineAPI api));;
     whenJS injectScopes (run (setNonEnumProperty scopeChainName (Elements (map Value scopeChain))));;
     let expression := around inject (if injectScopes : bool then Z.of_nat (length scopeChain) else 0) expression in
     wrappedResult ← run (runWithDetails (match callFrame with
                                          | Some (frames, k) => OnFrame frames k extension
                                          | None => InContext
                                          end) expression);
     whenJS (isConsole objectGroup && negb (bool_decide (is_Some wrappedResult.2)))
       (setOwn (fun i => i <| lastResult := wrappedResult.1 |>));;
     mret wrappedResult)
    (whenJS inject (deleteQuietly commandLineAPIName);; whenJS injectScopes (deleteQuietly scopeChainName)).

Definition returned (r : RemoteObject) : built := Literal [(u "wasThrown", flag false); (u "result", builtRemoteObject r)].

(** The group is missing when an object has none. *)
Definition _createThrownValue (n : nat) (value : jsvalue) (objectGroup : option ustring) (generate : bool) (exceptionDetails : built)
    : Injected E built :=
  isError ← observe (fun e => subtypeIs "error" (Host.subtype value e));
  remoteObject ← _wrapObject n value objectGroup (withPreview (generate && negb isError));
  described ← observe (truthy (default JSUndefined (ro_description remoteObject)));
  description ← (if described : bool then mret (ro_description remoteObject)
                 else tryCatch (t ← toStringDescription value; mret (Some (JSString t))) (fun _ => mret (ro_description remoteObject)));
  mret (Literal [(u "wasThrown", flag true); (u "result", builtRemoteObject (remoteObject <| ro_description := description |>));
                 (u "exceptionDetails", exceptionDetails)]).

Definition _evaluateAndWrap (n : nat) (callFrame : option CallFrame) (expression objectGroup : ustring)
    (injectCommandLineAPI returnByValue generate : bool) (scopeChain : list jsvalue) : Injected E built :=
  wrappedResult ← _evaluateOn callFrame objectGroup expression injectCommandLineAPI scopeChain;
  match wrappedResult.2 with
  | None =>
      r ← _wrapObject n wrappedResult.1 (Some objectGroup)
            (mkWrapOptions false returnByValue generate NoSecondLevel false false JSUndefined);
      mret (returned r)
  | Some message => _createThrownValue n wrappedResult.1 (Some objectGroup) generate (Host.createExceptionDetails message)
  end.

Definition evaluate (n : nat) (expression objectGroup : ustring) (injectCommandLineAPI returnByValue generate : bool) : Injected E built :=
  _evaluateAndWrap n None expression objectGroup injectCommandLineAPI returnByValue generate [].

Definition evaluateOnCallFrame (n : nat) (topCallFrame : option CallFrames) (asyncCallStacks : list (option CallFrames))
    (callFrameId expression objectGroup : ustring) (injectCommandLineAPI returnByValue generate : bool) : Injected E built :=
  parsedCallFrameId ← evalParenthesized callFrameId;
  nullifyObjectProto parsedCallFrameId;;
  callFrame ← _callFrameForParsedId topCallFrame parsedCallFrameId asyncCallStacks;
  match callFrame with
  | None => mret (text couldNotFindFrame)
  | Some (frames, k) =>
      asyncOrdinal ← getNamed parsedCallFrameId "asyncOrdinal";
      async ← observe (truthy asyncOrdinal);
      if async : bool then
        scopes ← run (frameScopes frames k);
        _evaluateAndWrap n None expression objectGroup injectCommandLineAPI returnByValue generate (snd <$> scopes)
      else _evaluateAndWrap n (Some (frames, k)) expression objectGroup injectCommandLineAPI returnByValue generate []
  end.

(** The arguments of a call, or the text of what resolving one of them threw. *)
Fixpoint resolveArguments (n : nat) (i : Z) (callArgs : jsvalue) : Injected E (list jsvalue + ustring) :=
  length ← getNamed callArgs "length";
  more ← run (lessThan (JSNumber (Double.of_Z i)) length);
  if negb more then mret (inl [])
  else
    match n with
    | O => hang
    | S n' =>
        argument ← getIndex callArgs i;
        resolved ← tryCatch (v ← _resolveCallArgument argument; mret (inl v)) (fun e => t ← toString e; mret (inr t));
        match resolved with
        | inr t => mret (inr t)
        | inl v => rest ← resolveArguments n' (i + 1) callArgs; mret (match rest with inl l => inl (v :: l) | inr t => inr t end)
        end
    end.

Definition remoteObjectAPIName : ustring := u "__remoteObjectAPI".

Definition withRemoteObjectAPI (expression : ustring) : ustring :=
  u "with (typeof __remoteObjectAPI !== 'undefined' ? __remoteObjectAPI : { __proto__: null }) {(" ++ expression ++ u ")}".

(** The calls of [bindRemoteObject] by the function are calls of the host. *)
Definition callFunctionOn (n : nat) (objectId expression arguments : ustring) (returnByValue : bool) : Injected E built :=
  parsedObjectId ← _parseObjectId objectId;
  object ← _objectForId parsedObjectId;
  defined ← observe (_isDefined object);
  if negb defined then mret (text couldNotFindObject)
  else
    resolvedArgs ← (match arguments with
                    | [] => mret (inl [])
                    | _ => callArgs ← run (runInternal arguments); resolveArguments n 0 callArgs
                    end);
    match resolvedArgs with
    | inr error => mret (text error)
    | inl resolvedArgs =>
        id ← getNamed parsedObjectId "id";
        objectGroup ← Host.idToObjectGroupName id;
        tryFinally
          (tryCatch
             (run (setNonEnumProperty remoteObjectAPIName (Literal [(u "bindRemoteObject", Value JSUndefined)]));;
              func ← run (runInternal (withRemoteObjectAPI expression));
              function ← observe (typeIs "function" func);
              if negb function then mret (text (u "Given expression does not evaluate to a function"))
              else
                value ← run (callFunction func object resolvedArgs);
                r ← _wrapObject n value objectGroup (mkWrapOptions false returnByValue false NoSecondLevel false false JSUndefined);
                mret (returned r))
             (fun e => _createThrownValue n e objectGroup false (Value JSUndefined)))
          (deleteQuietly remoteObjectAPIName)
    end.

(** ** The rest *)

Definition clearLastEvaluationResult : Injected E unit := setOwn (fun i => i <| lastResult := JSUndefined |>).

Definition setCustomObjectFormatterEnabled (enabled : bool) : Injected E unit :=
  setOwn (fun i => i <| customObjectFormatterEnabled := enabled |>).

End Calls.
End Calls.
