(* ===== verification/JSRules.v ===== *)
(** * Reasoning about the injected script

    Rules for the code of [JSValues]: [wpj] follows one run, [spec] states what code
    returns and throws while it keeps an invariant.  Whatever the registry of objects
    answers is allowed.  [H] is what may be assumed when code does not end: [True] for
    partial correctness, [False] for total correctness. *)

From S2P Require Import Prelude Platform WTFString JSONValues Engine JSValues.

Lemma JSall_mono {A} (Q1 Q2 : A -> Prop) t : JSall Q1 t -> (forall a, Q1 a -> Q2 a) -> JSall Q2 t.
Proof. intros Ht HQ. induction t; cbn in *; auto. Qed.

Lemma JSall_then {A B} (t : JS A) (k : A -> JS B) Q : JSall (fun a => JSall Q (k a)) t -> JSall Q (JSthen t k).
Proof. induction t; cbn; auto. Qed.

Section Rules.
Context {S : Type} (H : Prop).

Definition ends {A} (Q : A -> S -> Prop) (X : jsvalue -> S -> Prop) (r : completion A * S) : Prop :=
  match r.1 with Normal a => Q a r.2 | Throws v => X v r.2 | Hangs => H end.

Definition wpj {A} (m : JSM S A) (Q : A -> S -> Prop) (X : jsvalue -> S -> Prop) (s : S) : Prop := JSall (ends Q X) (m s).

Lemma wpj_ret {A} (a : A) (Q : A -> S -> Prop) X s : Q a s -> wpj (mret a) Q X s.
Proof. done. Qed.

Lemma wpj_read {A} (f : S -> A) (Q : A -> S -> Prop) X s : Q (f s) s -> wpj (read f) Q X s.
Proof. done. Qed.

Lemma wpj_update (f : S -> S) (Q : unit -> S -> Prop) X s : Q tt (f s) -> wpj (update f) Q X s.
Proof. done. Qed.

Lemma wpj_bind {A B} (m : JSM S A) (k : A -> JSM S B) Q X s :
  wpj m (fun a => wpj (k a) Q X) X s -> wpj (m ≫= k) Q X s.
Proof.
  intros Hm. apply JSall_then. eapply JSall_mono; [exact Hm|]. intros [[a|v|] s'] Hr; exact Hr.
Qed.

Lemma wpj_mono {A} (m : JSM S A) (Q1 Q2 : A -> S -> Prop) (X1 X2 : jsvalue -> S -> Prop) s :
  wpj m Q1 X1 s -> (forall a s', Q1 a s' -> Q2 a s') -> (forall v s', X1 v s' -> X2 v s') -> wpj m Q2 X2 s.
Proof. intros Hm HQ HX. eapply JSall_mono; [exact Hm|]. intros [[a|v|] s'] Hr; [by apply HQ|by apply HX|exact Hr]. Qed.

Lemma wpj_tryCatch {A} (m : JSM S A) h Q X s : wpj m Q (fun v => wpj (h v) Q X) s -> wpj (tryCatch m h) Q X s.
Proof. intros Hm. apply JSall_then. eapply JSall_mono; [exact Hm|]. intros [[a|v|] s'] Hr; exact Hr. Qed.

Lemma wpj_tryFinally {A} (m : JSM S A) f Q X s :
  wpj m (fun a => wpj f (fun _ => Q a) X) (fun v => wpj f (fun _ => X v) X) s -> wpj (tryFinally m f) Q X s.
Proof.
  intros Hm. apply JSall_then. eapply JSall_mono; [exact Hm|].
  intros [[a|v|] s'] Hr; cbn; [| |exact Hr]; apply JSall_then; (eapply JSall_mono; [exact Hr|]); intros [[[]|v'|] s''] Hf; exact Hf.
Qed.

(** ** Code that keeps an invariant *)

Definition spec {A} (I : S -> Prop) (m : JSM S A) (Q : A -> Prop) (X : jsvalue -> Prop) : Prop :=
  forall s, I s -> wpj m (fun a s' => I s' /\ Q a) (fun v s' => I s' /\ X v) s.

(** An invariant that holds of one of several states. *)
Lemma spec_exists {A T} (P : T -> S -> Prop) (m : JSM S A) Q X :
  (forall t, spec (P t) m Q X) -> spec (fun s => exists t, P t s) m Q X.
Proof. intros Hm s [t Hs]. eapply wpj_mono; [by apply (Hm t)|naive_solver..]. Qed.

Context (I : S -> Prop).

Lemma spec_mono {A} (m : JSM S A) (Q1 Q2 : A -> Prop) (X1 X2 : jsvalue -> Prop) :
  spec I m Q1 X1 -> (forall a, Q1 a -> Q2 a) -> (forall v, X1 v -> X2 v) -> spec I m Q2 X2.
Proof. intros Hm HQ HX s Hs. eapply wpj_mono; [by apply Hm|naive_solver..]. Qed.

Lemma spec_ret {A} (a : A) (Q : A -> Prop) X : Q a -> spec I (mret a) Q X.
Proof. intros Ha s Hs. by apply wpj_ret. Qed.

Lemma spec_bind {A B} (m : JSM S A) (k : A -> JSM S B) (P : A -> Prop) Q X :
  spec I m P X -> (forall a, P a -> spec I (k a) Q X) -> spec I (m ≫= k) Q X.
Proof. intros Hm Hk s Hs. apply wpj_bind. eapply wpj_mono; [by apply Hm| |done]. intros a s' [Hi Ha]. by apply Hk. Qed.

Lemma spec_throw {A} v Q (X : jsvalue -> Prop) : X v -> spec I (throw v : JSM S A) Q X.
Proof. intros Hv s Hs. done. Qed.

Lemma spec_hang {A} Q X : H -> spec I (hang : JSM S A) Q X.
Proof. intros Hh s Hs. done. Qed.

Lemma spec_read {A} (f : S -> A) (Q : A -> Prop) X : (forall s, I s -> Q (f s)) -> spec I (read f) Q X.
Proof. intros Hf s Hs. split; [done|by apply Hf]. Qed.

Lemma spec_tryCatch {A} (m : JSM S A) h Q X X' : spec I m Q X' -> (forall v, X' v -> spec I (h v) Q X) -> spec I (tryCatch m h) Q X.
Proof. intros Hm Hh s Hs. apply wpj_tryCatch. eapply wpj_mono; [by apply Hm|done|]. intros v s' [Hi Hv]. by apply Hh. Qed.

Lemma spec_tryFinally {A} (m : JSM S A) f (P : unit -> Prop) Q X : spec I m Q X -> spec I f P X -> spec I (tryFinally m f) Q X.
Proof.
  intros Hm Hf s Hs. apply wpj_tryFinally. eapply wpj_mono; [by apply Hm|..].
  - intros a s' [Hi Ha]. eapply wpj_mono; [by apply Hf| |done]. intros [] s'' [Hi' _]. done.
  - intros v s' [Hi Hv]. eapply wpj_mono; [by apply Hf| |done]. intros [] s'' [Hi' _]. done.
Qed.

Lemma spec_when c (m : JSM S unit) (Q : unit -> Prop) X : (c = true -> spec I m Q X) -> Q tt -> spec I (whenJS c m) Q X.
Proof. intros Hm Hq. destruct c; [by apply Hm|by apply spec_ret]. Qed.

Lemma spec_mapJS {A B} (f : A -> JSM S B) l (Q : B -> Prop) X :
  (forall a, a ∈ l -> spec I (f a) Q X) -> spec I (mapJS f l) (Forall Q) X.
Proof.
  induction l as [|a l IH]; intros Hf; [by apply spec_ret|].
  eapply spec_bind; [apply Hf, list_elem_of_here|]. intros b Hb.
  eapply spec_bind; [apply IH; intros; by apply Hf, list_elem_of_further|]. intros l' Hl. apply spec_ret. by constructor.
Qed.

End Rules.

(** ** Objects of the code itself *)

Section Local.
Context {S C : Type} (H : Prop) (I : S -> Prop) (L : C -> Prop).

Definition both (s : S * C) : Prop := I s.1 /\ L s.2.

Lemma spec_lift {A} (m : JSM S A) Q X : spec H I m Q X -> spec H both (lift m) Q X.
Proof.
  intros Hm [s c] [Hs Hc]. apply JSall_then. eapply JSall_mono; [by apply Hm|]. intros [[a|v|] s'] Hr; cbn in Hr |- *; [| |exact Hr].
  all: destruct Hr as [? ?]; by split.
Qed.

Lemma spec_local X : spec H both local L X.
Proof. apply spec_read. by intros s [_ Hl]. Qed.

Lemma spec_setLocal (f : C -> C) X : (forall c, L c -> L (f c)) -> spec H both (setLocal f) (fun _ => True) X.
Proof. intros Hf [s c] [Hs Hc]. split; [|done]. split; [done|by apply Hf]. Qed.

Lemma spec_withLocal {A} c (m : JSM (S * C) A) h Q X X' :
  L c -> spec H both m Q X' -> (forall v c, L c -> L (h v c)) -> spec H I (withLocal c m h) L X.
Proof.
  intros Hc Hm Hh s Hs. apply JSall_then. eapply JSall_mono; [by apply Hm|].
  intros [[a|v|] [s' c']] Hr; [| |exact Hr]; destruct Hr as [[Hs' Hc'] _]; (split; [exact Hs'|]); [exact Hc'|by apply Hh].
Qed.

Lemma spec_inLocal {A} c (m : JSM (S * C) A) Q X : L c -> spec H both m Q X -> spec H I (inLocal c m) L X.
Proof.
  intros Hc Hm s Hs. apply JSall_then. eapply JSall_mono; [by apply Hm|].
  intros [[a|v|] [s' c']] Hr; [| |exact Hr]; destruct Hr as [[Hs' Hc'] Hv]; (split; [exact Hs'|]); [exact Hc'|exact Hv].
Qed.

End Local.

(** ** The engine *)

(** Reading a property of [undefined] or [null] throws.  The program can replace every
    function that the script calls; here [Symbol.prototype.toString] still gives a string
    and [JSON.stringify] a string or nothing.  Restarting a frame gives an object. *)
Class JSLaws (E : Type) `{JSEngine E} : Prop := {
  property_of_nothing : forall v k e a e', v = JSUndefined \/ v = JSNull -> perform (getProperty v k) e <> (Normal a, e');
  symbol_text : forall id e v e', perform (symbolToString id) e = (Normal v, e') -> exists s, v = JSString s;
  stringify_text : forall o e v e', perform (jsonStringify o) e = (Normal v, e') -> v = JSUndefined \/ exists s, v = JSString s;
  restart_object : forall f k e v e', perform (frameRestart f k) e = (Normal v, e') -> forall s, v <> JSString s;
}.

(** What has been read as a [length]. *)
Definition aLength {E} `{JSEngine E} (v : jsvalue) : Prop :=
  exists o e e', perform (getProperty o (KeyString (u "length"))) e = (Normal v, e').

(** The operations keep [R].  Unless [H], they end, and the loops over the objects of the
    program end within [n] rounds: arrays are not longer, and chains of prototypes are
    finite, with [protoHeight] objects above an object. *)
Class JSLimits {E : Type} `{JSEngine E} (H : Prop) (n : nat) (R : E -> Prop) := {
  op_keeps : forall A (op : JSOp A) e, R e -> R (perform op e).2;
  op_ends : forall A (op : JSOp A) e e', perform op e = (Hangs, e') -> H;
  index_limit : forall v e e', aLength v -> perform (lessThan (JSNumber (Double.of_Z (Z.of_nat n))) v) e = (Normal true, e') -> H;
  protoHeight : jsvalue -> nat;
  protoHeight_limit : forall v, H \/ (protoHeight v < n)%nat;
  proto_lower : forall o p e e', perform (getProperty o (KeyString (u "__proto__"))) e = (Normal p, e') ->
    p <> JSUndefined -> p <> JSNull -> H \/ (protoHeight p < protoHeight o)%nat;
  length_finite : aLength (JSNumber (S754_infinity false)) -> H;
  number_finite : forall v e e', aLength v -> perform (valueToNumber v) e = (Normal (S754_infinity false), e') -> H;
}.

(** Nothing is asked of an engine for partial correctness. *)
Definition noLimits {E} `{JSEngine E} n (R : E -> Prop) (HR : forall A (op : JSOp A) e, R e -> R (perform op e).2) : JSLimits True n R.
Proof. refine {| op_keeps := HR; protoHeight := fun _ => O |}; intros; (done || lia || by left). Defined.

Section Script.
Context {E : Type} {J : JSEngine E} (H : Prop) (n : nat) (R : E -> Prop) {L : JSLimits H n R}.

(** The script's own state is [i]. *)
Definition inv (i : InjectedState) (s : E * InjectedState) : Prop := R s.1 /\ s.2 = i.

Context (i : InjectedState).

Lemma spec_run {A} (op : JSOp A) (Q : A -> Prop) (X : jsvalue -> Prop) :
  (forall e a e', perform op e = (Normal a, e') -> Q a) -> (forall e v e', perform op e = (Throws v, e') -> X v) ->
  spec H (inv i) (run op) Q X.
Proof.
  intros HQ HX [e i'] [Hr Hi]. unfold wpj, run. cbn. destruct (perform op e) as [c e'] eqn:Ep. cbn.
  pose proof (op_keeps A op e Hr) as Hk. rewrite Ep in Hk. destruct c; cbn.
  - split; [by split|by eapply HQ].
  - split; [by split|by eapply HX].
  - by eapply op_ends.
Qed.

Lemma spec_run_any {A} (op : JSOp A) : spec H (inv i) (run op) (fun _ => True) (fun _ => True).
Proof. by apply spec_run. Qed.

Lemma spec_observe {A} (f : E -> A) (Q : A -> Prop) X : (forall e, Q (f e)) -> spec H (inv i) (observe f) Q X.
Proof. intros Hf. apply spec_read. intros s _. apply Hf. Qed.

Lemma spec_own {A} (f : InjectedState -> A) (Q : A -> Prop) X : Q (f i) -> spec H (inv i) (own f) Q X.
Proof. intros Hf. apply spec_read. by intros s [_ ->]. Qed.

Lemma spec_effect {A} (m : E * InjectedState -> JS (completion A * (E * InjectedState))) Q X :
  (forall s, JSall (fun r => r.2 = s /\ match r.1 with Normal a => Q a | Throws v => X v | Hangs => H end) (m s)) ->
  spec H (inv i) m Q X.
Proof. intros Hm s Hs. eapply JSall_mono; [apply Hm|]. intros [[a|v|] s'] [Hs' Hr]; cbn in *; subst s'; [by split..|exact Hr]. Qed.

End Script.
