(* ===== verification/ModelJS.v ===== *)
(** * A small JavaScript

    An instance of [JSEngine] for the examples: programs are texts of JSON, and an object
    is known by its text; any other program throws the empty string.  Nothing changes. *)

From S2P Require Import Prelude Platform WTFString JSONValues JSONParser Engine ModelEngine JSValues JSRules.

#[local] Existing Instance IntegerPlatform.platform.

(** Arrays are read up to here. *)
Definition modelRounds : nat := 10.

Definition objectNumber (t : ustring) : Z := Zpos (encode t).

Definition literalOf (o : Z) : option JSONValue :=
  match o with Zpos p => (decode p : option ustring) ≫= parseJSON | _ => None end.

Definition valueOfJSON (j : JSONValue) : jsvalue :=
  match j with
  | JSONNull => JSNull
  | JSONBoolean b => JSBoolean b
  | JSONNumber d => JSNumber d
  | JSONString s => JSString s
  | JSONObject _ | JSONArray _ => JSObject (objectNumber (toJSONString j))
  end.

Definition elementNamed (name : ustring) (l : list JSONValue) : option JSONValue :=
  list_find (fun i => String_number i = name) (seqZ 0 (Z.of_nat (length l))) ≫= fun p => l !! p.1.

Definition propertyOfLiteral (j : JSONValue) (name : ustring) : option jsvalue :=
  match j with
  | JSONObject o => if decide (name = u "length") then None else valueOfJSON <$> get name o
  | JSONArray l =>
      if decide (name = u "length") then Some (JSNumber (Double.of_Z (Z.of_nat (length l `min` modelRounds))))
      else valueOfJSON <$> elementNamed name l
  | _ => None
  end.

Definition propertyOf (o : Z) (name : ustring) : option jsvalue := literalOf o ≫= fun j => propertyOfLiteral j name.

Definition namesOf (o : Z) : list ustring :=
  match literalOf o with
  | Some (JSONObject m) => m.*1
  | Some (JSONArray l) => String_number <$> seqZ 0 (Z.of_nat (length l))
  | _ => []
  end.

Definition isArray (o : Z) : bool := match literalOf o with Some (JSONArray _) => true | _ => false end.

(** A program, and a program in parentheses. *)
Definition runProgram (t : ustring) : completion jsvalue :=
  match parseJSON t with
  | Some (JSONObject _ | JSONArray _) => Normal (JSObject (objectNumber t))
  | Some j => Normal (valueOfJSON j)
  | None => Throws (JSString [])
  end.

Definition unparenthesized (t : ustring) : ustring :=
  match t with c :: t' => if c =? ch "(" then removelast t' else t | [] => t end.

Definition keysOf (v : jsvalue) : list jskey := match v with JSObject o => KeyString <$> namesOf o | _ => [] end.

Definition modelPerform {A} (op : JSOp A) : completion A :=
  match op with
  | newError _ | newObject _ => Normal JSUndefined
  | objectToString _ => Normal (u "[object Object]")
  | valueToUint32 _ => Normal 0
  | valueToNumber _ => Normal S754_nan
  | lessThan a b => Normal (match a, b with JSNumber a, JSNumber b => SFltb a b | _, _ => false end)
  | lessOrEqual a b => Normal (match a, b with JSNumber a, JSNumber b => SFleb a b | _, _ => false end)
  | plus a b => Normal (match a, b with JSString a, JSString b => JSString (a ++ b) | _, _ => JSUndefined end)
  | looselyEqual a b => Normal (strictlyEqual a b)
  | getProperty v k =>
      match v, k with
      | (JSUndefined | JSNull), _ => Throws (JSString (u "TypeError"))
      | JSObject o, KeyString name =>
          Normal (if decide (name = u "__proto__") then JSNull else default JSUndefined (propertyOf o name))
      | _, _ => Normal JSUndefined
      end
  | setProperty _ _ _ => Normal tt
  | hasProperty v name | hasOwnProperty v name =>
      Normal (match v with JSObject o => bool_decide (is_Some (propertyOf o name)) | _ => false end)
  | getOwnPropertyDescriptor v k =>
      Normal (match v, k with
              | JSObject o, KeyString name => (fun v => mkDescriptor None None (Some v) (Some true) (Some true) (Some true)) <$> propertyOf o name
              | _, _ => None
              end)
  | objectKeys v | getOwnPropertyNames v => Normal (keysOf v)
  | getOwnPropertySymbols _ => Normal []
  | invoke _ _ _ | callFunction _ _ _ => Throws (JSString (u "TypeError"))
  | symbolToString _ => Normal (JSString (u "Symbol()"))
  | instanceOfWindow _ _ | inWindow _ => Normal false
  | getGlobal _ => Normal JSUndefined
  | setNonEnumProperty _ _ | installCommandLineAPI _ | deleteGlobal _ | consoleErrorLater _ => Normal tt
  | jsonStringify _ => Normal (JSString (u "{}"))
  | jsonParse t => runProgram t
  | runInternal t => runProgram (unparenthesized t)
  | runWithDetails _ t =>
      Normal (match runProgram t with
              | Normal v => (v, None)
              | _ => (JSString [], Some (mkMessageInfo (u "Uncaught") JSUndefined 1 1 1 None))
              end)
  | internalProperties _ | collectionEntriesOf _ | functionScopes _ | generatorDetails _ => Normal None
  | setFunctionVariable _ _ _ _ => Normal JSUndefined
  | frameScopes _ _ => Normal []
  | frameThis _ _ | frameReturnValue _ _ => Normal JSUndefined
  | frameStepInPositions _ _ => Normal (u "[]")
  | frameRestart _ _ => Normal (JSBoolean false)
  | frameSetVariable _ _ _ _ _ => Normal JSUndefined
  end.

Definition modelJS : JSEngine Isolate := {|
  numberText d := String_number (Double.trunc d);
  textUint32 s := numberUint32 (charactersToDouble s).1;
  callable _ _ := false;
  undetectable _ _ := false;
  isKind k o _ := match k with IsArray => isArray o | _ => false end;
  getConstructorName o _ := Some (if isArray o then u "Array" else u "Object");
  hasRealNamedProperty o name _ := bool_decide (is_Some (propertyOf o name));
  hasRealNamedCallbackProperty _ _ _ := false;
  getRealNamedProperty o name _ := propertyOf o name;
  getDisplayName _ _ := JSUndefined;
  getName _ _ := JSUndefined;
  getInferredName _ _ := JSUndefined;
  functionInfo _ _ := mkFunctionInfo 0 0 0 false;
  arrayLength o _ := Z.of_nat (length (namesOf o));
  propertyNames o _ := inr <$> namesOf o;
  frameFunctionPosition _ _ _ := (0, 0);
  messageText _ _ := None;
  perform A op e := (modelPerform op, e);
|}.

Lemma modelJSLaws : @JSLaws Isolate modelJS.
Proof.
  split; cbn.
  - by intros v k e a e' [-> | ->].
  - intros id e v e' [= <- _]. by eexists.
  - intros o e v e' [= <- _]. right. by eexists.
  - by intros f k e v e' [= <- _].
Qed.

Lemma model_length v : aLength (H := modelJS) v -> v = JSUndefined \/ exists k, (k <= modelRounds)%nat /\ v = JSNumber (Double.of_Z (Z.of_nat k)).
Proof.
  intros (o & e & e' & [= Ho _]). destruct o as [| | | | | |o]; cbn -[decide propertyOf] in Ho; try (injection Ho as <-; by left); try done.
  injection Ho as <-. unfold propertyOf. destruct (literalOf o) as [[| | | |m|l]|]; cbn; try by left.
  right. eexists. split; [apply Nat.le_min_r|done].
Qed.

Definition modelLimits : @JSLimits Isolate modelJS False modelRounds (fun _ => True).
Proof.
  refine (@Build_JSLimits Isolate modelJS False modelRounds (fun _ => True) _ _ _ (fun _ => O) _ _ _ _); try done.
  - intros A op e e' [= Hp _]. destruct op; cbn in Hp; try done; unfold runProgram in Hp; repeat case_match; done.
  - intros v e e' [->|(k & Hk & ->)]%model_length [= Hp _].
    assert (forallb (fun k => negb (SFltb (Double.of_Z (Z.of_nat modelRounds)) (Double.of_Z (Z.of_nat k)))) (seq 0 (S modelRounds)) = true) as Hall by reflexivity.
    eapply (proj1 (forallb_forall _ _)) in Hall; [|apply in_seq; split; [apply Nat.le_0_l|apply Nat.lt_succ_r; exact Hk]].
    change (SFltb (Double.of_Z (Z.of_nat modelRounds)) (Double.of_Z (Z.of_nat k)) = true) in Hp. cbv beta in Hall. by rewrite Hp in Hall.
  - intros v. right. unfold modelRounds. lia.
  - intros o p e e' [= Hp _] H1 H2. destruct o; simplify_eq/=.
  - intros [|(k & Hk & Hv)]%model_length; [done|]. clear -Hk Hv. injection Hv as Hv.
    assert (Double.isfinite (Double.of_Z (Z.of_nat k)) = true) as Hf by (apply Double.isfinite_of_Z; unfold modelRounds in Hk; lia).
    by rewrite <- Hv in Hf.
Defined.
