(* ===== verification/InjectedFacts.v ===== *)
(** * Describing values: what is always true

    Lemmas about [InjectedObjects]: which functions throw, that loops end within their
    bounds, and what previews and remote objects are like. *)

From S2P Require Import Prelude Platform WTFString JSONValues Engine JSValues InjectedHost InjectedObjects JSRules.

Import Source.

Create HintDb jspec discriminated.

(** Follows code; the results of the functions in the database [jspec] are known. *)
Ltac jstep :=
  lazymatch goal with
  | |- spec _ _ (mret _) _ _ => apply spec_ret
  | |- spec _ _ (throw _) _ _ => apply spec_throw
  | |- spec _ _ (tryCatch _ _) _ _ => eapply (spec_tryCatch _ _ _ _ _ _ (fun _ => True)); [|intros ? _]
  | |- spec _ _ (whenJS _ _) _ _ => apply spec_when; [intros ?|]
  | |- spec _ (inv _ _) (observe _) _ _ => apply spec_observe; intros ?
  | |- spec _ _ (_ ≫= _) _ _ =>
      first [eapply spec_bind; [solve [eauto with jspec nocore]|intros ? ?]
            |eapply (spec_bind _ _ _ _ (fun _ => True)); [|intros ? _]]
  | |- spec _ _ (match ?x with _ => _ end) _ _ => destruct x eqn:?
  | |- spec _ _ (let _ := _ in _) _ _ => cbv zeta
  | |- spec _ _ _ _ _ => solve [eauto with jspec nocore]
  end.
Ltac jsteps := repeat jstep.

(** A text, or nothing. *)
Definition textual (v : jsvalue) : Prop := match v with JSString _ | JSUndefined | JSNull => True | _ => False end.

(** What JSON can hold without looking into objects. *)
Definition plainValue (v : jsvalue) : Prop := match v with JSSymbol _ | JSObject _ => False | _ => True end.

Lemma textual_plain v : textual v -> plainValue v.
Proof. by destruct v. Qed.

(** ** Previews that are as they should be *)

(** The value of a property is a text, which is short unless it is that of a number, a
    boolean or [undefined]. *)
Definition shortText (v : jsvalue) : Prop := match v with JSString s => Z.of_nat (length s) <= maxLength + 1 | _ => False end.

Definition valueText (type : string) (v : option jsvalue) : Prop :=
  match v with
  | Some v => shortText v \/ type ∈ ["number"; "boolean"; "undefined"]%string /\ exists s, v = JSString s
  | None => True
  end.

(** A preview, and the previews in it, [k] levels deep: it shows at most [T] properties and
    five entries, and is not lossless when something is left out. *)
Fixpoint previewOk (T : Z) (k : nat) (p : Preview) : Prop :=
  match k with
  | O => False
  | S k' =>
      textual (pv_description p) /\ (pv_overflow p = true -> pv_lossless p = false) /\
      Z.of_nat (length (pv_properties p)) <= T /\
      Forall (fun pp => textual (pp_name pp) /\ valueText (pp_type pp) (pp_value pp) /\
                        match pp_valuePreview pp with Some p' => previewOk T k' p' | None => True end) (pv_properties p) /\
      match pv_entries p with
      | Some l => (length l <= entriesThreshold)%nat /\
          Forall (fun ep => previewOk T k' (ep_value ep) /\ match ep_key ep with Some p' => previewOk T k' p' | None => True end) l
      | None => True
      end
  end.

Lemma previewOk_mono T T' k k' p : T <= T' -> (k <= k')%nat -> previewOk T k p -> previewOk T' k' p.
Proof.
  intros HT. revert k' p. induction k as [|k IH]; intros [|k'] p Hk; cbn [previewOk]; try done || lia.
  intros (Hd & Ho & Hl & Hp & He). split_and!; [done|done|lia|..].
  - eapply Forall_impl; [exact Hp|]. intros pp (Hn & Hv & Hs). split_and!; [done..|]. destruct (pp_valuePreview pp); [|done]. apply IH; [lia|done].
  - destruct (pv_entries p) as [l|]; [|done]. destruct He as [Hn He]. split; [done|]. eapply Forall_impl; [exact He|].
    intros ep [Hv Hy]. split; [apply IH; [lia|done]|]. destruct (ep_key ep); [|done]. apply IH; [lia|done].
Qed.

(** A preview that is being made. *)
Definition previewing (T : Z) (k : nat) (p : Preview * Threshold) : Prop :=
  previewOk T (S k) p.1 /\
  (if exceeded p.2 then pv_overflow p.1 = true
   else Z.of_nat (length (pv_properties p.1)) + th_properties p.2 + th_indexes p.2 = T).

Section Facts.
Context {E : Type} {J : JSEngine E} {W : JSLaws E} (H : Prop) (n : nat) (R : E -> Prop) {L : JSLimits H n R}.

#[local] Abbreviation any := (fun _ => True).
#[local] Abbreviation runs i m Q X := (spec H (inv R i) m Q X).

(** ** Helpers *)

Lemma run_any {A} i (op : JSOp A) : runs i (run op) any any.
Proof. by apply (spec_run_any H n R). Qed.
#[local] Hint Resolve run_any : jspec.

Lemma getNamed_any i v name : runs i (getNamed v name) any any.
Proof. apply run_any. Qed.

Lemma getIndex_any i v k : runs i (getIndex v k) any any.
Proof. apply run_any. Qed.
#[local] Hint Resolve getNamed_any getIndex_any : jspec.

Lemma throwError_any {A} i m (Q : A -> Prop) : runs i (throwError m) (Q) any.
Proof. unfold throwError. by jsteps. Qed.
#[local] Hint Resolve throwError_any : jspec.

Lemma stringOf_any i v : runs i (stringOf v) any any.
Proof. destruct v; cbn [stringOf]; by jsteps. Qed.
#[local] Hint Resolve stringOf_any : jspec.

Lemma toString_never i v X : runs i (toString v) any X.
Proof. unfold toString. by jsteps. Qed.
#[local] Hint Resolve toString_never : jspec.

Lemma toStringDescription_never i v X : runs i (toStringDescription v) any X.
Proof. unfold toStringDescription. destruct v as [| | |[[]| | |]| | |]; by jsteps. Qed.
#[local] Hint Resolve toStringDescription_never : jspec.

Lemma toUint32_any i v : runs i (toUint32 v) any any.
Proof. destruct v; cbn [toUint32]; by jsteps. Qed.
#[local] Hint Resolve toUint32_any : jspec.

Lemma isIndexText_any i v : runs i (isIndexText v) any any.
Proof. unfold isIndexText. by jsteps. Qed.
#[local] Hint Resolve isIndexText_any : jspec.

Lemma isUInt32_any i v : runs i (isUInt32 v) any any.
Proof. destruct v; cbn [isUInt32]; by jsteps. Qed.
#[local] Hint Resolve isUInt32_any : jspec.

Lemma isArrayLike_never i v X : runs i (isArrayLike v) any X.
Proof. unfold isArrayLike. by jsteps. Qed.
#[local] Hint Resolve isArrayLike_never : jspec.

(** A loop over indexes: beyond [n] rounds [H]. *)
Lemma length_any i o : runs i (getNamed o "length") aLength any.
Proof. apply (spec_run H n R); [|done]. intros e v e' Hp. by exists o, e, e'. Qed.

Lemma lessThan_limit i k v : aLength v -> runs i (run (lessThan (JSNumber (Double.of_Z k)) v)) (fun more => more = true -> k = Z.of_nat n -> H) any.
Proof. intros Hv. apply (spec_run H n R); [|done]. intros e [|] e' Hp; [|done]. intros _ ->. by eapply index_limit. Qed.

Lemma forIndexes_any {A} i m k a (d : A) body (Q : A -> Prop) :
  Z.of_nat m + k = Z.of_nat n -> Q d ->
  (forall k, runs i (body k) (fun r => match r with Some r => Q r | None => True end) any) ->
  runs i (forIndexes m k a d body) (Q) any.
Proof.
  intros Hm Hd Hb. revert k Hm. induction m as [|m IH]; intros k Hm; cbn [forIndexes].
  all: eapply spec_bind; [apply length_any|]; intros l Hl; eapply spec_bind; [by apply lessThan_limit|]; intros [|] Hmore; [|by apply spec_ret].
  - apply spec_hang, Hmore; [done|lia].
  - eapply spec_bind; [apply Hb|]. intros [r|] Hr; [by apply spec_ret|]. apply IH. lia.
Qed.

Lemma indexOfLoop_any i m str len k : aLength len -> Z.of_nat m + k = Z.of_nat n -> runs i (indexOfLoop m str len k) any any.
Proof.
  intros Hl. revert k. induction m as [|m IH]; intros k Hm; cbn [indexOfLoop].
  all: eapply spec_bind; [by apply lessThan_limit|]; intros [|] Hmore; [|by apply spec_ret].
  - apply spec_hang, Hmore; [done|lia].
  - jsteps; [done|]. apply IH. lia.
Qed.

Lemma indexOf_any i str : runs i (indexOf n str) any any.
Proof. destruct str; cbn [indexOf]; try (eapply spec_bind; [apply length_any|]; intros l Hl; apply indexOfLoop_any; [done|lia]). by jstep. Qed.
#[local] Hint Resolve indexOf_any : jspec.

Lemma getNamed_nothing i v name (Q : jsvalue -> Prop) : v = JSUndefined \/ v = JSNull -> runs i (getNamed v name) (Q) any.
Proof. intros Hv. apply (spec_run H n R); [|done]. intros e a e' Hp. by eapply property_of_nothing in Hp. Qed.

Lemma appendText_any i v t : runs i (appendText v t) any any.
Proof. destruct v; cbn [appendText]; by jsteps. Qed.
#[local] Hint Resolve appendText_any : jspec.

Lemma length_substr start len s : 0 <= len -> Z.of_nat (length (substr start len s)) <= len.
Proof. intros Hl. unfold substr. rewrite length_take. lia. Qed.

Lemma abbreviate_short i v middle : textual v -> runs i (_abbreviateString v maxLength middle) (shortText) any.
Proof.
  intros Hv. destruct v as [| | | |s| |]; try done; cbn [_abbreviateString].
  - eapply (spec_bind _ _ _ _ (fun _ => False)); [apply getNamed_nothing; by left|]. by intros a [].
  - eapply (spec_bind _ _ _ _ (fun _ => False)); [apply getNamed_nothing; by right|]. by intros a [].
  - apply spec_ret. cbn. unfold maxLength. destruct (Z.leb_spec (Z.of_nat (length s)) 100); [lia|].
    pose proof (length_substr 0 (Z.shiftr 100 1) s ltac:(done)) as H1. cbn in H1.
    pose proof (length_substr (Z.of_nat (length s) - (100 - Z.shiftr 100 1 - 1)) (100 - Z.shiftr 100 1 - 1) s ltac:(done)) as H2. cbn in H2.
    pose proof (length_substr 0 100 s ltac:(done)) as H3.
    destruct middle; rewrite !length_app; cbn [ellipsis length]; cbn; lia.
Qed.

(** ** Descriptions *)

Lemma host_subtype_node v e : Host.subtype v e <> Some "node"%string.
Proof. unfold Host.subtype. by repeat case_match. Qed.

Lemma subtype_any i v : runs i (_subtype v) (fun t => t <> Some "node"%string) any.
Proof.
  assert (forall v, v <> JSNull -> runs i ((primitive ← observe (isPrimitiveValue v);
    if primitive : bool then mret None
    else subtype ← observe (Host.subtype v);
      match subtype with
      | Some subtype => mret (Some subtype)
      | None => array ← isArrayLike v; mret (if array : bool then Some "array"%string else None)
      end)) (fun t => t <> Some "node"%string) any) as Hs.
  { intros w _. jstep; [by jstep|]. destruct a; [by jstep|].
    eapply (spec_bind _ _ _ _ (fun t => t <> Some "node"%string)); [apply spec_observe, host_subtype_node|]. intros [t|] Ht; [by jstep|].
    jsteps. by destruct a. }
  destruct v; cbn [_subtype]; try by apply Hs. by jsteps.
Qed.
#[local] Hint Resolve subtype_any : jspec.

Lemma internalConstructorName_textual v e : textual (Host.internalConstructorName v e).
Proof. unfold Host.internalConstructorName. by repeat case_match. Qed.

Lemma describeError_any i v name : runs i (describeError n v name) any any.
Proof. unfold describeError. jsteps; done. Qed.
#[local] Hint Resolve describeError_any : jspec.

Lemma describeSymbol_text i id X : runs i (describeSymbol id) (textual) X.
Proof.
  unfold describeSymbol. jstep; [|by jstep].
  eapply (spec_bind _ _ _ _ textual).
  - apply (spec_run H n R); [|done]. intros e v e' Hp. by apply symbol_text in Hp as [s ->].
  - intros v Hv. jsteps; [done|]. by destruct a.
Qed.
#[local] Hint Resolve describeSymbol_text : jspec.

Lemma describe_textual i v : runs i (_describe n v) (textual) any.
Proof.
  unfold _describe. jstep; [by jstep|]. destruct a; [by jstep|]. eapply spec_bind; [apply subtype_any|]. intros t Ht.
  jstep; [by jsteps|]. destruct (subtypeIs "node" t) eqn:En; [by apply bool_decide_eq_true in En|].
  eapply (spec_bind _ _ _ _ textual); [apply spec_observe, internalConstructorName_textual|]. intros name Hname. jstep; [by jsteps|].
  jstep; [by jstep|]. jstep; [by jsteps|]. destruct v; jsteps; done.
Qed.
#[local] Hint Resolve describe_textual : jspec.

Lemma bind_any i v g X : runs i (_bind v g) any X.
Proof.
  unfold _bind. eapply (spec_bind _ _ _ _ any); [apply spec_effect; by cbn|]. intros id _.
  eapply (spec_bind _ _ _ _ any); [by apply spec_own|]. intros sid _. by jstep.
Qed.
#[local] Hint Resolve bind_any : jspec.

(** ** Properties *)

Lemma sideEffect_any i l o a : runs i (doesAttributeHaveObservableSideEffectOnGet l o a) any any.
Proof. induction l as [|[name attributes] l IH]; cbn; [by jsteps|]. jstep. destruct a0; [by jsteps|exact IH]. Qed.
#[local] Hint Resolve sideEffect_any : jspec.

Lemma readsAttribute_any i o name d : runs i (readsAttribute o name d) any any.
Proof. unfold readsAttribute. jsteps; done. Qed.
#[local] Hint Resolve readsAttribute_any : jspec.

(** A descriptor of a property with this name. *)
Definition named (name : jsvalue) (d : option PropertyDescriptor) : Prop := forall d', d = Some d' -> pd_name d' = name.

Lemma propertyOf_named i object o accessors k name X : runs i (propertyOf object o accessors k name) (named name) X.
Proof. unfold propertyOf. jsteps; try (by intros d' [= <-]); try (by destruct accessors; intros d' [= <-]). Qed.

Lemma arrayIndexNames_any i v : aLength v -> runs i (arrayIndexNames v) any any.
Proof.
  intros Hv. unfold arrayIndexNames. eapply (spec_bind _ _ _ _ (fun d => d = S754_infinity false -> H)).
  - destruct v; first [apply spec_ret; intros ->; by apply (length_finite (n := n) (R := R)) | apply (spec_run H n R); [|done]; intros e d e' Hp ->; by eapply number_finite].
  - intros d Hd. destruct (Double.isfinite d); [by jsteps|]. destruct d as [|[]| |]; jsteps; try done. by apply spec_hang, Hd.
Qed.

Section Generators.
Context {C : Type} (i : InjectedState) (Lc : C -> Prop) (yield_ : PropertyDescriptor -> JSM ((E * InjectedState) * C) bool).
Context (Hyield : forall d, textual (pd_name d) -> spec H (both (inv R i) Lc) (yield_ d) any any).

#[local] Abbreviation generates m := (spec H (both (inv R i) Lc) m any any).

Lemma lifted {A} (m : Injected E A) Q : runs i m Q any -> spec H (both (inv R i) Lc) (lift m) Q any.
Proof. apply spec_lift. Qed.

Lemma process_any object o accessors l seen : generates (process n yield_ object o accessors l seen).
Proof.
  revert seen. induction l as [|k l IH]; intros seen; cbn [process]; [by jstep|]. destruct (isIn k seen); [apply IH|].
  eapply (spec_bind _ _ _ _ textual); [apply lifted; destruct k; by jsteps|]. intros name Hname.
  eapply spec_bind; [apply lifted, (propertyOf_named i object o accessors k name)|]. intros d Hd.
  eapply (spec_bind _ _ _ _ any); [|intros [] _; [apply IH|by jstep]].
  destruct d as [d|]; [|by jstep]. apply Hyield. by rewrite (Hd d).
Qed.

Lemma isDefined_some o e : _isDefined (J := J) o e = true -> o <> JSUndefined /\ o <> JSNull.
Proof. intros Hd. by split; intros ->. Qed.

(** The next object on the chain of prototypes. *)
Lemma proto_any i' o : runs i' (getNamed o "__proto__") (fun p => p = JSUndefined \/ p = JSNull \/ H \/ (protoHeight (R := R) p < protoHeight (R := R) o)%nat) any.
Proof.
  apply (spec_run H n R); [|done]. intros e p e' Hp.
  destruct (decide (p = JSUndefined)); [by left|]. destruct (decide (p = JSNull)); [by right; left|]. right. right. by eapply proto_lower.
Qed.

(** Enough rounds are left for the objects above [o]. *)
Definition walkable (rounds : nat) (o : jsvalue) : Prop := o = JSUndefined \/ o = JSNull \/ H \/ (protoHeight (R := R) o < rounds)%nat.

Lemma walkable_start o : walkable n o.
Proof. right. right. apply protoHeight_limit. Qed.

Lemma defined_any i' o : runs i' (observe (_isDefined o)) (fun b => b = true -> o <> JSUndefined /\ o <> JSNull) any.
Proof. apply spec_observe. intros e. apply isDefined_some. Qed.

Lemma walkable_O o : o <> JSUndefined -> o <> JSNull -> walkable O o -> H.
Proof. intros ? ? [?|[?|[?|?]]]; done || lia. Qed.

Lemma walkable_S rounds o : o <> JSUndefined -> o <> JSNull -> walkable (S rounds) o ->
  forall i', runs i' (getNamed o "__proto__") (walkable rounds) any.
Proof.
  intros Hu Hn Ho i'. eapply spec_mono; [apply proto_any| |done]. unfold walkable in *. intros p Hp.
  destruct Ho as [?|[?|[?|?]]]; try done; [by right; right; left|]. destruct Hp as [?|[?|[?|?]]]; [by left|by right; left|by right; right; left|].
  right. right. right. lia.
Qed.

Lemma ownerOf_any i' rounds o ownProperties name : walkable rounds o -> runs i' (ownerOf rounds o ownProperties name) any any.
Proof.
  revert o. induction rounds as [|rounds IH]; intros o Ho; cbn [ownerOf]; (eapply spec_bind; [apply defined_any|]); intros defined Hdef.
  all: destruct defined; cbn [negb]; [|by jstep]; destruct (Hdef eq_refl); jstep; destruct a; [by jstep|]; destruct ownProperties; [by jstep|].
  - by apply spec_hang, (walkable_O o).
  - eapply spec_bind; [by apply walkable_S|]. intros p Hp. by apply IH.
Qed.

Lemma namedProperties_any object ownProperties accessors names seen :
  generates (namedProperties n yield_ object ownProperties accessors names seen).
Proof.
  revert seen. induction names as [|name names IH]; intros seen; cbn [namedProperties]; [by jstep|].
  eapply (spec_bind _ _ _ _ any); [apply lifted, ownerOf_any, walkable_start|]. intros owner _.
  eapply (spec_bind _ _ _ _ any); [destruct owner; [apply process_any|by jstep]|]. intros [[] seen'] _; [apply IH|by jstep].
Qed.

Lemma thenProcess_any r object o accessors names : runs i names any any -> generates (thenProcess n yield_ r object o accessors names).
Proof. intros Hn. unfold thenProcess. destruct r as [[] seen]; cbn; [|by jstep]. eapply spec_bind; [by apply lifted|]. intros l _. apply process_any. Qed.

Lemma indexNames_any o : runs i (length ← getNamed o "length"; arrayIndexNames length) any any.
Proof.
  eapply spec_bind; [apply length_any|]. intros v. apply arrayIndexNames_any.
Qed.

Lemma prototypeWalk_any rounds object o ownProperties accessors skip seen :
  walkable rounds o -> generates (prototypeWalk n yield_ rounds object o ownProperties accessors skip seen).
Proof.
  revert o seen. induction rounds as [|rounds IH]; intros o seen Ho; cbn [prototypeWalk]; (eapply spec_bind; [apply lifted, defined_any|]); intros defined Hdef.
  all: destruct defined; [|by jstep]; destruct (Hdef eq_refl); cbn [negb].
  all: eapply (spec_bind _ _ _ _ any);
    [destruct (skip && _); [apply thenProcess_any, indexNames_any|]; (eapply (spec_bind _ _ _ _ any); [apply thenProcess_any, run_any|]); intros; apply thenProcess_any, run_any|intros r _].
  all: eapply (spec_bind _ _ _ _ any); [apply thenProcess_any, run_any|]; intros r' _; destruct (negb r'.1); [by jstep|]; destruct ownProperties.
  2: by eapply spec_lift, spec_hang, (walkable_O o).
  3: eapply spec_bind; [by apply lifted, walkable_S|]; intros p Hp; by apply IH.
  all: (eapply (spec_bind _ _ _ _ any); [apply lifted, getNamed_any|]); intros p _; (eapply (spec_bind _ _ _ _ any); [apply lifted, spec_observe; done|]).
  all: intros hasProto _; destruct (hasProto && _); [|by jstep]; (eapply (spec_bind _ _ _ _ any); [apply lifted, getNamed_any|]); intros p' _.
  all: (eapply (spec_bind _ _ _ _ any); [by apply Hyield|]); intros _ _; by jstep.
Qed.

Lemma propertyDescriptors_any object ownProperties accessors names :
  generates (_propertyDescriptors n yield_ object ownProperties accessors names).
Proof.
  unfold _propertyDescriptors. destruct names as [names|]; [apply namedProperties_any|].
  eapply (spec_bind _ _ _ _ any); [apply lifted; by jsteps|]. intros skip _. apply prototypeWalk_any, walkable_start.
Qed.

End Generators.

(** ** Previews *)

Lemma createEmptyPreview_ok i self T X :
  textual (default JSUndefined (ro_description self)) -> 0 <= T ->
  runs i (_createEmptyPreview self) (fun p => previewOk T 1 p /\ pv_properties p = [] /\ pv_overflow p = false) X.
Proof.
  intros Hd HT. unfold _createEmptyPreview. jstep; [by jstep|]. eapply (spec_bind _ _ _ _ textual); [destruct a; by jsteps|].
  intros d Hd'. apply spec_ret. by split_and!.
Qed.

Section Previews.
Context (i : InjectedState) (T : Z) (k : nat).

#[local] Abbreviation previews m Q := (spec H (both (inv R i) (previewing T k)) m Q any).

Lemma lift_any {A} (m : Injected E A) Q : runs i m Q any -> previews (lift m) Q.
Proof. apply spec_lift. Qed.

Lemma setPreview_ok f :
  (forall p, previewOk T (S k) p -> previewOk T (S k) (f p)) ->
  (forall p, (pv_overflow p = true -> pv_overflow (f p) = true) /\ pv_properties (f p) = pv_properties p) -> previews (setPreview f) any.
Proof.
  intros Hf Hk. apply spec_setLocal. intros [p th] [Hp Ht]. cbn in *. destruct (Hk p) as [Ho Hl]. split; [by apply Hf|].
  cbn. rewrite Hl. destruct (exceeded th); auto.
Qed.

Lemma lossy_ok : previews lossy any.
Proof. apply setPreview_ok; [|done]. intros p (Hd & Ho & Hr). exact (conj Hd (conj (fun _ => eq_refl) Hr)). Qed.

Lemma overflows_ok : previews overflows any.
Proof. apply setPreview_ok; [|done]. intros p (Hd & Ho & Hr). exact (conj Hd (conj (fun _ => eq_refl) Hr)). Qed.
#[local] Hint Resolve lossy_ok overflows_ok : jspec.

(** What one more property does to the threshold. *)
Lemma appendPropertyPreview_ok pp :
  textual (pp_name pp) -> valueText (pp_type pp) (pp_value pp) ->
  match pp_valuePreview pp with Some p' => previewOk T k p' | None => True end -> previews (_appendPropertyPreview pp) any.
Proof.
  intros Hn Hv Hs. unfold _appendPropertyPreview. eapply (spec_bind _ _ _ _ any); [by apply lift_any, isIndexText_any|].
  intros index _ [s [p th]] [Hs' [Hp Ht]]. apply wpj_bind, wpj_update, wpj_bind, wpj_read. cbn [fst snd] in *.
  set (th' := if index : bool then _ else _). assert (th_properties th' + th_indexes th' = th_properties th + th_indexes th - 1) as Es
    by (unfold th'; destruct index; cbn; lia).
  assert (exceeded th = true -> exceeded th' = true) as Em.
  { unfold exceeded, th'. destruct index; cbn; rewrite !orb_true_iff, !Z.ltb_lt; lia. }
  destruct (exceeded th') eqn:Ee; apply wpj_update; (split; [|done]); (split; [done|]); unfold previewing; cbn [fst snd]; rewrite Ee.
  - destruct Hp as (Hd & Ho & Hr). exact (conj (conj Hd (conj (fun _ => eq_refl) Hr)) eq_refl).
  - destruct (exceeded th); [by discriminate Em|]. unfold exceeded in Ee. apply orb_false_elim in Ee as [Ei%Z.ltb_ge Ep%Z.ltb_ge].
    destruct Hp as (Hd & Ho & Hl & Hf & He). cbn. rewrite length_app. cbn [length]. split_and!; [done|done|lia| |done|lia].
    apply Forall_app. split; [done|]. by apply Forall_singleton.
Qed.

Context (subPreview : option (jsvalue -> Injected E Preview)).
Context (Hsub : match subPreview with Some g => forall v, runs i (g v) (previewOk T k) any | None => True end).

Lemma objectPropertyPreview_ok name value type : textual name ->
  previews (objectPropertyPreview n subPreview name value type)
    (fun pp => textual (pp_name pp) /\ valueText (pp_type pp) (pp_value pp) /\
               match pp_valuePreview pp with Some p' => previewOk T k p' | None => True end).
Proof.
  intros Hname. unfold objectPropertyPreview. eapply (spec_bind _ _ _ _ any); [apply lift_any; eapply spec_mono; [apply subtype_any|done..]|].
  intros subtype _. destruct subPreview as [generate|].
  - eapply spec_bind; [apply lift_any, Hsub|]. intros sub Hok. eapply (spec_bind _ _ _ _ any); [|intros _ _; by apply spec_ret].
    apply setPreview_ok; [|intros p; split; [cbn; by intros ->|done]]. intros p (Hd & Ho & Hr).
    assert (pv_overflow sub = true -> pv_lossless sub = false) as Hos by (destruct k; [done|by destruct Hok as (_ & ? & _)]).
    split; [done|]. split; [|exact Hr]. cbn. intros [?|?]%orb_prop; [by rewrite Ho|]. by rewrite Hos, andb_false_r.
  - eapply (spec_bind _ _ _ _ shortText).
    + case_bool_decide; [by apply spec_ret|]. eapply spec_bind; [apply lift_any, describe_textual|]. intros d Hd. by apply lift_any, abbreviate_short.
    + intros d Hd. eapply spec_bind; [apply lossy_ok|]. intros _ _. apply spec_ret. split_and!; [done|by left|done].
Qed.

Lemma primitive_texts type : primitiveTypes type = true -> type = "string"%string \/ type ∈ ["number"; "boolean"; "undefined"]%string.
Proof. unfold primitiveTypes. rewrite bool_decide_eq_true. set_solver. Qed.

Lemma typeof_string v (e : E) : typeof v e = "string"%string -> exists s, v = JSString s.
Proof. destruct v; cbn; intros Hs; repeat case_match; try discriminate; by eexists. Qed.

Lemma toStringDescription_string i' s X : runs i' (toStringDescription (JSString s)) (fun t => t = s) X.
Proof. by apply (spec_tryCatch _ _ _ _ _ _ (fun _ => False)); [apply spec_ret|]. Qed.

Lemma shortened_ok s : previews
  (if maxLength <? Z.of_nat (length s) then value ← lift (_abbreviateString (JSString s) maxLength true); lossy;; mret value else mret (JSString s))
  (fun v => shortText v).
Proof.
  destruct (Z.ltb_spec maxLength (Z.of_nat (length s))).
  - eapply spec_bind; [by apply lift_any, abbreviate_short|]. intros v Hv. eapply spec_bind; [apply lossy_ok|]. intros _ _. by apply spec_ret.
  - apply spec_ret. cbn. lia.
Qed.

Lemma primitiveValue_ok name value type : textual name -> primitiveTypes type = true -> (type = "string"%string -> exists s, value = JSString s) ->
  previews (value ← (match value with
                     | JSString s =>
                         if maxLength <? Z.of_nat (length s)
                         then value ← lift (_abbreviateString value maxLength true); lossy;; mret value
                         else mret value
                     | _ => mret value
                     end);
            t ← lift (toStringDescription value);
            _appendPropertyPreview (mkPropertyPreview name type None (Some (JSString t)) None)) any.
Proof.
  intros Hname Hp Hs. assert ((exists s, value = JSString s) \/ ~ exists s, value = JSString s) as [[s ->]|Hn]
    by (destruct value; first [by left; eexists | by right; intros [? ?]]).
  - eapply spec_bind; [apply shortened_ok|]. intros [| | | |s'| |] Hv; try done.
    eapply spec_bind; [apply lift_any, toStringDescription_string|]. intros t ->. apply appendPropertyPreview_ok; [done|by left|done].
  - eapply (spec_bind _ _ _ _ any); [destruct value; first [by apply spec_ret|destruct Hn; by eexists]|]. intros v _.
    eapply spec_bind; [apply lift_any, toStringDescription_never|]. intros t _. apply appendPropertyPreview_ok; [done| |done]. right.
    destruct (primitive_texts type Hp) as [->|Ht]; [by destruct Hn; auto|]. split; [done|by eexists].
Qed.

Lemma appendValue_ok self name value : textual name -> previews (appendValue n self subPreview name value) any.
Proof.
  intros Hname. unfold appendValue.
  eapply (spec_bind _ _ _ _ (fun type => type = "string"%string -> exists s, value = JSString s)); [apply lift_any, spec_observe, typeof_string|].
  intros type Htype. eapply (spec_bind _ _ _ _ any); [destruct (_ && _); [apply lift_any, isUInt32_any|by apply spec_ret]|]. intros index _.
  destruct (_ && negb index); [apply lossy_ok|]. eapply (spec_bind _ _ _ _ any); [by apply lift_any, spec_observe|]. intros all _.
  set (type' := if bool_decide (type = "undefined"%string) && all then "object"%string else type). assert (type' = "string"%string -> exists s, value = JSString s) as Htype'
    by (unfold type'; destruct (_ && all); [done|exact Htype]). clearbody type'. cbv zeta.
  destruct (decide (value = JSNull)) as [->|Hnull]; [apply appendPropertyPreview_ok; [done|by left|done]|].
  assert (previews (if primitiveTypes type' then
    value ← (match value with
             | JSString s => if maxLength <? Z.of_nat (length s) then value ← lift (_abbreviateString value maxLength true); lossy;; mret value else mret value
             | _ => mret value
             end);
    t ← lift (toStringDescription value); _appendPropertyPreview (mkPropertyPreview name type' None (Some (JSString t)) None)
   else property ← objectPropertyPreview n subPreview name value type'; _appendPropertyPreview property) any) as Hm.
  { destruct (primitiveTypes type') eqn:Ep; [by apply primitiveValue_ok|]. eapply spec_bind; [by apply objectPropertyPreview_ok|].
    intros pp (? & ? & ?). by apply appendPropertyPreview_ok. }
  by destruct value.
Qed.

Lemma appendPropertyDescriptor_ok self d : textual (pd_name d) -> previews (appendPropertyDescriptor n self subPreview d) any.
Proof.
  intros Hd. unfold appendPropertyDescriptor. eapply (spec_bind _ _ _ _ any); [eapply spec_mono; [apply (spec_local _ _ _ any)|done..]|]. intros p _.
  destruct (exceeded p.2); [by apply spec_ret|]. eapply (spec_bind _ _ _ _ any); [|intros _ _; by apply spec_ret].
  destruct (pd_wasThrown d); [apply lossy_ok|]. destruct (ignored self d); [by apply spec_ret|].
  destruct (if pd_isOwn d then pd_value d else None); [by apply appendValue_ok|apply lossy_ok].
Qed.

Lemma appendPropertyDescriptors_ok self ds : Forall (fun d => textual (pd_name d)) ds -> previews (_appendPropertyDescriptors n self subPreview ds) any.
Proof.
  induction 1 as [|d ds Hd _ IH]; cbn [_appendPropertyDescriptors]; [by apply spec_ret|].
  eapply spec_bind; [by apply appendPropertyDescriptor_ok|]. intros [] _; [exact IH|by apply spec_ret].
Qed.

(** Remote objects for entries: their previews are one level lower. *)
Context (make : jsvalue -> Injected E RemoteObject).

Definition makes : Prop := forall v, runs i (make v)
  (fun r => textual (default JSUndefined (ro_description r)) /\ match ro_preview r with Some p => previewOk T k p | None => True end) any.

(** One more entry fits. *)
Definition room (c : Preview * Threshold) : Prop := previewing T k c /\ (length (default [] (pv_entries c.1)) < entriesThreshold)%nat.

Lemma generateValuePreview_ok v : makes -> 0 <= T -> (0 < k)%nat ->
  spec H (both (inv R i) room) (generateValuePreview make v) (previewOk T k) any.
Proof.
  intros Hm HT Hk. unfold generateValuePreview. eapply spec_bind; [apply spec_lift, Hm|]. intros r [Hd Hp].
  eapply (spec_bind _ _ _ _ (previewOk T k)).
  - destruct (ro_preview r) as [p|]; [by apply spec_ret|]. apply spec_lift. eapply spec_mono; [by apply (createEmptyPreview_ok i r T any)| |done].
    intros p [Hok _]. eapply previewOk_mono; [reflexivity| |exact Hok]. lia.
  - intros p Hok. eapply (spec_bind _ _ _ _ any); [|intros _ _; by apply spec_ret]. apply spec_setLocal.
    intros [q th] [[(Hqd & Ho & Hr) Ht] Hl]. split; [|exact Hl]. split; [|exact Ht]. split; [done|]. split; [|exact Hr].
    cbn in *. intros Hq. by rewrite Ho.
Qed.

Lemma appendEntries_ok entries : makes -> 0 <= T -> (0 < k)%nat -> previews (appendEntries make entries) any.
Proof.
  intros Hm HT Hk. induction entries as [|entry entries IH]; cbn [appendEntries]; [by apply spec_ret|].
  intros [s [p th]] [Hs Hp]. apply wpj_bind, wpj_read. cbn [snd fst].
  destruct (Nat.leb_spec entriesThreshold (length (default [] (pv_entries p)))) as [Hfull|Hroom]; [by apply overflows_ok|].
  apply wpj_bind. eapply wpj_mono; [by apply (generateValuePreview_ok (ce_value entry) Hm HT Hk)| |by intros v s' [[? [? ?]] ?]]. intros value s1 [Hs1 Hv].
  apply wpj_bind. eapply (wpj_mono _ _ (fun key s' => both (inv R i) room s' /\ match key with Some p' => previewOk T k p' | None => True end)
    _ (fun _ => both (inv R i) room)).
  - destruct (ce_key entry) as [key|]; [|by apply wpj_ret]. apply wpj_bind.
    eapply wpj_mono; [by apply (generateValuePreview_ok key Hm HT Hk)|intros key' s2 [? ?]; by apply wpj_ret|by intros v s' [? ?]].
  - intros key [s2 [q th2]] [[Hs2 [[Hq Ht] Hl]] Hkey]. apply wpj_bind, wpj_update. apply IH. split; [done|]. split; [|exact Ht].
    destruct Hq as (Hqd & Ho & Hql & Hqf & He). cbn. split_and!; try done; [rewrite length_app; cbn in *; lia|].
    apply Forall_app. split; [|by apply Forall_singleton]. cbn in He. destruct (pv_entries q) as [l|]; [apply He|constructor].
  - by intros v s' [? [? ?]].
Qed.

Lemma appendEntriesPreview_ok object skip : skip = true \/ makes /\ (0 < k)%nat -> 0 <= T -> previews (_appendEntriesPreview make object skip) any.
Proof.
  intros Hm HT. unfold _appendEntriesPreview. eapply (spec_bind _ _ _ _ any).
  - apply lift_any. unfold Host.collectionEntries. destruct object; by jsteps.
  - intros [entries|] _; [|by apply spec_ret]. destruct skip; [destruct entries; [by apply spec_ret|apply overflows_ok]|].
    destruct Hm as [?|[Hm Hk]]; [done|]. eapply (spec_bind _ _ _ _ any); [|intros _ _; by apply appendEntries_ok].
    apply setPreview_ok; [|done]. intros p (Hd & Ho & Hl & Hf & _). split_and!; try done. cbn. split; [lia|constructor].
Qed.

Lemma generateWith_ok self object keys isTable skip :
  textual (default JSUndefined (ro_description self)) -> 0 <= T ->
  exceeded (threshold isTable keys) = false -> th_properties (threshold isTable keys) + th_indexes (threshold isTable keys) = T ->
  skip = true \/ makes /\ (0 < k)%nat ->
  runs i (generateWith n make subPreview self object keys isTable skip) (previewOk T (S k)) any.
Proof.
  intros Hself HT He Hth Hm. unfold generateWith. eapply spec_bind; [by apply (createEmptyPreview_ok i self T any)|].
  intros p (Hok & Hp & Ho). eapply (spec_bind _ _ _ _ (previewing T k)); [|intros [q th] [Hq _]; by apply spec_ret].
  eapply (spec_withLocal _ _ _ _ _ _ any _ any).
  - split; cbn [fst snd]; [|by rewrite He, Hp]. eapply previewOk_mono; [reflexivity| |exact Hok]. lia.
  - eapply spec_bind; [apply propertyDescriptors_any; intros d Hd; by apply appendPropertyDescriptor_ok|]. intros _ _.
    eapply (spec_bind _ _ _ _ any); [eapply spec_mono; [apply (spec_local _ _ _ any)|done..]|]. intros q _.
    destruct (exceeded q.2); [by apply spec_ret|].
    eapply (spec_bind _ _ _ _ any); [apply lift_any; unfold Host.getInternalProperties; destruct object; by jsteps|]. intros raw _.
    eapply spec_bind; [apply appendPropertyDescriptors_ok, Forall_map, Forall_true; done|]. intros _ _.
    destruct (_ || subtypeIs "iterator" _); [by apply appendEntriesPreview_ok|by apply spec_ret].
  - intros v [q th] [(Hd & _ & Hr) Ht]. split; [|exact Ht]. exact (conj Hd (conj (fun _ => eq_refl) Hr)).
Qed.

End Previews.

(** The limits of a preview and of a table. *)
Definition previewLimit (isTable : bool) : Z := if isTable then 2000 else 105.

Lemma threshold_limit isTable keys : isTable = true \/ keys = None ->
  exceeded (threshold isTable keys) = false /\ th_properties (threshold isTable keys) + th_indexes (threshold isTable keys) = previewLimit isTable.
Proof. intros [->| ->]; [done|]. by destruct isTable. Qed.

Lemma makes_mono i T k k' make : (k <= k')%nat -> makes i T k make -> makes i T k' make.
Proof.
  intros Hk Hm v. eapply spec_mono; [apply Hm| |done]. intros r [Hd Hp]. split; [done|]. destruct (ro_preview r); [|done].
  by eapply previewOk_mono.
Qed.

Lemma generatePreview_ok i make self object second isTable skip :
  textual (default JSUndefined (ro_description self)) -> isTable = true \/ (forall keys, second <> SecondLevel keys) ->
  makes i (previewLimit isTable) 1 make ->
  runs i (_generatePreview n make self object None second isTable skip) (previewOk (previewLimit isTable) 3) any.
Proof.
  intros Hself Htable Hm. assert (0 <= previewLimit isTable) as HT by by destruct isTable. unfold _generatePreview.
  assert (forall keys v, isTable = true \/ keys = None ->
    runs i (generateWith n make None self v keys isTable false) (previewOk (previewLimit isTable) 2) any) as Hsecond.
  { intros keys v Hk. destruct (threshold_limit isTable keys Hk). apply generateWith_ok; [done..|right; split; [done|lia]]. }
  destruct (threshold_limit isTable None (or_intror eq_refl)). apply generateWith_ok; [|done..|].
  - destruct second as [| |keys]; [done| |]; intros v; apply Hsecond; [by right|]. left. destruct Htable as [?|Hs]; [done|]. by destruct (Hs keys).
  - right. split; [|lia]. apply (makes_mono _ _ 1); [lia|done].
Qed.

(** The preview of an entry of a collection shows no entries of its own. *)
Lemma generatePreview_flat i make self object :
  textual (default JSUndefined (ro_description self)) ->
  runs i (_generatePreview n make self object None NoSecondLevel false true) (previewOk (previewLimit false) 1) any.
Proof.
  intros Hself. destruct (threshold_limit false None (or_intror eq_refl)). by apply generateWith_ok; [..|left].
Qed.

(** ** Remote objects *)

(** A value that is not passed as it is. *)
Definition remoteOk (options : WrapOptions) (k : nat) (r : RemoteObject) : Prop :=
  (forceValueType options = false -> match ro_value r with Some v => plainValue v | None => True end) /\
  textual (default JSUndefined (ro_description r)) /\
  match ro_preview r with Some p => previewOk (previewLimit (isTable options)) k p | None => True end /\
  match ro_customPreview r with Some c => textual (cp_header c) | None => True end.

(** The columns of a preview belong to a table; the preview of an entry is a simple one. *)
Definition optionsOk (options : WrapOptions) : Prop :=
  (isTable options = true \/ (forall keys, columnNames options <> SecondLevel keys)) /\
  (skipEntriesPreview options = true -> isTable options = false /\ columnNames options = NoSecondLevel).

Definition previewLevels (options : WrapOptions) : nat := if skipEntriesPreview options then 1 else 3.

(** The nesting of remote objects that is still to come. *)
Abbreviation depthOf := customPreviewRecursionDepth.
Definition nesting (i : InjectedState) (options : WrapOptions) : nat :=
  20 - depthOf i + (if generatePreview options && negb (skipEntriesPreview options) then 1 else 0).

Lemma primitiveRemoteObject_ok i object type options k X :
  (forceValueType options = false -> plainValue object \/ type = "undefined"%string) ->
  runs i (primitiveRemoteObject object type) (remoteOk options k) X.
Proof.
  intros Hp. unfold primitiveRemoteObject. case_bool_decide as Hn.
  - jsteps. split_and!; try done. intros Hf. cbn. case_bool_decide; [done|]. case_bool_decide; [done|]. by destruct (Hp Hf).
  - jsteps. split_and!; try done. intros Hf. cbn. case_bool_decide; [done|]. by destruct (Hp Hf).
Qed.

(** What is primitive is plain, but for an object that pretends to be [undefined]. *)
Lemma primitive_plain v (e : E) : isPrimitiveValue v e = true -> plainValue v \/ typeof v e = "undefined"%string.
Proof.
  unfold isPrimitiveValue, primitiveTypes. destruct v as [| | | | | |o]; cbn; try by left.
  destruct (undetectable o e); [by right|]. by destruct (callable o e).
Qed.

(** ** Custom previews *)

Definition deeper (i : InjectedState) (f : nat -> nat) : InjectedState := i <| customPreviewRecursionDepth := f (depthOf i) |>.

Lemma deeper_back i : deeper (deeper i S) pred = i.
Proof. by destruct i. Qed.

Lemma addDepth_wpj i d (Q : unit -> E * InjectedState -> Prop) X s :
  inv R i s -> (forall s', inv R (deeper i d) s' -> Q tt s') -> wpj H (addDepth d) Q X s.
Proof. intros [Hr Hi] HQ. apply wpj_update, HQ. split; [done|]. cbn. by rewrite Hi. Qed.

Section Custom.
Context (wrap : jsvalue -> option ustring -> WrapOptions -> Injected E RemoteObject) (g : option ustring) (D : nat).
Context (Hwrap : forall i o c, (D < depthOf i < 20)%nat -> runs i (wrap o g (mkWrapOptions false false false EverySecondLevel false false c)) any any).

(** The fuel is enough: the counter of the script ends the recursion before. *)
Lemma substitute_any depth i j : (D <= depthOf i)%nat -> (19 - depthOf i <= depth)%nat ->
  runs i (_substituteObjectTagsInCustomPreview depth n wrap g j) any any.
Proof.
  revert i j. induction depth as [|depth IH]; intros i j HD Hd; cbn [_substituteObjectTagsInCustomPreview].
  all: intros s Hs; apply wpj_bind, (addDepth_wpj i); [done|]; intros s1 Hs1; apply wpj_tryFinally.
  all: eapply (wpj_mono _ _ (fun _ s' => inv R (deeper i S) s' /\ True) _ (fun _ s' => inv R (deeper i S) s' /\ True));
    [|intros _ s2 [Hs2 _]; apply (addDepth_wpj (deeper i S)); [done|]; by rewrite deeper_back
     |intros v s2 [Hs2 _]; apply (addDepth_wpj (deeper i S)); [done|]; by rewrite deeper_back].
  all: revert s1 Hs1; match goal with |- forall s1, _ -> wpj _ ?m _ _ s1 => change (runs (deeper i S) m any any) end.
  all: eapply (spec_bind _ _ _ _ (fun r => r = S (depthOf i))); [by apply spec_own|]; intros r ->.
  all: destruct (Nat.leb_spec maxCustomPreviewRecursionDepth (S (depthOf i))) as [Hle|Hlt]; [apply throwError_any|]; unfold maxCustomPreviewRecursionDepth in Hlt.
  all: jstep; destruct a; [|by jstep]; cbn [negb]; jstep; destruct (strictlyEqual _ _).
  1, 3: jsteps; try done; apply Hwrap; cbn; lia.
  - lia.
  - apply (forIndexes_any _ _ _ _ _ _ any); [lia|done|]. intros k. jstep. eapply spec_bind; [apply IH; cbn; lia|]. intros _ _. by jstep.
Qed.

Lemma logError_any i e : runs i (logError e) any any.
Proof. unfold logError. by jsteps. Qed.
#[local] Hint Resolve logError_any : jspec.

Definition headed (c : option CustomPreview) : Prop := match c with Some c => textual (cp_header c) | None => True end.

Lemma formatWith_ok i formatters object config k : depthOf i = D -> runs i (formatWith n wrap formatters object g config k) headed any.
Proof.
  intros HD. unfold formatWith. do 2 jstep. jstep; [by jstep|]. destruct a1; [|by jstep]. cbn [negb]. do 2 jstep.
  eapply spec_bind; [apply substitute_any; [lia|unfold maxCustomPreviewRecursionDepth; lia]|]. intros _ _. do 2 jstep.
  eapply (spec_bind _ _ _ _ textual).
  - apply (spec_run H n R); [|done]. intros e v e' Hp. by apply stringify_text in Hp as [->|[s ->]].
  - intros header Hh. jsteps; done.
Qed.

Lemma customPreview_ok i object config : depthOf i = D -> runs i (_customPreview n wrap object g config) headed any.
Proof.
  intros HD. unfold _customPreview. jstep; [|jsteps; done]. jstep. jstep; [by jstep|].
  eapply (spec_bind _ _ _ _ any); [destruct a0; by jsteps|]. intros array _. destruct array; [|by jstep]. cbn [negb].
  apply (forIndexes_any _ _ _ _ _ _ headed); [lia|done|]. intros k. eapply (spec_bind _ _ _ _ headed).
  - eapply (spec_tryCatch _ _ _ _ _ _ any); [by apply formatWith_ok|]. intros e _. by jsteps.
  - intros [c|] Hc; by apply spec_ret.
Qed.

End Custom.

(** ** The constructor *)

Lemma textual_primitive v (e : E) : textual v -> isPrimitiveValue v e || bool_decide (v = JSNull) = true.
Proof. by destruct v. Qed.

(** A text needs no levels and never throws. *)
Lemma remoteObject_text levels i v g options k X :
  textual v -> runs i (remoteObject levels n v g options) (remoteOk options k) X.
Proof.
  intros Hv s Hs. destruct levels; cbn [remoteObject]; do 3 apply wpj_bind, wpj_read; rewrite (textual_primitive v _ Hv); cbn [orb];
    (apply primitiveRemoteObject_ok; [intros _; left; by apply textual_plain|done]).
Qed.

Lemma remoteOk_plain options k r : remoteOk plain k r -> remoteOk options k r.
Proof.
  intros (Hv & Hd & Hp & Hc). split_and!; [intros _; by apply Hv|done| |done]. destruct (ro_preview r); [|done].
  eapply previewOk_mono; [|reflexivity|exact Hp]. by destruct (isTable options).
Qed.

(** [_wrapObject] cannot throw. *)
Lemma wrapWith_ok i make object g options k :
  runs i (make object g options) (remoteOk options k) any ->
  (forall v, textual v -> runs i (make v None plain) (remoteOk plain k) (fun _ => False)) ->
  runs i (wrapWith n make object g options) (remoteOk options k) (fun _ => False).
Proof.
  intros Hm Ht. unfold wrapWith. eapply (spec_tryCatch _ _ _ _ _ _ any); [exact Hm|]. intros e _.
  eapply (spec_bind _ _ _ _ textual); [eapply (spec_tryCatch _ _ _ _ _ _ any); [apply describe_textual|intros _ _; by apply spec_ret]|].
  intros v Hv. eapply spec_mono; [by apply Ht|apply remoteOk_plain|done].
Qed.

(** Options of the remote objects that are made for others. *)
Abbreviation entryOptions := (mkWrapOptions true false true NoSecondLevel false true JSUndefined).
Abbreviation tagOptions c := (mkWrapOptions false false false EverySecondLevel false false c).

Section Constructor.
Context (levels : nat) (i : InjectedState) (options : WrapOptions).
Context (Hopt : optionsOk options) (Hn : (nesting i options <= levels)%nat).
Context (IH : forall i object g options, optionsOk options -> (nesting i options < levels)%nat ->
  runs i (remoteObject levels n object g options) (remoteOk options (previewLevels options)) any).

Lemma preview_ok self object :
  textual (default JSUndefined (ro_description self)) -> generatePreview options = true ->
  runs i (_generatePreview n (fun v => remoteObject levels n v None entryOptions) self object None (columnNames options) (isTable options) (skipEntriesPreview options))
    (previewOk (previewLimit (isTable options)) (previewLevels options)) any.
Proof.
  intros Hself Hg. destruct Hopt as [Htable Hskip]. unfold previewLevels. destruct (skipEntriesPreview options) eqn:Es.
  - destruct (Hskip eq_refl) as [-> ->]. by apply generatePreview_flat.
  - apply generatePreview_ok; [done..|]. intros v. eapply spec_mono; [apply (IH i v None entryOptions)| |done].
    + split; [by right|done].
    + unfold nesting in *. rewrite Hg, Es in Hn. cbn in *. lia.
    + intros r (_ & Ht & Hp & _). split; [done|]. destruct (ro_preview r); [|done].
      eapply previewOk_mono; [|reflexivity|exact Hp]. by destruct (isTable options).
Qed.

Lemma tag_ok g i' o c : (depthOf i < depthOf i' < 20)%nat -> runs i' (wrapWith n (remoteObject levels n) o g (tagOptions c)) any any.
Proof.
  intros Hi. eapply spec_mono; [apply (wrapWith_ok _ _ _ _ _ 3)|done|done].
  - apply (IH i' o g (tagOptions c)); [by split; [right|]|]. unfold nesting in *. cbn. lia.
  - intros v Hv. by apply remoteObject_text.
Qed.

End Constructor.

Lemma remoteObject_ok levels i object g options :
  optionsOk options -> (nesting i options < levels)%nat ->
  runs i (remoteObject levels n object g options) (remoteOk options (previewLevels options)) any.
Proof.
  revert i object g options. induction levels as [|levels IH]; intros i object g options Hopt Hn; [lia|]. cbn [remoteObject].
  intros s Hs. do 3 apply wpj_bind, wpj_read. cbv zeta.
  assert (_isHTMLAllCollection object s.1 = false) as -> by apply andb_false_r. rewrite andb_false_r.
  destruct (_ || forceValueType options) eqn:Ep.
  - apply primitiveRemoteObject_ok; [|done]. intros Hf. rewrite Hf, orb_false_r in Ep. apply orb_prop in Ep as [Ep|Ep].
    + by apply primitive_plain.
    + apply bool_decide_eq_true in Ep as ->. by left.
  - generalize (typeof object s.1) as type. intros type. clear Ep. revert s Hs.
    match goal with |- forall s1, _ -> wpj _ ?m _ _ s1 => change (runs i m (remoteOk options (previewLevels options)) any) end.
    eapply (spec_bind _ _ _ _ any); [destruct (doNotBind options); by jsteps|]. intros objectId _. jstep. jstep; [by jstep|].
    eapply spec_bind; [apply describe_textual|]. intros description Ht. cbv zeta.
    eapply (spec_bind _ _ _ _ (fun p => match p with Some p => previewOk (previewLimit (isTable options)) (previewLevels options) p | None => True end)).
    { destruct (generatePreview options) eqn:Eg; [|by apply spec_ret]. destruct (_ && _); [|by apply spec_ret].
      eapply spec_bind; [apply preview_ok; first [done|lia]|]. intros p Hp. by apply spec_ret. }
    intros preview Hp. eapply (spec_bind _ _ _ _ any); [by apply spec_own|]. intros enabled _.
    eapply (spec_bind _ _ _ _ headed).
    { destruct enabled; [|by apply spec_ret]. eapply (customPreview_ok _ g (depthOf i)); [|done].
      intros i' o c Hi. apply (tag_ok levels i options); first [done|lia]. }
    intros custom Hc. apply spec_ret. by split_and!.
Qed.

Lemma wrapObject_ok i object g options :
  optionsOk options ->
  runs i (_wrapObject n object g options) (remoteOk options (previewLevels options)) (fun _ => False).
Proof.
  intros Hopt. apply wrapWith_ok.
  - apply remoteObject_ok; [done..|]. unfold nesting, remoteObjectLevels. destruct (_ && _); lia.
  - intros v Hv. by apply remoteObject_text.
Qed.


End Facts.
