(* ===== verification/InjectedCallFacts.v ===== *)
(** * What the injected script answers

    The results of the functions in [InjectedCalls], and their conversion to JSON. *)

From S2P Require Import Prelude Platform WTFString JSONValues Engine JSValues InjectedHost InjectedObjects InjectedCalls JSRules InjectedFacts.

Import Source Calls.

(** ** Values as JSON *)

(** A value without objects, nested at most [k] deep. *)
Fixpoint plainBuilt (k : nat) (b : built) : Prop :=
  match k with
  | O => False
  | S k' =>
      match b with
      | Value v => plainValue v
      | Literal ms => Forall (fun m => plainBuilt k' m.2) ms
      | Elements l => Forall (plainBuilt k') l
      end
  end.

Definition valueJSON (v : jsvalue) : JSONValue :=
  match v with
  | JSBoolean b => JSONBoolean b
  | JSNumber d => JSONNumber d
  | JSString s => JSONString s
  | _ => JSONNull
  end.

Definition objectOf (members : list (ustring * JSONValue)) : jobject := foldl (fun o m => setValue m.1 m.2 o) [] members.

(** The JSON that a value becomes: that of an object of the program can be any. *)
#[local] Unset Elimination Schemes.
Inductive becomes : built -> JSONValue -> Prop :=
  | becomes_plain v : plainValue v -> becomes (Value v) (valueJSON v)
  | becomes_object o j : becomes (Value (JSObject o)) (JSONObject j)
  | becomes_array o l : becomes (Value (JSObject o)) (JSONArray l)
  | becomes_elements bs l : Forall2 becomes bs l -> becomes (Elements bs) (JSONArray l)
  | becomes_literal ms js :
      Forall2 (fun m j => m.1 = j.1 /\ becomes m.2 j.2) ms js -> becomes (Literal ms) (JSONObject (objectOf js)).
#[local] Set Elimination Schemes.

(** ** Conversion *)

Section Conversion.
Context {E : Type} {J : JSEngine E} (H : Prop) (n : nat) (R : E -> Prop) {L : JSLimits H n R}.

#[local] Abbreviation any := (fun _ => True).
#[local] Abbreviation runs i m Q X := (spec H (inv R i) m Q X).

Definition becomesSome (b : built) (r : option JSONValue) : Prop := forall j, r = Some j -> becomes b j.

Lemma readProperty_any i v k X : runs i (Host.readProperty v k) any X.
Proof.
  unfold Host.readProperty. eapply (spec_tryCatch _ _ _ _ _ _ any); [|intros _ _; by apply spec_ret].
  eapply spec_bind; [by apply (spec_run_any H n R)|]. intros a _. by apply spec_ret.
Qed.

Lemma toJSONElements_any i f v indexes X : (forall v, runs i (f v) any X) -> runs i (Host.toJSONElements f v indexes) any X.
Proof.
  intros Hf. induction indexes as [|k indexes IH]; cbn [Host.toJSONElements]; [by apply spec_ret|].
  eapply spec_bind; [apply readProperty_any|]. intros value _. eapply spec_bind; [apply Hf|]. intros [element|] _; [|by apply spec_ret].
  eapply spec_bind; [apply IH|]. intros rest _. by apply spec_ret.
Qed.

Lemma toJSONMembers_any i f o names acc X : (forall v, runs i (f v) any X) -> runs i (Host.toJSONMembers f o names acc) any X.
Proof.
  intros Hf. revert acc. induction names as [|name names IH]; intros acc; cbn [Host.toJSONMembers]; [by apply spec_ret|].
  eapply (spec_bind _ _ _ _ any); [destruct name; [by apply spec_ret|by apply spec_observe]|]. intros real _. destruct real; [|apply IH].
  eapply spec_bind; [apply readProperty_any|]. intros value _. eapply spec_bind; [apply Hf|]. intros [m|] _; [apply IH|by apply spec_ret].
Qed.

Lemma v8ToJSON_becomes i depth v X :
  runs i (Host.v8ToJSONValueInternal depth v) (fun r => forall v' j, v = Some v' -> r = Some j -> becomes (Value v') j) X.
Proof.
  revert v. induction depth as [|depth IH]; intros [v|]; cbn [Host.v8ToJSONValueInternal]; try by apply spec_ret.
  assert (forall v, runs i (Host.v8ToJSONValueInternal depth v) any X) as IH' by (intros w; eapply spec_mono; [apply IH|done..]).
  destruct v as [| | | | | |o]; try (apply spec_ret; intros v' j [= <-] [= <-]; by apply becomes_plain).
  eapply (spec_bind _ _ _ _ any); [by apply spec_observe|]. intros array _. destruct array.
  - eapply (spec_bind _ _ _ _ any); [by apply spec_observe|]. intros length _. eapply spec_bind; [by apply toJSONElements_any|]. intros l _.
    apply spec_ret. intros v' j [= <-] Hj. destruct l; [|done]. injection Hj as <-. constructor.
  - eapply (spec_bind _ _ _ _ any); [by apply spec_observe|]. intros names _. eapply spec_bind; [by apply toJSONMembers_any|]. intros l _.
    apply spec_ret. intros v' j [= <-] Hj. destruct l; [|done]. injection Hj as <-. constructor.
Qed.

(** The result of a conversion, when there is one; conversions do not throw. *)
Lemma builtToJSON_becomes i depth b X : runs i (Host.builtToJSON depth b) (becomesSome b) X.
Proof.
  revert b. induction depth as [|depth IH]; intros b; cbn [Host.builtToJSON]; [by apply spec_ret|]. destruct b as [v|ms|l].
  - eapply spec_mono; [apply (v8ToJSON_becomes i (S depth) (Some v) X)| |done]. intros r Hr j. by apply Hr.
  - eapply (spec_bind _ _ _ _ (fun r => forall o, r = Some o ->
      exists js, o = objectOf js /\ Forall2 (fun m j => m.1 = j.1 /\ becomes m.2 j.2) ms js)).
    + assert (forall ms acc done_ js0, Forall2 (fun m j => m.1 = j.1 /\ becomes m.2 j.2) done_ js0 -> acc = objectOf js0 ->
        runs i ((fix members (ms : list (ustring * built)) (acc : jobject) : Injected E (option jobject) :=
                 match ms with
                 | [] => mret (Some acc)
                 | (name, b) :: ms' =>
                     member ← Host.builtToJSON depth b;
                     match member with
                     | None => mret None
                     | Some m => members ms' (setValue name m acc)
                     end
                 end) ms acc)
          (fun r => forall o, r = Some o -> exists js, o = objectOf js /\ Forall2 (fun m j => m.1 = j.1 /\ becomes m.2 j.2) (done_ ++ ms) js) X) as Hl.
      { clear ms. intros ms. induction ms as [|[name b] ms IHms]; intros acc done_ js0 Hdone ->.
        - apply spec_ret. intros o [= <-]. exists js0. by rewrite app_nil_r.
        - eapply spec_bind; [apply IH|]. intros [m|] Hm; [|by apply spec_ret].
          replace (done_ ++ (name, b) :: ms) with ((done_ ++ [(name, b)]) ++ ms) by by rewrite <- app_assoc.
          apply (IHms _ _ (js0 ++ [(name, m)])); [|unfold objectOf; by rewrite foldl_app].
          apply Forall2_app; [done|]. constructor; [|constructor]. split; [done|by apply Hm]. }
      exact (Hl ms [] [] [] (List.Forall2_nil _) eq_refl).
    + intros [o|] Ho; apply spec_ret; intros j [= <-]. destruct (Ho o eq_refl) as (js & -> & Hjs). by constructor.
  - eapply (spec_bind _ _ _ _ (fun r => forall l', r = Some l' -> Forall2 becomes l l')).
    + induction l as [|b l IHl]; [apply spec_ret; intros l' [= <-]; constructor|].
      eapply spec_bind; [apply IH|]. intros [m|] Hm; [|by apply spec_ret]. eapply spec_bind; [apply IHl|]. intros rest Hrest.
      apply spec_ret. intros l' Hl'. destruct rest; [|done]. injection Hl' as <-. constructor; [by apply Hm|by apply Hrest].
    + intros [l'|] Hl'; apply spec_ret; intros j [= <-]. constructor. by apply Hl'.
Qed.

(** A plain value is always converted. *)
Lemma plain_converts i depth b X : plainBuilt depth b -> runs i (Host.builtToJSON depth b) is_Some X.
Proof.
  revert b. induction depth as [|depth IH]; intros b Hb; [done|]. cbn [Host.builtToJSON plainBuilt] in *. destruct b as [v|ms|l].
  - destruct v; by try apply spec_ret.
  - eapply (spec_bind _ _ _ _ is_Some); [|intros r [o ->]; by apply spec_ret]. generalize ([] : jobject) as acc.
    induction Hb as [|[name b] ms Hb _ IHms]; intros acc; [by apply spec_ret|].
    eapply spec_bind; [by apply IH|]. intros r [m ->]. apply IHms.
  - eapply (spec_bind _ _ _ _ is_Some); [|intros r [o ->]; by apply spec_ret].
    induction Hb as [|b l Hb _ IHl]; [by apply spec_ret|].
    eapply spec_bind; [by apply IH|]. intros r [m ->]. eapply spec_bind; [apply IHl|]. intros r [rest ->]. by apply spec_ret.
Qed.

End Conversion.

(** ** Remote objects are plain *)

Lemma plainBuilt_mono k k' b : (k <= k')%nat -> plainBuilt k b -> plainBuilt k' b.
Proof.
  revert k' b. induction k as [|k IH]; intros [|k'] b Hk; cbn [plainBuilt]; try done || lia.
  destruct b; intros Hb; [done|..]; (eapply Forall_impl; [exact Hb|]); intros x; apply IH; lia.
Qed.

Lemma plain_literal k ms : Forall (fun m => plainBuilt k m.2) ms -> plainBuilt (S k) (Literal ms).
Proof. done. Qed.

Lemma plain_elements {A} k (f : A -> built) l : Forall (fun a => plainBuilt k (f a)) l -> plainBuilt (S k) (Elements (map f l)).
Proof. intros Hl. by apply Forall_map. Qed.

Lemma plain_textual k v : textual v -> plainBuilt (S k) (Value v).
Proof. apply textual_plain. Qed.

Lemma plain_member {A} k name (f : A -> built) a :
  (forall x, a = Some x -> plainBuilt k (f x)) -> Forall (fun m => plainBuilt k m.2) (member name f a).
Proof. intros Hf. destruct a; [|constructor]. apply Forall_singleton. by apply Hf. Qed.

Lemma plain_subtype k t : Forall (fun m => plainBuilt (S k) m.2) (builtSubtype t).
Proof. by apply plain_member. Qed.

Lemma valueText_plain type v v' : valueText type v -> v = Some v' -> plainValue v'.
Proof. intros Hv ->. cbn in Hv. destruct Hv as [Hv|[_ [s ->]]]; [by destruct v'|done]. Qed.

Lemma preview_plain T k p : previewOk T k p -> plainBuilt (3 * k + 1) (builtPreview p).
Proof.
  revert p. induction k as [|k IH]; intros p; [done|]. destruct p as [type subtype description lossless overflow properties entries].
  intros (Hd & _ & _ & Hp & He). cbn in Hd, Hp, He. replace (3 * S k + 1)%nat with (S (S (S (S (3 * k))))) by lia. replace (3 * k + 1)%nat with (S (3 * k)) in IH by lia.
  cbn [builtPreview pv_type pv_subtype pv_description pv_lossless pv_overflow pv_properties pv_entries]. apply plain_literal.
  apply Forall_app. split; [|apply Forall_app; split; [apply plain_subtype|]].
  - do 4 (constructor; [first [done|by apply plain_textual]|]). constructor; [|constructor]. apply plain_elements. eapply Forall_impl; [exact Hp|].
    intros pp (Hn & Hv & Hs). apply plain_literal. apply Forall_app. split; [|apply Forall_app; split; [apply plain_subtype|apply Forall_app; split]].
    + do 2 (constructor; [first [done|by apply plain_textual]|]). constructor.
    + apply plain_member. intros v Ev. by eapply valueText_plain.
    + apply plain_member. intros q Eq. rewrite Eq in Hs. by apply IH.
  - apply plain_member. intros l ->. apply plain_elements. destruct He as [_ He]. eapply Forall_impl; [exact He|].
    intros ep [Hv Hk]. apply plain_literal, Forall_app. split; [apply Forall_singleton; by apply IH|].
    apply plain_member. intros q Eq. rewrite Eq in Hk. by apply IH.
Qed.

Lemma remoteObject_plain options r : forceValueType options = false -> remoteOk options 3 r -> plainBuilt 12 (builtRemoteObject r).
Proof.
  intros Hf (Hv & Hd & Hp & Hc). apply plain_literal. repeat (apply Forall_app; split); try (apply plain_member; done || idtac).
  - by apply Forall_singleton.
  - intros v Ev. specialize (Hv Hf). by rewrite Ev in Hv.
  - intros v Ev. rewrite Ev in Hd. by apply plain_textual.
  - intros p Ep. rewrite Ep in Hp. apply (plainBuilt_mono (3 * 3 + 1)); [lia|]. by eapply preview_plain.
  - intros c Ec. rewrite Ec in Hc. apply plain_literal, Forall_app. split; [|by apply plain_member].
    do 3 (constructor; [first [done|by apply plain_textual]|]). constructor.
Qed.

(** ** Calls *)

Section Calls.
Context {E : Type} {J : JSEngine E} {W : JSLaws E} (H : Prop) (n : nat) (R : E -> Prop) {L : JSLimits H n R}.

#[local] Abbreviation any := (fun _ => True).
#[local] Abbreviation runs i m Q X := (spec H (inv R i) m Q X).

#[local] Hint Resolve L run_any getNamed_any getIndex_any throwError_any stringOf_any toString_never : jspec.

Lemma wrap_plain i v g generate X :
  runs i (_wrapObject n v g (withPreview generate)) (fun r => plainBuilt 12 (builtRemoteObject r)) X.
Proof.
  eapply spec_mono; [apply (wrapObject_ok H n R)|..].
  - split; [by right|done].
  - intros r Hr. by apply (remoteObject_plain (withPreview generate)).
  - done.
Qed.

Lemma wrap_any i v g options : optionsOk options -> runs i (_wrapObject n v g options) any any.
Proof. intros Ho. eapply spec_mono; [by apply (wrapObject_ok H n R)|done..]. Qed.

Lemma withPreview_ok generate : optionsOk (withPreview generate).
Proof. split; [by right|done]. Qed.

Lemma plain_ok : optionsOk plain.
Proof. split; [by right|done]. Qed.
#[local] Hint Resolve wrap_any withPreview_ok plain_ok : jspec.

Lemma nullify_any i v : runs i (nullifyObjectProto v) any any.
Proof. unfold nullifyObjectProto. by jsteps. Qed.
#[local] Hint Resolve nullify_any : jspec.

Lemma evalParenthesized_any i t : runs i (evalParenthesized t) any any.
Proof. apply (run_any H n R). Qed.
#[local] Hint Resolve evalParenthesized_any : jspec.

Lemma parseObjectId_any i t : runs i (_parseObjectId t) any any.
Proof. unfold _parseObjectId. by jsteps. Qed.
#[local] Hint Resolve parseObjectId_any : jspec.

Lemma host_objectForId_any i id X : runs i (Host.objectForId id) any X.
Proof. apply spec_effect. intros s. unfold Host.objectForId. by destruct (Host.int32Value id). Qed.

Lemma groupName_any i id X : runs i (Host.idToObjectGroupName id) any X.
Proof. apply spec_effect. intros s. unfold Host.idToObjectGroupName. by destruct (Host.int32Value id). Qed.
#[local] Hint Resolve host_objectForId_any groupName_any : jspec.

Lemma own_any {A} i (f : InjectedState -> A) X : runs i (own f) any X.
Proof. by apply spec_own. Qed.

Lemma observe_any {A} i (f : E -> A) X : runs i (observe f) any X.
Proof. by apply spec_observe. Qed.
#[local] Hint Resolve own_any observe_any : jspec.

Lemma objectForId_any i v : runs i (_objectForId v) any any.
Proof. unfold _objectForId. by jsteps. Qed.
#[local] Hint Resolve objectForId_any : jspec.

Lemma resolve_any i t : runs i (resolve t) any any.
Proof. unfold resolve. by jsteps. Qed.
#[local] Hint Resolve resolve_any : jspec.

Lemma wrapOptional_any i g options v : optionsOk options -> runs i (wrapOptional n g options v) any any.
Proof. intros Ho. unfold wrapOptional. by jsteps. Qed.
#[local] Hint Resolve wrapOptional_any : jspec.

Lemma wrapDescriptor_any i g generate d : runs i (wrapDescriptor n g generate d) any any.
Proof. unfold wrapDescriptor. by jsteps. Qed.

Lemma mapJS_any {A B} i (f : A -> Injected E B) l : (forall a, runs i (f a) any any) -> runs i (mapJS f l) any any.
Proof. intros Hf. eapply spec_mono; [by apply (spec_mapJS _ _ _ _ any)|done..]. Qed.

(** What is not an empty text. *)
Definition answers (b : built) : Prop := b <> text [].

Lemma getProperties_answers i t own_ accessors generate : runs i (getProperties n t own_ accessors generate) answers any.
Proof.
  unfold getProperties. jsteps; try done.
  apply (spec_inLocal _ _ (fun _ => True) _ _ any); [done|].
  apply (propertyDescriptors_any H n R). intros d _. eapply (spec_bind _ _ _ _ any).
  - apply (lifted H R). apply wrapDescriptor_any.
  - intros wrapped _. eapply (spec_bind _ _ _ _ any); [by apply spec_setLocal|]. intros _ _. by apply spec_ret.
Qed.

Lemma wrapInternal_any i g p : runs i (wrapInternal n g p) any any.
Proof. unfold wrapInternal. by jsteps. Qed.

Lemma host_internal_any i v : runs i (Host.getInternalProperties v) any any.
Proof. unfold Host.getInternalProperties. by jsteps. Qed.
#[local] Hint Resolve host_internal_any : jspec.

Lemma getInternalProperties_answers i t : runs i (getInternalProperties n t) answers any.
Proof. unfold getInternalProperties. jsteps; try done. apply mapJS_any, wrapInternal_any. Qed.

Lemma createScopeJson_any i g scope : runs i (_createScopeJson n g scope) any any.
Proof. unfold _createScopeJson. by jsteps. Qed.

Lemma getFunctionDetails_answers i t : runs i (getFunctionDetails n t) answers any.
Proof. unfold getFunctionDetails. jsteps; try done. apply mapJS_any. intros a'. apply createScopeJson_any. Qed.

Lemma getGeneratorObjectDetails_answers i t : runs i (getGeneratorObjectDetails n t) answers any.
Proof. unfold getGeneratorObjectDetails, Host.generatorObjectDetails. by jsteps. Qed.

Lemma wrapEntry_any i g entry : runs i (wrapEntry n g entry) any any.
Proof. unfold wrapEntry. by jsteps. Qed.

Lemma getCollectionEntries_answers i t : runs i (getCollectionEntries n t) answers any.
Proof. unfold getCollectionEntries, Host.collectionEntries. jsteps; try done. all: apply mapJS_any; intros a'; apply wrapEntry_any. Qed.

Lemma callFrameProxy_any i frames asyncOrdinal ordinal frame : runs i (callFrameProxy n frames asyncOrdinal ordinal frame) any any.
Proof. unfold callFrameProxy. jsteps; try done. apply mapJS_any. intros scope. apply createScopeJson_any. Qed.

Lemma wrapFrames_any i frames asyncOrdinal depth l : runs i (wrapFrames n frames asyncOrdinal depth l) any any.
Proof.
  revert depth. induction l as [|frame l IH]; intros depth; cbn [wrapFrames]; [by jsteps|].
  eapply spec_bind; [apply callFrameProxy_any|]. intros proxy _. eapply spec_bind; [apply IH|]. intros rest _. by jsteps.
Qed.

Lemma wrapCallFrames_answers i frames asyncOrdinal : runs i (wrapCallFrames n frames asyncOrdinal) answers any.
Proof.
  unfold wrapCallFrames. destruct frames; [|by jsteps]. eapply spec_bind; [apply wrapFrames_any|]. intros l _. by jsteps.
Qed.

Lemma toNumber_any i v : runs i (toNumber v) any any.
Proof. unfold toNumber. by jsteps. Qed.
#[local] Hint Resolve toNumber_any : jspec.

Lemma callFrameForParsedId_any i top parsed async : runs i (_callFrameForParsedId top parsed async) any any.
Proof. unfold _callFrameForParsedId. by jsteps. Qed.
#[local] Hint Resolve callFrameForParsedId_any : jspec.

Lemma callFrameForId_any i top t : runs i (_callFrameForId top t) any any.
Proof. unfold _callFrameForId. by jsteps. Qed.
#[local] Hint Resolve callFrameForId_any : jspec.

Lemma restartFrame_answers i top t : runs i (restartFrame top t) answers any.
Proof.
  unfold restartFrame. jstep. destruct a as [[frames k]|]; [|by jsteps].
  eapply (spec_bind _ _ _ _ (fun v => forall s, v <> JSString s)).
  - apply (spec_run H n R); [|done]. intros e v e'. apply restart_object.
  - intros v Hv. apply spec_ret. destruct (strictlyEqual v (JSBoolean false)); [done|]. intros [= Ht]. by apply (Hv []).
Qed.

Lemma getStepInPositions_answers i top t : runs i (getStepInPositions top t) answers any.
Proof.
  unfold getStepInPositions. jstep. destruct a as [[frames k]|]; [|by jsteps]. do 2 jstep.
  eapply (spec_bind _ _ _ _ (fun b => b = true -> forall s, a0 <> JSString s)).
  - apply spec_observe. intros e Ht s ->. done.
  - intros b Hb. apply spec_ret. destruct b; [|done]. intros [= Ht]. by apply (Hb eq_refl []).
Qed.

Lemma resolveCallArgument_any i v : runs i (_resolveCallArgument v) any any.
Proof. unfold _resolveCallArgument. jsteps; try done. Qed.
#[local] Hint Resolve resolveCallArgument_any : jspec.

Lemma setFunctionVariableValue_any i f k name v : runs i (Host.setFunctionVariableValue f k name v) any any.
Proof. unfold Host.setFunctionVariableValue. by jsteps. Qed.
#[local] Hint Resolve setFunctionVariableValue_any : jspec.

Lemma setVariableValue_any i top f k name v X : runs i (setVariableValue top f k name v) any X.
Proof. unfold setVariableValue. jsteps; done. Qed.

(** ** Evaluation *)

(** The script's state after an evaluation for a group: only [_lastResult] can be another
    one, and only for the console. *)
Definition after (group : ustring) (i j : InjectedState) : Prop :=
  j = i \/ isConsole group = true /\ exists v, j = i <| lastResult := v |>.

Definition alive (group : ustring) (i : InjectedState) (s : E * InjectedState) : Prop :=
  exists j : InjectedState, after group i j /\ inv R j s.

Section Evaluation.
Context (group : ustring) (i : InjectedState).

#[local] Abbreviation evaluates m Q X := (spec H (alive group i) m Q X).

Lemma evaluates_of {A} (m : Injected E A) Q X : (forall j, runs j m Q X) -> evaluates m Q X.
Proof. intros Hm. apply (spec_exists _ (fun j s => after group i j /\ inv R j s)). intros j s [Ha Hs]. eapply wpj_mono; [by apply Hm|naive_solver..]. Qed.
#[local] Hint Resolve evaluates_of : jspec.

Lemma inScopes_any j name scopes : runs j (inScopes name scopes) any any.
Proof. induction scopes as [|[k scope] scopes IH]; cbn [inScopes]; jsteps; done. Qed.
#[local] Hint Resolve inScopes_any : jspec.

Lemma inScopeVariables_any j callFrame name : runs j (inScopeVariables callFrame name) any any.
Proof. unfold inScopeVariables. jsteps; done. Qed.
#[local] Hint Resolve inScopeVariables_any : jspec.

Lemma commandLineAPI_any j callFrame : runs j (commandLineAPI callFrame) any any.
Proof. unfold commandLineAPI. jsteps; try done. apply mapJS_any. intros name. jsteps; done. Qed.

Lemma deleteQuietly_never j name X : runs j (deleteQuietly name) any X.
Proof. unfold deleteQuietly. jsteps; done. Qed.
#[local] Hint Resolve commandLineAPI_any deleteQuietly_never : jspec.

Lemma setLast_ok v X : isConsole group = true -> evaluates (setOwn (fun j => j <| lastResult := v |>)) any X.
Proof.
  intros Hg [e j'] (j & Ha & Hr & Hj). split; [|done]. exists (j <| lastResult := v |>). split; [|split; [done|cbn in *; by subst]].
  right. split; [done|]. exists v. destruct Ha as [->|[_ [v' ->]]]; [done|]. by destruct i.
Qed.

Lemma evaluateOn_any callFrame expression inject scopeChain :
  evaluates (_evaluateOn callFrame group expression inject scopeChain) any any.
Proof.
  unfold _evaluateOn. eapply (spec_bind _ _ _ _ any); [jsteps; done|]. intros extension _.
  eapply (spec_bind _ _ _ _ any); [jsteps; done|]. intros api _. eapply (spec_bind _ _ _ _ any); [jsteps; done|]. intros scopes _.
  apply (spec_tryFinally _ _ _ _ any).
  - eapply (spec_bind _ _ _ _ any); [jsteps; done|]. intros _ _. eapply (spec_bind _ _ _ _ any); [jsteps; done|]. intros _ _. cbv zeta.
    jstep. eapply (spec_bind _ _ _ _ any); [|intros _ _; by jstep]. apply spec_when; [|done]. intros Hc.
    apply andb_prop in Hc as [Hc _]. by apply setLast_ok.
  - eapply (spec_bind _ _ _ _ any); [jsteps; done|]. intros _ _. jsteps; done.
Qed.

(** A result of an evaluation: an error, a value, or an exception, with its details where
    they are expected. *)
Definition evaluated (details : bool) (b : built) : Prop :=
  (exists t, b = text t /\ t <> []) \/
  (exists r, b = returned r) \/
  (exists r d, b = Literal [(u "wasThrown", flag true); (u "result", builtRemoteObject r); (u "exceptionDetails", d)] /\
    (d = Value JSUndefined \/ details = true /\ exists m, d = Host.createExceptionDetails m)).

Lemma createThrownValue_ok j v g generate d X :
  runs j (_createThrownValue n v g generate d)
    (fun b => exists r, b = Literal [(u "wasThrown", flag true); (u "result", builtRemoteObject r); (u "exceptionDetails", d)]) X.
Proof.
  unfold _createThrownValue. jstep. eapply (spec_bind _ _ _ _ any); [eapply spec_mono; [by apply wrap_plain|done..]|]. intros r _.
  jstep. eapply (spec_bind _ _ _ _ any); [|intros description _; apply spec_ret; by eexists].
  destruct (a0 : bool); [by jstep|]. eapply (spec_tryCatch _ _ _ _ _ _ any); [|intros; by jstep].
  eapply spec_bind; [by apply (toStringDescription_never H n R _ _ any)|]. intros t _. by jstep.
Qed.

Lemma evaluateAndWrap_ok callFrame expression inject returnByValue generate scopeChain :
  evaluates (_evaluateAndWrap n callFrame expression group inject returnByValue generate scopeChain) (evaluated true) any.
Proof.
  unfold _evaluateAndWrap. eapply spec_bind; [apply evaluateOn_any|]. intros [v [message|]] _; cbn [fst snd].
  - apply evaluates_of. intros j. eapply spec_mono; [apply (createThrownValue_ok _ _ _ _ _ any)| |done].
    intros b [r ->]. right. right. eexists _, _. split; [done|]. right. split; [done|]. by eexists.
  - apply evaluates_of. intros j. eapply (spec_bind _ _ _ _ any); [apply wrap_any; split; [by right|done]|].
    intros r _. apply spec_ret. right. left. by eexists.
Qed.

Lemma evaluate_ok expression inject returnByValue generate :
  evaluates (evaluate n expression group inject returnByValue generate) (evaluated true) any.
Proof. apply evaluateAndWrap_ok. Qed.

Lemma evaluateOnCallFrame_ok top async callFrameId expression inject returnByValue generate :
  evaluates (evaluateOnCallFrame n top async callFrameId expression group inject returnByValue generate) (evaluated true) any.
Proof.
  unfold evaluateOnCallFrame. do 3 jstep. destruct a1 as [[frames k]|]; [|apply spec_ret; left; by eexists].
  do 2 jstep. destruct (a2 : bool); [jstep|]; apply evaluateAndWrap_ok.
Qed.

End Evaluation.

Lemma resolveArguments_any i m k callArgs : Z.of_nat m + k = Z.of_nat n -> runs i (resolveArguments m k callArgs) any any.
Proof.
  revert k. induction m as [|m IH]; intros k Hk; cbn [resolveArguments];
    (eapply spec_bind; [apply (length_any H n R)|]); intros l Hl; (eapply spec_bind; [by apply (lessThan_limit H n R)|]); intros [|] Hm; cbn [negb]; try (by apply spec_ret).
  - apply spec_hang, Hm; [done|lia].
  - jstep. eapply (spec_bind _ _ _ _ any); [jsteps; done|]. intros [v|t] _; [|by jstep].
    eapply spec_bind; [apply IH; lia|]. intros rest _. by jstep.
Qed.

(** The text of what resolving an argument threw can be empty. *)
Lemma callFunctionOn_ok i objectId expression arguments returnByValue :
  runs i (callFunctionOn n objectId expression arguments returnByValue) (fun b => evaluated false b \/ b = text []) any.
Proof.
  unfold callFunctionOn. do 3 jstep. destruct (a1 : bool); cbn [negb]; [|apply spec_ret; left; left; by eexists].
  eapply (spec_bind _ _ _ _ any); [destruct arguments; [by jstep|]; jstep; apply resolveArguments_any; lia|].
  intros [args|error] _; [|apply spec_ret; destruct error; [by right|left; left; by eexists]]. do 2 jstep.
  apply (spec_tryFinally _ _ _ _ any); [|apply deleteQuietly_never]. jstep.
  - do 3 jstep. destruct (a6 : bool); cbn [negb]; [|apply spec_ret; left; left; by eexists]. jstep.
    eapply (spec_bind _ _ _ _ any); [apply wrap_any; split; [by right|done]|]. intros r _. apply spec_ret. left. right. left. by eexists.
  - eapply spec_mono; [apply (createThrownValue_ok _ _ _ _ _ any)| |done]. intros b [r ->]. left. right. right. eexists _, _. split; [done|by left].
Qed.

End Calls.
