(* ===== verification/World.v ===== *)
(** * The state of the inspector

    The fields of the classes that the debugger is made of, as one record per
    class, and [World], everything a method can read or change:

    - [Agent]: [core/inspector/InspectorDebuggerAgent.h], with the frontend pointer
      of its base class and the address of its [InspectorState];
    - [V8Debugger]: [bindings/core/v8/V8Debugger.h];
    - [WorkerThreadDebugger]: its client, with the message loop that runs while
      the program is paused;
    - [InjectedScriptManager]: [core/inspector/InjectedScriptManager.h];
    - [RuntimeAgent]: [core/inspector/InspectorRuntimeAgent.h];
    - [PromiseTracker]: [core/inspector/PromiseTracker.h]. *)

From S2P Require Import Prelude Platform WTFString JSONValues InspectorState ContentSearch Engine NativeObjects.

(** ** The debugger agent *)

Inductive BreakpointSource := UserBreakpointSource | DebugCommandBreakpointSource | MonitorCommandBreakpointSource.
Inductive DebuggerStep := NoStep | StepInto | StepOver | StepOut.
Inductive Reason :=
  | XHR | DOM | EventListener | Exception | Assert | CSPViolation | DebugCommand | PromiseRejection
  | AsyncOperation | Other.

#[export] Instance BreakpointSource_eq_dec : EqDecision BreakpointSource.
Proof. solve_decision. Defined.
#[export] Instance DebuggerStep_eq_dec : EqDecision DebuggerStep.
Proof. solve_decision. Defined.
#[export] Instance Reason_eq_dec : EqDecision Reason.
Proof. solve_decision. Defined.

Record ScriptBreakpoint := mkBreakpoint {
  b_lineNumber : Z;
  b_columnNumber : Z;
  b_condition : ustring;
}.

(** [AsyncCallStack], and [AsyncCallChain]: its [m_callStacks], never changed
    after the constructor. *)
Record AsyncCallStack := mkAsyncCallStack {
  description : ustring;
  callFrames : CallFrames;
}.

Abbreviation AsyncCallChain := (list AsyncCallStack).

Record PromiseTracker := mkPromiseTracker {
  m_circularSequentialId : Z;
  m_isEnabled : bool;
  m_captureStacks : bool;
  m_promiseToId : gmap Z Z;
  m_idToPromise : gmap Z Z;
}.

#[export] Instance PromiseTracker_fields : Fields PromiseTracker := fun r =>
  mkPromiseTracker (m_circularSequentialId r) (m_isEnabled r) (m_captureStacks r) (m_promiseToId r) (m_idToPromise r).

(** The pointers [m_listener] and [m_asyncCallTrackingListeners] are left out:
    nothing in the program sets them. *)
Record Agent := mkAgent {
  m_frontend : bool;
  m_state : nat;
  m_pausedScriptState : option ScriptState;
  m_currentCallStack : option CallFrames;
  m_scripts : gmap ustring Script;
  m_breakpointIdToDebuggerBreakpointIds : gmap ustring (list ustring);
  m_serverBreakpoints : gmap ustring (ustring * BreakpointSource);
  m_continueToLocationBreakpointId : ustring;
  m_breakReason : Reason;
  m_breakAuxData : option jobject;
  m_scheduledDebuggerStep : DebuggerStep;
  m_skipNextDebuggerStepOut : bool;
  m_javaScriptPauseScheduled : bool;
  m_steppingFromFramework : bool;
  m_pausingOnNativeEvent : bool;
  m_pausingOnAsyncOperation : bool;
  m_skippedStepFrameCount : Z;
  m_recursionLevelForStepOut : Z;
  m_recursionLevelForStepFrame : Z;
  m_skipAllPauses : bool;
  m_skipContentScripts : bool;
  m_cachedSkipStackRegExp : option ScriptRegexp;
  m_cachedSkipStackGeneration : Z;
  m_promiseTracker : PromiseTracker;
  m_editedScripts : gmap ustring ustring;
  m_asyncOperations : gmap Z (option AsyncCallChain);
  m_lastAsyncOperationId : Z;
  m_asyncOperationNotifications : list Z;
  m_asyncOperationBreakpoints : gset Z;
  m_pausingAsyncOperations : gset Z;
  m_maxAsyncCallStackDepth : Z;
  m_currentAsyncCallChain : option AsyncCallChain;
  m_nestedAsyncCallCount : Z;
  m_currentAsyncOperationId : Z;
  m_pendingTraceAsyncOperationCompleted : bool;
  m_startingStepIntoAsync : bool;
  m_compiledScripts : gset ustring;
  (** [V8AsyncCallTracker::m_contextAsyncOperationMap] *)
  m_contextAsyncOperationMap : gmap ScriptState (gmap ustring Z);
}.

#[export] Instance Agent_fields : Fields Agent := fun r =>
  mkAgent (m_frontend r) (m_state r) (m_pausedScriptState r) (m_currentCallStack r) (m_scripts r)
    (m_breakpointIdToDebuggerBreakpointIds r) (m_serverBreakpoints r)
    (m_continueToLocationBreakpointId r) (m_breakReason r) (m_breakAuxData r)
    (m_scheduledDebuggerStep r) (m_skipNextDebuggerStepOut r) (m_javaScriptPauseScheduled r)
    (m_steppingFromFramework r) (m_pausingOnNativeEvent r) (m_pausingOnAsyncOperation r)
    (m_skippedStepFrameCount r) (m_recursionLevelForStepOut r) (m_recursionLevelForStepFrame r)
    (m_skipAllPauses r) (m_skipContentScripts r) (m_cachedSkipStackRegExp r)
    (m_cachedSkipStackGeneration r) (m_promiseTracker r) (m_editedScripts r) (m_asyncOperations r)
    (m_lastAsyncOperationId r) (m_asyncOperationNotifications r) (m_asyncOperationBreakpoints r)
    (m_pausingAsyncOperations r) (m_maxAsyncCallStackDepth r) (m_currentAsyncCallChain r)
    (m_nestedAsyncCallCount r) (m_currentAsyncOperationId r) (m_pendingTraceAsyncOperationCompleted r)
    (m_startingStepIntoAsync r) (m_compiledScripts r) (m_contextAsyncOperationMap r).

(** ** V8Debugger and its client *)

(** The variables of the debugger script. *)
Record DebuggerScript := mkDebuggerScript { _pauseOnExceptionsState : Z }.

(** [m_debuggerScript] is empty while the debugger is disabled.  An execution
    state is a handle that only V8 looks into. *)
Record V8Debugger := mkV8Debugger {
  m_breakpointsActivated : bool;
  m_debuggerScript : option DebuggerScript;
  m_executionState : bool;
  vd_pausedScriptState : option ScriptState;
  m_runningNestedMessageLoop : bool;
}.

(** [m_listener] is the agent or null; [m_quit] is [quitNow] having been called
    on the message loop that runs. *)
Record WorkerThreadDebugger := mkWorkerThreadDebugger {
  m_listener : bool;
  m_quit : bool;
}.

(** The copies of an injected script share its [InjectedScriptNative], which is
    found under the number [is_native]. *)
Record InjectedScript := mkInjectedScript {
  is_scriptState : ScriptState;
  is_empty : bool;
  is_native : Z;
}.

Record InjectedScriptManager := mkInjectedScriptManager {
  m_nextInjectedScriptId : Z;
  m_idToInjectedScript : gmap Z InjectedScript;
  m_scriptStateToId : gmap ScriptState Z;
  m_customObjectFormatterEnabled : bool;
  natives : gmap Z InjectedScriptNative;
}.

(** ** The runtime agent *)

Record RuntimeAgent := mkRuntimeAgent {
  rt_enabled : bool;
  rt_state : nat;
  rt_scriptStateToId : gmap ScriptState Z;
}.

#[export] Instance RuntimeAgent_fields : Fields RuntimeAgent := fun r =>
  mkRuntimeAgent (rt_enabled r) (rt_state r) (rt_scriptStateToId r).

(** ** Calls that wait

    The calls on the stack of the inspector's thread that wait for something: the
    message loop of a pause for the command that ends it, the others for
    JavaScript to return.  They hold what JavaScript was asked to do and the local
    variables that are used after it. *)

(** The functions of the injected script that run code of the program. *)
Inductive EvaluationCall :=
  | CallEvaluate (expression objectGroup : ustring) (includeCommandLineAPI returnByValue generatePreview : bool)
  | CallFunctionOn (objectId expression arguments : ustring) (returnByValue generatePreview : bool)
  | CallEvaluateOnCallFrame (callFrames : option CallFrames) (asyncCallStacks : list (option CallFrames))
      (callFrameId expression objectGroup : ustring) (includeCommandLineAPI returnByValue generatePreview : bool).

Inductive Activation :=
  | PauseMessageLoop
  (** [InspectorDebuggerAgent::evaluateOnCallFrame], [compileScript], [runScript] *)
  | EvaluatingOnCallFrame (injectedScript : InjectedScript) (call : EvaluationCall)
      (previousPauseOnExceptionsState : Z) (doNotPauseOnExceptionsAndMuteConsole : bool)
  | CompilingScript (scriptState : ScriptState) (expression url : ustring) (persistScript : bool)
  | RunningScript (injectedScript : InjectedScript) (scriptId objectGroup : ustring)
      (previousPauseOnExceptionsState : Z) (doNotPauseOnExceptionsAndMuteConsole : bool)
  (** [InspectorRuntimeAgent::evaluate] and [callFunctionOn] *)
  | RuntimeEvaluating (injectedScript : InjectedScript) (call : EvaluationCall)
      (previousPauseOnExceptionsState : Z) (doNotPauseOnExceptionsAndMuteConsole : bool).

(** ** Everything *)

(** [inspectedContext] is the context that the agents were created in, and
    [startupPaused] the flag of [V8Inspector] that the program waits to be
    started; [channelOpen] is whether the frontend has a channel to send through,
    and [notifications] what was sent, in order. *)
Record World (E : Type) := mkWorld {
  agent : Agent;
  runtime : RuntimeAgent;
  vd : V8Debugger;
  wtd : WorkerThreadDebugger;
  ism : InjectedScriptManager;
  composite : InspectorCompositeState;
  engine : E;
  activations : list Activation;
  inspectedContext : ScriptState;
  startupPaused : bool;
  channelOpen : bool;
  notifications : list jobject;
}.
Arguments mkWorld {E}.
Arguments agent {E}.
Arguments runtime {E}.
Arguments activations {E}.
Arguments inspectedContext {E}.
Arguments startupPaused {E}.
Arguments vd {E}.
Arguments wtd {E}.
Arguments ism {E}.
Arguments composite {E}.
Arguments engine {E}.
Arguments channelOpen {E}.
Arguments notifications {E}.

#[export] Instance V8Debugger_fields : Fields V8Debugger := fun r =>
  mkV8Debugger (m_breakpointsActivated r) (m_debuggerScript r) (m_executionState r) (vd_pausedScriptState r)
    (m_runningNestedMessageLoop r).
#[export] Instance WorkerThreadDebugger_fields : Fields WorkerThreadDebugger := fun r =>
  mkWorkerThreadDebugger (m_listener r) (m_quit r).
#[export] Instance InjectedScriptManager_fields : Fields InjectedScriptManager := fun r =>
  mkInjectedScriptManager (m_nextInjectedScriptId r) (m_idToInjectedScript r) (m_scriptStateToId r)
    (m_customObjectFormatterEnabled r) (natives r).
#[export] Instance World_fields {E} : Fields (World E) := fun r =>
  mkWorld (agent r) (runtime r) (vd r) (wtd r) (ism r) (composite r) (engine r) (activations r) (inspectedContext r)
    (startupPaused r) (channelOpen r) (notifications r).

(** ** Access *)

Section Access.
Context {E : Type}.

Definition getAgent {A} (f : Agent -> A) : M (World E) A := gets (fun w => f (agent w)).
Definition setAgent (f : Agent -> Agent) : M (World E) unit := modify (fun w => w <| agent := f (agent w) |>).
Definition getVD {A} (f : V8Debugger -> A) : M (World E) A := gets (fun w => f (vd w)).
Definition setVD (f : V8Debugger -> V8Debugger) : M (World E) unit := modify (fun w => w <| vd := f (vd w) |>).
Definition setEngine (f : E -> E) : M (World E) unit := modify (fun w => w <| engine := f (engine w) |>).
Definition runEngine {A} (f : E -> A * E) : M (World E) A := fun w =>
  let '(a, e) := f (engine w) in Done (a, w <| engine := e |>).

End Access.
