(* ===== verification/ScriptEngine.v ===== *)
(** * The engine with the injected script in it

    [Engine] leaves open what the functions of the injected script answer.  Here V8 is
    taken with [InjectedScriptSource.js] as [InjectedObjects] and [InjectedCalls] model
    it: each context has a script with a state of its own, and [ScriptFunctionCall.cpp]
    and [ScriptValue.cpp] take its results to the inspector.  What the inspector expects of
    the script is proved of it. *)

From S2P Require Import Prelude Platform WTFString JSONValues Engine JSValues InjectedHost InjectedObjects InjectedCalls JSRules InjectedFacts InjectedCallFacts World.

Section ScriptEngine.
Context {E : Type} {V : V8Engine E} (J : ScriptState -> JSEngine E) (n : nat).

(** V8, and the state of the injected script of each context that has one. *)
Abbreviation Isolated := (E * gmap ScriptState InjectedState)%type.

Definition newScript (injectedScriptId : Z) : InjectedState := mkInjectedState injectedScriptId JSUndefined false 0.

Definition scriptOf (s : ScriptState) (w : Isolated) : InjectedState := default (newScript 0) (w.2 !! s).

Definition put (s : ScriptState) (r : E * InjectedState) (w : Isolated) : Isolated := (r.1, <[s := r.2]> w.2).

Definition callScript {A B} (s : ScriptState) (m : Injected E A) (f : completion A -> E -> B) (w : Isolated) : JS (B * Isolated) :=
  JSthen (m (w.1, scriptOf s w)) (fun r => JSReturn (f r.1 r.2.1, put s r.2 w)).

(** [ScriptFunctionCall::call]: an exception leaves the text of its message.  Code that
    does not end is terminated by V8, which leaves none. *)
Definition resultOf (s : ScriptState) (c : completion (option JSONValue)) (e : E) : CallResult :=
  match c with
  | Normal j => CallReturned j
  | Throws v => CallThrew (@messageText E (J s) v e)
  | Hangs => CallThrew None
  end.

Definition asJSON (s : ScriptState) (m : Injected E built) : Injected E (option JSONValue) :=
  b ← m; @Host.toJSONValue E (J s) b.

(** The function of the script that a call is for. *)
Definition functionFor (s : ScriptState) (c : InjectedCall) : Injected E built :=
  let j := J s in
  match c with
  | CallRestartFrame frames id => Calls.restartFrame frames id
  | CallGetStepInPositions frames id => Calls.getStepInPositions frames id
  | CallSetVariableValue frame functionId k name value => Calls.setVariableValue frame functionId k name value
  | CallGetFunctionDetails id => Calls.getFunctionDetails n id
  | CallGetGeneratorObjectDetails id => Calls.getGeneratorObjectDetails n id
  | CallGetCollectionEntries id => Calls.getCollectionEntries n id
  | CallGetProperties id ownProperties accessors generate => Calls.getProperties n id ownProperties accessors generate
  | CallGetInternalProperties id => Calls.getInternalProperties n id
  | CallClearLastEvaluationResult => Calls.clearLastEvaluationResult;; mret (Value JSUndefined)
  | CallSetCustomObjectFormatterEnabled enabled => Calls.setCustomObjectFormatterEnabled enabled;; mret (Value JSUndefined)
  end.

Definition evaluationFor (s : ScriptState) (c : EvaluationCall) : Injected E built :=
  let j := J s in
  match c with
  | CallEvaluate expression group api byValue generate => Calls.evaluate n expression group api byValue generate
  | CallFunctionOn id expression arguments byValue _ => Calls.callFunctionOn n id expression arguments byValue
  | CallEvaluateOnCallFrame frames async id expression group api byValue generate =>
      Calls.evaluateOnCallFrame n frames async id expression group api byValue generate
  end.

Definition call (s : ScriptState) (c : InjectedCall) : Isolated -> JS (CallResult * Isolated) :=
  callScript s (asJSON s (functionFor s c)) (resultOf s).

Definition evaluation (s : ScriptState) (c : EvaluationCall) : Isolated -> JS (CallResult * Isolated) :=
  callScript s (asJSON s (evaluationFor s c)) (resultOf s).

Definition wrapObject (s : ScriptState) (value : Z) (groupName : ustring) : Isolated -> JS (option jobject * Isolated) :=
  let j := J s in
  callScript s (asJSON s (r ← Source.wrapObject n (numberedValue value) groupName true false; mret (builtRemoteObject r)))
    (fun c _ => match c with Normal (Some (JSONObject o)) => Some o | _ => None end).

Definition wrapCallFrames (s : ScriptState) (frames : option CallFrames) (asyncOrdinal : Z) : Isolated -> JS (option JSONValue * Isolated) :=
  let j := J s in
  callScript s (asJSON s (Calls.wrapCallFrames n frames asyncOrdinal)) (fun c _ => match c with Normal r => r | _ => None end).

(** [InjectedScriptManager::createInjectedScript] has the script started anew. *)
Definition createScript (s : ScriptState) (id : Z) (w : Isolated) : bool * Isolated :=
  let '(ok, e) := createInjectedScript s id w.1 in (ok, if ok : bool then put s (e, newScript id) w else (e, w.2)).

#[local] Abbreviation onE f := (fun w : Isolated => (f w.1, w.2)).

Definition scriptEngine : V8Engine Isolated := {|
  setScriptBreakPointById s l c k b w := let '(r, e) := setScriptBreakPointById s l c k b w.1 in (r, (e, w.2));
  findBreakPointActualLocations b w := findBreakPointActualLocations b w.1;
  findBreakPoint_remove b := onE (findBreakPoint_remove b);
  clearAllBreakPoints := onE clearAllBreakPoints;
  breakPointsActive_setValue b := onE (breakPointsActive_setValue b);
  setBreakOnException b := onE (setBreakOnException b);
  setBreakOnUncaughtException b := onE (setBreakOnUncaughtException b);
  setDebugBreak b := onE (setDebugBreak b);
  checkDebugBreak w := checkDebugBreak w.1;
  inContext w := inContext w.1;
  currentContext w := currentContext w.1;
  hasStackTrace w := hasStackTrace w.1;
  execFrames w := execFrames w.1;
  currentStackTrace k w := currentStackTrace k w.1;
  recursionLevel w := recursionLevel w.1;
  contextIsValid s w := contextIsValid s w.1;
  prepareStep a := onE (prepareStep a);
  clearSteppingV8 := onE clearSteppingV8;
  debuggerScriptCompiles w := debuggerScriptCompiles w.1;
  currentTimeMS w := currentTimeMS w.1;
  creationContext o w := creationContext o w.1;
  debugScripts w := debugScripts w.1;
  liveEditScriptSource s t b w := let '(r, e) := liveEditScriptSource s t b w.1 in (r, (e, w.2));
  createInjectedScript := createScript;
  injectedWrapCallFrames := wrapCallFrames;
  injectedWrapObject := wrapObject;
  injectedCall := call;
|}.

(** ** Calls *)

Lemma callScript_all {A B} (H : Prop) s (m : Injected E A) (f : completion A -> E -> B) w (T : B * Isolated -> Prop) :
  wpj H m (fun a r => T (f (Normal a) r.1, put s r w)) (fun v r => T (f (Throws v) r.1, put s r w)) (w.1, scriptOf s w) ->
  (H -> forall r, T (f Hangs r.1, put s r w)) -> JSall T (callScript s m f w).
Proof.
  intros Hm Hh. apply JSall_then. eapply JSall_mono; [exact Hm|]. intros [[a|v|] r] Hr; cbn in *; auto.
Qed.

(** ** Any state of the script *)

Definition keeping (R : E -> Prop) (s : E * InjectedState) : Prop := R s.1.

Lemma spec_always {A} (H : Prop) (R : E -> Prop) (m : Injected E A) Q X : (forall i, spec H (inv R i) m Q X) -> spec H (keeping R) m Q X.
Proof. intros Hm s Hs. eapply wpj_mono; [by apply (Hm s.2)|..]; by intros a s' [[? _] ?]. Qed.

Lemma callScript_spec {A B} (H : Prop) (R : E -> Prop) s (m : Injected E A) (f : completion A -> E -> B) w Q X (T : B -> Prop) :
  spec H (keeping R) m Q X -> R w.1 -> (forall a e, Q a -> T (f (Normal a) e)) -> (forall v e, X v -> T (f (Throws v) e)) ->
  (H -> forall e, T (f Hangs e)) -> (H -> forall e, R e) -> JSall (fun r => R r.2.1 /\ T r.1) (callScript s m f w).
Proof.
  intros Hm HR HQ HX Hh HH. apply (callScript_all H); [|intros h r; split; [by apply HH|by apply Hh]].
  eapply wpj_mono; [by apply Hm|intros a r [? Ha]|intros v r [? Hv]]; (split; [done|]); [by apply HQ|by apply HX].
Qed.

Section Rules.
Context {W : forall s, @JSLaws E (J s)} (H : Prop) (R : E -> Prop) {L : forall s, @JSLimits E (J s) H n R}.

(** The result of a function, as JSON. *)
Lemma asJSON_spec s m Q X :
  spec H (keeping R) m Q X ->
  spec H (keeping R) (asJSON s m) (fun r => exists b, Q b /\ forall j, r = Some j -> becomes b j) X.
Proof.
  intros Hm. eapply spec_bind; [exact Hm|]. intros b Hb. apply spec_always. intros i.
  eapply spec_mono; [apply (@builtToJSON_becomes E (J s) H n R (L s) i _ b X)| |done]. intros r Hr. by exists b.
Qed.

Lemma functionFor_spec s c : spec H (keeping R) (functionFor s c) (fun b => definite c = true -> answers b) (fun _ => True).
Proof.
  destruct c; cbn [functionFor definite].
  9, 10: by (intros r Hr; split; [exact Hr|intros _]).
  3: { apply spec_always. intros i. eapply spec_mono; [by apply (@setVariableValue_any E (J s) H n R (L s) i _ _ _ _ _ (fun _ => True))|done..]. }
  all: apply spec_always; intros i; eapply spec_mono; [|by intros b Hb _; exact Hb|done].
  - by eapply (@restartFrame_answers E (J s) (W s) H n R (L s)).
  - by eapply (@getStepInPositions_answers E (J s) H n R (L s)).
  - by eapply (@getFunctionDetails_answers E (J s) (W s) H n R (L s)).
  - by eapply (@getGeneratorObjectDetails_answers E (J s) (W s) H n R (L s)).
  - by eapply (@getCollectionEntries_answers E (J s) (W s) H n R (L s)).
  - by eapply (@getProperties_answers E (J s) (W s) H n R (L s)).
  - by eapply (@getInternalProperties_answers E (J s) (W s) H n R (L s)).
Qed.

(** [wrapObject] of the script describes any value. *)
Lemma wrapObject_spec s v g generate :
  spec H (keeping R) (asJSON s (r ← @Source.wrapObject E (J s) n v g true generate; mret (builtRemoteObject r)))
    (fun r => exists o, r = Some (JSONObject o)) (fun _ => False).
Proof.
  apply spec_always. intros i. eapply (spec_bind _ _ _ _ (fun b => plainBuilt 12 b /\ exists ms, b = Literal ms)).
  - eapply spec_bind; [by apply (@wrap_plain E (J s) (W s) H n R (L s) i v (Some g) generate (fun _ => False))|].
    intros r Hr. apply spec_ret. split; [done|]. by eexists.
  - intros b [Hp [ms ->]] st Hs. unfold Host.toJSONValue.
    assert (12 <= Host.maxDepth)%nat as Hd by (apply Nat.leb_le; reflexivity). revert Hd. generalize Host.maxDepth as depth. intros depth Hd.
    pose proof (plain_converts (J := J s) H R i depth (Literal ms) (fun _ => False) (plainBuilt_mono 12 depth _ Hd Hp) st Hs) as H1.
    pose proof (builtToJSON_becomes (J := J s) H n R i depth (Literal ms) (fun _ => False) st Hs) as H2.
    unfold wpj in *. revert H1 H2. generalize (Host.builtToJSON (J := J s) depth (Literal ms) st) as t.
    induction t as [[[r|v'|] s']|v' g' k IH|id k IH|id k IH]; cbn; intros H1 H2; auto.
    destruct H1 as [? [j ->]], H2 as [_ Hb]. split; [done|]. specialize (Hb j eq_refl). inversion Hb; subst. by eexists.
Qed.

Lemma wrapCallFrames_spec s frames asyncOrdinal :
  spec H (keeping R) (asJSON s (@Calls.wrapCallFrames E (J s) n frames asyncOrdinal)) (fun _ => True) (fun _ => True).
Proof.
  eapply spec_mono; [apply asJSON_spec, spec_always; intros i; apply (@wrapCallFrames_answers E (J s) (W s) H n R (L s))|done..].
Qed.

End Rules.

(** ** The engine is one that the inspector can rely on *)

Section Laws.
Context {VL : V8Laws E} {W : forall s, @JSLaws E (J s)} {L : forall s, @JSLimits E (J s) False n (fun _ => True)}.
Context (ops_keep : forall s A (op : JSOp A) e, keep e (@perform E (J s) A op e).2).

Lemma keep_refl e : keep e e.
Proof. by split. Qed.

Lemma keep_then e1 e2 e3 : keep e1 e2 -> keep e2 e3 -> keep e1 e3.
Proof. unfold keep. intros [-> ->] [-> ->]. done. Qed.

Definition keepLimits e (s : ScriptState) : @JSLimits E (J s) False n (keep e).
Proof.
  destruct (L s) as [_ H1 H2 h H3 H4 H5 H6].
  refine (@Build_JSLimits E (J s) False n (keep e) _ H1 H2 h H3 H4 H5 H6). intros A op e' He. eapply keep_then; [exact He|apply ops_keep].
Defined.

Lemma callScript_keeps {A B} s (m : Injected E A) (f : completion A -> E -> B) w Q X :
  spec False (keeping (keep w.1)) m Q X -> JSall (fun r => keep w.1 r.2.1) (callScript s m f w).
Proof.
  intros Hm. apply (JSall_mono (fun r => keep w.1 r.2.1 /\ True)); [|by intros r [Hr _]].
  apply (callScript_spec False (keep w.1) s m f w Q X (fun _ => True)); done || apply keep_refl.
Qed.

Definition scriptLaws : @V8Laws Isolated scriptEngine.
Proof.
  refine (@Build_V8Laws Isolated scriptEngine (fun w => inUse w.1) (fun w => issued w.1) _ _ _ _ _ _ _ _ _ _ _ _ _ _ _);
    cbn -[call wrapObject wrapCallFrames createScript].
  - intros w. apply inUse_issued.
  - intros s l c k b w r w' Hw. destruct (setScriptBreakPointById s l c k b w.1) as [r' e'] eqn:Es. injection Hw as <- <-. by eapply set_fresh.
  - intros b w. apply remove_number.
  - intros w. apply clear_all.
  - intros b w. apply keep_active.
  - intros b w. apply keep_exception.
  - intros b w. apply keep_uncaught.
  - intros b w. apply keep_break.
  - intros a w. apply keep_step.
  - intros w. apply keep_clearStep.
  - intros s i w. unfold createScript. pose proof (keep_create s i w.1) as Hk. by destruct (createInjectedScript s i w.1) as [[] e].
  - intros s c b w. pose proof (keep_liveEdit s c b w.1) as Hk. by destruct (liveEditScriptSource s c b w.1).
  - intros s c o w. eapply callScript_keeps, (wrapCallFrames_spec _ _ (L := keepLimits w.1)).
  - intros s v g w. eapply callScript_keeps, (wrapObject_spec _ _ (L := keepLimits w.1)).
  - intros s c w. eapply callScript_keeps, (asJSON_spec _ _ (L := keepLimits w.1)), (functionFor_spec _ _ (L := keepLimits w.1)).
Defined.

Lemma scriptsLoad {SL : ScriptsLoad E} : @ScriptsLoad Isolated scriptEngine.
Proof.
  split; cbn -[createScript]; [intros w; apply debuggerScript_loads|]. intros s i w. unfold createScript.
  pose proof (injectedScript_loads s i w.1) as Hl. by destruct (createInjectedScript s i w.1).
Qed.

Lemma becomes_answers b j : answers b -> becomes b j -> j <> JSONString [].
Proof. intros Ha Hb ->. inversion Hb as [v Hv Eb Ej| | | |]; subst. destruct v; try done. injection Ej as ->. by apply Ha. Qed.

Lemma scriptAnswers : @ScriptAnswers Isolated scriptEngine.
Proof.
  split; cbn -[call wrapObject].
  - intros s c w Hc. apply (JSall_mono (fun r => True /\ r.1 <> CallReturned (Some (JSONString [])))); [|by intros r [_ Hr]].
    eapply (callScript_spec False (fun _ => True) s _ (resultOf s) w _ _ (fun r => r <> CallReturned (Some (JSONString [])))); try done.
    + apply (asJSON_spec False (fun _ => True)), (functionFor_spec False (fun _ => True)).
    + intros r e (b & Hb & Hr) [= ->]. by apply (becomes_answers b (JSONString [])); auto.
  - intros s v g w. apply (JSall_mono (fun r => True /\ is_Some r.1)); [|by intros r [_ Hr]].
    eapply (callScript_spec False (fun _ => True) s _ _ w _ _ is_Some); try done.
    + apply (wrapObject_spec False (fun _ => True)).
    + intros r e [o ->]. by eexists.
    + done.
Qed.

End Laws.
End ScriptEngine.
