(* ===== verification/Triples.v ===== *)
(** * Partial correctness of the debugger's methods

    [triple I m J]: when [m] starts in a state with [I] and returns, the state it
    leaves has [J].  The tactic [keeps] proves [triple I m I] by following the
    code of [m], where each write to the state keeps [I]. *)

From S2P Require Import Prelude Engine World.

Section Rules.
Context {W : Type}.

Definition triple {A} (I : W -> Prop) (m : M W A) (J : W -> Prop) : Prop :=
  forall w r w', I w -> m w = Done (r, w') -> J w'.

Implicit Types I J K : W -> Prop.

Lemma triple_ret {A} I (a : A) : triple I (mret a) I.
Proof. intros w r w' Hi [= _ <-]. done. Qed.

Lemma triple_bind {A B} I J K (m : M W A) (k : A -> M W B) :
  triple I m J -> (forall a, triple J (k a) K) -> triple I (m ≫= k) K.
Proof.
  intros Hm Hk w r w' Hi. unfold mbind, M_bind. destruct (m w) as [[a w1]|] eqn:Em; [|done].
  intros Hr. eapply Hk; [|done]. by eapply Hm.
Qed.

Lemma bind_Done {A B} (m : M W A) (k : A -> M W B) w r w' :
  (m ≫= k) w = Done (r, w') -> exists a w1, m w = Done (a, w1) /\ k a w1 = Done (r, w').
Proof. unfold mbind, M_bind. destruct (m w) as [[a w1]|]; [eauto|done]. Qed.

Lemma triple_gets {A} I (f : W -> A) : triple I (gets f) I.
Proof. intros w r w' Hi [= _ <-]. done. Qed.

Lemma triple_modify I J (f : W -> W) : (forall w, I w -> J (f w)) -> triple I (modify f) J.
Proof. intros Hf w r w' Hi [= _ <-]. auto. Qed.

Lemma triple_crash {A} I J : triple I (crash : M W A) J.
Proof. done. Qed.

Lemma triple_when I b (m : M W unit) : triple I m I -> triple I (when b m) I.
Proof. intros Hm. destruct b; [done|]. apply triple_ret. Qed.

Lemma triple_forEach {A} I (f : A -> M W unit) l :
  (forall x, x ∈ l -> triple I (f x) I) -> triple I (forEach f l) I.
Proof.
  induction l as [|x l IH]; intros Hf; [apply triple_ret|].
  eapply triple_bind; [apply Hf, list_elem_of_here|]. intros _. apply IH. intros y Hy. by apply Hf, list_elem_of_further.
Qed.

Lemma triple_mono {A} I J K (m : M W A) : triple I m J -> (forall w, J w -> K w) -> triple I m K.
Proof. intros Hm Hj w r w' Hi Hr. eapply Hj, Hm; eauto. Qed.

Lemma triple_pre {A} I J K (m : M W A) : triple J m K -> (forall w, I w -> J w) -> triple I m K.
Proof. intros Hm Hj w r w' Hi Hr. eapply Hm; [apply Hj|]; eauto. Qed.

(** With total correctness. *)
Lemma wp_triple {A} (m : M W A) (Q : A -> W -> Prop) I J w :
  wp m Q w -> triple I m J -> I w -> wp m (fun a w' => Q a w' /\ J w') w.
Proof. unfold wp. intros Hm Ht Hi. destruct (m w) as [[a w']|] eqn:Em; [|done]. split; [done|]. by eapply Ht. Qed.

Lemma wp_and {A} (m : M W A) (Q Q' : A -> W -> Prop) w : wp m Q w -> wp m Q' w -> wp m (fun a w' => Q a w' /\ Q' a w') w.
Proof. unfold wp. by destruct (m w) as [[a w']|]. Qed.

End Rules.

(** A method that reads more than the rules see is followed for one start state. *)
Lemma triple_runEngine {E A} (I J : World E -> Prop) (f : E -> A * E) :
  (forall w, I w -> J (w <| engine := (f (engine w)).2 |>)) -> triple I (runEngine f) J.
Proof.
  intros Hf w r w' Hi. unfold runEngine. specialize (Hf w Hi). destruct (f (engine w)). intros [= _ <-]. done.
Qed.

Create HintDb keeps discriminated.

Ltac head t := lazymatch t with ?f _ => head f | _ => t end.

(** [solve_write] proves that a write keeps the predicate; methods with a lemma in
    the database [keeps] are not entered. *)
Ltac keeps_step solve_write :=
  lazymatch goal with
  | |- triple _ (mret _) _ => apply triple_ret
  | |- triple ?I (_ ≫= _) _ => apply (triple_bind I I); [|intros ?]
  | |- triple _ (gets _) _ => apply triple_gets
  | |- triple _ (modify _) _ => apply triple_modify; intros ? ?; solve_write
  | |- triple _ crash _ => apply triple_crash
  | |- triple _ (when _ _) _ => apply triple_when
  | |- triple _ (forEach _ _) _ => apply triple_forEach; intros ? ?
  | |- triple _ (runEngine _) _ => apply triple_runEngine; intros ? ?; solve_write
  | |- triple _ (match ?x with _ => _ end) _ => destruct x
  | |- triple _ (let _ := _ in _) _ => cbv zeta
  | |- triple _ ?m _ => first [solve [eauto with keeps nocore] | let h := head m in unfold h; cbv beta]
  end.
Ltac keeps solve_write := repeat keeps_step solve_write.
