(* ===== verification/DebuggerOps.v ===== *)
(** * V8Debugger ([bindings/core/v8/V8Debugger.cpp], [DebuggerScript.js])

    The operations the debugger agent calls.  Most call a function of the debugger
    script, which is a null handle while the debugger is disabled.  What V8 calls,
    [handleV8DebugEvent] and the pause it leads to, is in the file [PauseLoop],
    after the agent it calls. *)

From S2P Require Import Prelude Platform WTFString JSONValues StringSearch ContentSearch Engine World.

(** ** The debugger script *)

Module DebuggerScriptJS.
Abbreviation DontPauseOnExceptions := 0.
Abbreviation PauseOnAllExceptions := 1.
Abbreviation PauseOnUncaughtExceptions := 2.

Section WithEngine.
Context {E : Type} `{V8Engine E}.

(** The statements run when the script is compiled. *)
Definition initialize (e : E) : DebuggerScript * E :=
  (mkDebuggerScript DontPauseOnExceptions, setBreakOnUncaughtException false (setBreakOnException false e)).

(** The break id as text, with the line and column it was set at; undefined
    when it was set nowhere. *)
Definition setBreakpoint (sourceID : ustring) (lineNumber columnNumber : Z) (condition : ustring)
    (interstatementLocation : bool) (e : E) : option (ustring * Z * Z) * E :=
  let '(breakId, e) := setScriptBreakPointById sourceID lineNumber columnNumber condition interstatementLocation e in
  match findBreakPointActualLocations breakId e with
  | [] => (None, e)
  | (actualLine, actualColumn) :: _ => (Some (String_number breakId, actualLine, actualColumn), e)
  end.

Definition setPauseOnExceptionsState (newState : Z) (e : E) : DebuggerScript * E :=
  (mkDebuggerScript newState,
   setBreakOnUncaughtException (newState =? PauseOnUncaughtExceptions)
     (setBreakOnException (newState =? PauseOnAllExceptions) e)).

(** [frameCount] and [frame] of the execution state are the frames. *)
Definition currentCallFrame (data : Z) (e : E) : list Frame :=
  let maximumLimit := Z.shiftr data 2 in
  let frameCount := Z.of_nat (length (execFrames e)) in
  let frameCount := if negb (maximumLimit =? 0) && (maximumLimit <? frameCount) then maximumLimit else frameCount in
  take (Z.to_nat frameCount) (execFrames e).

Definition currentCallFrameByIndex (index : Z) (e : E) : option Frame :=
  if index <? 0 then None
  else if Z.of_nat (length (execFrames e)) <=? index then None
  else execFrames e !! Z.to_nat index.

(** A script object: the last line is counted when the source ends with a line
    feed. *)
Definition formatScript (script : V8Script) : Z * Script :=
  let lineCount := Z.of_nat (length (s_line_ends script)) in
  let endLine := s_line_offset script + lineCount - 1 in
  let sourceLength := Z.of_nat (length (s_source script)) in
  let '(endLine, endColumn) :=
    if endsWith 10 (s_source script) then (endLine + 1, 0)
    else if lineCount =? 1 then (endLine, sourceLength + s_column_offset script)
    else (endLine, sourceLength - (nth (Z.to_nat (lineCount - 2)) (s_line_ends script) 0 + 1)) in
  (s_id script,
   {| m_url := s_nameOrSourceURL script;
      m_sourceURL := s_source_url script;
      m_sourceMappingURL := s_source_mapping_url script;
      m_source := Some (s_source script);
      m_startLine := s_line_offset script;
      m_startColumn := s_column_offset script;
      m_endLine := endLine;
      m_endColumn := endColumn;
      m_isContentScript := bool_decide (find (u "[injected,") (s_context_data script) 0 = Some 0%nat);
      m_isInternalScript := s_is_debugger_script script;
      m_isBlackboxedURL := false;
      m_blackboxGeneration := kBlackboxUnknown |}).

Definition inContextData (contextDataSubstring : ustring) (script : V8Script) : bool :=
  match contextDataSubstring with
  | [] => true
  | _ => match s_context_data script with
         | [] => false
         | d => match find contextDataSubstring d 0 with Some _ => true | None => false end
         end
  end.

Definition getScripts (contextDataSubstring : ustring) (e : E) : list (Z * Script) :=
  map formatScript (List.filter (inContextData contextDataSubstring) (debugScripts e)).

End WithEngine.
End DebuggerScriptJS.

(** ** V8Debugger *)

Module Debugger.
Section WithEngine.
Context {E : Type} `{V8Engine E}.

Definition enabled (d : V8Debugger) : bool := match m_debuggerScript d with Some _ => true | None => false end.
Definition isPaused (d : V8Debugger) : bool := match vd_pausedScriptState d with Some _ => true | None => false end.

(** [debuggerScriptLocal()->Get(...)], [callDebuggerMethod]. *)
Definition debuggerScriptLocal : M (World E) DebuggerScript :=
  s ← getVD m_debuggerScript;
  match s with
  | Some s => mret s
  | None => crash
  end.

Definition compileDebuggerScript : M (World E) unit :=
  e ← getVD enabled;
  if e : bool then mret tt
  else
    ok ← gets (fun w => debuggerScriptCompiles (engine w));
    when ok (s ← runEngine DebuggerScriptJS.initialize; setVD (fun d => d <| m_debuggerScript := Some s |>)).

Definition setBreakpoint (sourceID : ustring) (b : ScriptBreakpoint) (interstatementLocation : bool)
    : M (World E) (option (ustring * Z * Z)) :=
  debuggerScriptLocal ;;
  runEngine (DebuggerScriptJS.setBreakpoint sourceID (b_lineNumber b) (b_columnNumber b) (b_condition b)
               interstatementLocation).

Definition removeBreakpoint (breakpointId : ustring) : M (World E) unit :=
  debuggerScriptLocal ;; setEngine (findBreakPoint_remove breakpointId).

Definition clearBreakpoints : M (World E) unit :=
  debuggerScriptLocal ;; setEngine clearAllBreakPoints.

Definition enable : M (World E) unit := compileDebuggerScript.

Definition disable : M (World E) unit :=
  clearBreakpoints ;;
  setVD (fun d => d <| m_debuggerScript := None |>).

Definition setBreakpointsActivated (activated : bool) : M (World E) unit :=
  e ← getVD enabled;
  when e (setEngine (breakPointsActive_setValue activated) ;;
          setVD (fun d => d <| m_breakpointsActivated := activated |>)).

Definition pauseOnExceptionsState : M (World E) Z :=
  s ← debuggerScriptLocal; mret (_pauseOnExceptionsState s).

Definition setPauseOnExceptionsState (newState : Z) : M (World E) unit :=
  debuggerScriptLocal ;;
  s ← runEngine (DebuggerScriptJS.setPauseOnExceptionsState newState);
  setVD (fun d => d <| m_debuggerScript := Some s |>).

Definition setPauseOnNextStatement (pause : bool) : M (World E) unit := setEngine (setDebugBreak pause).

Definition pausingOnNextStatement : M (World E) bool := gets (fun w => checkDebugBreak (engine w)).

Definition canBreakProgram : M (World E) bool :=
  gets (fun w => m_breakpointsActivated (vd w) && inContext (engine w)).

Definition clearPaused : M (World E) unit :=
  setVD (fun d => d <| vd_pausedScriptState := None |> <| m_executionState := false |>).

(** [quitMessageLoopOnPause] is [quitNow] of the message loop. *)
Definition continueProgram : M (World E) unit :=
  p ← getVD isPaused;
  when p (modify (fun w => w <| wtd := (wtd w) <| m_quit := true |> |>)) ;;
  clearPaused.

(** A method of the debugger script with the execution state, which must not be
    an empty handle. *)
Definition callStep (action : StepAction) : M (World E) unit :=
  debuggerScriptLocal ;;
  s ← getVD m_executionState;
  if s : bool then setEngine (prepareStep action) else crash.

Definition stepIntoStatement : M (World E) unit := callStep StepIn ;; continueProgram.
Definition stepOverStatement : M (World E) unit := callStep StepNext ;; continueProgram.
Definition stepOutOfFunction : M (World E) unit := callStep StepOutAction ;; continueProgram.

Definition clearStepping : M (World E) unit := debuggerScriptLocal ;; setEngine clearSteppingV8.

Inductive ScopeInfoDetails := AllScopes | FastAsyncScopes | NoScopes.

Definition scopeInfoDetails (d : ScopeInfoDetails) : Z :=
  match d with AllScopes => 0 | FastAsyncScopes => 1 | NoScopes => 2 end.

Definition wrapCallFrames (maximumLimit : Z) (scopeDetails : ScopeInfoDetails) : M (World E) (list Frame) :=
  debuggerScriptLocal ;;
  gets (fun w => DebuggerScriptJS.currentCallFrame
                   (Z.lor (Z.shiftl maximumLimit 2) (scopeInfoDetails scopeDetails)) (engine w)).

Definition currentCallFramesInner (scopeDetails : ScopeInfoDetails) : M (World E) (option CallFrames) :=
  c ← gets (fun w => inContext (engine w) && hasStackTrace (engine w));
  if negb c then mret None
  else
    frames ← wrapCallFrames 0 scopeDetails;
    match frames with
    | [] => mret None
    | _ =>
        paused ← getVD vd_pausedScriptState;
        current ← gets (fun w => currentContext (engine w));
        mret (Some (mkCallFrames (default current paused) frames))
    end.

Definition currentCallFrames : M (World E) (option CallFrames) := currentCallFramesInner AllScopes.
Definition currentCallFramesForAsyncStack : M (World E) (option CallFrames) := currentCallFramesInner FastAsyncScopes.

Definition callFrameNoScopes (index : Z) : M (World E) (option Frame) :=
  c ← gets (fun w => inContext (engine w));
  if negb c then mret None
  else debuggerScriptLocal ;; gets (fun w => DebuggerScriptJS.currentCallFrameByIndex index (engine w)).

(** [toJavaScriptCallFrameUnsafe]: the frames of a value whose context is alive. *)
Definition toJavaScriptCallFrames (value : option CallFrames) (e : E) : option (list Frame) :=
  match value with
  | Some v => if contextIsValid (cf_scriptState v) e then Some (cf_frames v) else None
  | None => None
  end.

End WithEngine.
End Debugger.
