(* ===== verification/InjectedScripts.v ===== *)
(** * Injected scripts and frontend notifications

    [core/inspector/InjectedScriptManager.cpp]: one injected script per context,
    created when it is first asked for; [InjectedScriptBase.cpp] and
    [InjectedScript.cpp]: calls of its functions.  [core/InspectorFrontend.cpp]: the
    notifications of the debugger and runtime domains. *)

From S2P Require Import Prelude Platform WTFString JSONValues JSONParser Engine NativeObjects World.

(** ** The manager *)

Module Injected.
Section WithEngine.
Context {P : Platform} {E : Type} `{V8Engine E}.

Definition setManager (f : InjectedScriptManager -> InjectedScriptManager) : M (World E) unit :=
  modify (fun w => w <| ism := f (ism w) |>).

Definition injectedScriptIdFor (scriptState : ScriptState) : M (World E) Z :=
  m ← gets ism;
  match m_scriptStateToId m !! scriptState with
  | Some id => mret id
  | None =>
      let id := m_nextInjectedScriptId m in
      setManager (fun m => m <| m_nextInjectedScriptId := wrapS 32 (id + 1) |>
                             <| m_scriptStateToId := <[scriptState := id]> (m_scriptStateToId m) |>) ;;
      mret id
  end.

(** [m_native->...]. *)
Definition setNative (native : Z) (f : InjectedScriptNative -> InjectedScriptNative) : M (World E) unit :=
  setManager (fun m => m <| natives := <[native := f (default Native.new (natives m !! native))]> (natives m) |>).

(** Runs a function of the injected script; it reaches the native object through
    the injected script host. *)
Fixpoint runJS {A} (native : Z) (t : JS (A * E)) : M (World E) A :=
  match t with
  | JSReturn (a, e) => setEngine (fun _ => e) ;; mret a
  | JSBind value groupName k =>
      m ← gets ism;
      let '(id, n) := Native.bind value groupName (default Native.new (natives m !! native)) in
      setNative native (fun _ => n) ;;
      runJS native (k id)
  | JSObjectForId id k =>
      m ← gets ism; runJS native (k (Native.objectForId id (default Native.new (natives m !! native))))
  | JSGroupName id k =>
      m ← gets ism; runJS native (k (Native.groupName id (default Native.new (natives m !! native))))
  end.

Definition callInjected {A} (script : InjectedScript) (f : E -> JS (A * E)) : M (World E) A :=
  e ← gets engine; runJS (is_native script) (f e).

(** [makeCall]: the result is null without a script, and a string when the call
    throws or the result is nested too deeply.  For a worker the access check
    always succeeds. *)
Definition callResult (r : CallResult) : JSONValue :=
  match r with
  | CallReturned (Some v) => v
  | CallReturned None => JSONString (u "Object has too long reference chain(must not be longer than 1000)")
  | CallThrew _ => JSONString (u "Exception while making a call.")
  end.

Definition makeCall (script : InjectedScript) (c : InjectedCall) : M (World E) JSONValue :=
  if is_empty script then mret JSONNull
  else r ← callInjected script (injectedCall (is_scriptState script) c); mret (callResult r).

Definition injectedScriptFor (inspectedScriptState : ScriptState) : M (World E) InjectedScript :=
  m ← gets ism;
  match m_scriptStateToId m !! inspectedScriptState ≫= fun id => m_idToInjectedScript m !! id with
  | Some script => mret script
  | None =>
      id ← injectedScriptIdFor inspectedScriptState;
      setNative id (fun _ => Native.new) ;;
      ok ← runEngine (createInjectedScript inspectedScriptState id);
      let result := mkInjectedScript inspectedScriptState (negb ok) id in
      when (m_customObjectFormatterEnabled m) (makeCall result (CallSetCustomObjectFormatterEnabled true) ;; mret tt) ;;
      setManager (fun m => m <| m_idToInjectedScript := <[id := result]> (m_idToInjectedScript m) |>) ;;
      mret result
  end.

(** [None] is the default [InjectedScript()], which is empty. *)
Definition injectedScriptForId (id : Z) : M (World E) (option InjectedScript) :=
  m ← gets ism;
  match m_idToInjectedScript m !! id with
  | Some script => mret (Some script)
  | None =>
      match List.find (fun si => si.2 =? id) (map_to_list (m_scriptStateToId m)) with
      | Some (scriptState, _) => script ← injectedScriptFor scriptState; mret (Some script)
      | None => mret None
      end
  end.

Definition injectedScriptForObjectId (objectId : ustring) : M (World E) (option InjectedScript) :=
  m ← gets ism;
  mret (match parseJSON objectId with
        | Some (JSONObject o) =>
            match getLong (u "injectedScriptId") o with
            | Some injectedScriptId => m_idToInjectedScript m !! wrapS 32 injectedScriptId
            | None => None
            end
        | _ => None
        end).

Definition discardInjectedScripts : M (World E) unit :=
  setManager (fun m => m <| m_idToInjectedScript := ∅ |> <| m_scriptStateToId := ∅ |>).

Definition discardInjectedScriptFor (scriptState : ScriptState) : M (World E) unit :=
  m ← gets ism;
  match m_scriptStateToId m !! scriptState with
  | None => mret tt
  | Some id =>
      setManager (fun m => m <| m_idToInjectedScript := delete id (m_idToInjectedScript m) |>
                             <| m_scriptStateToId := delete scriptState (m_scriptStateToId m) |>)
  end.

(** [InjectedScript::releaseObjectGroup]. *)
Definition releaseScriptGroup (script : InjectedScript) (objectGroup : ustring) : M (World E) unit :=
  setNative (is_native script) (Native.releaseObjectGroup objectGroup) ;;
  if decide (objectGroup = u "console")
  then if is_empty script then crash
       else callInjected script (injectedCall (is_scriptState script) CallClearLastEvaluationResult) ;; mret tt
  else mret tt.

(** A key of the copied list that is gone by its turn is skipped. *)
Definition releaseObjectGroup (objectGroup : ustring) : M (World E) unit :=
  keys ← gets (fun w => (map_to_list (m_idToInjectedScript (ism w))).*1);
  forEach (fun key =>
    m ← gets ism;
    match m_idToInjectedScript m !! key with
    | Some script => releaseScriptGroup script objectGroup
    | None => mret tt
    end) keys.

(** The number of an object in its identifier. *)
Definition boundId (objectId : ustring) : option Z :=
  match parseJSON objectId with
  | Some (JSONObject object) => getInt (u "id") object
  | _ => None
  end.

(** [InjectedScript::releaseObject]. *)
Definition releaseObject (script : InjectedScript) (objectId : ustring) : M (World E) unit :=
  match boundId objectId with
  | Some id => setNative (is_native script) (Native.unbind id)
  | None => mret tt
  end.

(** [objectIdToObjectGroupName]. *)
Definition objectIdToObjectGroupName (script : InjectedScript) (objectId : ustring) : M (World E) (option ustring) :=
  match boundId objectId with
  | Some id => gets (fun w => natives (ism w) !! is_native script ≫= Native.groupName id)
  | None => mret None
  end.

Definition setCustomObjectFormatterEnabled (enabled : bool) : M (World E) unit :=
  setManager (fun m => m <| m_customObjectFormatterEnabled := enabled |>) ;;
  scripts ← gets (fun w => (map_to_list (m_idToInjectedScript (ism w))).*2);
  forEach (fun script =>
    if is_empty script then mret tt
    else makeCall script (CallSetCustomObjectFormatterEnabled enabled) ;; mret tt) scripts.

(** [appendArgument]: a value of another context is passed as [undefined]. *)
Definition framesArgument (script : InjectedScript) (frames : CallFrames) : option CallFrames :=
  if cf_scriptState frames =? is_scriptState script then Some frames else None.

(** [InjectedScript::wrapCallFrames]: anything but an array is replaced by an
    empty one. *)
Definition wrapCallFrames (script : InjectedScript) (frames : CallFrames) (asyncOrdinal : Z) : M (World E) JSONValue :=
  result ← callInjected script
    (injectedWrapCallFrames (is_scriptState script) (framesArgument script frames) asyncOrdinal);
  mret (match result with
        | Some (JSONArray l) => JSONArray l
        | _ => JSONArray []
        end).

(** [wrapObject] of a script that could not be created dereferences a null
    [ScriptState]. *)
Definition wrapObject (script : InjectedScript) (value : Z) (groupName : ustring) : M (World E) (option jobject) :=
  if is_empty script then crash else callInjected script (injectedWrapObject (is_scriptState script) value groupName).

End WithEngine.
End Injected.

(** ** Notifications *)

Module Frontend.

(** A message of a domain: a method and parameters. *)
Definition message (method : string) (params : option jobject) : jobject :=
  let jsonMessage := setString (u "method") (u method) [] in
  match params with
  | Some params => setObject (u "params") params jsonMessage
  | None => jsonMessage
  end.

Definition globalObjectCleared : jobject := message "Debugger.globalObjectCleared" None.

(** The parameters of [scriptParsed] and [scriptFailedToParse]; an optional one is
    set when its pointer is not null. *)
Definition scriptParams (scriptId url : ustring) (startLine startColumn endLine endColumn : Z)
    (isContentScript isInternalScript : option bool) (sourceMapURL : option ustring)
    (hasSourceURL : option bool) : jobject :=
  let p := setString (u "scriptId") scriptId [] in
  let p := setString (u "url") url p in
  let p := setInt (u "startLine") startLine p in
  let p := setInt (u "startColumn") startColumn p in
  let p := setInt (u "endLine") endLine p in
  let p := setInt (u "endColumn") endColumn p in
  let p := match isContentScript with Some b => setBoolean (u "isContentScript") b p | None => p end in
  let p := match isInternalScript with Some b => setBoolean (u "isInternalScript") b p | None => p end in
  let p := match sourceMapURL with Some s => setString (u "sourceMapURL") s p | None => p end in
  match hasSourceURL with Some b => setBoolean (u "hasSourceURL") b p | None => p end.

Definition scriptParsed (params : jobject) : jobject := message "Debugger.scriptParsed" (Some params).
Definition scriptFailedToParse (params : jobject) : jobject := message "Debugger.scriptFailedToParse" (Some params).

Definition breakpointResolved (breakpointId : ustring) (location : jobject) : jobject :=
  message "Debugger.breakpointResolved"
    (Some (setObject (u "location") location (setString (u "breakpointId") breakpointId []))).

(** [TypeBuilder::getEnumConstantValue]. *)
Definition reasonText (r : Reason) : ustring :=
  match r with
  | XHR => u "XHR" | DOM => u "DOM" | EventListener => u "EventListener" | Exception => u "exception"
  | Assert => u "assert" | CSPViolation => u "CSPViolation" | DebugCommand => u "debugCommand"
  | PromiseRejection => u "promiseRejection" | AsyncOperation => u "AsyncOperation" | Other => u "other"
  end.

Definition paused (callFrames : JSONValue) (reason : Reason) (data : option jobject)
    (hitBreakpoints : list ustring) (asyncStackTrace : option jobject) : jobject :=
  let p := setValue (u "callFrames") callFrames [] in
  let p := setString (u "reason") (reasonText reason) p in
  let p := match data with Some d => setObject (u "data") d p | None => p end in
  let p := setArray (u "hitBreakpoints") (map JSONString hitBreakpoints) p in
  let p := match asyncStackTrace with Some t => setObject (u "asyncStackTrace") t p | None => p end in
  message "Debugger.paused" (Some p).

Definition resumed : jobject := message "Debugger.resumed" None.

Definition asyncOperationStarted (operation : jobject) : jobject :=
  message "Debugger.asyncOperationStarted" (Some (setObject (u "operation") operation [])).

Definition asyncOperationCompleted (id : Z) : jobject :=
  message "Debugger.asyncOperationCompleted" (Some (setInt (u "id") id [])).

Definition promiseUpdated (eventType : ustring) (promise : jobject) : jobject :=
  message "Debugger.promiseUpdated"
    (Some (setObject (u "promise") promise (setString (u "eventType") eventType []))).

(** [executionContextCreated] with an [ExecutionContextDescription] of a page
    context. *)
Definition executionContextCreated (id : Z) (name origin frameId : ustring) : jobject :=
  let c := setInt (u "id") id [] in
  let c := setString (u "name") name c in
  let c := setString (u "origin") origin c in
  let c := setString (u "frameId") frameId c in
  let c := setBoolean (u "isPageContext") true c in
  message "Runtime.executionContextCreated" (Some (setObject (u "context") c [])).

Definition executionContextsCleared : jobject := message "Runtime.executionContextsCleared" None.

(** [frontend()->...]: the channel sends the message when there is one; the
    frontend itself must not be null. *)
Definition send {E} (m : jobject) : M (World E) unit :=
  f ← getAgent m_frontend;
  if f : bool
  then c ← gets channelOpen; when c (modify (fun w => w <| notifications := notifications w ++ [m] |>))
  else crash.

End Frontend.
