(* ===== verification/AgentState.v ===== *)
(** * The debugger agent: persistent state, frames and blackboxing

    [core/inspector/InspectorDebuggerAgent.cpp], the parts the others call. *)

From S2P Require Import Prelude Platform WTFString JSONValues JSONParser StringSearch ContentSearch InspectorState Engine World DebuggerOps InjectedScripts.

(** The answer of a protocol method: its error string, or its outputs. *)
Inductive Reply (A : Type) :=
  | ErrorReply (errorString : ustring)
  | Answer (outputs : A).
Arguments ErrorReply {A} errorString.
Arguments Answer {A} outputs.

Module DebuggerAgentState.

Abbreviation debuggerEnabled := (u "debuggerEnabled").
Abbreviation javaScriptBreakpoints := (u "javaScriptBreakopints").
Abbreviation pauseOnExceptionsState := (u "pauseOnExceptionsState").
Abbreviation asyncCallStackDepth := (u "asyncCallStackDepth").
Abbreviation promiseTrackerEnabled := (u "promiseTrackerEnabled").
Abbreviation promiseTrackerCaptureStacks := (u "promiseTrackerCaptureStacks").
Abbreviation url := (u "url").
Abbreviation isRegex := (u "isRegex").
Abbreviation lineNumber := (u "lineNumber").
Abbreviation columnNumber := (u "columnNumber").
Abbreviation condition := (u "condition").
Abbreviation skipStackPattern := (u "skipStackPattern").
Abbreviation skipContentScripts := (u "skipContentScripts").
Abbreviation skipAllPauses := (u "skipAllPauses").

End DebuggerAgentState.

Definition maxSkipStepFrameCount : Z := 128.
Definition backtraceObjectGroup : ustring := u "backtrace".
Definition unknownAsyncOperationId : Z := 0.

Section WithEngine.
Context {P : Platform} {R : RegExpEngine} {E : Type} `{V8Engine E}.

(** ** The agent's [InspectorState] *)

Definition stateProperties (w : World E) : jobject := properties (m_state (agent w)) (composite w).

Definition setStateValue (name : ustring) (v : JSONValue) : M (World E) unit :=
  modify (fun w => w <| composite := setProperty (m_state (agent w)) name v (composite w) |>).

Definition setStateBoolean (name : ustring) (b : bool) := setStateValue name (JSONBoolean b).
Definition setStateString (name : ustring) (s : ustring) := setStateValue name (JSONString s).
Definition setStateLong (name : ustring) (z : Z) := setStateValue name (JSONNumber (Double.of_Z z)).
Definition setStateObject (name : ustring) (o : jobject) := setStateValue name (JSONObject o).

Definition getStateBoolean (name : ustring) : M (World E) bool :=
  gets (fun w => Properties.getBoolean name (stateProperties w)).
Definition getStateLong (name : ustring) : M (World E) Z :=
  gets (fun w => Properties.getLong name (stateProperties w)).
Definition getStateString (name : ustring) : M (World E) ustring :=
  gets (fun w => Properties.getString name (stateProperties w)).

(** [m_state->getObject(javaScriptBreakpoints)], dereferenced by every caller. *)
Definition breakpointsCookie : M (World E) jobject := fun w =>
  let '(o, c) := getObjectProperty (m_state (agent w)) DebuggerAgentState.javaScriptBreakpoints (composite w) in
  match o with
  | Some o => Done (o, w <| composite := c |>)
  | None => Crash
  end.

Definition enabled : M (World E) bool := getStateBoolean DebuggerAgentState.debuggerEnabled.

(** [if (!checkEnabled(errorString)) return;] before [m]. *)
Definition checkEnabled {A} (m : M (World E) (Reply A)) : M (World E) (Reply A) :=
  e ← enabled;
  if e : bool then m else mret (ErrorReply (u "Debugger agent is not enabled")).

(** [if (!assertPaused(errorString)) return;] before [m]. *)
Definition assertPaused {A} (m : M (World E) (Reply A)) : M (World E) (Reply A) :=
  p ← getAgent m_pausedScriptState;
  match p with
  | Some _ => m
  | None => mret (ErrorReply (u "Can only perform operation while paused."))
  end.

Definition isPaused : M (World E) bool := getVD Debugger.isPaused.

Definition trackingAsyncCalls (a : Agent) : bool := negb (m_maxAsyncCallStackDepth a =? 0).

(** ** Small updates of the agent *)

Definition clearBreakDetails : M (World E) unit :=
  setAgent (fun a => a <| m_breakReason := Other |> <| m_breakAuxData := None |>).

Definition clearStepIntoAsync : M (World E) unit :=
  setAgent (fun a => a <| m_startingStepIntoAsync := false |> <| m_pausingOnAsyncOperation := false |>
                       <| m_pausingAsyncOperations := ∅ |>).

Definition nextSkipStackGeneration (g : Z) : Z :=
  let g := wrapU 32 (g + 1) in if g =? 0 then 1 else g.

Definition increaseCachedSkipStackGeneration : M (World E) unit :=
  setAgent (fun a => a <| m_cachedSkipStackGeneration := nextSkipStackGeneration (m_cachedSkipStackGeneration a) |>).

Definition compileSkipCallFramePattern (patternText : ustring) : option ScriptRegexp :=
  match patternText with
  | [] => None
  | _ =>
      let result := newScriptRegexp patternText TextCaseSensitive MultilineDisabled in
      if m_regex result then Some result else None
  end.

(** ** Frames *)

Definition setScript (scriptId : ustring) (s : Script) : M (World E) unit :=
  setAgent (fun a => a <| m_scripts := <[scriptId := s]> (m_scripts a) |>).

(** The answer for a known script, and the script with the answer cached. *)
Definition blackboxedScript (a : Agent) (script : Script) : bool * Script :=
  if m_skipContentScripts a && m_isContentScript script then (true, script)
  else
    match m_cachedSkipStackRegExp a with
    | Some regexp =>
        if isEmpty (sourceURL script) then (false, script)
        else match getBlackboxedState (m_cachedSkipStackGeneration a) script with
             | Some b => (b, script)
             | None =>
                 let b := negb (regexMatch regexp (sourceURL script) 0 =? -1) in
                 (b, setBlackboxedState (m_cachedSkipStackGeneration a) b script)
             end
    | None => (false, script)
    end.

Definition isCallFrameWithUnknownScriptOrBlackboxed (frame : option Frame) : M (World E) bool :=
  match frame with
  | None => mret true
  | Some frame =>
      let scriptId := String_number (sourceID frame) in
      a ← getAgent id;
      match m_scripts a !! scriptId with
      | None => mret true
      | Some script =>
          let '(b, script) := blackboxedScript a script in
          setScript scriptId script ;; mret b
      end
  end.

Definition isTopCallFrameBlackboxed : M (World E) bool :=
  frame ← Debugger.callFrameNoScopes 0; isCallFrameWithUnknownScriptOrBlackboxed frame.

(** [fuel] bounds the number of frames. *)
Fixpoint allBlackboxedFrom (fuel : nat) (index : Z) : M (World E) bool :=
  match fuel with
  | O => crash
  | S fuel' =>
      frame ← Debugger.callFrameNoScopes index;
      match frame with
      | None => mret true
      | Some frame =>
          b ← isCallFrameWithUnknownScriptOrBlackboxed (Some frame);
          if b : bool then allBlackboxedFrom fuel' (index + 1) else mret false
      end
  end.

Definition isCallStackEmptyOrBlackboxed : M (World E) bool :=
  n ← gets (fun w => length (execFrames (engine w))); allBlackboxedFrom (S n) 0.

(** ** Whether a pause is skipped *)

Definition shouldSkipExceptionPause : M (World E) ScriptDebugListener.SkipPauseRequest :=
  f ← getAgent m_steppingFromFramework;
  if f : bool then mret ScriptDebugListener.NoSkip
  else
    b ← isTopCallFrameBlackboxed;
    mret (if b : bool then ScriptDebugListener.Continue else ScriptDebugListener.NoSkip).

Definition shouldSkipStepPause : M (World E) ScriptDebugListener.SkipPauseRequest :=
  a ← getAgent id;
  if m_steppingFromFramework a then mret ScriptDebugListener.NoSkip
  else
    when (m_skipNextDebuggerStepOut a) (setAgent (fun a => a <| m_skipNextDebuggerStepOut := false |>)) ;;
    if m_skipNextDebuggerStepOut a && bool_decide (m_scheduledDebuggerStep a = StepOut)
    then mret ScriptDebugListener.StepOut
    else
      b ← isTopCallFrameBlackboxed;
      if negb b then mret ScriptDebugListener.NoSkip
      else
        n ← getAgent m_skippedStepFrameCount;
        if maxSkipStepFrameCount <=? n then mret ScriptDebugListener.StepOut
        else
          when (n =? 0) (setAgent (fun a => a <| m_recursionLevelForStepFrame := 1 |>)) ;;
          setAgent (fun a => a <| m_skippedStepFrameCount := n + 1 |>) ;;
          mret ScriptDebugListener.StepFrame.

End WithEngine.
