(* ===== verification/Breakpoints.v ===== *)
(** * The debugger agent: scripts and breakpoints

    [core/inspector/InspectorDebuggerAgent.cpp].  A breakpoint of the protocol is
    kept by URL in the persistent state, and is set in V8 for every script that
    matches, now or when the script is parsed. *)

From S2P Require Import Prelude Platform WTFString JSONValues JSONParser StringSearch ContentSearch InspectorState Engine World DebuggerOps InjectedScripts AgentState.

(** ** Identifiers and cookies *)

Definition breakpointIdSuffix (source : BreakpointSource) : ustring :=
  match source with
  | UserBreakpointSource => []
  | DebugCommandBreakpointSource => u ":debug"
  | MonitorCommandBreakpointSource => u ":monitor"
  end.

Definition generateBreakpointId (scriptId : ustring) (lineNumber columnNumber : Z) (source : BreakpointSource) : ustring :=
  scriptId ++ [ch ":"] ++ String_number lineNumber ++ [ch ":"] ++ String_number columnNumber ++ breakpointIdSuffix source.

(** The id of a breakpoint set by URL or by an expression for URLs. *)
Definition urlBreakpointId (url : ustring) (isRegex : bool) (lineNumber columnNumber : Z) : ustring :=
  (if isRegex then [ch "/"] ++ url ++ [ch "/"] else url)
    ++ [ch ":"] ++ String_number lineNumber ++ [ch ":"] ++ String_number columnNumber.

Definition buildObjectForBreakpointCookie (url : ustring) (lineNumber columnNumber : Z) (condition : ustring)
    (isRegex : bool) : jobject :=
  let o := setString DebuggerAgentState.url url [] in
  let o := setInt DebuggerAgentState.lineNumber lineNumber o in
  let o := setInt DebuggerAgentState.columnNumber columnNumber o in
  let o := setString DebuggerAgentState.condition condition o in
  setBoolean DebuggerAgentState.isRegex isRegex o.

(** [TypeBuilder::Debugger::Location]. *)
Definition buildLocation (scriptId : ustring) (lineNumber columnNumber : Z) : jobject :=
  setInt (u "columnNumber") columnNumber (setInt (u "lineNumber") lineNumber (setString (u "scriptId") scriptId [])).

Section WithEngine.
Context {P : Platform} {R : RegExpEngine} {E : Type} `{V8Engine E}.

Definition matches (url pattern : option ustring) (isRegex : bool) : bool :=
  if isRegex
  then negb (regexMatch (newScriptRegexp (default [] pattern) TextCaseSensitive MultilineDisabled) url 0 =? -1)
  else bool_decide (url = pattern).

Definition parseLocation (location : jobject) : Reply (ustring * Z * Z) :=
  match getString (u "scriptId") location, getInt (u "lineNumber") location with
  | Some scriptId, Some lineNumber => Answer (scriptId, lineNumber, default 0 (getInt (u "columnNumber") location))
  | _, _ => ErrorReply (u "scriptId and lineNumber are required.")
  end.

(** ** Setting and removing in V8 *)

(** A breakpoint of V8 that belongs to a breakpoint of the protocol. *)
Definition recordBreakpoint (debuggerBreakpointId breakpointId : ustring) (source : BreakpointSource) : M (World E) unit :=
  setAgent (fun a =>
    a <| m_serverBreakpoints := <[debuggerBreakpointId := (breakpointId, source)]> (m_serverBreakpoints a) |>
      <| m_breakpointIdToDebuggerBreakpointIds :=
           <[breakpointId := default [] (m_breakpointIdToDebuggerBreakpointIds a !! breakpointId)
                               ++ [debuggerBreakpointId]]> (m_breakpointIdToDebuggerBreakpointIds a) |>).

Definition resolveBreakpoint (breakpointId scriptId : ustring) (breakpoint : ScriptBreakpoint)
    (source : BreakpointSource) : M (World E) (option jobject) :=
  scripts ← getAgent m_scripts;
  match scripts !! scriptId with
  | None => mret None
  | Some script =>
      if (b_lineNumber breakpoint <? m_startLine script) || (m_endLine script <? b_lineNumber breakpoint)
      then mret None
      else
        r ← Debugger.setBreakpoint scriptId breakpoint false;
        match r with
        | None => mret None
        | Some (debuggerBreakpointId, actualLineNumber, actualColumnNumber) =>
            recordBreakpoint debuggerBreakpointId breakpointId source ;;
            mret (Some (buildLocation scriptId actualLineNumber actualColumnNumber))
        end
  end.

(** [removeBreakpoint(const String& breakpointId)]. *)
Definition removeBreakpointById (breakpointId : ustring) : M (World E) unit :=
  ids ← getAgent m_breakpointIdToDebuggerBreakpointIds;
  match ids !! breakpointId with
  | None => mret tt
  | Some debuggerBreakpointIds =>
      forEach (fun debuggerBreakpointId =>
        Debugger.removeBreakpoint debuggerBreakpointId ;;
        setAgent (fun a => a <| m_serverBreakpoints := delete debuggerBreakpointId (m_serverBreakpoints a) |>))
        debuggerBreakpointIds ;;
      setAgent (fun a => a <| m_breakpointIdToDebuggerBreakpointIds :=
                                delete breakpointId (m_breakpointIdToDebuggerBreakpointIds a) |>)
  end.

(** ** The commands *)

(** The loop over the scripts: the locations of those that match and resolve. *)
Fixpoint resolveInScripts (breakpointId : ustring) (breakpoint : ScriptBreakpoint) (url : ustring) (isRegex : bool)
    (scripts : list (ustring * Script)) : M (World E) (list jobject) :=
  match scripts with
  | [] => mret []
  | (scriptId, script) :: scripts' =>
      if negb (matches (sourceURL script) (Some url) isRegex)
      then resolveInScripts breakpointId breakpoint url isRegex scripts'
      else
        location ← resolveBreakpoint breakpointId scriptId breakpoint UserBreakpointSource;
        locations ← resolveInScripts breakpointId breakpoint url isRegex scripts';
        mret (match location with Some l => l :: locations | None => locations end)
  end.

Definition setBreakpointByUrl (lineNumber : Z) (optionalURL optionalURLRegex : option ustring)
    (optionalColumnNumber : option Z) (optionalCondition : option ustring)
    : M (World E) (Reply (ustring * list jobject)) :=
  match optionalURL, optionalURLRegex with
  | None, None | Some _, Some _ => mret (ErrorReply (u "Either url or urlRegex must be specified."))
  | _, _ =>
      let url := match optionalURL with Some url => url | None => default [] optionalURLRegex end in
      let columnNumber := default 0 optionalColumnNumber in
      if columnNumber <? 0 then mret (ErrorReply (u "Incorrect column number"))
      else
        let condition := default [] optionalCondition in
        let isRegex := match optionalURLRegex with Some _ => true | None => false end in
        let breakpointId := urlBreakpointId url isRegex lineNumber columnNumber in
        cookie ← breakpointsCookie;
        match get breakpointId cookie with
        | Some _ => mret (ErrorReply (u "Breakpoint at specified location already exists."))
        | None =>
            setStateObject DebuggerAgentState.javaScriptBreakpoints
              (setObject breakpointId
                 (buildObjectForBreakpointCookie url lineNumber columnNumber condition isRegex) cookie) ;;
            scripts ← getAgent m_scripts;
            locations ← resolveInScripts breakpointId (mkBreakpoint lineNumber columnNumber condition) url isRegex
                          (map_to_list scripts);
            mret (Answer (breakpointId, locations))
        end
  end.

Definition setBreakpoint (location : jobject) (optionalCondition : option ustring)
    : M (World E) (Reply (ustring * jobject)) :=
  match parseLocation location with
  | ErrorReply e => mret (ErrorReply e)
  | Answer (scriptId, lineNumber, columnNumber) =>
      let condition := default [] optionalCondition in
      let breakpointId := generateBreakpointId scriptId lineNumber columnNumber UserBreakpointSource in
      ids ← getAgent m_breakpointIdToDebuggerBreakpointIds;
      match ids !! breakpointId with
      | Some _ => mret (ErrorReply (u "Breakpoint at specified location already exists."))
      | None =>
          actualLocation ← resolveBreakpoint breakpointId scriptId (mkBreakpoint lineNumber columnNumber condition)
                             UserBreakpointSource;
          mret (match actualLocation with
                | Some l => Answer (breakpointId, l)
                | None => ErrorReply (u "Could not resolve breakpoint")
                end)
      end
  end.

Definition removeBreakpoint (breakpointId : ustring) : M (World E) (Reply unit) :=
  checkEnabled (
    cookie ← breakpointsCookie;
    setStateObject DebuggerAgentState.javaScriptBreakpoints (remove breakpointId cookie) ;;
    removeBreakpointById breakpointId ;;
    mret (Answer tt)).

(** The breakpoints of console commands: set, and removed, by their place. *)
Definition setCommandBreakpoint (scriptId : ustring) (lineNumber columnNumber : Z) (source : BreakpointSource)
    (condition : ustring) : M (World E) unit :=
  resolveBreakpoint (generateBreakpointId scriptId lineNumber columnNumber source) scriptId
    (mkBreakpoint lineNumber columnNumber condition) source ;;
  mret tt.

Definition removeCommandBreakpoint (scriptId : ustring) (lineNumber columnNumber : Z) (source : BreakpointSource)
    : M (World E) unit :=
  removeBreakpointById (generateBreakpointId scriptId lineNumber columnNumber source).

Definition searchInContent (scriptId query : ustring) (optionalCaseSensitive optionalIsRegex : option bool)
    : M (World E) (Reply (list JSONValue)) :=
  scripts ← getAgent m_scripts;
  mret (match scripts !! scriptId with
        | Some script =>
            Answer (searchInTextByLines (default [] (m_source script)) query (default false optionalCaseSensitive)
                      (default false optionalIsRegex))
        | None => ErrorReply (u "No script for id: " ++ scriptId)
        end).

Definition getEditedScript (url : ustring) (a : Agent) : option ustring := m_editedScripts a !! url.

Definition getScriptSource (scriptId : ustring) : M (World E) (Reply ustring) :=
  checkEnabled (
    a ← getAgent id;
    mret (match m_scripts a !! scriptId with
          | None => ErrorReply (u "No script for id: " ++ scriptId)
          | Some script =>
              match (if isEmpty (m_url script) then None else getEditedScript (default [] (m_url script)) a) with
              | Some content => Answer content
              | None => Answer (default [] (m_source script))
              end
          end)).

Definition setBreakpointsActive (active : bool) : M (World E) (Reply unit) :=
  checkEnabled (Debugger.setBreakpointsActivated active ;; mret (Answer tt)).

(** ** Parsed scripts *)

Definition sourceMapURLForScript (script : Script) (compileResult : CompileResult) : option ustring :=
  match compileResult with
  | CompileSuccess => m_sourceMappingURL script
  | CompileError => findSourceMapURL (default [] (m_source script)) JavaScriptMagicComment
  end.

(** One breakpoint of the cookie.  Its object must be one, and an object without
    [isRegex] leaves the variable uninitialized. *)
Definition resolveCookie (scriptId : ustring) (scriptURL : option ustring) (cookie : ustring * JSONValue)
    : M (World E) unit :=
  match asObject cookie.2 with
  | None => crash
  | Some breakpointObject =>
      match getBoolean DebuggerAgentState.isRegex breakpointObject with
      | None => crash
      | Some isRegex =>
          if negb (matches scriptURL (getString DebuggerAgentState.url breakpointObject) isRegex) then mret tt
          else
            let breakpoint := mkBreakpoint (default 0 (getInt DebuggerAgentState.lineNumber breakpointObject))
                                (default 0 (getInt DebuggerAgentState.columnNumber breakpointObject))
                                (default [] (getString DebuggerAgentState.condition breakpointObject)) in
            location ← resolveBreakpoint cookie.1 scriptId breakpoint UserBreakpointSource;
            match location with
            | Some location => Frontend.send (Frontend.breakpointResolved cookie.1 location)
            | None => mret tt
            end
      end
  end.

(** [&b] when [b], else a null pointer. *)
Definition trueParam (b : bool) : option bool := if b then Some b else None.

Definition didParseSource (scriptId : ustring) (parsedScript : Script) (compileResult : CompileResult) : M (World E) unit :=
  let hasSyntaxError := match compileResult with CompileSuccess => false | CompileError => true end in
  let script := if hasSyntaxError
                then setSourceURL (findSourceURL (default [] (m_source parsedScript)) JavaScriptMagicComment) parsedScript
                else parsedScript in
  let params := Frontend.scriptParams scriptId (default [] (sourceURL script)) (m_startLine script) (m_startColumn script)
                  (m_endLine script) (m_endColumn script) (trueParam (m_isContentScript script))
                  (trueParam (m_isInternalScript script)) (sourceMapURLForScript script compileResult)
                  (trueParam (hasSourceURL script)) in
  Frontend.send (if hasSyntaxError then Frontend.scriptFailedToParse params else Frontend.scriptParsed params) ;;
  setScript scriptId script ;;
  if isEmpty (sourceURL script) || hasSyntaxError then mret tt
  else cookie ← breakpointsCookie; forEach (resolveCookie scriptId (sourceURL script)) cookie.

(** [V8Debugger::dispatchDidParseSource] and [reportCompiledScripts]. *)
Definition dispatchDidParseSource (object : Z * Script) (compileResult : CompileResult) : M (World E) unit :=
  didParseSource (String_number object.1) object.2 compileResult.

Definition reportCompiledScripts (contextDebugDataSubstring : ustring) : M (World E) unit :=
  Debugger.debuggerScriptLocal ;;
  scripts ← gets (fun w => DebuggerScriptJS.getScripts contextDebugDataSubstring (engine w));
  forEach (fun object => dispatchDidParseSource object CompileSuccess) scripts.

End WithEngine.
