(* ===== verification/AsyncCalls.v ===== *)
(** * Asynchronous call stacks

    [core/inspector/AsyncCallChain.cpp], [V8AsyncCallTracker.cpp],
    [AsyncOperationMap.h], and the asynchronous operations of
    [InspectorDebuggerAgent.cpp]. *)

From S2P Require Import Prelude Platform WTFString JSONValues JSONParser StringSearch ContentSearch InspectorState Engine CallStacks World DebuggerOps InjectedScripts AgentState.

(** [AsyncCallChain::create]: the new stack, then those of the previous chain as
    long as the chain is shorter than the limit. *)
Fixpoint appendStacks (callStacks other : AsyncCallChain) (asyncCallChainMaxLength : Z) : AsyncCallChain :=
  match other with
  | [] => callStacks
  | s :: other' =>
      if Z.of_nat (length callStacks) <? asyncCallChainMaxLength
      then appendStacks (callStacks ++ [s]) other' asyncCallChainMaxLength
      else callStacks
  end.

Definition createChain (stack : option AsyncCallStack) (prevChain : option AsyncCallChain)
    (asyncCallChainMaxLength : Z) : AsyncCallChain :=
  appendStacks (match stack with Some s => [s] | None => [] end) (default [] prevChain) asyncCallChainMaxLength.

(** [++m_lastAsyncOperationId], back to one after the largest integer. *)
Definition nextOperationId (id : Z) : Z :=
  let id := wrapS 32 (id + 1) in if id <=? 0 then 1 else id.

(** The do-while loop that looks for an unused id. *)
Fixpoint unusedOperationId (fuel : nat) (operations : gmap Z (option AsyncCallChain)) (id : Z) : option Z :=
  match fuel with
  | O => None
  | S fuel' =>
      let id := nextOperationId id in
      match operations !! id with
      | Some _ => unusedOperationId fuel' operations id
      | None => Some id
      end
  end.

(** [ListHashSet<int>::add], and removal. *)
Definition addNotification (id : Z) (l : list Z) : list Z := if decide (id ∈ l) then l else l ++ [id].
Definition removeNotification (id : Z) (l : list Z) : list Z := List.filter (fun x => negb (x =? id)) l.

(** A frame for the console: lines and columns are one-based there. *)
Definition toScriptCallFrame (frame : Frame) : ScriptCallFrame :=
  mkScriptCallFrame (functionName frame) (String_number (sourceID frame)) (scriptName frame) (line frame + 1)
    (column frame + 1).

Section WithEngine.
Context {P : Platform} {R : RegExpEngine} {E : Type} `{V8Engine E}.

(** [toScriptCallStack] as a JSON array; null for a dead context. *)
Definition toScriptCallStack (frames : CallFrames) (e : E) : option JSONValue :=
  (fun l => buildInspectorArray (map toScriptCallFrame l)) <$> Debugger.toJavaScriptCallFrames (Some frames) e.

(** The stacks after the first, each nested in the one before; the first null
    stack ends them. *)
Fixpoint buildAsyncStackTrace (callStacks : AsyncCallChain) (e : E) : option jobject :=
  match callStacks with
  | [] => None
  | s :: callStacks' =>
      match toScriptCallStack (callFrames s) e with
      | None => None
      | Some frames =>
          let o := setString (u "description") (description s) (setValue (u "callFrames") frames []) in
          Some (match buildAsyncStackTrace callStacks' e with
                | Some t => setObject (u "asyncStackTrace") t o
                | None => o
                end)
      end
  end.

Definition buildAsyncOperation (operationId : Z) (callStacks : AsyncCallChain) (e : E) : option jobject :=
  match callStacks with
  | [] => None
  | s :: callStacks' =>
      match toScriptCallStack (callFrames s) e with
      | None => None
      | Some frames =>
          let o := setString (u "description") (description s) (setInt (u "id") operationId []) in
          let o := setValue (u "stackTrace") frames o in
          Some (match buildAsyncStackTrace callStacks' e with
                | Some t => setObject (u "asyncStackTrace") t o
                | None => o
                end)
      end
  end.

(** [flushAsyncOperationEvents]: the chain of a pending notification must not be
    null. *)
Definition flushAsyncOperationEvents : M (World E) unit :=
  f ← getAgent m_frontend;
  if negb f then mret tt
  else
    pending ← getAgent m_asyncOperationNotifications;
    forEach (fun operationId =>
      operations ← getAgent m_asyncOperations;
      match operations !! operationId with
      | Some (Some chain) =>
          operation ← gets (fun w => buildAsyncOperation operationId chain (engine w));
          match operation with
          | Some operation => Frontend.send (Frontend.asyncOperationStarted operation)
          | None => mret tt
          end
      | _ => crash
      end) pending ;;
    setAgent (fun a => a <| m_asyncOperationNotifications := [] |>).

(** ** Operations *)

(** [traceAsyncOperationCompleted]. *)
Definition traceAsyncOperationCompleted (operationId : Z) : M (World E) unit :=
  a ← getAgent id;
  if (0 <? operationId) && (m_currentAsyncOperationId a =? operationId)
     && negb (m_pendingTraceAsyncOperationCompleted a)
  then setAgent (fun a => a <| m_pendingTraceAsyncOperationCompleted := true |>)
  else
    let shouldNotify := (0 <? operationId) && negb (bool_decide (operationId ∈ m_asyncOperationNotifications a)) in
    when (0 <? operationId) (setAgent (fun a =>
      (if m_currentAsyncOperationId a =? operationId
       then a <| m_pendingTraceAsyncOperationCompleted := false |> else a)
        <| m_asyncOperations := delete operationId (m_asyncOperations a) |>
        <| m_asyncOperationBreakpoints := m_asyncOperationBreakpoints a ∖ {[operationId]} |>
        <| m_pausingAsyncOperations := m_pausingAsyncOperations a ∖ {[operationId]} |>
        <| m_asyncOperationNotifications := removeNotification operationId (m_asyncOperationNotifications a) |>)) ;;
    a ← getAgent id;
    when (m_startingStepIntoAsync a && negb (m_pausingOnAsyncOperation a)
          && bool_decide (m_pausingAsyncOperations a = ∅)) clearStepIntoAsync ;;
    when (m_frontend a && shouldNotify) (Frontend.send (Frontend.asyncOperationCompleted operationId)).

Definition clearCurrentAsyncOperation : M (World E) unit :=
  a ← getAgent id;
  when (m_pendingTraceAsyncOperationCompleted a && negb (m_currentAsyncOperationId a =? unknownAsyncOperationId))
    (traceAsyncOperationCompleted (m_currentAsyncOperationId a)) ;;
  setAgent (fun a => a <| m_currentAsyncOperationId := unknownAsyncOperationId |>
                       <| m_pendingTraceAsyncOperationCompleted := false |>
                       <| m_nestedAsyncCallCount := 0 |>
                       <| m_currentAsyncCallChain := None |>).

(** Nothing registers as an [AsyncCallTrackingListener], so none is told. *)
Definition resetAsyncCallTracker : M (World E) unit :=
  clearCurrentAsyncOperation ;;
  clearStepIntoAsync ;;
  setAgent (fun a => a <| m_asyncOperations := ∅ |> <| m_asyncOperationNotifications := [] |>
                       <| m_asyncOperationBreakpoints := ∅ |>).

Definition internalSetAsyncCallStackDepth (depth : Z) : M (World E) unit :=
  if depth <=? 0
  then setAgent (fun a => a <| m_maxAsyncCallStackDepth := 0 |>) ;; resetAsyncCallTracker
  else setAgent (fun a => a <| m_maxAsyncCallStackDepth := depth |>).

Definition traceAsyncOperationStarting (operationDescription : ustring) : M (World E) Z :=
  frames ← Debugger.currentCallFramesForAsyncStack;
  a ← getAgent id;
  let chain :=
    match frames, m_currentAsyncCallChain a with
    | None, None => None
    | None, Some current => Some (createChain None (Some current) (m_maxAsyncCallStackDepth a))
    | Some frames, current =>
        Some (createChain (Some (mkAsyncCallStack operationDescription frames)) current (m_maxAsyncCallStackDepth a))
    end in
  match unusedOperationId (S (size (m_asyncOperations a))) (m_asyncOperations a) (m_lastAsyncOperationId a) with
  | None => crash
  | Some operationId =>
      setAgent (fun a =>
        a <| m_lastAsyncOperationId := operationId |>
          <| m_asyncOperations := <[operationId := chain]> (m_asyncOperations a) |>
          <| m_asyncOperationNotifications :=
               match chain with
               | Some _ => addNotification operationId (m_asyncOperationNotifications a)
               | None => m_asyncOperationNotifications a
               end |>) ;;
      (if m_startingStepIntoAsync a
       then
         setAgent (fun a => a <| m_pausingAsyncOperations := {[operationId]} ∪ m_pausingAsyncOperations a |>
                              <| m_startingStepIntoAsync := false |>
                              <| m_scheduledDebuggerStep := NoStep |>) ;;
         Debugger.clearStepping
       else when (m_pausingOnAsyncOperation a)
         (setAgent (fun a => a <| m_pausingAsyncOperations := {[operationId]} ∪ m_pausingAsyncOperations a |>))) ;;
      match m_pausedScriptState a with
      | Some _ => flushAsyncOperationEvents
      | None => mret tt
      end ;;
      mret operationId
  end.

Definition traceAsyncCallbackCompleted : M (World E) unit :=
  n ← getAgent m_nestedAsyncCallCount;
  if n =? 0 then mret tt
  else
    setAgent (fun a => a <| m_nestedAsyncCallCount := n - 1 |>) ;;
    if negb (n - 1 =? 0) then mret tt
    else
      clearCurrentAsyncOperation ;;
      pausing ← getAgent m_pausingOnAsyncOperation;
      if negb pausing then mret tt
      else
        setAgent (fun a => a <| m_pausingOnAsyncOperation := false |> <| m_scheduledDebuggerStep := NoStep |>) ;;
        Debugger.setPauseOnNextStatement false ;;
        a ← getAgent id;
        when (m_startingStepIntoAsync a && bool_decide (m_pausingAsyncOperations a = ∅)) clearStepIntoAsync.

Definition traceAsyncCallbackStarting (operationId : Z) : M (World E) unit :=
  a ← getAgent id;
  level ← gets (fun w => recursionLevel (engine w));
  match (if 0 <? operationId then m_asyncOperations a !! operationId else None) with
  | Some (Some chain) =>
      if negb (level =? 0) then
        match m_currentAsyncCallChain a with
        | Some _ => setAgent (fun a => a <| m_nestedAsyncCallCount := m_nestedAsyncCallCount a + 1 |>)
        | None => mret tt
        end
      else
        match m_currentAsyncCallChain a with
        | Some _ => setAgent (fun a => a <| m_nestedAsyncCallCount := 1 |>) ;; traceAsyncCallbackCompleted
        | None => mret tt
        end ;;
        setAgent (fun a => a <| m_currentAsyncCallChain := Some chain |>
                             <| m_currentAsyncOperationId := operationId |>
                             <| m_pendingTraceAsyncOperationCompleted := false |>
                             <| m_nestedAsyncCallCount := 1 |>) ;;
        a ← getAgent id;
        when (bool_decide (operationId ∈ m_pausingAsyncOperations a)
              || bool_decide (operationId ∈ m_asyncOperationBreakpoints a))
          (setAgent (fun a => a <| m_pausingOnAsyncOperation := true |>
                                <| m_scheduledDebuggerStep := StepInto |>
                                <| m_skippedStepFrameCount := 0 |>
                                <| m_recursionLevelForStepFrame := 0 |>) ;;
           Debugger.setPauseOnNextStatement true)
  | _ =>
      match m_currentAsyncCallChain a with
      | Some _ => setAgent (fun a => a <| m_nestedAsyncCallCount := m_nestedAsyncCallCount a + 1 |>)
      | None => mret tt
      end
  end.

(** ** Commands *)

Definition setAsyncOperationBreakpoint (operationId : Z) : M (World E) (Reply unit) :=
  a ← getAgent id;
  if negb (trackingAsyncCalls a)
  then mret (ErrorReply (u "Can only perform operation while tracking async call stacks."))
  else if operationId <=? 0 then mret (ErrorReply (u "Wrong async operation id."))
  else match m_asyncOperations a !! operationId with
       | None => mret (ErrorReply (u "Unknown async operation id."))
       | Some _ =>
           setAgent (fun a => a <| m_asyncOperationBreakpoints := {[operationId]} ∪ m_asyncOperationBreakpoints a |>) ;;
           mret (Answer tt)
       end.

Definition removeAsyncOperationBreakpoint (operationId : Z) : M (World E) (Reply unit) :=
  a ← getAgent id;
  if negb (trackingAsyncCalls a)
  then mret (ErrorReply (u "Can only perform operation while tracking async call stacks."))
  else if operationId <=? 0 then mret (ErrorReply (u "Wrong async operation id."))
  else
    setAgent (fun a => a <| m_asyncOperationBreakpoints := m_asyncOperationBreakpoints a ∖ {[operationId]} |>) ;;
    mret (Answer tt).

Definition setAsyncCallStackDepth (depth : Z) : M (World E) (Reply unit) :=
  checkEnabled (
    setStateLong DebuggerAgentState.asyncCallStackDepth depth ;;
    internalSetAsyncCallStackDepth depth ;;
    mret (Answer tt)).

(** ** V8's asynchronous tasks ([V8AsyncCallTracker]) *)

Definition makeV8AsyncTaskUniqueId (eventName : ustring) (id : Z) : ustring :=
  eventName ++ u " -> " ++ String_number id.

Definition didEnqueueV8AsyncTask (state : ScriptState) (eventName : ustring) (id : Z) : M (World E) unit :=
  operationId ← traceAsyncOperationStarting eventName;
  when (negb (operationId =? 0)) (setAgent (fun a =>
    a <| m_contextAsyncOperationMap :=
           <[state := <[makeV8AsyncTaskUniqueId eventName id := operationId]>
                        (default ∅ (m_contextAsyncOperationMap a !! state))]> (m_contextAsyncOperationMap a) |>)).

(** [AsyncOperationMap::get] is zero for a missing key, and [remove] completes
    the operation it takes out. *)
Definition willHandleV8AsyncTask (state : ScriptState) (eventName : ustring) (id : Z) : M (World E) unit :=
  contexts ← getAgent m_contextAsyncOperationMap;
  match contexts !! state with
  | Some contextCallChains =>
      let taskId := makeV8AsyncTaskUniqueId eventName id in
      let operationId := default 0 (contextCallChains !! taskId) in
      traceAsyncCallbackStarting operationId ;;
      setAgent (fun a => a <| m_contextAsyncOperationMap :=
                                <[state := delete taskId contextCallChains]> (m_contextAsyncOperationMap a) |>) ;;
      when (negb (operationId =? 0)) (traceAsyncOperationCompleted operationId)
  | None => traceAsyncCallbackStarting unknownAsyncOperationId
  end.

Definition didReceiveV8AsyncTaskEvent (state : ScriptState) (eventType eventName : ustring) (id : Z)
    : M (World E) unit :=
  if decide (eventType = u "enqueue") then didEnqueueV8AsyncTask state eventName id
  else if decide (eventType = u "willHandle") then willHandleV8AsyncTask state eventName id
  else if decide (eventType = u "didHandle") then traceAsyncCallbackCompleted
  else mret tt.

End WithEngine.
