(* ===== verification/Promises.v ===== *)
(** * The promise tracker

    [core/inspector/PromiseTracker.cpp], and the promise operations of
    [InspectorDebuggerAgent.cpp].  Promises are numbers.  The tracker holds them
    weakly: each entry of [m_idToPromise] owns a callback record, whose destruction
    reports the promise as collected, be it V8's garbage collector, a new entry
    under the same id or the emptying of the map that destroys it. *)

From S2P Require Import Prelude Platform WTFString JSONValues JSONParser StringSearch ContentSearch InspectorState Engine CallStacks World DebuggerOps InjectedScripts AgentState.

Section WithEngine.
Context {P : Platform} {R : RegExpEngine} {E : Type} `{V8Engine E}.

Definition setTracker (f : PromiseTracker -> PromiseTracker) : M (World E) unit :=
  setAgent (fun a => a <| m_promiseTracker := f (m_promiseTracker a) |>).

Definition didUpdatePromise (eventType : ustring) (promise : jobject) : M (World E) unit :=
  f ← getAgent m_frontend;
  when f (Frontend.send (Frontend.promiseUpdated eventType promise)).

(** [~PromiseWeakCallbackData]. *)
Definition destroyCallbackData (id : Z) : M (World E) unit :=
  didUpdatePromise (u "gc") (setInt (u "id") id []).

(** [m_idToPromise.Clear()] takes the entries out before it destroys them. *)
Definition clearPromises : M (World E) unit :=
  setTracker (fun t => t <| m_promiseToId := ∅ |>) ;;
  t ← getAgent m_promiseTracker;
  setTracker (fun t => t <| m_idToPromise := ∅ |>) ;;
  forEach destroyCallbackData (map_to_list (m_idToPromise t)).*1.

Definition setPromiseTracker (isEnabled captureStacks : bool) : M (World E) unit :=
  setTracker (fun t => t <| m_isEnabled := isEnabled |> <| m_captureStacks := captureStacks |>) ;;
  when (negb isEnabled) clearPromises.

Definition nextPromiseId (id : Z) : Z :=
  let id := wrapS 32 (id + 1) in if id <=? 0 then 1 else id.

Definition circularSequentialId : M (World E) Z :=
  setTracker (fun t => t <| m_circularSequentialId := nextPromiseId (m_circularSequentialId t) |>) ;;
  t ← getAgent m_promiseTracker;
  mret (m_circularSequentialId t).

(** The id of a promise and whether it is new. *)
Definition promiseId (promise : Z) : M (World E) (Z * bool) :=
  t ← getAgent m_promiseTracker;
  match m_promiseToId t !! promise with
  | Some id => mret (id, false)
  | None =>
      id ← circularSequentialId;
      setTracker (fun t => t <| m_promiseToId := <[promise := id]> (m_promiseToId t) |>) ;;
      t ← getAgent m_promiseTracker;
      setTracker (fun t => t <| m_idToPromise := <[id := promise]> (m_idToPromise t) |>) ;;
      match m_idToPromise t !! id with
      | Some _ => destroyCallbackData id
      | None => mret tt
      end ;;
      mret (id, true)
  end.

(** V8's weak callback: the promise of the entry is gone, from V8's weak map too. *)
Definition promiseCollected (id : Z) : M (World E) unit :=
  t ← getAgent m_promiseTracker;
  match m_idToPromise t !! id with
  | Some promise =>
      setTracker (fun t => t <| m_promiseToId := delete promise (m_promiseToId t) |>
                             <| m_idToPromise := delete id (m_idToPromise t) |>) ;;
      destroyCallbackData id
  | None => mret tt
  end.

Definition promiseStatus (status : Z) : ustring :=
  if status =? 0 then u "pending" else if status =? 1 then u "resolved" else u "rejected".

(** The stack of the creation or settlement of a promise. *)
Definition captureStack (maxStackSize : Z) : M (World E) (list ScriptCallFrame) :=
  stack ← gets (fun w => CallStackFactory.createScriptCallStack maxStackSize true (engine w));
  mret (default [] stack).

Definition creationDetails (captureStacks : bool) (details : jobject) : M (World E) jobject :=
  time ← gets (fun w => currentTimeMS (engine w));
  let details := setNumber (u "creationTime") time details in
  stack ← captureStack (if captureStacks then maxCallStackSizeToCapture else 1);
  match stack with
  | [] => mret details
  | frame :: _ =>
      let details := setObject (u "callFrame") (buildInspectorObject frame) details in
      mret (if captureStacks then setValue (u "creationStack") (buildInspectorArray stack) details else details)
  end.

Definition settlementDetails (captureStacks : bool) (details : jobject) : M (World E) jobject :=
  time ← gets (fun w => currentTimeMS (engine w));
  let details := setNumber (u "settlementTime") time details in
  if captureStacks
  then
    stack ← captureStack maxCallStackSizeToCapture;
    mret (match stack with
          | [] => details
          | _ => setValue (u "settlementStack") (buildInspectorArray stack) details
          end)
  else mret details.

(** [PromiseTracker::didReceiveV8PromiseEvent]; [parentPromise] is the parent when
    it is an object. *)
Definition trackPromise (promise : Z) (parentPromise : option Z) (status : Z) : M (World E) unit :=
  r ← promiseId promise;
  let '(id, isNewPromise) := (r : Z * bool) in
  let details := setString (u "status") (promiseStatus status) (setInt (u "id") id []) in
  t ← getAgent m_promiseTracker;
  details ←
    match parentPromise with
    | Some parent =>
        r ← promiseId parent;
        mret (setInt (u "parentId") r.1 details)
    | None =>
        if status =? 0
        then if isNewPromise then creationDetails (m_captureStacks t) details else mret details
        else settlementDetails (m_captureStacks t) details
    end;
  didUpdatePromise (if isNewPromise then u "new" else u "update") details.

(** Nothing sets the listener that the rest of the method would tell. *)
Definition didReceiveV8PromiseEvent (promise : Z) (parentPromise : option Z) (status : Z) : M (World E) unit :=
  t ← getAgent m_promiseTracker;
  when (m_isEnabled t) (trackPromise promise parentPromise status).

(** ** Commands *)

Definition enablePromiseTracker (captureStacks : option bool) : M (World E) (Reply unit) :=
  checkEnabled (
    setStateBoolean DebuggerAgentState.promiseTrackerEnabled true ;;
    setStateBoolean DebuggerAgentState.promiseTrackerCaptureStacks (default false captureStacks) ;;
    setPromiseTracker true (default false captureStacks) ;;
    mret (Answer tt)).

Definition disablePromiseTracker : M (World E) (Reply unit) :=
  checkEnabled (
    setStateBoolean DebuggerAgentState.promiseTrackerEnabled false ;;
    setPromiseTracker false false ;;
    mret (Answer tt)).

(** The result is null when wrapping it throws. *)
Definition getPromiseById (promiseId : Z) (objectGroup : option ustring) : M (World E) (Reply (option jobject)) :=
  checkEnabled (
    t ← getAgent m_promiseTracker;
    if negb (m_isEnabled t) then mret (ErrorReply (u "Promise tracking is disabled"))
    else
      match m_idToPromise t !! promiseId with
      | None => mret (ErrorReply (u "Promise with specified ID not found."))
      | Some promise =>
          context ← gets (fun w => creationContext promise (engine w));
          script ← Injected.injectedScriptFor context;
          result ← Injected.wrapObject script promise (default [] objectGroup);
          mret (Answer result)
      end).

End WithEngine.
