(* ===== verification/Pausing.v ===== *)
(** * The debugger agent: pausing and stepping

    [core/inspector/InspectorDebuggerAgent.cpp]. *)

From S2P Require Import Prelude Platform WTFString JSONValues JSONParser StringSearch ContentSearch InspectorState Engine World DebuggerOps InjectedScripts AgentState Breakpoints AsyncCalls.

Section WithEngine.
Context {P : Platform} {R : RegExpEngine} {E : Type} `{V8Engine E}.

Definition releaseBacktrace : M (World E) unit := Injected.releaseObjectGroup backtraceObjectGroup.

(** ** Stepping commands *)

Definition pause : M (World E) (Reply unit) :=
  checkEnabled (
    scheduled ← getAgent m_javaScriptPauseScheduled;
    paused ← isPaused;
    if scheduled || paused then mret (Answer tt)
    else
      clearBreakDetails ;;
      clearStepIntoAsync ;;
      setAgent (fun a => a <| m_javaScriptPauseScheduled := true |> <| m_scheduledDebuggerStep := NoStep |>
                           <| m_skippedStepFrameCount := 0 |> <| m_steppingFromFramework := false |>) ;;
      Debugger.setPauseOnNextStatement true ;;
      mret (Answer tt)).

Definition resume : M (World E) (Reply unit) :=
  assertPaused (
    setAgent (fun a => a <| m_scheduledDebuggerStep := NoStep |> <| m_steppingFromFramework := false |>) ;;
    releaseBacktrace ;;
    Debugger.continueProgram ;;
    mret (Answer tt)).

(** [m_steppingFromFramework = isTopCallFrameBlackboxed()] and the release of the
    backtrace, common to the step commands. *)
Definition prepareStepFrom : M (World E) unit :=
  b ← isTopCallFrameBlackboxed;
  setAgent (fun a => a <| m_steppingFromFramework := b |>) ;;
  releaseBacktrace.

Definition stepInto : M (World E) (Reply unit) :=
  assertPaused (
    setAgent (fun a => a <| m_scheduledDebuggerStep := StepInto |>) ;;
    prepareStepFrom ;;
    Debugger.stepIntoStatement ;;
    mret (Answer tt)).

Definition stepOver : M (World E) (Reply unit) :=
  assertPaused (
    frame ← Debugger.callFrameNoScopes 0;
    if match frame with Some f => isAtReturn f | None => false end then stepInto
    else
      setAgent (fun a => a <| m_scheduledDebuggerStep := StepOver |>) ;;
      prepareStepFrom ;;
      Debugger.stepOverStatement ;;
      mret (Answer tt)).

Definition stepOut : M (World E) (Reply unit) :=
  assertPaused (
    setAgent (fun a => a <| m_scheduledDebuggerStep := StepOut |> <| m_skipNextDebuggerStepOut := false |>
                         <| m_recursionLevelForStepOut := 1 |>) ;;
    prepareStepFrom ;;
    Debugger.stepOutOfFunction ;;
    mret (Answer tt)).

Definition stepIntoAsync : M (World E) (Reply unit) :=
  assertPaused (
    tracking ← getAgent trackingAsyncCalls;
    if negb tracking
    then mret (ErrorReply (u "Can only perform operation if async call stacks are enabled."))
    else
      clearStepIntoAsync ;;
      setAgent (fun a => a <| m_startingStepIntoAsync := true |>) ;;
      stepInto).

Definition removeContinueToLocation : M (World E) unit :=
  id ← getAgent m_continueToLocationBreakpointId;
  match id with
  | [] => mret tt
  | _ => Debugger.removeBreakpoint id ;; setAgent (fun a => a <| m_continueToLocationBreakpointId := [] |>)
  end.

Definition continueToLocation (location : jobject) (interstateLocationOpt : option bool) : M (World E) (Reply unit) :=
  checkEnabled (
    removeContinueToLocation ;;
    match parseLocation location with
    | ErrorReply e => mret (ErrorReply e)
    | Answer (scriptId, lineNumber, columnNumber) =>
        r ← Debugger.setBreakpoint scriptId (mkBreakpoint lineNumber columnNumber [])
              (default false interstateLocationOpt);
        setAgent (fun a => a <| m_continueToLocationBreakpointId :=
                                  match r with Some (id, _, _) => id | None => [] end |>) ;;
        resume
    end).

(** ** Scheduled pauses *)

Definition schedulePauseOnNextStatement (breakReason : Reason) (data : option jobject) : M (World E) unit :=
  a ← getAgent id;
  paused ← isPaused;
  if bool_decide (m_scheduledDebuggerStep a = StepInto) || m_javaScriptPauseScheduled a || paused then mret tt
  else
    setAgent (fun a => a <| m_breakReason := breakReason |> <| m_breakAuxData := data |>
                         <| m_pausingOnNativeEvent := true |> <| m_skipNextDebuggerStepOut := false |>) ;;
    Debugger.setPauseOnNextStatement true.

Definition schedulePauseOnNextStatementIfSteppingInto : M (World E) unit :=
  a ← getAgent id;
  paused ← isPaused;
  if negb (bool_decide (m_scheduledDebuggerStep a = StepInto)) || m_javaScriptPauseScheduled a || paused then mret tt
  else
    clearBreakDetails ;;
    setAgent (fun a => a <| m_pausingOnNativeEvent := false |> <| m_skippedStepFrameCount := 0 |>
                         <| m_recursionLevelForStepFrame := 0 |>) ;;
    Debugger.setPauseOnNextStatement true.

(** Also [didFireTimer] and [didHandleEvent]. *)
Definition cancelPauseOnNextStatement : M (World E) unit :=
  scheduled ← getAgent m_javaScriptPauseScheduled;
  paused ← isPaused;
  if scheduled || paused then mret tt
  else
    clearBreakDetails ;;
    setAgent (fun a => a <| m_pausingOnNativeEvent := false |>) ;;
    Debugger.setPauseOnNextStatement false.

(** [step] is +1 or -1. *)
Definition changeJavaScriptRecursionLevel (step : Z) : M (World E) unit :=
  a ← getAgent id;
  paused ← isPaused;
  when (m_javaScriptPauseScheduled a && negb (m_skipAllPauses a) && negb paused)
    (Debugger.setPauseOnNextStatement true) ;;
  when (bool_decide (m_scheduledDebuggerStep a = StepOut))
    (setAgent (fun a => a <| m_recursionLevelForStepOut := m_recursionLevelForStepOut a + step |>) ;;
     level ← getAgent m_recursionLevelForStepOut;
     when (level =? 0)
       (setAgent (fun a => a <| m_scheduledDebuggerStep := StepInto |> <| m_skipNextDebuggerStepOut := false |>))) ;;
  when (negb (m_recursionLevelForStepFrame a =? 0))
    (setAgent (fun a => a <| m_recursionLevelForStepFrame := m_recursionLevelForStepFrame a + step |>) ;;
     level ← getAgent m_recursionLevelForStepFrame;
     when (level =? 0)
       (setAgent (fun a => a <| m_skippedStepFrameCount := 0 |>) ;;
        scheduled ← getAgent m_scheduledDebuggerStep;
        match scheduled with
        | NoStep => Debugger.clearStepping
        | StepOut => setAgent (fun a => a <| m_skipNextDebuggerStepOut := true |>)
        | _ => mret tt
        end)).

Definition willCallFunction (scriptId : Z) : M (World E) unit :=
  changeJavaScriptRecursionLevel 1 ;;
  a ← getAgent id;
  if negb (bool_decide (m_scheduledDebuggerStep a = StepInto)) then mret tt
  else match m_scripts a !! String_number scriptId with
       | None => mret tt
       | Some _ => schedulePauseOnNextStatementIfSteppingInto
       end.

Definition didCallFunction : M (World E) unit := changeJavaScriptRecursionLevel (-1).

Definition willEvaluateScript : M (World E) unit :=
  changeJavaScriptRecursionLevel 1 ;; schedulePauseOnNextStatementIfSteppingInto.

Definition didEvaluateScript : M (World E) unit := changeJavaScriptRecursionLevel (-1).

(** ** Stacks for the frontend *)

Definition currentCallFrames : M (World E) JSONValue :=
  a ← getAgent id;
  match m_pausedScriptState a, m_currentCallStack a with
  | Some scriptState, Some frames =>
      script ← Injected.injectedScriptFor scriptState;
      if is_empty script then mret (JSONArray []) else Injected.wrapCallFrames script frames 0
  | _, _ => mret (JSONArray [])
  end.

(** The loop from the last stack to the first, [result] being the trace so far;
    [callStacks] is in reverse and [asyncOrdinal] its length. *)
Fixpoint asyncStackTraceLoop (callStacks : list AsyncCallStack) (asyncOrdinal : Z) (result : option jobject)
    : M (World E) (option jobject) :=
  match callStacks with
  | [] => mret result
  | s :: callStacks' =>
      script ← Injected.injectedScriptFor (cf_scriptState (callFrames s));
      if is_empty script then asyncStackTraceLoop callStacks' (asyncOrdinal - 1) None
      else
        frames ← Injected.wrapCallFrames script (callFrames s) asyncOrdinal;
        let next := setString (u "description") (description s) (setValue (u "callFrames") frames []) in
        let next := match result with Some t => setObject (u "asyncStackTrace") t next | None => next end in
        asyncStackTraceLoop callStacks' (asyncOrdinal - 1) (Some next)
  end.

Definition currentAsyncStackTrace : M (World E) (option jobject) :=
  a ← getAgent id;
  match m_pausedScriptState a, m_currentAsyncCallChain a with
  | Some _, Some chain =>
      if negb (trackingAsyncCalls a) then mret None
      else asyncStackTraceLoop (reverse chain) (Z.of_nat (length chain)) None
  | _, _ => mret None
  end.

Definition getBacktrace : M (World E) (Reply (JSONValue * option jobject)) :=
  assertPaused (
    frames ← Debugger.currentCallFrames;
    setAgent (fun a => a <| m_currentCallStack := frames |>) ;;
    callFrames ← currentCallFrames;
    asyncStackTrace ← currentAsyncStackTrace;
    mret (Answer (callFrames, asyncStackTrace))).

(** ** Pausing *)

(** Whether V8's break is skipped, before anything is reported. *)
Definition skipRequest (exception : option Z) (hitBreakpoints : list ustring)
    : M (World E) ScriptDebugListener.SkipPauseRequest :=
  a ← getAgent id;
  if m_skipAllPauses a then mret ScriptDebugListener.Continue
  else match hitBreakpoints with
       | _ :: _ => mret ScriptDebugListener.NoSkip
       | [] =>
           match exception with
           | Some _ => shouldSkipExceptionPause
           | None =>
               if negb (bool_decide (m_scheduledDebuggerStep a = NoStep)) || m_javaScriptPauseScheduled a
                  || m_pausingOnNativeEvent a
               then shouldSkipStepPause
               else mret ScriptDebugListener.NoSkip
           end
       end.

(** The reason of the pause: an exception or an asynchronous operation replaces
    what was scheduled. *)
Definition setBreakReason (scriptState : ScriptState) (exception : option Z) (isPromiseRejection : bool) : M (World E) unit :=
  match exception with
  | Some exception =>
      script ← Injected.injectedScriptFor scriptState;
      if is_empty script then mret tt
      else
        setAgent (fun a => a <| m_breakReason := if isPromiseRejection then PromiseRejection else Exception |>) ;;
        wrapped ← Injected.wrapObject script exception backtraceObjectGroup;
        setAgent (fun a => a <| m_breakAuxData := wrapped |>)
  | None =>
      a ← getAgent id;
      when (m_pausingOnAsyncOperation a)
        (setAgent (fun a => a <| m_breakReason := AsyncOperation |>
                              <| m_breakAuxData := Some (setInt (u "operationId") (m_currentAsyncOperationId a) []) |>))
  end.

(** The loop over the breakpoints that were hit. *)
Fixpoint hitBreakpointIds (hitBreakpoints : list ustring) : M (World E) (list ustring) :=
  match hitBreakpoints with
  | [] => mret []
  | point :: hitBreakpoints' =>
      a ← getAgent id;
      match m_serverBreakpoints a !! point with
      | None => hitBreakpointIds hitBreakpoints'
      | Some (localId, source) =>
          when (bool_decide (m_breakReason a = Other) && bool_decide (source = DebugCommandBreakpointSource))
            (setAgent (fun a => a <| m_breakReason := DebugCommand |>)) ;;
          ids ← hitBreakpointIds hitBreakpoints';
          mret (localId :: ids)
      end
  end.

Definition didPause (scriptState : ScriptState) (callFrames : option CallFrames) (exception : option Z)
    (hitBreakpoints : list ustring) (isPromiseRejection : bool) : M (World E) ScriptDebugListener.SkipPauseRequest :=
  result ← skipRequest exception hitBreakpoints;
  setAgent (fun a => a <| m_skipNextDebuggerStepOut := false |>) ;;
  match result, callFrames with
  | ScriptDebugListener.NoSkip, Some frames =>
      setAgent (fun a => a <| m_pausedScriptState := Some scriptState |> <| m_currentCallStack := Some frames |>) ;;
      setBreakReason scriptState exception isPromiseRejection ;;
      ids ← hitBreakpointIds hitBreakpoints;
      pending ← getAgent m_asyncOperationNotifications;
      match pending with [] => mret tt | _ => flushAsyncOperationEvents end ;;
      frames ← currentCallFrames;
      a ← getAgent id;
      trace ← currentAsyncStackTrace;
      Frontend.send (Frontend.paused frames (m_breakReason a) (m_breakAuxData a) ids trace) ;;
      setAgent (fun a => a <| m_scheduledDebuggerStep := NoStep |> <| m_javaScriptPauseScheduled := false |>
                           <| m_steppingFromFramework := false |> <| m_pausingOnNativeEvent := false |>
                           <| m_skippedStepFrameCount := 0 |> <| m_recursionLevelForStepFrame := 0 |>) ;;
      clearStepIntoAsync ;;
      removeContinueToLocation ;;
      mret ScriptDebugListener.NoSkip
  | ScriptDebugListener.NoSkip, None => mret ScriptDebugListener.Continue
  | _, _ => mret result
  end.

Definition didContinue : M (World E) unit :=
  setAgent (fun a => a <| m_pausedScriptState := None |> <| m_currentCallStack := None |>) ;;
  clearBreakDetails ;;
  Frontend.send Frontend.resumed.

(** ** Settings *)

Definition setPauseOnExceptionsImpl (pauseState : Z) : M (World E) (Reply unit) :=
  Debugger.setPauseOnExceptionsState pauseState ;;
  s ← Debugger.pauseOnExceptionsState;
  if negb (s =? pauseState)
  then mret (ErrorReply (u "Internal error. Could not change pause on exceptions state"))
  else setStateLong DebuggerAgentState.pauseOnExceptionsState pauseState ;; mret (Answer tt).

Definition pauseStateOf (stringPauseState : ustring) : option Z :=
  if decide (stringPauseState = u "none") then Some DebuggerScriptJS.DontPauseOnExceptions
  else if decide (stringPauseState = u "all") then Some DebuggerScriptJS.PauseOnAllExceptions
  else if decide (stringPauseState = u "uncaught") then Some DebuggerScriptJS.PauseOnUncaughtExceptions
  else None.

Definition setPauseOnExceptions (stringPauseState : ustring) : M (World E) (Reply unit) :=
  checkEnabled (
    match pauseStateOf stringPauseState with
    | None => mret (ErrorReply (u "Unknown pause on exceptions mode: " ++ stringPauseState))
    | Some pauseState => setPauseOnExceptionsImpl pauseState
    end).

Definition setSkipAllPauses (skipped : bool) : M (World E) (Reply unit) :=
  setAgent (fun a => a <| m_skipAllPauses := skipped |>) ;;
  setStateBoolean DebuggerAgentState.skipAllPauses skipped ;;
  mret (Answer tt).

Definition skipStackFrames (pattern : option ustring) (skipContentScripts : option bool) : M (World E) (Reply unit) :=
  checkEnabled (
    let patternValue := default [] pattern in
    let compiled := compileSkipCallFramePattern patternValue in
    match patternValue, compiled with
    | _ :: _, None => mret (ErrorReply (u "Invalid regular expression"))
    | _, _ =>
        setStateString DebuggerAgentState.skipStackPattern patternValue ;;
        setAgent (fun a => a <| m_cachedSkipStackRegExp := compiled |>) ;;
        increaseCachedSkipStackGeneration ;;
        setAgent (fun a => a <| m_skipContentScripts := default false skipContentScripts |>) ;;
        setStateBoolean DebuggerAgentState.skipContentScripts (default false skipContentScripts) ;;
        mret (Answer tt)
    end).

End WithEngine.
