(* ===== verification/Evaluation.v ===== *)
(** * The debugger agent: evaluation

    The methods of [core/inspector/InspectorDebuggerAgent.cpp] that have the
    injected script or V8 do something for the frontend, with the calls of
    [InjectedScriptBase.cpp] and [InjectedScript.cpp] they use.

    [evaluateOnCallFrame], [compileScript] and [runScript] run JavaScript, which can
    lead back into the inspector.  They are cut where they do: the first part ends
    with the call pushed on [activations], and [finishEvaluateOnCallFrame] and so on
    are what follows when JavaScript has returned. *)

From S2P Require Import Prelude Platform WTFString JSONValues JSONParser StringSearch ContentSearch InspectorState Dispatcher Engine NativeObjects CallStacks World DebuggerOps InjectedScripts AgentState Breakpoints AsyncCalls Promises Pausing.

(** ** Exceptions *)

(** A frame of the stack trace that [JavaScriptCallFrame::createExceptionDetails]
    describes. *)
Definition exceptionCallFrame `{Platform} (stackFrame : jobject) : ScriptCallFrame :=
  mkScriptCallFrame (default [] (getString (u "functionName") stackFrame))
    (String_number (default 0 (getInt (u "scriptId") stackFrame)))
    (default [] (getString (u "scriptNameOrSourceURL") stackFrame))
    (default 0 (getInt (u "lineNumber") stackFrame))
    (default 0 (getInt (u "column") stackFrame)).

Definition setOptional {A} (set : ustring -> A -> jobject -> jobject) (name : ustring) (value : option A) (o : jobject)
    : jobject :=
  match value with Some a => set name a o | None => o end.

(** A frame that is not an object is a null pointer. *)
Definition toExceptionDetails `{Platform} (object : jobject) : outcome (option jobject) :=
  match getString (u "text") object with
  | None => Done None
  | Some text =>
      let details := setString (u "text") text [] in
      let details := setOptional setString (u "url") (getString (u "url") object) details in
      let details := setOptional setInt (u "line") (getInt (u "line") object) details in
      let details := setOptional setInt (u "column") (getInt (u "column") object) details in
      let originScriptId := default 0 (getInt (u "scriptId") object) in
      let withScriptId id o := if id =? 0 then o else setString (u "scriptId") (String_number id) o in
      match default [] (getArray (u "stackTrace") object) with
      | [] => Done (Some (withScriptId originScriptId details))
      | stackTrace =>
          match mapM asObject stackTrace with
          | None => Crash
          | Some frames =>
              let first := default 0 (head frames ≫= getInt (u "scriptId")) in
              let originScriptId := if first =? originScriptId then 0 else originScriptId in
              Done (Some (withScriptId originScriptId
                (setValue (u "stackTrace") (buildInspectorArray (map exceptionCallFrame frames)) details)))
          end
      end
  end.

(** [createExceptionDetails]. *)
Definition createExceptionDetails (message : V8Message) : jobject :=
  let details := setString (u "text") (msg_text message) [] in
  let details := setInt (u "line") (msg_lineNumber message) details in
  let details := setInt (u "column") (msg_startColumn message) details in
  match msg_stackTrace message with
  | [] => details
  | stackTrace =>
      setValue (u "stackTrace")
        (buildInspectorArray (CallStackFactory.toScriptCallFramesVector stackTrace (Z.of_nat (length stackTrace)) true)) details
  end.

(** ** Results *)

Record EvalResult := mkEvalResult {
  ev_result : jobject;
  ev_wasThrown : bool;
  ev_exceptionDetails : option jobject;
}.

(** [makeEvalCall], after [makeCall]; [callFunctionOn] passes no pointer to the
    exception details. *)
Definition makeEvalCall `{Platform} (hasDetails : bool) (result : JSONValue) : outcome (Reply EvalResult) :=
  match result with
  | JSONString error => Done (ErrorReply error)
  | JSONObject resultPair =>
      match getObject (u "result") resultPair, getBoolean (u "wasThrown") resultPair with
      | Some resultObj, Some wasThrown =>
          match (if wasThrown then getObject (u "exceptionDetails") resultPair else None) with
          | Some objectExceptionDetails =>
              if hasDetails then
                match toExceptionDetails objectExceptionDetails with
                | Done exceptionDetails => Done (Answer (mkEvalResult resultObj wasThrown exceptionDetails))
                | Crash => Crash
                end
              else Crash
          | None => Done (Answer (mkEvalResult resultObj wasThrown None))
          end
      | _, _ => Done (ErrorReply (u "Internal error: result is not a pair of value and wasThrown flag"))
      end
  | _ => Done (ErrorReply (u "Internal error: result is not an Object"))
  end.

Definition hasExceptionDetails (call : EvaluationCall) : bool :=
  match call with CallFunctionOn _ _ _ _ _ => false | _ => true end.

(** What JavaScript gives back: the injected script's function, the compiler, or
    a script. *)
Inductive JSOutcome :=
  | CallEnds (result : CallResult)
  | CompileEnds (scriptId : Z)
  | CompileFails (message : option V8Message)
  | ScriptEnds (value : Z)
  | ScriptThrows (exception : option Z) (message : option V8Message).

(** The outputs of [compileScript] and [runScript]. *)
Abbreviation CompileOutputs := (option ustring * option jobject)%type.
Abbreviation RunOutputs := (option jobject * option jobject)%type.

Section WithEngine.
Context {P : Platform} {R : RegExpEngine} {E : Type} `{V8Engine E}.

Definition lift {A} (o : outcome A) : M (World E) A := fun w =>
  match o with Done a => Done (a, w) | Crash => Crash end.

Definition pushActivation (a : Activation) : M (World E) unit :=
  modify (fun w => w <| activations := a :: activations w |>).

Definition popActivation : M (World E) unit := modify (fun w => w <| activations := tl (activations w) |>).

(** ** Methods that ask the injected script *)

(** An [InjectedScript] that is not empty. *)
Definition present (script : option InjectedScript) : option InjectedScript :=
  script ≫= fun s => if is_empty s then None else Some s.

(** [if (injectedScript.isEmpty()) { *errorString = error; return; }] before [m]. *)
Definition withScript {A} (objectId error : ustring) (m : InjectedScript -> M (World E) (Reply A)) : M (World E) (Reply A) :=
  script ← Injected.injectedScriptForObjectId objectId;
  match present script with
  | Some s => m s
  | None => mret (ErrorReply error)
  end.

Definition frameHasGone : ustring := u "Inspected frame has gone".

(** [if (!isPaused() || m_currentCallStack.isEmpty())], with the call stack. *)
Definition withCallStack {A} (m : CallFrames -> M (World E) (Reply A)) : M (World E) (Reply A) :=
  p ← isPaused;
  stack ← getAgent m_currentCallStack;
  match (if p : bool then stack else None) with
  | Some frames => m frames
  | None => mret (ErrorReply (u "Attempt to access callframe when debugger is not on pause"))
  end.

(** [InjectedScript::getStepInPositions] and the other calls that return one kind
    of JSON value or a string with an error. *)
Definition getStepInPositions (callFrameId : ustring) : M (World E) (Reply JSONValue) :=
  withCallStack (fun callFrames =>
  withScript callFrameId frameHasGone (fun s =>
    r ← Injected.makeCall s (CallGetStepInPositions (Injected.framesArgument s callFrames) callFrameId);
    mret (match r with
          | JSONString error => ErrorReply error
          | JSONArray positions => Answer (JSONArray positions)
          | _ => ErrorReply (u "Internal error")
          end))).

Definition getFunctionDetails (functionId : ustring) : M (World E) (Reply JSONValue) :=
  checkEnabled (withScript functionId (u "Function object id is obsolete") (fun s =>
    r ← Injected.makeCall s (CallGetFunctionDetails functionId);
    mret (match r with
          | JSONObject details => Answer (JSONObject details)
          | JSONString error => ErrorReply error
          | _ => ErrorReply (u "Internal error")
          end))).

Definition getGeneratorObjectDetails (objectId : ustring) : M (World E) (Reply JSONValue) :=
  checkEnabled (withScript objectId frameHasGone (fun s =>
    r ← Injected.makeCall s (CallGetGeneratorObjectDetails objectId);
    mret (match r with
          | JSONObject details => Answer (JSONObject details)
          | JSONString error => ErrorReply error
          | _ => ErrorReply (u "Internal error")
          end))).

Definition getCollectionEntries (objectId : ustring) : M (World E) (Reply JSONValue) :=
  checkEnabled (withScript objectId frameHasGone (fun s =>
    r ← Injected.makeCall s (CallGetCollectionEntries objectId);
    mret (match r with
          | JSONArray entries => Answer (JSONArray entries)
          | JSONString error => ErrorReply error
          | _ => ErrorReply (u "Internal error")
          end))).

(** [InjectedScript::setVariableValue]; [m_currentCallStack] is used with a call
    frame only. *)
Definition setVariableValueIn (s : InjectedScript) (callFrame : option (CallFrames * ustring)) (functionObjectId : option ustring)
    (scopeNumber : Z) (variableName newValue : ustring) : M (World E) (Reply unit) :=
  r ← Injected.makeCall s
        (CallSetVariableValue ((fun c => (Injected.framesArgument s c.1, c.2)) <$> callFrame) functionObjectId
           scopeNumber variableName newValue);
  mret (match r with JSONString error => ErrorReply error | _ => Answer tt end).

Definition setVariableValue (scopeNumber : Z) (variableName : ustring) (newValue : jobject)
    (callFrameId functionObjectId : option ustring) : M (World E) (Reply unit) :=
  let newValueString := toJSONString (JSONObject newValue) in
  checkEnabled (
    match callFrameId, functionObjectId with
    | Some id, _ =>
        withCallStack (fun callFrames => withScript id frameHasGone (fun s =>
          setVariableValueIn s (Some (callFrames, id)) functionObjectId scopeNumber variableName newValueString))
    | None, Some id =>
        withScript id (u "Function object id cannot be resolved") (fun s =>
          setVariableValueIn s None functionObjectId scopeNumber variableName newValueString)
    | None, None => mret (ErrorReply (u "Either call frame or function object must be specified"))
    end).

(** ** Changing the program *)

(** [m_currentCallStack = debugger().currentCallFrames()]. *)
Definition refreshCallStack : M (World E) unit :=
  stack ← Debugger.currentCallFrames;
  setAgent (fun a => a <| m_currentCallStack := stack |>).

(** The call frames and the asynchronous stack for the answer. *)
Definition newStacks : M (World E) (JSONValue * option jobject) :=
  frames ← currentCallFrames;
  asyncStackTrace ← currentAsyncStackTrace;
  mret (frames, asyncStackTrace).

Definition restartFrame (callFrameId : ustring) : M (World E) (Reply (JSONValue * option jobject * option jobject)) :=
  withCallStack (fun callFrames =>
  withScript callFrameId frameHasGone (fun s =>
    r ← Injected.makeCall s (CallRestartFrame (Injected.framesArgument s callFrames) callFrameId);
    refreshCallStack ;;
    stacks ← newStacks;
    let '(frames, asyncStackTrace) := (stacks : JSONValue * option jobject) in
    mret (match r with
          | JSONString error => ErrorReply error
          | JSONObject result => Answer (frames, Some result, asyncStackTrace)
          | _ => ErrorReply (u "Internal error")
          end))).

(** [TypeBuilder::Debugger::SetScriptSourceError]. *)
Definition setScriptSourceError (message : ustring) (lineNumber columnNumber : Z) : jobject :=
  setObject (u "compileError")
    (setInt (u "columnNumber") columnNumber (setInt (u "lineNumber") lineNumber (setString (u "message") message []))) [].

(** [V8Debugger::setScriptSource]: the error and its data, or the result object. *)
Definition debuggerSetScriptSource (sourceID newContent : ustring) (preview : bool)
    : M (World E) (option jobject + ustring * option jobject) :=
  Debugger.debuggerScriptLocal ;;
  r ← runEngine (liveEditScriptSource sourceID newContent preview);
  match r with
  | LiveEditThrew text => mret (inr (default (u "Unknown error.") text, None))
  | LiveEditDone result =>
      paused ← getVD Debugger.isPaused;
      when (negb preview && paused) refreshCallStack ;;
      mret (inl (result ≫= asObject))
  | LiveEditCompileError error message lineNumber columnNumber =>
      mret (inr (error, Some (setScriptSourceError message (wrapS 32 lineNumber) (wrapS 32 columnNumber))))
  | LiveEditUnknown => mret (inr (u "Unknown error.", None))
  end.

(** With the data of an error. *)
Definition setScriptSource (scriptId newContent : ustring) (preview : option bool)
    : M (World E) (Reply (JSONValue * option jobject * option jobject) * option jobject) :=
  e ← enabled;
  if negb e then mret (ErrorReply (u "Debugger agent is not enabled"), None)
  else
    r ← debuggerSetScriptSource scriptId newContent (default false preview);
    match r with
    | inr (error, errorData) => mret (ErrorReply error, errorData)
    | inl result =>
        stacks ← newStacks;
        let '(frames, asyncStackTrace) := (stacks : JSONValue * option jobject) in
        a ← getAgent id;
        match m_scripts a !! scriptId ≫= m_url with
        | Some (c :: url) => setAgent (fun a => a <| m_editedScripts := <[c :: url := newContent]> (m_editedScripts a) |>)
        | _ => mret tt
        end ;;
        mret (Answer (frames, result, asyncStackTrace), None)
    end.

(** ** Methods that run JavaScript *)

(** [WorkerDebuggerAgent] and [WorkerRuntimeAgent::injectedScriptForEval], without
    their error string. *)
Definition injectedScriptForEval (executionContextId : option Z) : M (World E) (option InjectedScript) :=
  match executionContextId with
  | None =>
      context ← gets inspectedContext;
      script ← Injected.injectedScriptFor context;
      mret (Some script)
  | Some id => Injected.injectedScriptForId id
  end.

(** The pause on exceptions state before, turned off if it has to be. *)
Definition mutePauses (doNotPauseOnExceptionsAndMuteConsole : bool) : M (World E) Z :=
  previousPauseOnExceptionsState ← Debugger.pauseOnExceptionsState;
  when (doNotPauseOnExceptionsAndMuteConsole &&
        negb (previousPauseOnExceptionsState =? DebuggerScriptJS.DontPauseOnExceptions))
    (Debugger.setPauseOnExceptionsState DebuggerScriptJS.DontPauseOnExceptions) ;;
  mret previousPauseOnExceptionsState.

Definition unmutePauses (previousPauseOnExceptionsState : Z) (doNotPauseOnExceptionsAndMuteConsole : bool) : M (World E) unit :=
  when doNotPauseOnExceptionsAndMuteConsole (
    state ← Debugger.pauseOnExceptionsState;
    when (negb (state =? previousPauseOnExceptionsState))
      (Debugger.setPauseOnExceptionsState previousPauseOnExceptionsState)).

Definition evaluateOnCallFrame (callFrameId expression : ustring) (objectGroup : option ustring)
    (includeCommandLineAPI doNotPauseOnExceptionsAndMuteConsole returnByValue generatePreview : option bool)
    : M (World E) (Progress (Reply EvalResult)) :=
  p ← isPaused;
  a ← getAgent id;
  match (if p : bool then m_currentCallStack a else None) with
  | None => mret (Returned (ErrorReply (u "Attempt to access callframe when debugger is not on pause")))
  | Some callFrames =>
      script ← Injected.injectedScriptForObjectId callFrameId;
      match present script with
      | None => mret (Returned (ErrorReply frameHasGone))
      | Some s =>
          let mute := default false doNotPauseOnExceptionsAndMuteConsole in
          previous ← mutePauses mute;
          let asyncCallStacks :=
            map (fun c => Injected.framesArgument s (World.callFrames c)) (default [] (m_currentAsyncCallChain a)) in
          pushActivation (EvaluatingOnCallFrame s
            (CallEvaluateOnCallFrame (Injected.framesArgument s callFrames) asyncCallStacks callFrameId expression
               (default [] objectGroup) (default false includeCommandLineAPI) (default false returnByValue)
               (default false generatePreview)) previous mute) ;;
          mret Waiting
      end
  end.

Definition finishEvaluateOnCallFrame (call : EvaluationCall) (previousPauseOnExceptionsState : Z)
    (doNotPauseOnExceptionsAndMuteConsole : bool) (result : CallResult) : M (World E) (Reply EvalResult) :=
  reply ← lift (makeEvalCall (hasExceptionDetails call) (Injected.callResult result));
  unmutePauses previousPauseOnExceptionsState doNotPauseOnExceptionsAndMuteConsole ;;
  mret reply.

Definition compileScript (expression sourceURL : ustring) (persistScript : bool) (executionContextId : option Z)
    : M (World E) (Progress (Reply CompileOutputs)) :=
  e ← enabled;
  if negb e then mret (Returned (ErrorReply (u "Debugger agent is not enabled")))
  else
    script ← injectedScriptForEval executionContextId;
    e ← gets engine;
    match present script with
    | None => mret (Returned (ErrorReply frameHasGone))
    | Some s =>
        if contextIsValid (is_scriptState s) e
        then pushActivation (CompilingScript (is_scriptState s) expression sourceURL persistScript) ;; mret Waiting
        else mret (Returned (ErrorReply frameHasGone))
    end.

Definition finishCompileScript (persistScript : bool) (compiled : Z + option V8Message) : M (World E) (Reply CompileOutputs) :=
  match compiled with
  | inr (Some message) => mret (Answer (None, Some (createExceptionDetails message)))
  | inr None => mret (ErrorReply (u "Script compilation failed"))
  | inl id =>
      if persistScript
      then setAgent (fun a => a <| m_compiledScripts := {[String_number id]} ∪ m_compiledScripts a |>) ;;
           mret (Answer (Some (String_number id), None))
      else mret (Answer (None, None))
  end.

Definition executionFailed : ustring := u "Script execution failed".

(** The early returns leave the pauses off. *)
Definition runScript (scriptId : ustring) (executionContextId : option Z) (objectGroup : option ustring)
    (doNotPauseOnExceptionsAndMuteConsole : option bool) : M (World E) (Progress (Reply RunOutputs)) :=
  e ← enabled;
  if negb e then mret (Returned (ErrorReply (u "Debugger agent is not enabled")))
  else
    script ← injectedScriptForEval executionContextId;
    match present script with
    | None => mret (Returned (ErrorReply frameHasGone))
    | Some s =>
        let mute := default false doNotPauseOnExceptionsAndMuteConsole in
        previous ← mutePauses mute;
        scripts ← getAgent m_compiledScripts;
        if decide (scriptId ∈ scripts)
        then
          setAgent (fun a => a <| m_compiledScripts := m_compiledScripts a ∖ {[scriptId]} |>) ;;
          e ← gets engine;
          if contextIsValid (is_scriptState s) e
          then pushActivation (RunningScript s scriptId (default [] objectGroup) previous mute) ;; mret Waiting
          else mret (Returned (ErrorReply executionFailed))
        else mret (Returned (ErrorReply executionFailed))
    end.

Definition finishRunScript (s : InjectedScript) (objectGroup : ustring) (previousPauseOnExceptionsState : Z)
    (doNotPauseOnExceptionsAndMuteConsole : bool) (scriptValue : option Z) (message : option V8Message)
    : M (World E) (Reply RunOutputs) :=
  match scriptValue with
  | None => mret (ErrorReply executionFailed)
  | Some value =>
      result ← Injected.wrapObject s value objectGroup;
      unmutePauses previousPauseOnExceptionsState doNotPauseOnExceptionsAndMuteConsole ;;
      mret (Answer (result, createExceptionDetails <$> message))
  end.

End WithEngine.
