(* ===== verification/RuntimeAgent.v ===== *)
(** * The runtime agent

    [core/inspector/InspectorRuntimeAgent.cpp] and [WorkerRuntimeAgent.cpp].
    [evaluate] and [callFunctionOn] run JavaScript and are cut like the methods of
    [Evaluation].  Muting the console does nothing in a worker. *)

From S2P Require Import Prelude Platform WTFString JSONValues JSONParser StringSearch ContentSearch InspectorState Dispatcher Engine NativeObjects CallStacks World DebuggerOps InjectedScripts AgentState Evaluation.

Module Runtime.
Section WithEngine.
Context {P : Platform} {E : Type} `{V8Engine E}.

Definition setRuntime (f : RuntimeAgent -> RuntimeAgent) : M (World E) unit :=
  modify (fun w => w <| runtime := f (runtime w) |>).

Definition runtimeEnabled : ustring := u "runtimeEnabled".

Definition setRuntimeEnabled (b : bool) : M (World E) unit :=
  modify (fun w => w <| composite := setProperty (rt_state (runtime w)) runtimeEnabled (JSONBoolean b) (composite w) |>).

(** ** Enabling *)

(** The context is a page context, and has no name. *)
Definition addExecutionContextToFrontend (scriptState : ScriptState) (origin frameId : ustring) : M (World E) unit :=
  executionContextId ← Injected.injectedScriptIdFor scriptState;
  setRuntime (fun r => r <| rt_scriptStateToId := <[scriptState := executionContextId]> (rt_scriptStateToId r) |>) ;;
  Frontend.send (Frontend.executionContextCreated executionContextId [] origin frameId).

Definition contextUrl : ustring := u "WorkerRuntimeAgent::enable context name" ++ [10].

Definition enable : M (World E) unit :=
  r ← gets runtime;
  if rt_enabled r then mret tt
  else
    setRuntime (fun r => r <| rt_enabled := true |>) ;;
    setRuntimeEnabled true ;;
    context ← gets inspectedContext;
    addExecutionContextToFrontend context contextUrl [].

Definition disable : M (World E) unit :=
  r ← gets runtime;
  if negb (rt_enabled r) then mret tt
  else
    setRuntime (fun r => r <| rt_scriptStateToId := ∅ |> <| rt_enabled := false |>) ;;
    setRuntimeEnabled false.

Definition restore : M (World E) unit :=
  e ← gets (fun w => Properties.getBoolean runtimeEnabled (properties (rt_state (runtime w)) (composite w)));
  when e (
    setRuntime (fun r => r <| rt_scriptStateToId := ∅ |>) ;;
    Frontend.send Frontend.executionContextsCleared ;;
    enable).

(** ** Evaluation *)

(** [InjectedScriptCallScope::setPauseOnExceptionsState]. *)
Definition setPauseOnExceptionsState (newState : Z) : M (World E) Z :=
  e ← getVD Debugger.enabled;
  if negb e then mret newState
  else
    presentState ← Debugger.pauseOnExceptionsState;
    when (negb (presentState =? newState)) (Debugger.setPauseOnExceptionsState newState) ;;
    mret presentState.

(** Its constructor, with [m_previousPauseOnExceptionsState], and its destructor. *)
Definition enterCallScope (doNotPauseOnExceptionsAndMuteConsole : bool) : M (World E) Z :=
  if doNotPauseOnExceptionsAndMuteConsole
  then setPauseOnExceptionsState DebuggerScriptJS.DontPauseOnExceptions
  else mret DebuggerScriptJS.DontPauseOnExceptions.

Definition leaveCallScope (previousPauseOnExceptionsState : Z) (doNotPauseOnExceptionsAndMuteConsole : bool) : M (World E) unit :=
  when doNotPauseOnExceptionsAndMuteConsole (setPauseOnExceptionsState previousPauseOnExceptionsState ;; mret tt).

(** Without a script for the context the method returns no error and no result. *)
Definition evaluate (expression : ustring) (objectGroup : option ustring)
    (includeCommandLineAPI doNotPauseOnExceptionsAndMuteConsole : option bool) (executionContextId : option Z)
    (returnByValue generatePreview : option bool) : M (World E) (Progress (Reply (option EvalResult))) :=
  script ← injectedScriptForEval executionContextId;
  match present script, executionContextId with
  | None, None => mret (Returned (Answer None))
  | None, Some _ => mret (Returned (ErrorReply (u "Execution context with given id not found.")))
  | Some s, _ =>
      let mute := default false doNotPauseOnExceptionsAndMuteConsole in
      previous ← enterCallScope mute;
      pushActivation (RuntimeEvaluating s
        (CallEvaluate expression (default [] objectGroup) (default false includeCommandLineAPI)
           (default false returnByValue) (default false generatePreview)) previous mute) ;;
      mret Waiting
  end.

Definition callFunctionOn (objectId expression : ustring) (optionalArguments : option (list JSONValue))
    (doNotPauseOnExceptionsAndMuteConsole returnByValue generatePreview : option bool)
    : M (World E) (Progress (Reply (option EvalResult))) :=
  script ← Injected.injectedScriptForObjectId objectId;
  match present script with
  | None => mret (Returned (ErrorReply frameHasGone))
  | Some s =>
      let arguments := match optionalArguments with Some l => toJSONString (JSONArray l) | None => [] end in
      let mute := default false doNotPauseOnExceptionsAndMuteConsole in
      previous ← enterCallScope mute;
      pushActivation (RuntimeEvaluating s
        (CallFunctionOn objectId expression arguments (default false returnByValue) (default false generatePreview))
        previous mute) ;;
      mret Waiting
  end.

Definition finishEvaluate (call : EvaluationCall) (previousPauseOnExceptionsState : Z)
    (doNotPauseOnExceptionsAndMuteConsole : bool) (result : CallResult) : M (World E) (Reply (option EvalResult)) :=
  reply ← lift (makeEvalCall (hasExceptionDetails call) (Injected.callResult result));
  leaveCallScope previousPauseOnExceptionsState doNotPauseOnExceptionsAndMuteConsole ;;
  mret (match reply with ErrorReply error => ErrorReply error | Answer r => Answer (Some r) end).

(** ** Objects *)

(** [makeCallWithExceptionDetails]. *)
Definition makeCallWithExceptionDetails (s : InjectedScript) (c : InjectedCall) : M (World E) (JSONValue + jobject) :=
  r ← Injected.callInjected s (injectedCall (is_scriptState s) c);
  mret (match r with
        | CallThrew text => inr (setString (u "text") (default (u "Internal error") text) [])
        | r => inl (Injected.callResult r)
        end).

(** The properties, the internal properties and the details of an exception. *)
Definition PropertiesOutputs : Type := list JSONValue * option (list JSONValue) * option jobject.

(** [getInternalProperties] of the injected script, after the properties. *)
Definition getInternalProperties (s : InjectedScript) (objectId : ustring) (properties : list JSONValue)
    : M (World E) (Reply PropertiesOutputs) :=
  r ← makeCallWithExceptionDetails s (CallGetInternalProperties objectId);
  mret (match r with
        | inr exceptionDetails => Answer (properties, None, Some exceptionDetails)
        | inl (JSONArray []) => Answer (properties, None, None)
        | inl (JSONArray internal) => Answer (properties, Some internal, None)
        | inl _ => ErrorReply (u "Internal error")
        end).

(** The internal properties are also asked for when the properties were not an
    array; the error stays. *)
Definition getProperties (objectId : ustring) (ownProperties accessorPropertiesOnly generatePreview : option bool)
    : M (World E) (Reply PropertiesOutputs) :=
  withScript objectId frameHasGone (fun s =>
    previous ← enterCallScope true;
    let accessorsOnly := default false accessorPropertiesOnly in
    r ← makeCallWithExceptionDetails s
          (CallGetProperties objectId (default false ownProperties) accessorsOnly (default false generatePreview));
    reply ← match r with
            | inr exceptionDetails => mret (Answer ([], None, Some exceptionDetails))
            | inl (JSONArray properties) =>
                if accessorsOnly then mret (Answer (properties, None, None))
                else getInternalProperties s objectId properties
            | inl _ =>
                when (negb accessorsOnly) (getInternalProperties s objectId [] ;; mret tt) ;;
                mret (ErrorReply (u "Internal error"))
            end;
    leaveCallScope previous true ;;
    mret reply).

(** A pause that is scheduled is taken back while [m] runs. *)
Definition withoutPause (m : M (World E) unit) : M (World E) unit :=
  pausingOnNextStatement ← Debugger.pausingOnNextStatement;
  when pausingOnNextStatement (Debugger.setPauseOnNextStatement false) ;;
  m ;;
  when pausingOnNextStatement (Debugger.setPauseOnNextStatement true).

Definition releaseObject (objectId : ustring) : M (World E) unit :=
  script ← Injected.injectedScriptForObjectId objectId;
  match present script with
  | None => mret tt
  | Some s => withoutPause (Injected.releaseObject s objectId)
  end.

Definition releaseObjectGroup (objectGroup : ustring) : M (World E) unit :=
  withoutPause (Injected.releaseObjectGroup objectGroup).

(** ** Starting the program ([V8Inspector]) *)

(** [run] and [V8Inspector::resumeStartup]; [V8Inspector::pauseOnStart]. *)
Definition runProgram : M (World E) unit := modify (fun w => w <| startupPaused := false |>).
Definition pauseOnStart : M (World E) unit := modify (fun w => w <| startupPaused := true |>).
Definition isRunRequired : M (World E) bool := gets startupPaused.

Definition setCustomObjectFormatterEnabled (enabled : bool) : M (World E) unit :=
  Injected.setCustomObjectFormatterEnabled enabled.

End WithEngine.
End Runtime.
