(* ===== verification/PauseLoop.v ===== *)
(** * The debugger as a state machine

    Enabling, disabling and restoring the debugger agent, what V8 reports to
    [V8Debugger] ([bindings/core/v8/V8Debugger.cpp]), and
    [WorkerThreadDebugger], whose message loop runs while the program is paused.

    [handleProgramBreak] runs that loop in its middle: it is cut there, into
    [handleProgramBreak], which ends when the loop starts and is pushed on
    [activations], and [leaveProgramBreak], which is what follows when the loop has
    quit.  In between the frontend's
    commands are handled. *)

From S2P Require Import Prelude Platform WTFString JSONValues JSONParser StringSearch ContentSearch InspectorState Dispatcher Engine World DebuggerOps InjectedScripts AgentState Breakpoints AsyncCalls Promises Pausing Evaluation RuntimeAgent.

Definition workerContextDebugId : ustring := u "[worker]".

Section WithEngine.
Context {P : Platform} {R : RegExpEngine} {E : Type} `{V8Engine E}.

(** ** Enabling and disabling *)

Definition setListener (b : bool) : M (World E) unit := modify (fun w => w <| wtd := (wtd w) <| m_listener := b |> |>).

(** [WorkerThreadDebugger::addListener] and [removeListener]. *)
Definition startListeningV8Debugger : M (World E) unit :=
  Debugger.enable ;;
  setListener true ;;
  reportCompiledScripts workerContextDebugId.

Definition stopListeningV8Debugger : M (World E) unit :=
  Debugger.continueProgram ;;
  setListener false ;;
  Debugger.disable.

Definition clear : M (World E) unit :=
  setAgent (fun a => a <| m_pausedScriptState := None |> <| m_currentCallStack := None |>
                       <| m_scripts := ∅ |> <| m_breakpointIdToDebuggerBreakpointIds := ∅ |>) ;;
  internalSetAsyncCallStackDepth 0 ;;
  clearPromises ;;
  setAgent (fun a => a <| m_continueToLocationBreakpointId := [] |>) ;;
  clearBreakDetails ;;
  setAgent (fun a => a <| m_scheduledDebuggerStep := NoStep |> <| m_skipNextDebuggerStepOut := false |>
                       <| m_javaScriptPauseScheduled := false |> <| m_steppingFromFramework := false |>
                       <| m_pausingOnNativeEvent := false |> <| m_skippedStepFrameCount := 0 |>
                       <| m_recursionLevelForStepFrame := 0 |> <| m_asyncOperationNotifications := [] |>
                       <| m_compiledScripts := ∅ |>) ;;
  clearStepIntoAsync.

(** [enable()] and [disable()] of the agent, and the commands. *)
Definition enableAgent : M (World E) unit :=
  startListeningV8Debugger ;;
  Debugger.setBreakpointsActivated true ;;
  setStateBoolean DebuggerAgentState.debuggerEnabled true.

Definition disableAgent : M (World E) unit :=
  setStateObject DebuggerAgentState.javaScriptBreakpoints [] ;;
  setStateLong DebuggerAgentState.pauseOnExceptionsState DebuggerScriptJS.DontPauseOnExceptions ;;
  setStateString DebuggerAgentState.skipStackPattern [] ;;
  setStateBoolean DebuggerAgentState.skipContentScripts false ;;
  setStateLong DebuggerAgentState.asyncCallStackDepth 0 ;;
  setStateBoolean DebuggerAgentState.promiseTrackerEnabled false ;;
  stopListeningV8Debugger ;;
  clear ;;
  setAgent (fun a => a <| m_skipAllPauses := false |>).

Definition enable : M (World E) (Reply unit) :=
  e ← enabled;
  when (negb e) enableAgent ;;
  mret (Answer tt).

Definition disable : M (World E) (Reply unit) :=
  e ← enabled;
  when e (disableAgent ;; setStateBoolean DebuggerAgentState.debuggerEnabled false) ;;
  mret (Answer tt).

Definition restore : M (World E) unit :=
  e ← enabled;
  when e (
    Frontend.send Frontend.globalObjectCleared ;;
    enableAgent ;;
    pauseState ← getStateLong DebuggerAgentState.pauseOnExceptionsState;
    setPauseOnExceptionsImpl (wrapS 32 pauseState) ;;
    pattern ← getStateString DebuggerAgentState.skipStackPattern;
    setAgent (fun a => a <| m_cachedSkipStackRegExp := compileSkipCallFramePattern pattern |>) ;;
    increaseCachedSkipStackGeneration ;;
    contentScripts ← getStateBoolean DebuggerAgentState.skipContentScripts;
    skipAll ← getStateBoolean DebuggerAgentState.skipAllPauses;
    setAgent (fun a => a <| m_skipContentScripts := contentScripts |> <| m_skipAllPauses := skipAll |>) ;;
    depth ← getStateLong DebuggerAgentState.asyncCallStackDepth;
    internalSetAsyncCallStackDepth (wrapS 32 depth) ;;
    promises ← getStateBoolean DebuggerAgentState.promiseTrackerEnabled;
    stacks ← getStateBoolean DebuggerAgentState.promiseTrackerCaptureStacks;
    setPromiseTracker promises stacks).

(** ** Connecting ([V8Inspector])

    The inspector's frontend is there exactly while the agents' are, and the agents'
    are the same. *)

(** [InspectorAgentRegistry::setFrontend] and [clearFrontend]: the runtime agent
    comes first. *)
Definition setFrontend : M (World E) unit := setAgent (fun a => a <| m_frontend := true |>).
Definition clearFrontend : M (World E) unit :=
  Runtime.disable ;; disable ;; setAgent (fun a => a <| m_frontend := false |>).

Definition setComposite (f : InspectorCompositeState -> InspectorCompositeState) : M (World E) unit :=
  modify (fun w => w <| composite := f (composite w) |>).

Definition setChannel (channel : bool) : M (World E) unit := modify (fun w => w <| channelOpen := channel |>).

Definition connectFrontend (channel : bool) : M (World E) unit :=
  setComposite unmute ;; setChannel channel ;; setFrontend.

(** [m_frontend.clear()] and the null channel come last. *)
Definition disconnectFrontend : M (World E) unit :=
  f ← getAgent m_frontend;
  if negb f then mret tt
  else setComposite mute ;; clearFrontend ;; setChannel false.

(** The address of the properties of an agent's state. *)
Fixpoint agentState (name : ustring) (m : list (ustring * nat)) : option nat :=
  match m with
  | [] => None
  | (k, a) :: m' => if decide (k = name) then Some a else agentState name m'
  end.

(** [loadFromCookie]: the agents' [InspectorState]s then have the new properties. *)
Definition loadState (cookie : ustring) : M (World E) unit :=
  setComposite (loadFromCookie cookie) ;;
  states ← gets (fun w => m_inspectorStateMap (composite w));
  match agentState (u "Runtime") states with
  | Some address => Runtime.setRuntime (fun r => r <| rt_state := address |>)
  | None => mret tt
  end ;;
  match agentState (u "Debugger") states with
  | Some address => setAgent (fun a => a <| m_state := address |>)
  | None => mret tt
  end.

Definition restoreInspectorStateFromCookie (cookie : ustring) : M (World E) unit :=
  connectFrontend false ;; loadState cookie ;; Runtime.restore ;; restore.

(** A new inspector: the agents' states are made in this order, and [init] runs. *)
Definition newAgent (state : nat) : Agent :=
  {| m_frontend := false; m_state := state; m_pausedScriptState := None; m_currentCallStack := None;
     m_scripts := ∅; m_breakpointIdToDebuggerBreakpointIds := ∅; m_serverBreakpoints := ∅;
     m_continueToLocationBreakpointId := []; m_breakReason := Other; m_breakAuxData := None;
     m_scheduledDebuggerStep := NoStep; m_skipNextDebuggerStepOut := false; m_javaScriptPauseScheduled := false;
     m_steppingFromFramework := false; m_pausingOnNativeEvent := false; m_pausingOnAsyncOperation := false;
     m_skippedStepFrameCount := 0; m_recursionLevelForStepOut := 0; m_recursionLevelForStepFrame := 0;
     m_skipAllPauses := false; m_skipContentScripts := false; m_cachedSkipStackRegExp := None;
     m_cachedSkipStackGeneration := 0; m_promiseTracker := mkPromiseTracker 0 false false ∅ ∅; m_editedScripts := ∅;
     m_asyncOperations := ∅; m_lastAsyncOperationId := 0; m_asyncOperationNotifications := [];
     m_asyncOperationBreakpoints := ∅; m_pausingAsyncOperations := ∅; m_maxAsyncCallStackDepth := 0;
     m_currentAsyncCallChain := None; m_nestedAsyncCallCount := 0;
     m_currentAsyncOperationId := unknownAsyncOperationId; m_pendingTraceAsyncOperationCompleted := false;
     m_startingStepIntoAsync := false; m_compiledScripts := ∅; m_contextAsyncOperationMap := ∅ |}.

Definition newInspector (e : E) : World E :=
  let '(runtimeAddress, c) := createAgentState (u "Runtime") (create true) in
  let '(address, c) := createAgentState (u "Debugger") c in
  {| agent := newAgent address;
     runtime := mkRuntimeAgent false runtimeAddress ∅;
     vd := mkV8Debugger true None false None false;
     wtd := mkWorkerThreadDebugger false false;
     ism := mkInjectedScriptManager 1 ∅ ∅ false ∅;
     composite := setProperty address DebuggerAgentState.pauseOnExceptionsState
                    (JSONNumber (Double.of_Z DebuggerScriptJS.DontPauseOnExceptions)) c;
     engine := e;
     activations := [];
     inspectedContext := currentContext e;
     startupPaused := false;
     channelOpen := false;
     notifications := [] |}.

(** ** Breaks *)

(** The stepping that a skipped pause asks for. *)
Definition skipAction (result : ScriptDebugListener.SkipPauseRequest) : option StepAction :=
  match result with
  | ScriptDebugListener.StepFrame => Some StepFrameAction
  | ScriptDebugListener.StepInto => Some StepIn
  | ScriptDebugListener.StepOut => Some StepOutAction
  | _ => None
  end.

Definition finishBreak (result : ScriptDebugListener.SkipPauseRequest) : M (World E) unit :=
  Debugger.clearPaused ;;
  match skipAction result with
  | Some action => Debugger.debuggerScriptLocal ;; setEngine (prepareStep action)
  | None => mret tt
  end.

Definition setRunning (b : bool) : M (World E) unit := setVD (fun d => d <| m_runningNestedMessageLoop := b |>).

Definition handleProgramBreak (pausedScriptState : ScriptState) (exception : option Z) (hitBreakpointNumbers : list Z)
    (isPromiseRejection : bool) : M (World E) unit :=
  running ← getVD m_runningNestedMessageLoop;
  listener ← gets (fun w => m_listener (wtd w));
  if running || negb listener then mret tt
  else
    setVD (fun d => d <| vd_pausedScriptState := Some pausedScriptState |> <| m_executionState := true |>) ;;
    frames ← Debugger.currentCallFrames;
    result ← didPause pausedScriptState frames exception (map String_number hitBreakpointNumbers) isPromiseRejection;
    match result with
    | ScriptDebugListener.NoSkip =>
        setRunning true ;; modify (fun w => w <| wtd := (wtd w) <| m_quit := false |> |>) ;;
        pushActivation PauseMessageLoop
    | _ => finishBreak result
    end.

(** The end of [runMessageLoopOnPause] and of [handleProgramBreak]. *)
Definition leaveProgramBreak : M (World E) unit :=
  popActivation ;;
  listener ← gets (fun w => m_listener (wtd w));
  when listener didContinue ;;
  setRunning false ;;
  finishBreak ScriptDebugListener.NoSkip.

(** [V8Debugger::breakProgram]. *)
Definition breakDebuggerProgram : M (World E) unit :=
  paused ← getVD vd_pausedScriptState;
  match paused with
  | Some scriptState => handleProgramBreak scriptState None [] false
  | None =>
      can ← Debugger.canBreakProgram;
      scriptState ← gets (fun w => currentContext (engine w));
      when can (handleProgramBreak scriptState None [] false)
  end.

Definition breakProgram (breakReason : Reason) (data : option jobject) : M (World E) unit :=
  a ← getAgent id;
  if m_skipAllPauses a || bool_decide (m_pausedScriptState a <> None) then mret tt
  else
    b ← isCallStackEmptyOrBlackboxed;
    if b : bool then mret tt
    else
      setAgent (fun a => a <| m_breakReason := breakReason |> <| m_breakAuxData := data |>
                           <| m_scheduledDebuggerStep := NoStep |> <| m_steppingFromFramework := false |>
                           <| m_pausingOnNativeEvent := false |>) ;;
      clearStepIntoAsync ;;
      breakDebuggerProgram.

Definition scriptExecutionBlockedByCSP (directiveText : ustring) : M (World E) unit :=
  s ← Debugger.pauseOnExceptionsState;
  when (negb (s =? DebuggerScriptJS.DontPauseOnExceptions))
    (breakProgram CSPViolation (Some (setString (u "directiveText") directiveText []))).

(** ** V8's events *)

Inductive V8Event :=
  | AfterCompileEvent (script : V8Script)
  | CompileErrorEvent (script : V8Script)
  | ExceptionEvent (context : ScriptState) (exception : Z) (isPromise : bool)
  | BreakEvent (context : ScriptState) (hitBreakpoints : list Z)
  | AsyncTaskEvent (context : ScriptState) (type name : ustring) (taskId : Z)
  | PromiseEvent (context : ScriptState) (promise : Z) (parentPromise : option Z) (status : Z).

Definition handleV8AsyncTaskEvent (scriptState : ScriptState) (type name : ustring) (taskId : Z) : M (World E) unit :=
  setVD (fun d => d <| vd_pausedScriptState := Some scriptState |> <| m_executionState := true |>) ;;
  didReceiveV8AsyncTaskEvent scriptState type name taskId ;;
  Debugger.clearPaused.

Definition handleV8PromiseEvent (scriptState : ScriptState) (promise : Z) (parentPromise : option Z) (status : Z)
    : M (World E) unit :=
  Debugger.debuggerScriptLocal ;;
  setVD (fun d => d <| vd_pausedScriptState := Some scriptState |> <| m_executionState := true |>) ;;
  didReceiveV8PromiseEvent promise parentPromise status ;;
  Debugger.clearPaused.

Definition handleV8DebugEvent (event : V8Event) : M (World E) unit :=
  e ← getVD Debugger.enabled;
  listener ← gets (fun w => m_listener (wtd w));
  if negb e || negb listener then mret tt
  else match event with
       | AfterCompileEvent script => dispatchDidParseSource (DebuggerScriptJS.formatScript script) CompileSuccess
       | CompileErrorEvent script => dispatchDidParseSource (DebuggerScriptJS.formatScript script) CompileError
       | ExceptionEvent context exception isPromise => handleProgramBreak context (Some exception) [] isPromise
       | BreakEvent context hitBreakpoints => handleProgramBreak context None hitBreakpoints false
       | AsyncTaskEvent context type name taskId =>
           tracking ← getAgent trackingAsyncCalls;
           when tracking (handleV8AsyncTaskEvent context type name taskId)
       | PromiseEvent context promise parentPromise status =>
           t ← getAgent m_promiseTracker;
           when (m_isEnabled t) (handleV8PromiseEvent context promise parentPromise status)
       end.

End WithEngine.
