(* ===== verification/ObjectIds.v ===== *)
(** * Identifiers of objects

    [_bind] of [InjectedScriptSource.js] makes the text by which the frontend knows an
    object; the script reads it by evaluating it, the inspector by parsing it. *)

From S2P Require Import Prelude Platform WTFString JSONValues JSONParser JSONGrammar NumberText JSONRoundTrip Engine NativeObjects ModelEngine JSValues InjectedHost InjectedObjects JSRules ModelJS World ScriptEngine DebuggerOps InjectedScripts PauseLoop.

Section Texts.
Context {P : Platform}.

(** [wtf/dtoa] reads the digits of an integer as that integer. *)
Definition readsIntegers : Prop := forall z, is_int32 z -> charactersToDouble (String_number z) = (Double.of_Z z, true).

Lemma integer_token z : parseNumberToken (String_number z) = Some [].
Proof.
  unfold String_number, numberToStringSigned. destruct (Z.ltb_spec z 0).
  - destruct (numberToStringUnsigned_digits (- z)) as (Hd & Hne & Hc); [lia|].
    pose proof (numberBody_int _ [] Hd Hne Hc (or_introl eq_refl)) as Hb. by rewrite app_nil_r in Hb.
  - destruct (numberToStringUnsigned_digits z) as (Hd & Hne & Hc); [lia|].
    pose proof (numberBody_int _ [] Hd Hne Hc (or_introl eq_refl)) as Hb. rewrite app_nil_r in Hb.
    change (numberToStringImpl false z) with (numberToStringUnsigned z). destruct (numberToStringUnsigned z) as [|c t]; [done|].
    unfold parseNumberToken. apply Forall_cons in Hd as [Hd _].
    assert ((c =? ch "-") = false) as -> by (unfold isDigit in Hd; zprop; apply Z.eqb_neq; lia). done.
Qed.

Context (Hreads : readsIntegers).

Lemma int32_text k z : is_int32 z -> jsonText (S k) (String_number z) (JSONNumber (Double.of_Z z)).
Proof. intros Hz. apply jsonText_value, vt_number. split; [apply integer_token|by apply Hreads]. Qed.

(** The members of an identifier. *)
Definition identifier (scriptId id : Z) : jobject :=
  [(u "injectedScriptId", JSONNumber (Double.of_Z scriptId)); (u "id", JSONNumber (Double.of_Z id))].

Lemma objectIdText_parses scriptId id : is_int32 scriptId -> is_int32 id ->
  parseJSON (Source.objectIdText scriptId id) = Some (JSONObject (identifier scriptId id)).
Proof.
  intros Hs Hi. apply parseJSON_text. apply jsonText_value.
  change (JSONObject (identifier scriptId id)) with (JSONObject (ofMembers (identifier scriptId id))).
  replace (Source.objectIdText scriptId id) with
    (u "{" ++ ((doubleQuoteString (u "injectedScriptId") ++ u ":" ++ [] ++ String_number scriptId) ++ [] ++ u "," ++
               (doubleQuoteString (u "id") ++ u ":" ++ [] ++ String_number id)) ++ [] ++ u "}").
  - apply vt_object; [|constructor]. apply sep_cons; [|constructor|apply sep_one]; apply memberText_written;
      first [by apply is_ustring_decide|constructor|by apply int32_text].
  - unfold Source.objectIdText. by rewrite <- !app_assoc.
Qed.

Lemma boundId_text scriptId id : is_int32 scriptId -> is_int32 id -> Injected.boundId (Source.objectIdText scriptId id) = Some id.
Proof.
  intros Hs Hi. unfold Injected.boundId. rewrite objectIdText_parses by done.
  change (Some (static_cast_S 32 (Double.of_Z id)) = Some id). by rewrite static_cast_int_of_Z.
Qed.

End Texts.

Section RoundTrip.
Context {P : Platform} (Hreads : readsIntegers).
Context {E : Type} {V : V8Engine E} (J : ScriptState -> JSEngine E).

#[local] Abbreviation Isolated := (E * gmap ScriptState InjectedState)%type.

(** Evaluating the text of an identifier gives an object of its own with these two members,
    which code of the program cannot change. *)
Definition evaluatesIdentifiers (s : ScriptState) : Prop := forall scriptId id e,
  is_int32 scriptId -> is_int32 id ->
  exists o e1 e2, let j := J s in
    perform (runInternal (u "(" ++ Source.objectIdText scriptId id ++ u ")")) e = (Normal (JSObject o), e1) /\
    undetectable o e1 = false /\ callable o e1 = false /\
    perform (setProperty (JSObject o) (KeyString (u "__proto__")) JSNull) e1 = (Normal tt, e2) /\
    perform (getProperty (JSObject o) (KeyString (u "injectedScriptId"))) e2 = (Normal (JSNumber (Double.of_Z scriptId)), e2) /\
    perform (getProperty (JSObject o) (KeyString (u "id"))) e2 = (Normal (JSNumber (Double.of_Z id)), e2).

Definition bindObject (s : ScriptState) (v : jsvalue) (g : option ustring) : Isolated -> JS (completion ustring * Isolated) :=
  callScript s (Source._bind v g) (fun c _ => c).

Definition findObject (s : ScriptState) (objectId : ustring) : Isolated -> JS (completion jsvalue * Isolated) :=
  let j := J s in callScript s (Source.findObjectById objectId) (fun c _ => c).

Lemma SFeqb_integer z : is_int32 z -> SFeqb (Double.of_Z z) (Double.of_Z z) = true.
Proof.
  intros Hz. assert (Double.isfinite (Double.of_Z z) = true) as Hf by (apply Double.isfinite_of_Z; unfold is_int32 in Hz; lia).
  unfold SFeqb, SFcompare. destruct (Double.of_Z z) as [| | |[] m e]; try done; by rewrite Z.compare_refl, Pos.compare_refl.
Qed.

Lemma int32Value_integer z : is_int32 z -> Host.int32Value (JSNumber (Double.of_Z z)) = Some z.
Proof.
  intros Hz. unfold Host.int32Value. unfold is_int32 in Hz.
  rewrite Double.trunc_of_Z, Double.isfinite_of_Z, bool_decide_true by (done || lia). cbn.
  rewrite !(proj2 (Z.leb_le _ _)) by lia. done.
Qed.

(** The script finds what the registry has under the number. *)
Lemma findObject_run s scriptId id w : evaluatesIdentifiers s -> is_int32 scriptId -> is_int32 id ->
  injectedScriptId (scriptOf s w) = scriptId ->
  exists e', findObject s (Source.objectIdText scriptId id) w =
    JSObjectForId id (fun v => JSReturn (Normal (default JSUndefined (numberedValue <$> v)), put s (e', scriptOf s w) w)).
Proof.
  intros Hev Hs Hi Hid. destruct (Hev scriptId id w.1 Hs Hi) as (o & e1 & e2 & H1 & H2 & H3 & H4 & H5 & H6). exists e2.
  unfold findObject, callScript, Source.findObjectById, Source._parseObjectId, Source._objectForId, Source.evalParenthesized, Source.nullifyObjectProto, getNamed.
  unfold mbind, JSM_bind, run, own, observe, read, mret, JSM_ret. cbn [JSthen fst snd]. rewrite H1. cbn [JSthen fst snd].
  unfold Source.typeIs, typeof, truthy. rewrite H2, H3, bool_decide_true by done. cbn [negb andb whenJS JSthen fst snd].
  rewrite H4. cbn [JSthen fst snd]. rewrite H5. cbn [JSthen fst snd strictlyEqual]. rewrite Hid, SFeqb_integer by done.
  cbn [fst snd]. rewrite H6. cbn [JSthen fst snd]. unfold Host.objectForId. by rewrite int32Value_integer.
Qed.

Definition registry (script : InjectedScript) (w : World Isolated) : InjectedScriptNative :=
  default Native.new (natives (ism w) !! is_native script).

Lemma findObject_world script scriptId id w :
  evaluatesIdentifiers (is_scriptState script) -> is_int32 scriptId -> is_int32 id ->
  injectedScriptId (scriptOf (is_scriptState script) (engine w)) = scriptId ->
  exists w', Injected.callInjected script (findObject (is_scriptState script) (Source.objectIdText scriptId id)) w =
    Done (Normal (default JSUndefined (numberedValue <$> Native.objectForId id (registry script w))), w').
Proof.
  intros Hev Hs Hi Hid. destruct (findObject_run _ scriptId id (engine w) Hev Hs Hi Hid) as [e' He].
  eexists. transitivity (Injected.runJS (is_native script) (findObject (is_scriptState script) (Source.objectIdText scriptId id) (engine w)) w);
    [reflexivity|]. rewrite He. reflexivity.
Qed.

Lemma bind_wrapped v g r : let '(id, r') := Native.bind v g r in
  is_int32 (m_lastBoundObjectId r) -> is_int32 id /\ 0 < id /\ Native.objectForId id r' = Some v /\
  Native.objectForId id (Native.unbind id r') = None /\ (forall c g', g = c :: g' -> Native.groupName id r' = Some g).
Proof.
  unfold Native.bind. set (id := if _ <=? 0 then 1 else _). cbv zeta. intros Hl.
  assert (0 < id) as Hid by (subst id; destruct (Z.leb_spec (m_lastBoundObjectId r) 0); lia).
  split_and!.
  - subst id. unfold is_int32 in *. destruct (Z.leb_spec (m_lastBoundObjectId r) 0); lia.
  - done.
  - unfold Native.objectForId, Native.addObjectToGroup. destruct g; [|destruct (id <=? 0)]; cbn; by rewrite lookup_insert_eq.
  - unfold Native.objectForId, Native.unbind. cbn. by rewrite lookup_delete_eq.
  - intros c g' ->. unfold Native.groupName, Native.addObjectToGroup. rewrite (proj2 (Z.leb_gt id 0)) by lia. cbn. by rewrite lookup_insert_eq.
Qed.

(** C16 The identifier that the script makes for a value leads back to it: the script finds
    the value under it, the inspector finds the script and the group by parsing it, and
    once the inspector has released the object the script finds nothing. *)
Theorem objectId_roundtrip script w v g :
  let s := is_scriptState script in
  let scriptId := injectedScriptId (scriptOf s (engine w)) in
  evaluatesIdentifiers s -> is_int32 scriptId -> is_int32 (m_lastBoundObjectId (registry script w)) ->
  exists objectId w1, Injected.callInjected script (bindObject s v g) w = Done (Normal objectId, w1) /\
    (m_idToInjectedScript (ism w) !! scriptId = Some script -> Injected.injectedScriptForObjectId objectId w1 = Done (Some script, w1)) /\
    (forall c g', g = Some (c :: g') -> Injected.objectIdToObjectGroupName script objectId w1 = Done (g, w1)) /\
    (exists w2, Injected.callInjected script (findObject s objectId) w1 = Done (Normal v, w2)) /\
    exists w2 w3, Injected.releaseObject script objectId w1 = Done (tt, w2) /\
      Injected.callInjected script (findObject s objectId) w2 = Done (Normal JSUndefined, w3).
Proof.
  intros s scriptId Hev Hs Hl.
  pose proof (bind_wrapped (valueNumber v) (default [] g) (registry script w)) as Hb.
  destruct (Native.bind _ _ _) as [id r] eqn:Eb. destruct (Hb Hl) as (Hi & _ & Hget & Hgone & Hgroup).
  set (w1 := w <| engine := put s ((engine w).1, scriptOf s (engine w)) (engine w) |>
               <| ism := (ism w) <| natives := <[is_native script := r]> (natives (ism w)) |> |>).
  assert (registry script w1 = r) as Hr by (unfold registry; cbn; by rewrite lookup_insert_eq).
  assert (injectedScriptId (scriptOf s (engine w1)) = scriptId) as Hid by (unfold scriptOf at 1; cbn; by rewrite lookup_insert_eq).
  exists (Source.objectIdText scriptId id), w1. split_and!.
  - transitivity (let '(id, r) := Native.bind (valueNumber v) (default [] g) (registry script w) in
      (Injected.setNative (is_native script) (fun _ => r) ;;
       Injected.runJS (is_native script) (JSReturn (Normal (Source.objectIdText scriptId id), put s ((engine w).1, scriptOf s (engine w)) (engine w)))) w);
      [reflexivity|]. rewrite Eb. reflexivity.
  - intros Hf. unfold Injected.injectedScriptForObjectId. rewrite objectIdText_parses by done.
    transitivity (Done (m_idToInjectedScript (ism w1) !! wrapS 32 (static_cast_S 64 (Double.of_Z scriptId)), w1)); [reflexivity|].
    rewrite static_cast_long_of_Z by (unfold is_int32 in Hs; lia). rewrite wrapS_small by (unfold is_int32 in Hs; lia). cbn. by rewrite Hf.
  - intros c g' ->. unfold Injected.objectIdToObjectGroupName. rewrite boundId_text by done.
    transitivity (Done (natives (ism w1) !! is_native script ≫= Native.groupName id, w1)); [reflexivity|].
    change (natives (ism w1)) with (<[is_native script := r]> (natives (ism w))). rewrite lookup_insert_eq. cbn. by erewrite Hgroup.
  - destruct (findObject_world script scriptId id w1 Hev Hs Hi Hid) as [w2 Hw]. exists w2. rewrite Hr, Hget in Hw. cbn in Hw.
    by rewrite decode_encode in Hw.
  - set (w2 := w1 <| ism := (ism w1) <| natives := <[is_native script := Native.unbind id r]> (natives (ism w1)) |> |>).
    assert (injectedScriptId (scriptOf s (engine w2)) = scriptId) as Hid2 by exact Hid.
    destruct (findObject_world script scriptId id w2 Hev Hs Hi Hid2) as [w3 Hw]. exists w2, w3. split.
    + unfold Injected.releaseObject. rewrite boundId_text by done.
      transitivity (Done (tt, w1 <| ism := (ism w1) <| natives := <[is_native script := Native.unbind id (registry script w1)]> (natives (ism w1)) |> |>));
        [reflexivity|]. by rewrite Hr.
    + assert (registry script w2 = Native.unbind id r) as Hr2 by (unfold registry; cbn; by rewrite lookup_insert_eq).
      by rewrite Hr2, Hgone in Hw.
Qed.

End RoundTrip.

(** ** An example *)

Section Example.
#[local] Existing Instance IntegerPlatform.platform.
#[local] Existing Instances modelEngine modelJS.

Lemma digitsPrefix_digits ds : digits ds -> IntegerPlatform.digitsPrefix ds = ds.
Proof. induction 1 as [|c ds Hc _ IH]; [done|]. cbn [IntegerPlatform.digitsPrefix]. by rewrite Hc, IH. Qed.

Lemma parseInteger_digits neg n : 0 <= n ->
  IntegerPlatform.parseInteger ((if neg : bool then u "-" else []) ++ numberToStringUnsigned n) =
    (Double.of_Z (if neg then - n else n), length ((if neg then u "-" else []) ++ numberToStringUnsigned n)).
Proof.
  intros Hn. destruct (numberToStringUnsigned_digits n Hn) as (Hd & Hne & _). pose proof (numberToStringUnsigned_value n Hn) as Hv.
  destruct (numberToStringUnsigned n) as [|c ds]; [done|]. pose proof (digitsPrefix_digits _ Hd) as Hp. unfold IntegerPlatform.parseInteger.
  destruct neg; cbn [app].
  - change (u "-") with [ch "-"]. cbn [app]. rewrite Z.eqb_refl, Hp, Hv. done.
  - apply Forall_cons in Hd as [Hc _].
    assert ((c =? ch "-") = false) as -> by (unfold isDigit in Hc; zprop; apply Z.eqb_neq; lia). rewrite Hp, Hv. done.
Qed.

Lemma model_readsIntegers : readsIntegers.
Proof.
  intros z _. unfold charactersToDouble, toDoubleType, String_number, numberToStringSigned.
  assert (forall neg n, 0 <= n -> let s := (if neg : bool then u "-" else []) ++ numberToStringUnsigned n in
    leadingSpaces s = O /\ parseDouble s = (Double.of_Z (if neg then - n else n), length s) /\ length s <> O) as Hs.
  { intros neg n Hn. cbv zeta. split_and!; [|by apply parseInteger_digits|].
    - destruct neg; [done|]. destruct (numberToStringUnsigned_digits n Hn) as (Hd & Hne & _).
      destruct (numberToStringUnsigned n) as [|c ds]; [done|]. apply Forall_cons in Hd as [Hc _]. cbn [app].
      cbn [leadingSpaces]. assert (isASCIISpace c = false) as -> by (unfold isDigit in Hc; unfold isASCIISpace; zprop; zcases; lia || done). done.
    - rewrite length_app. destruct (numberToStringUnsigned_spec n Hn) as (_ & _ & Hl & _). lia. }
  destruct (Z.ltb_spec z 0).
  - destruct (Hs true (- z)) as (H1 & H2 & H3); [lia|]. change (numberToStringImpl true (- z)) with (u "-" ++ numberToStringUnsigned (- z)).
    rewrite H1, drop_0, H2, Z.opp_involutive. rewrite (proj2 (Nat.eqb_neq _ _) H3), Nat.add_0_r, Nat.eqb_refl. done.
  - destruct (Hs false z) as (H1 & H2 & H3); [lia|]. change (numberToStringImpl false z) with ([] ++ numberToStringUnsigned z).
    rewrite H1, drop_0, H2. rewrite (proj2 (Nat.eqb_neq _ _) H3), Nat.add_0_r, Nat.eqb_refl. done.
Qed.

Lemma model_evaluatesIdentifiers s : evaluatesIdentifiers (fun _ => modelJS) s.
Proof.
  intros scriptId id e Hs Hi. exists (objectNumber (Source.objectIdText scriptId id)), e, e. cbv zeta.
  pose proof (objectIdText_parses model_readsIntegers scriptId id Hs Hi) as Hp.
  assert (literalOf (objectNumber (Source.objectIdText scriptId id)) = Some (JSONObject (identifier scriptId id))) as Hl
    by (unfold literalOf, objectNumber; by rewrite decode_encode).
  split_and!; try done.
  - cbn -[unparenthesized Source.objectIdText]. f_equal. unfold runProgram.
    replace (unparenthesized _) with (Source.objectIdText scriptId id); [by rewrite Hp|]. symmetry. apply removelast_last.
  - cbn -[propertyOf objectNumber Source.objectIdText]. unfold propertyOf. by rewrite Hl.
  - cbn -[propertyOf objectNumber Source.objectIdText]. unfold propertyOf. by rewrite Hl.
Qed.

Definition boundScript : InjectedScript := mkInjectedScript 1 false 1.

Definition modelScript : V8Engine (Isolate * gmap ScriptState InjectedState) := scriptEngine (fun _ => modelJS) modelRounds.

(** An inspector with one injected script, which is new. *)
Definition boundWorld : World (Isolate * gmap ScriptState InjectedState) :=
  (newInspector (H := modelScript) (mkIsolate ∅ ∅ [] [] false, {[1 := newScript 1]}))
    <| ism := mkInjectedScriptManager 2 {[1 := boundScript]} {[1 := 1]} false ∅ |>.

Lemma objectId_roundtrip_witness :
  exists objectId w1, Injected.callInjected boundScript (bindObject 1 (JSString (u "a")) (Some (u "console"))) boundWorld = Done (Normal objectId, w1) /\
    Injected.injectedScriptForObjectId objectId w1 = Done (Some boundScript, w1) /\
    exists w2, Injected.callInjected boundScript (findObject (fun _ => modelJS) 1 objectId) w1 = Done (Normal (JSString (u "a")), w2).
Proof.
  destruct (objectId_roundtrip model_readsIntegers (fun _ => modelJS) boundScript boundWorld (JSString (u "a")) (Some (u "console")))
    as (objectId & w1 & H1 & H2 & _ & H3 & _).
  - apply model_evaluatesIdentifiers.
  - split; vm_compute; discriminate.
  - split; vm_compute; discriminate.
  - exists objectId, w1. split; [exact H1|]. split; [apply H2; reflexivity|exact H3].
Defined.

End Example.
