(* ===== verification/Machine.v ===== *)
(** * The inspector as a state machine

    [Request] lists the commands of the frontend that the two agents handle and
    [perform] what they answer; [Input] lists everything that can happen to the
    inspector, [run] is what it does, and [allowed] when it can happen. *)

From S2P Require Import Prelude Platform WTFString JSONValues JSONParser StringSearch ContentSearch InspectorState Dispatcher Engine NativeObjects World DebuggerOps InjectedScripts AgentState Breakpoints AsyncCalls Promises Pausing Evaluation RuntimeAgent PauseLoop.

(** ** Commands *)

Inductive Request :=
  (** the debugger domain *)
  | Enable | Disable
  | SetBreakpointsActive (active : bool)
  | SetSkipAllPauses (skipped : bool)
  | SetBreakpointByUrl (lineNumber : Z) (url urlRegex : option ustring) (columnNumber : option Z) (condition : option ustring)
  | SetBreakpoint (location : jobject) (condition : option ustring)
  | RemoveBreakpoint (breakpointId : ustring)
  | ContinueToLocation (location : jobject) (interstatementLocation : option bool)
  | CommandStepOver | CommandStepInto | CommandStepOut | CommandPause | CommandResume | CommandStepIntoAsync
  | SearchInContent (scriptId query : ustring) (caseSensitive isRegex : option bool)
  | CanSetScriptSource
  | SetScriptSource (scriptId scriptSource : ustring) (preview : option bool)
  | RestartFrame (callFrameId : ustring)
  | GetScriptSource (scriptId : ustring)
  | GetFunctionDetails (functionId : ustring)
  | GetGeneratorObjectDetails (objectId : ustring)
  | GetCollectionEntries (objectId : ustring)
  | SetPauseOnExceptions (state : ustring)
  | EvaluateOnCallFrame (callFrameId expression : ustring) (objectGroup : option ustring)
      (includeCommandLineAPI doNotPauseOnExceptionsAndMuteConsole returnByValue generatePreview : option bool)
  | CompileScript (expression sourceURL : ustring) (persistScript : bool) (executionContextId : option Z)
  | RunScript (scriptId : ustring) (executionContextId : option Z) (objectGroup : option ustring)
      (doNotPauseOnExceptionsAndMuteConsole : option bool)
  | SetVariableValue (scopeNumber : Z) (variableName : ustring) (newValue : jobject) (callFrameId functionObjectId : option ustring)
  | GetStepInPositions (callFrameId : ustring)
  | GetBacktrace
  | SkipStackFrames (pattern : option ustring) (skipContentScripts : option bool)
  | SetAsyncCallStackDepth (maxDepth : Z)
  | EnablePromiseTracker (captureStacks : option bool)
  | DisablePromiseTracker
  | GetPromiseById (promiseId : Z) (objectGroup : option ustring)
  | FlushAsyncOperationEvents
  | SetAsyncOperationBreakpoint (operationId : Z)
  | RemoveAsyncOperationBreakpoint (operationId : Z)
  (** the runtime domain *)
  | Evaluate (expression : ustring) (objectGroup : option ustring)
      (includeCommandLineAPI doNotPauseOnExceptionsAndMuteConsole : option bool) (executionContextId : option Z)
      (returnByValue generatePreview : option bool)
  | CallFunctionOnObject (objectId functionDeclaration : ustring) (arguments : option (list JSONValue))
      (doNotPauseOnExceptionsAndMuteConsole returnByValue generatePreview : option bool)
  | GetProperties (objectId : ustring) (ownProperties accessorPropertiesOnly generatePreview : option bool)
  | ReleaseObject (objectId : ustring)
  | ReleaseObjectGroup (objectGroup : ustring)
  | RunProgram
  | EnableRuntime | DisableRuntime
  | IsRunRequired
  | SetCustomObjectFormatterEnabled (enabled : bool).

(** *** Outputs *)

Definition replyResult {A} (outputs : A -> list (option JSONValue)) (errorData : option JSONValue) (r : Reply A) : AgentResult :=
  match r with
  | ErrorReply error => mkResult error errorData []
  | Answer a => mkResult [] None (outputs a)
  end.

Definition noOutputs (_ : unit) : list (option JSONValue) := [].
Definition stackOutputs (o : JSONValue * option jobject * option jobject) : list (option JSONValue) :=
  let '(callFrames, result, asyncStackTrace) := o in [Some callFrames; JSONObject <$> result; JSONObject <$> asyncStackTrace].
Definition evalOutputs (r : EvalResult) : list (option JSONValue) :=
  [Some (JSONObject (ev_result r)); Some (JSONBoolean (ev_wasThrown r)); JSONObject <$> ev_exceptionDetails r].

Section WithEngine.
Context {P : Platform} {R : RegExpEngine} {E : Type} `{V8Engine E}.

(** A method that answers at once, one that may wait, and one that only acts. *)
Definition replies {A} (outputs : A -> list (option JSONValue)) (m : M (World E) (Reply A)) : M (World E) (Progress AgentResult) :=
  r ← m; mret (Returned (replyResult outputs None r)).

Definition repliesLater {A} (outputs : A -> list (option JSONValue)) (m : M (World E) (Progress (Reply A)))
    : M (World E) (Progress AgentResult) :=
  p ← m; mret (match p with Returned r => Returned (replyResult outputs None r) | Waiting => Waiting end).

Definition acts (m : M (World E) unit) : M (World E) (Progress AgentResult) := replies noOutputs (m ;; mret (Answer tt)).

Definition compileOutputs (o : CompileOutputs) : list (option JSONValue) := [JSONString <$> o.1; JSONObject <$> o.2].
Definition runOutputs (o : RunOutputs) : list (option JSONValue) := [JSONObject <$> o.1; JSONObject <$> o.2].
Definition evaluateOutputs (o : option EvalResult) : list (option JSONValue) := default [None; None; None] (evalOutputs <$> o).

Definition perform (r : Request) : M (World E) (Progress AgentResult) :=
  match r with
  | Enable => replies noOutputs enable
  | Disable => replies noOutputs disable
  | SetBreakpointsActive active => replies noOutputs (setBreakpointsActive active)
  | SetSkipAllPauses skipped => replies noOutputs (setSkipAllPauses skipped)
  | SetBreakpointByUrl l url regex c cond =>
      replies (fun o => [Some (JSONString o.1); Some (JSONArray (map JSONObject o.2))]) (setBreakpointByUrl l url regex c cond)
  | SetBreakpoint location cond =>
      replies (fun o => [Some (JSONString o.1); Some (JSONObject o.2)]) (setBreakpoint location cond)
  | RemoveBreakpoint breakpointId => replies noOutputs (removeBreakpoint breakpointId)
  | ContinueToLocation location interstatement => replies noOutputs (continueToLocation location interstatement)
  | CommandStepOver => replies noOutputs stepOver
  | CommandStepInto => replies noOutputs stepInto
  | CommandStepOut => replies noOutputs stepOut
  | CommandPause => replies noOutputs pause
  | CommandResume => replies noOutputs resume
  | CommandStepIntoAsync => replies noOutputs stepIntoAsync
  | SearchInContent scriptId query caseSensitive isRegex =>
      replies (fun o => [Some (JSONArray o)]) (searchInContent scriptId query caseSensitive isRegex)
  | CanSetScriptSource => mret (Returned (mkResult [] None [Some (JSONBoolean true)]))
  | SetScriptSource scriptId source preview =>
      r ← setScriptSource scriptId source preview;
      mret (Returned (replyResult stackOutputs (JSONObject <$> r.2) r.1))
  | RestartFrame callFrameId => replies stackOutputs (restartFrame callFrameId)
  | GetScriptSource scriptId => replies (fun o => [Some (JSONString o)]) (getScriptSource scriptId)
  | GetFunctionDetails functionId => replies (fun o => [Some o]) (getFunctionDetails functionId)
  | GetGeneratorObjectDetails objectId => replies (fun o => [Some o]) (getGeneratorObjectDetails objectId)
  | GetCollectionEntries objectId => replies (fun o => [Some o]) (getCollectionEntries objectId)
  | SetPauseOnExceptions state => replies noOutputs (setPauseOnExceptions state)
  | EvaluateOnCallFrame id expression group api mute byValue preview =>
      repliesLater evalOutputs (evaluateOnCallFrame id expression group api mute byValue preview)
  | CompileScript expression url persist context => repliesLater compileOutputs (compileScript expression url persist context)
  | RunScript scriptId context group mute => repliesLater runOutputs (runScript scriptId context group mute)
  | SetVariableValue scope name value frame function => replies noOutputs (setVariableValue scope name value frame function)
  | GetStepInPositions callFrameId => replies (fun o => [Some o]) (getStepInPositions callFrameId)
  | GetBacktrace => replies (fun o => [Some o.1; JSONObject <$> o.2]) getBacktrace
  | SkipStackFrames pattern content => replies noOutputs (skipStackFrames pattern content)
  | SetAsyncCallStackDepth depth => replies noOutputs (setAsyncCallStackDepth depth)
  | EnablePromiseTracker stacks => replies noOutputs (enablePromiseTracker stacks)
  | DisablePromiseTracker => replies noOutputs disablePromiseTracker
  | GetPromiseById promiseId group => replies (fun o => [JSONObject <$> o]) (getPromiseById promiseId group)
  | FlushAsyncOperationEvents => acts flushAsyncOperationEvents
  | SetAsyncOperationBreakpoint operationId => replies noOutputs (setAsyncOperationBreakpoint operationId)
  | RemoveAsyncOperationBreakpoint operationId => replies noOutputs (removeAsyncOperationBreakpoint operationId)
  | Evaluate expression group api mute context byValue preview =>
      repliesLater evaluateOutputs (Runtime.evaluate expression group api mute context byValue preview)
  | CallFunctionOnObject id declaration arguments mute byValue preview =>
      repliesLater evaluateOutputs (Runtime.callFunctionOn id declaration arguments mute byValue preview)
  | GetProperties id own accessors preview =>
      replies (fun o => [Some (JSONArray o.1.1); JSONArray <$> o.1.2; JSONObject <$> o.2])
        (Runtime.getProperties id own accessors preview)
  | ReleaseObject objectId => acts (Runtime.releaseObject objectId)
  | ReleaseObjectGroup objectGroup => acts (Runtime.releaseObjectGroup objectGroup)
  | RunProgram => acts Runtime.runProgram
  | EnableRuntime => acts Runtime.enable
  | DisableRuntime => acts Runtime.disable
  | IsRunRequired => b ← Runtime.isRunRequired; mret (Returned (mkResult [] None [Some (JSONBoolean b)]))
  | SetCustomObjectFormatterEnabled enabled => acts (Runtime.setCustomObjectFormatterEnabled enabled)
  end.

(** JavaScript returns to the call that waits for it; the answer of that call. *)
Definition finish (a : Activation) (o : JSOutcome) : M (World E) (option AgentResult) :=
  match a, o with
  | EvaluatingOnCallFrame _ call previous mute, CallEnds result =>
      r ← finishEvaluateOnCallFrame call previous mute result; mret (Some (replyResult evalOutputs None r))
  | CompilingScript _ _ _ persist, CompileEnds scriptId =>
      r ← finishCompileScript persist (inl scriptId); mret (Some (replyResult compileOutputs None r))
  | CompilingScript _ _ _ persist, CompileFails message =>
      r ← finishCompileScript persist (inr message); mret (Some (replyResult compileOutputs None r))
  | RunningScript s _ group previous mute, ScriptEnds value =>
      r ← finishRunScript s group previous mute (Some value) None; mret (Some (replyResult runOutputs None r))
  | RunningScript s _ group previous mute, ScriptThrows exception message =>
      r ← finishRunScript s group previous mute exception message; mret (Some (replyResult runOutputs None r))
  | RuntimeEvaluating _ call previous mute, CallEnds result =>
      r ← Runtime.finishEvaluate call previous mute result; mret (Some (replyResult evaluateOutputs None r))
  | _, _ => mret None
  end.

Definition jsReturns (o : JSOutcome) : M (World E) (option AgentResult) :=
  stack ← gets activations;
  match stack with
  | a :: _ => popActivation ;; finish a o
  | [] => mret None
  end.

(** ** Everything that happens *)

(** The functions of the injected script host that change the inspector
    ([core/inspector/InjectedScriptHost.cpp]). *)
Inductive HostCall :=
  | HostBind (injectedScriptId : Z) (value : Z) (groupName : ustring)
  | DebugFunction (scriptId : ustring) (lineNumber columnNumber : Z)
  | UndebugFunction (scriptId : ustring) (lineNumber columnNumber : Z)
  | MonitorFunction (scriptId : ustring) (lineNumber columnNumber : Z) (functionName : ustring)
  | UnmonitorFunction (scriptId : ustring) (lineNumber columnNumber : Z).

(** The condition of the breakpoint of [monitorFunction]; [34] is a quotation
    mark. *)
Definition monitorCondition (functionName : ustring) : ustring :=
  u "console.log(" ++ [34] ++ u "function "
    ++ (match functionName with [] => u "(anonymous function)" | _ => functionName end)
    ++ u " called" ++ [34] ++ u " + (arguments.length > 0 ? " ++ [34] ++ u " with arguments: " ++ [34]
    ++ u " + Array.prototype.join.call(arguments, " ++ [34] ++ u ", " ++ [34] ++ u ") : " ++ [34; 34] ++ u ")) && false".

Definition hostCall (c : HostCall) : M (World E) unit :=
  match c with
  | HostBind id value group => Injected.setNative id (fun n => (Native.bind value group n).2)
  | DebugFunction scriptId l c => setCommandBreakpoint scriptId l c DebugCommandBreakpointSource []
  | UndebugFunction scriptId l c => removeCommandBreakpoint scriptId l c DebugCommandBreakpointSource
  | MonitorFunction scriptId l c name => setCommandBreakpoint scriptId l c MonitorCommandBreakpointSource (monitorCondition name)
  | UnmonitorFunction scriptId l c => removeCommandBreakpoint scriptId l c MonitorCommandBreakpointSource
  end.

Inductive Input :=
  (** a command of the frontend *)
  | Receives (r : Request)
  (** V8 reports an event or has collected a promise; the message loop of a pause
      has quit *)
  | Event (event : V8Event)
  | PromiseCollected (promiseId : Z)
  | LoopExit
  (** JavaScript that the inspector runs returns, or calls the injected script host *)
  | JSReturns (o : JSOutcome)
  | HostCalls (c : HostCall)
  (** the embedder runs scripts, schedules a pause, breaks the program or has it wait
      for its start *)
  | WillCallFunction (scriptId : Z) | DidCallFunction | WillEvaluateScript | DidEvaluateScript
  | SchedulePause (reason : Reason) (data : option jobject)
  | CancelPause
  | BreakProgram (reason : Reason) (data : option jobject)
  | PauseOnStart
  (** connecting and disconnecting *)
  | Connect (channel : bool) | Disconnect | Restore (cookie : ustring).

Definition drop_ {A} (m : M (World E) A) : M (World E) unit := m ;; mret tt.

Definition run (i : Input) : M (World E) unit :=
  match i with
  | Receives r => drop_ (perform r)
  | Event event => handleV8DebugEvent event
  | PromiseCollected promiseId => promiseCollected promiseId
  | LoopExit => leaveProgramBreak
  | JSReturns o => drop_ (jsReturns o)
  | HostCalls c => hostCall c
  | WillCallFunction scriptId => willCallFunction scriptId
  | DidCallFunction => didCallFunction
  | WillEvaluateScript => willEvaluateScript
  | DidEvaluateScript => didEvaluateScript
  | SchedulePause reason data => schedulePauseOnNextStatement reason data
  | CancelPause => cancelPauseOnNextStatement
  | BreakProgram reason data => breakProgram reason data
  | PauseOnStart => Runtime.pauseOnStart
  | Connect channel => connectFrontend channel
  | Disconnect => disconnectFrontend
  | Restore cookie => restoreInspectorStateFromCookie cookie
  end.

(** ** What can happen *)

(** The breakpoints of a restored state are objects with [isRegex]: nothing checks
    it, but the states the agent saves are such. *)
Definition wellFormedBreakpoint (v : JSONValue) : bool :=
  match v with
  | JSONObject o => match getBoolean DebuggerAgentState.isRegex o with Some _ => true | None => false end
  | _ => false
  end.

Definition wellFormedBreakpoints (p : jobject) : bool :=
  match get DebuggerAgentState.javaScriptBreakpoints p with
  | None => true
  | Some (JSONObject o) => forallb (fun kv => wellFormedBreakpoint kv.2) o
  | Some _ => false
  end.

Definition restoredProperties (cookie : ustring) (c : InspectorCompositeState) : option jobject :=
  let c := loadFromCookie cookie (unmute c) in
  a ← agentState (u "Debugger") (m_inspectorStateMap c); Some (properties a c).

(** A result of an evaluation, as [InjectedScriptSource.js] makes it: the frames of
    the exception's stack trace are objects, [callFunctionOn] gives no details of an
    exception, and an error has a text. *)
Definition wellFormedResult (call : EvaluationCall) (result : CallResult) : bool :=
  match makeEvalCall (hasExceptionDetails call) (Injected.callResult result) with
  | Done (ErrorReply []) => false
  | Done _ => true
  | Crash => false
  end.

Definition isLoop (a : Activation) : bool := match a with PauseMessageLoop => true | _ => false end.

(** JavaScript runs for the call on top of the stack. *)
Definition evaluating (stack : list Activation) : bool :=
  match stack with a :: _ => negb (isLoop a) | [] => false end.

(** The outcome is one that the call waits for. *)
Definition awaits (a : Activation) (o : JSOutcome) : bool :=
  match a, o with
  | EvaluatingOnCallFrame _ call _ _, CallEnds result | RuntimeEvaluating _ call _ _, CallEnds result =>
      wellFormedResult call result
  | CompilingScript _ _ _ _, (CompileEnds _ | CompileFails _) => true
  | RunningScript _ _ _ _ _, (ScriptEnds _ | ScriptThrows _ _) => true
  | _, _ => false
  end.

(** When an input can arrive.  The message loop of a pause handles tasks: commands,
    and connecting or disconnecting; after [quitNow] none of them, and the loop
    returns.  While JavaScript runs for a command no task is handled.  In a pause V8
    raises no events but for scripts that it compiles, though a break inside a break
    is handled.  A frontend is connected before commands arrive and is not replaced
    by another one.  The program is broken only while the agent is enabled, as the
    method asserts, and fewer asynchronous operations are pending than there are ids
    for them.  A state is restored before a frontend connects. *)
Definition allowed (i : Input) (w : World E) : bool :=
  let running := m_runningNestedMessageLoop (vd w) in
  let task := negb (running && m_quit (wtd w)) && negb (evaluating (activations w)) in
  match i with
  | LoopExit => running && m_quit (wtd w) && negb (evaluating (activations w))
  | JSReturns o => match activations w with a :: _ => awaits a o | [] => false end
  | HostCalls (HostBind id _ _) => evaluating (activations w) && bool_decide (is_Some (natives (ism w) !! id))
  | HostCalls _ => evaluating (activations w)
  | Event (BreakEvent _ _) | Event (ExceptionEvent _ _ _) | PromiseCollected _ | PauseOnStart => true
  | Event (AsyncTaskEvent _ _ _ _) => negb running && (Z.of_nat (size (m_asyncOperations (agent w))) <? int32_max)
  | Event (AfterCompileEvent _) | Event (CompileErrorEvent _) => negb running || evaluating (activations w)
  | Event (PromiseEvent _ _ _ _) | WillCallFunction _ | DidCallFunction | WillEvaluateScript | DidEvaluateScript
  | SchedulePause _ _ | CancelPause => negb running
  | BreakProgram _ _ => negb running && m_listener (wtd w)
  | Connect _ => negb (m_frontend (agent w)) && task
  | Restore cookie =>
      negb (m_frontend (agent w)) && negb running && task &&
      match restoredProperties cookie (composite w) with Some p => wellFormedBreakpoints p | None => false end
  | Receives _ | Disconnect => m_frontend (agent w) && task
  end.

End WithEngine.
