(* ===== verification/Session.v ===== *)
(** * A session with the frontend

    [v8inspector/V8Inspector.cpp]: messages of the frontend go through the
    dispatcher to the agents, and the answers back through the channel.  The
    dispatcher is there while a frontend is connected.

    A handler whose agent waits for JavaScript stays on the stack ([s_pending]); it
    answers when its call returns.  When its frontend has disconnected by then, the
    channel of its dispatcher is gone and the answer is dropped. *)

From S2P Require Import Prelude Platform WTFString JSONValues JSONParser StringSearch ContentSearch InspectorState Dispatcher Commands Engine NativeObjects World DebuggerOps InjectedScripts AgentState Breakpoints AsyncCalls Promises Pausing Evaluation RuntimeAgent PauseLoop Machine.

(** ** The agents' methods

    The arguments that a handler passes to its agent; an optional one is null when
    it was not found. *)

Definition argInt (a : option Arg) : option Z := match a with Some (ArgInt z) => Some z | _ => None end.
Definition argString (a : option Arg) : option ustring := match a with Some (ArgString s) => Some s | _ => None end.
Definition argBoolean (a : option Arg) : option bool := match a with Some (ArgBoolean b) => Some b | _ => None end.
Definition argObject (a : option Arg) : option jobject := match a with Some (ArgObject o) => o | _ => None end.
Definition argArray (a : option Arg) : option (list JSONValue) := match a with Some (ArgArray l) => l | _ => None end.

Abbreviation method := (string * (list (option Arg) -> option Request))%type.

(** A method without parameters. *)
Definition plain (name : string) (r : Request) : method := (name, fun _ => Some r).

Definition debuggerMethods_1 : list method :=
  [ plain "enable" Enable;
    plain "disable" Disable;
    ("setBreakpointsActive", fun args => match args with
       | [active] => SetBreakpointsActive <$> argBoolean active | _ => None end);
    ("setSkipAllPauses", fun args => match args with
       | [skipped] => SetSkipAllPauses <$> argBoolean skipped | _ => None end);
    ("setBreakpointByUrl", fun args => match args with
       | [line; url; regex; column; condition] =>
           l ← argInt line; Some (SetBreakpointByUrl l (argString url) (argString regex) (argInt column) (argString condition))
       | _ => None end);
    ("setBreakpoint", fun args => match args with
       | [location; condition] => l ← argObject location; Some (SetBreakpoint l (argString condition)) | _ => None end);
    ("removeBreakpoint", fun args => match args with
       | [breakpointId] => RemoveBreakpoint <$> argString breakpointId | _ => None end);
    ("continueToLocation", fun args => match args with
       | [location; interstatement] => l ← argObject location; Some (ContinueToLocation l (argBoolean interstatement))
       | _ => None end);
    plain "stepOver" CommandStepOver;
    plain "stepInto" CommandStepInto;
    plain "stepOut" CommandStepOut;
    plain "pause" CommandPause;
    plain "resume" CommandResume;
    plain "stepIntoAsync" CommandStepIntoAsync;
    ("searchInContent", fun args => match args with
       | [scriptId; query; caseSensitive; isRegex] =>
           i ← argString scriptId; q ← argString query; Some (SearchInContent i q (argBoolean caseSensitive) (argBoolean isRegex))
       | _ => None end);
    plain "canSetScriptSource" CanSetScriptSource;
    ("setScriptSource", fun args => match args with
       | [scriptId; source; preview] =>
           i ← argString scriptId; s ← argString source; Some (SetScriptSource i s (argBoolean preview))
       | _ => None end);
    ("restartFrame", fun args => match args with
       | [callFrameId] => RestartFrame <$> argString callFrameId | _ => None end);
    ("getScriptSource", fun args => match args with
       | [scriptId] => GetScriptSource <$> argString scriptId | _ => None end);
    ("getFunctionDetails", fun args => match args with
       | [functionId] => GetFunctionDetails <$> argString functionId | _ => None end) ].

Definition debuggerMethods_2 : list method :=
  [ ("getGeneratorObjectDetails", fun args => match args with
       | [objectId] => GetGeneratorObjectDetails <$> argString objectId | _ => None end);
    ("getCollectionEntries", fun args => match args with
       | [objectId] => GetCollectionEntries <$> argString objectId | _ => None end);
    ("setPauseOnExceptions", fun args => match args with
       | [state] => SetPauseOnExceptions <$> argString state | _ => None end);
    ("evaluateOnCallFrame", fun args => match args with
       | [callFrameId; expression; group; api; mute; byValue; preview] =>
           i ← argString callFrameId; x ← argString expression;
           Some (EvaluateOnCallFrame i x (argString group) (argBoolean api) (argBoolean mute) (argBoolean byValue) (argBoolean preview))
       | _ => None end);
    ("compileScript", fun args => match args with
       | [expression; url; persist; context] =>
           x ← argString expression; l ← argString url; p ← argBoolean persist; Some (CompileScript x l p (argInt context))
       | _ => None end);
    ("runScript", fun args => match args with
       | [scriptId; context; group; mute] =>
           i ← argString scriptId; Some (RunScript i (argInt context) (argString group) (argBoolean mute))
       | _ => None end);
    ("setVariableValue", fun args => match args with
       | [scope; name; value; frame; function] =>
           s ← argInt scope; n ← argString name; v ← argObject value;
           Some (SetVariableValue s n v (argString frame) (argString function))
       | _ => None end);
    ("getStepInPositions", fun args => match args with
       | [callFrameId] => GetStepInPositions <$> argString callFrameId | _ => None end);
    plain "getBacktrace" GetBacktrace;
    ("skipStackFrames", fun args => match args with
       | [script; content] => Some (SkipStackFrames (argString script) (argBoolean content)) | _ => None end);
    ("setAsyncCallStackDepth", fun args => match args with
       | [maxDepth] => SetAsyncCallStackDepth <$> argInt maxDepth | _ => None end);
    ("enablePromiseTracker", fun args => match args with
       | [captureStacks] => Some (EnablePromiseTracker (argBoolean captureStacks)) | _ => None end);
    plain "disablePromiseTracker" DisablePromiseTracker;
    ("getPromiseById", fun args => match args with
       | [promiseId; group] => i ← argInt promiseId; Some (GetPromiseById i (argString group)) | _ => None end);
    plain "flushAsyncOperationEvents" FlushAsyncOperationEvents;
    ("setAsyncOperationBreakpoint", fun args => match args with
       | [operationId] => SetAsyncOperationBreakpoint <$> argInt operationId | _ => None end);
    ("removeAsyncOperationBreakpoint", fun args => match args with
       | [operationId] => RemoveAsyncOperationBreakpoint <$> argInt operationId | _ => None end) ].

Definition runtimeMethods : list method :=
  [ ("evaluate", fun args => match args with
       | [expression; group; api; mute; context; byValue; preview] =>
           x ← argString expression;
           Some (Evaluate x (argString group) (argBoolean api) (argBoolean mute) (argInt context) (argBoolean byValue) (argBoolean preview))
       | _ => None end);
    ("callFunctionOn", fun args => match args with
       | [objectId; declaration; arguments; mute; byValue; preview] =>
           i ← argString objectId; d ← argString declaration;
           Some (CallFunctionOnObject i d (argArray arguments) (argBoolean mute) (argBoolean byValue) (argBoolean preview))
       | _ => None end);
    ("getProperties", fun args => match args with
       | [objectId; own; accessors; preview] =>
           i ← argString objectId; Some (GetProperties i (argBoolean own) (argBoolean accessors) (argBoolean preview))
       | _ => None end);
    ("releaseObject", fun args => match args with
       | [objectId] => ReleaseObject <$> argString objectId | _ => None end);
    ("releaseObjectGroup", fun args => match args with
       | [objectGroup] => ReleaseObjectGroup <$> argString objectGroup | _ => None end);
    plain "run" RunProgram;
    plain "enable" EnableRuntime;
    plain "disable" DisableRuntime;
    plain "isRunRequired" IsRunRequired;
    ("setCustomObjectFormatterEnabled", fun args => match args with
       | [enabled] => SetCustomObjectFormatterEnabled <$> argBoolean enabled | _ => None end) ].

(** The agents that [V8Inspector] registers. *)
Definition agentMethods (domain : string) : option (list method) :=
  if String.eqb domain "Debugger" then Some (debuggerMethods_1 ++ debuggerMethods_2)
  else if String.eqb domain "Runtime" then Some runtimeMethods
  else None.

Fixpoint findMethod (name : string) (l : list method) : option (list (option Arg) -> option Request) :=
  match l with
  | [] => None
  | (n, f) :: l' => if String.eqb name n then Some f else findMethod name l'
  end.

Definition request (c : Command) (args : list (option Arg)) : option Request :=
  methods ← agentMethods (c_domain c); f ← findMethod (c_method c) methods; f args.

(** ** The session *)

(** A handler that waits, with whether its dispatcher still has its channel. *)
Record Pending := mkPending { pd_callId : Z; pd_command : Command; pd_active : bool }.

Record Session (E : Type) := mkSession {
  s_world : World E;
  s_pending : list Pending;
  s_sent : list (Z * jobject);
}.
Arguments mkSession {E}.
Arguments s_world {E}.
Arguments s_pending {E}.
Arguments s_sent {E}.

#[export] Instance Session_fields {E} : Fields (Session E) := fun s => mkSession (s_world s) (s_pending s) (s_sent s).

Section WithEngine.
Context {P : Platform} {R : RegExpEngine} {E : Type} `{V8Engine E}.

#[export] Instance sessionBackend : Backend (Session E) := {|
  available domain s := match agentMethods domain with Some _ => true | None => false end;
  invoke c args s :=
    match request c args with
    | None => Crash
    | Some r =>
        match perform r (s_world s) with
        | Done (p, w) => Done (p, s <| s_world := w |>)
        | Crash => Crash
        end
    end;
  wait callId c s := s <| s_pending := mkPending callId c (channelOpen (s_world s)) :: s_pending s |>;
  channel s := channelOpen (s_world s);
  sendProtocolResponse callId m s := s <| s_sent := s_sent s ++ [(callId, m)] |>;
|}.

(** What arrives: a message of the frontend, or another input than a command. *)
Inductive SessionInput :=
  | Message (message : ustring)
  | Other (i : Input).

Definition disconnectHandlers (l : list Pending) : list Pending :=
  map (fun p => mkPending (pd_callId p) (pd_command p) false) l.

(** [dispatchMessageFromFrontend]; JavaScript returning lets the handler answer that
    waits for it. *)
Definition sessionStep (i : SessionInput) (s : Session E) : outcome (Session E) :=
  match i with
  | Message message =>
      if m_frontend (agent (s_world s)) then dispatch commandName m_dispatchMap message s else Done s
  | Other (JSReturns o) =>
      match jsReturns o (s_world s) with
      | Crash => Crash
      | Done (None, w) => Done (s <| s_world := w |>)
      | Done (Some r, w) =>
          match s_pending s with
          | [] => Done (s <| s_world := w |>)
          | p :: pending =>
              let s := s <| s_world := w |> <| s_pending := pending |> in
              if pd_active p then respond (pd_command p) (pd_callId p) r s else Done s
          end
      end
  | Other i =>
      match run i (s_world s) with
      | Crash => Crash
      | Done (_, w) =>
          Done (s <| s_world := w |>
                  <| s_pending := match i with Disconnect => disconnectHandlers (s_pending s) | _ => s_pending s end |>)
      end
  end.

(** A message that is a request: the frontend sends no others. *)
Definition requestId (message : ustring) : option Z :=
  match parseJSON message with
  | Some (JSONObject o) =>
      match get (u "id") o, get (u "method") o with
      | Some id, Some (JSONString _) => Some (default 0 (asInt id))
      | _, _ => None
      end
  | _ => None
  end.

Definition sessionAllowed (i : SessionInput) (s : Session E) : bool :=
  match i with
  | Message message => bool_decide (is_Some (requestId message)) && allowed (Receives IsRunRequired) (s_world s)
  | Other (Receives _) => false
  | Other i => allowed i (s_world s)
  end.

End WithEngine.
