(* ===== verification/Server.v ===== *)
(** * The server of the debugging protocol

    [v8inspector/RemoteDebuggingServer.cc]: a web socket server on a thread of its
    own (the IO thread) and the inspector on the main thread.  The threads share
    nothing but two queues: what arrives on a socket becomes a task of the main
    thread, and what the inspector sends becomes a task of the IO thread, where also
    [connection_id_] lives.  A step is one callback of [net::HttpServer] or one task on
    either thread, or another input of the inspector; their order is arbitrary. *)

From S2P Require Import Prelude Platform UTF8 JSONValues JSONParser StringSearch ContentSearch InspectorState Dispatcher Engine World Machine Session.

(** ** State *)

(** The tasks of the main thread. *)
Inductive MainTask :=
  | HandleConnect (connection_id : Z)
  | HandleMessageFromClient (connection_id : Z) (data : bytes)
  | HandleDisconnect (connection_id : Z).

(** [websocket] is what was given to [SendOverWebSocket], with the connections. *)
Record Server (E : Type) := mkServer {
  inspector_ : Session E;
  connection_id_ : Z;
  main_tasks : list MainTask;
  io_tasks : list bytes;
  websocket : list (Z * bytes);
}.
Arguments mkServer {E}.
Arguments inspector_ {E}.
Arguments connection_id_ {E}.
Arguments main_tasks {E}.
Arguments io_tasks {E}.
Arguments websocket {E}.

#[export] Instance Server_fields {E} : Fields (Server E) := fun sv =>
  mkServer (inspector_ sv) (connection_id_ sv) (main_tasks sv) (io_tasks sv) (websocket sv).

Section WithEngine.
Context {P : Platform} {R : RegExpEngine} {E : Type} `{V8Engine E}.
(** Where the allocator puts the characters of a string. *)
Context (placement : list Z -> Z).
Implicit Types sv : Server E.

Definition newServer (inspector : Session E) : Server E := mkServer inspector (-1) [] [] [].

(** ** Sending *)

Definition wtfToStdString (string : StringImpl) : outcome bytes := StringUTF8Adaptor string.

(** [sendProtocolResponse] and [sendProtocolNotification].  The string has 8-bit
    characters, as [JSONWriting] shows of the builder that makes it. *)
Definition serializeAndSend (message : jobject) sv : outcome (Server E) :=
  let responseString := toJSONString (JSONObject message) in
  match wtfToStdString (mkStringImpl true responseString (placement responseString)) with
  | Done response => Done (sv <| io_tasks := io_tasks sv ++ [response] |>)
  | Crash => Crash
  end.

Fixpoint serializeAll (messages : list jobject) sv : outcome (Server E) :=
  match messages with
  | [] => Done sv
  | m :: messages' =>
      match serializeAndSend m sv with
      | Done sv' => serializeAll messages' sv'
      | Crash => Crash
      end
  end.

Definition sendMessageToClient (message : bytes) sv : Server E :=
  if connection_id_ sv =? -1 then sv
  else sv <| websocket := websocket sv ++ [(connection_id_ sv, message)] |>.

(** ** The main thread *)

(** What the inspector has sent between two states: a handler responds after all else. *)
Definition sentBetween (s s' : Session E) : list jobject :=
  drop (length (notifications (s_world s))) (notifications (s_world s')) ++ (drop (length (s_sent s)) (s_sent s')).*2.

Definition runInspector (i : SessionInput) sv : outcome (Server E) :=
  match sessionStep i (inspector_ sv) with
  | Done s => serializeAll (sentBetween (inspector_ sv) s) (sv <| inspector_ := s |>)
  | Crash => Crash
  end.

(** The null string, which [fromUTF8] returns for what it cannot read, is empty for the
    parser. *)
Definition runMainTask (t : MainTask) sv : outcome (Server E) :=
  match t with
  | HandleConnect _ => runInspector (Other (Connect true)) sv
  | HandleMessageFromClient _ data =>
      match fromUTF8 (placement data) data with
      | Done message => runInspector (Message (default [] message)) sv
      | Crash => Crash
      end
  | HandleDisconnect _ => runInspector (Other Disconnect) sv
  end.

(** ** The IO thread *)

Definition postMainTask (t : MainTask) sv : Server E := sv <| main_tasks := main_tasks sv ++ [t] |>.

(** That no connection is open is only asserted, and not checked in release builds. *)
Definition OnWebSocketRequest (connection_id : Z) sv : Server E :=
  postMainTask (HandleConnect connection_id) (sv <| connection_id_ := connection_id |>).

Definition OnWebSocketMessage (connection_id : Z) (data : bytes) sv : Server E :=
  postMainTask (HandleMessageFromClient connection_id data) sv.

Definition OnClose (connection_id : Z) sv : Server E :=
  postMainTask (HandleDisconnect connection_id) (sv <| connection_id_ := -1 |>).

(** ** Steps *)

Inductive ServerEvent :=
  | WebSocketRequest (connection_id : Z)
  | WebSocketMessage (connection_id : Z) (data : bytes)
  | Close (connection_id : Z)
  | IOTask
  | RunTask
  | Inspector (i : Input).

Definition serverStep (e : ServerEvent) sv : outcome (Server E) :=
  match e with
  | WebSocketRequest id => Done (OnWebSocketRequest id sv)
  | WebSocketMessage id data => Done (OnWebSocketMessage id data sv)
  | Close id => Done (OnClose id sv)
  | IOTask =>
      match io_tasks sv with
      | [] => Done sv
      | message :: tasks => Done (sendMessageToClient message (sv <| io_tasks := tasks |>))
      end
  | RunTask =>
      match main_tasks sv with
      | [] => Done sv
      | t :: tasks => runMainTask t (sv <| main_tasks := tasks |>)
      end
  | Inspector i => runInspector (Other i) sv
  end.

(** The input of the inspector in a step. *)
Definition taskInput (t : MainTask) : option SessionInput :=
  match t with
  | HandleConnect _ => Some (Other (Connect true))
  | HandleMessageFromClient _ data =>
      match fromUTF8 (placement data) data with
      | Done message => Some (Message (default [] message))
      | Crash => None
      end
  | HandleDisconnect _ => Some (Other Disconnect)
  end.

Definition eventInput (e : ServerEvent) sv : option SessionInput :=
  match e with
  | RunTask => match main_tasks sv with t :: _ => taskInput t | [] => None end
  | Inspector i => Some (Other i)
  | _ => None
  end.

(** Data that is the UTF-8 of a request. *)
Definition requestData (data : bytes) : bool :=
  match fromUTF8 (placement data) data with
  | Done (Some message) => bool_decide (is_Some (requestId message))
  | _ => false
  end.

(** A client at a time, which sends requests.  The message loop of the main thread runs a
    task unless the one of a pause has been told to quit or JavaScript runs for a
    command. *)
Definition serverAllowed (e : ServerEvent) sv : bool :=
  let w := s_world (inspector_ sv) in
  match e with
  | WebSocketRequest id => (connection_id_ sv =? -1) && (0 <=? id)
  | WebSocketMessage id data => (connection_id_ sv =? id) && (0 <=? id) && requestData data
  | Close id => (connection_id_ sv =? id) && (0 <=? id)
  | IOTask => true
  | RunTask => negb (m_runningNestedMessageLoop (vd w) && m_quit (wtd w)) && negb (evaluating (activations w))
  | Inspector i =>
      match i with
      | Receives _ | Connect _ | Disconnect | Restore _ => false
      | _ => allowed i w
      end
  end.

End WithEngine.
