(* ===== verification/PauseInvariant.v ===== *)
(** * The debugger never dereferences a null pointer

    An invariant of the debugger's state machine ([PauseLoop]) under which every
    input that can arrive is handled to the end: no null frontend, debugger
    script, execution state, cookie or call chain is used.  The invariant also
    ties the agent's idea of being paused to the message loop. *)

From S2P Require Import Prelude Platform WTFString DecimalNumber JSONValues JSONParser StringSearch ContentSearch InspectorState Dispatcher InspectorStateFacts Engine NativeObjects World DebuggerOps InjectedScripts AgentState Breakpoints AsyncCalls Promises Pausing Evaluation RuntimeAgent PauseLoop Machine.

(** ** The invariant *)

(** A breakpoint in the cookie, as [buildObjectForBreakpointCookie] makes it. *)
Definition goodBreakpoint (v : JSONValue) : Prop :=
  exists o b, v = JSONObject o /\ getBoolean DebuggerAgentState.isRegex o = Some b.

Definition goodBreakpoints (o : jobject) : Prop := Forall (fun kv => goodBreakpoint kv.2) o.

Definition cookieOK (p : jobject) : Prop :=
  match get DebuggerAgentState.javaScriptBreakpoints p with
  | None => True
  | Some v => exists o, v = JSONObject o /\ goodBreakpoints o
  end.

(** Every announced operation has a chain to announce. *)
Definition asyncOK (a : Agent) : Prop :=
  forall id, id ∈ m_asyncOperationNotifications a -> exists chain, m_asyncOperations a !! id = Some (Some chain).

(** What the commands and events depend on. *)
Record View := mkView {
  v_paused : option ScriptState;
  v_running : bool;
  v_quit : bool;
  v_vdPaused : option ScriptState;
  v_executionState : bool;
  v_listener : bool;
  v_enabled : bool;
  v_frontend : bool;
  v_stack : list Activation;
}.

#[export] Instance View_fields : Fields View := fun v =>
  mkView (v_paused v) (v_running v) (v_quit v) (v_vdPaused v) (v_executionState v) (v_listener v) (v_enabled v)
    (v_frontend v) (v_stack v).

(** Without a listener the agent knows no scripts and no breakpoints of V8, and
    counts no frames. *)
Definition Idleness : Type := gmap ustring Script -> gmap ustring (list ustring) -> Z -> Prop.

Definition idle (listener : bool) : Idleness := fun scripts breakpoints level =>
  listener = false -> scripts = ∅ /\ breakpoints = ∅ /\ level = 0.

Definition agentOK (J : Idleness) (a : Agent) : Prop :=
  J (m_scripts a) (m_breakpointIdToDebuggerBreakpointIds a) (m_recursionLevelForStepFrame a) /\ asyncOK a.

(** Every injected script was created. *)
Definition injectedOK (m : InjectedScriptManager) : Prop :=
  map_Forall (fun _ s => is_empty s = false) (m_idToInjectedScript m).

(** ** The calls that wait *)

Definition onFrame (a : Activation) : bool := match a with EvaluatingOnCallFrame _ _ _ _ => true | _ => false end.

(** The script that a result will be wrapped by is there. *)
Definition activationOK (a : Activation) : Prop :=
  match a with RunningScript s _ _ _ _ => is_empty s = false | _ => True end.

Record stackOK (stack : list Activation) (running quit : bool) : Prop := {
  stack_loops : length (List.filter isLoop stack) = if running then 1%nat else 0%nat;
  stack_scripts : Forall activationOK stack;
  stack_top : existsb onFrame (take 1 stack) = true -> running = true /\ quit = false;
  stack_below : existsb onFrame (tl stack) = false;
}.

Lemma stackOK_quit stack r q q' : stackOK stack r q -> evaluating stack = false -> stackOK stack r q'.
Proof.
  intros [H1 H2 H3 H4] He. constructor; [done..| |done]. destruct stack as [|a stack]; [done|]. cbn in *.
  destruct a; done.
Qed.

Lemma stackOK_loop stack q q' : stackOK stack false q -> stackOK (PauseMessageLoop :: stack) true q'.
Proof.
  intros [H1 H2 H3 H4]. constructor; cbn; [by rewrite H1|by constructor|done|].
  destruct stack as [|a stack]; [done|]. cbn in *. rewrite H4, orb_false_r in *. destruct (onFrame a); [|done]. naive_solver.
Qed.

Lemma stackOK_push a stack r q :
  stackOK stack r q -> evaluating stack = false -> isLoop a = false -> activationOK a ->
  (onFrame a = true -> r = true /\ q = false) -> stackOK (a :: stack) r q.
Proof.
  intros [H1 H2 H3 H4] He Hl Ha Hf. constructor; cbn; [by rewrite Hl|by constructor|by rewrite orb_false_r|].
  destruct stack as [|b stack]; [done|]. cbn in *. destruct b; done.
Qed.

Lemma stackOK_leave stack q q' : stackOK stack true q -> evaluating stack = false -> stackOK (tl stack) false q'.
Proof.
  intros [H1 H2 H3 H4] He. destruct stack as [|a stack]; [done|]. cbn in *. apply negb_false_iff in He. rewrite He in H1.
  injection H1 as H1. inversion_clear H2. constructor; [done..| |]; destruct stack as [|b stack]; try done; cbn in *.
  - rewrite orb_false_r. by apply orb_false_elim in H4 as [-> _].
  - by apply orb_false_elim in H4 as [_ ?].
Qed.

Lemma stackOK_return a stack r q : stackOK (a :: stack) r q -> isLoop a = false -> stackOK stack r q.
Proof.
  intros [H1 H2 H3 H4] Hl. cbn in *. rewrite Hl in H1. inversion_clear H2.
  constructor; [done..| |]; destruct stack as [|b stack]; try done; cbn in *.
  - rewrite orb_false_r. by apply orb_false_elim in H4 as [-> _].
  - by apply orb_false_elim in H4 as [_ ?].
Qed.

Section WithEngine.
Context {P : Platform} {R : RegExpEngine} {E : Type} `{V8Engine E}.

Definition view (w : World E) : View :=
  mkView (m_pausedScriptState (agent w)) (m_runningNestedMessageLoop (vd w)) (m_quit (wtd w))
    (vd_pausedScriptState (vd w)) (m_executionState (vd w)) (m_listener (wtd w))
    (Properties.getBoolean DebuggerAgentState.debuggerEnabled (stateProperties w)) (m_frontend (agent w))
    (activations w).

(** The agents' states are members of the composite state. *)
Definition statesOK (w : World E) : Prop :=
  coherent (composite w) /\ (u "Runtime", rt_state (runtime w)) ∈ m_inspectorStateMap (composite w) /\
  (u "Debugger", m_state (agent w)) ∈ m_inspectorStateMap (composite w).

(** The part of the invariant that holds inside the methods too, at a view; [l]
    is what holds of the agent's scripts, breakpoints and recursion level. *)
Record CoreAt (l : Idleness) (v : View) (w : World E) : Prop := {
  core_view : view w = v;
  core_agent : agentOK l (agent w);
  core_cookie : cookieOK (stateProperties w);
  core_script : Debugger.enabled (vd w) = v_listener v;
  core_frontend : v_listener v = true -> v_frontend v = true;
  core_injected : injectedOK (ism w);
  core_states : statesOK w;
}.

(** Between inputs: the agent is paused exactly while the message loop runs and it
    listens; a loop that has not been told to quit belongs to a pause that is
    still on; and the persistent flag says whether the agent listens.  Of the calls
    that wait one is a message loop if it runs; an evaluation on a call frame is on
    top of it. *)
Record settled (v : View) : Prop := {
  settled_paused : v_paused v <> None <-> v_running v = true /\ v_listener v = true;
  settled_waiting : v_running v = true -> v_quit v = false ->
    v_vdPaused v <> None /\ v_executionState v = true /\ v_listener v = true;
  settled_idle : v_running v = false -> v_vdPaused v = None;
  settled_enabled : v_enabled v = v_listener v;
  settled_stack : stackOK (v_stack v) (v_running v) (v_quit v);
}.

Definition Inv (w : World E) : Prop := CoreAt (idle (m_listener (wtd w))) (view w) w /\ settled (view w).

Abbreviation Core v := (CoreAt (idle (v_listener v)) v).

(** ** Updates that keep the core *)

(** The fields of the agent the core reads. *)
Definition agentView (a : Agent) :=
  (m_frontend a, m_state a, m_pausedScriptState a, m_scripts a, m_recursionLevelForStepFrame a,
   m_asyncOperationNotifications a, m_asyncOperations a, m_breakpointIdToDebuggerBreakpointIds a).

Lemma core_setAgent l v f w :
  CoreAt l v w -> agentView (f (agent w)) = agentView (agent w) -> CoreAt l v (w <| agent := f (agent w) |>).
Proof.
  intros [Hv [Ha1 Ha2] Hc Hs Hf Hi Hk] [= E1 E2 E3 E4 E5 E6 E7 E8].
  constructor; [..|done|done|].
  - rewrite <- Hv. unfold view, stateProperties. cbn. by rewrite E1, E2, E3.
  - unfold agentOK, asyncOK in *. cbn. by rewrite E4, E5, E6, E7, E8.
  - unfold stateProperties in *. cbn. by rewrite E2.
  - done.
  - unfold statesOK in *. cbn. by rewrite E2.
Qed.

Lemma core_engine l v w e : CoreAt l v w -> CoreAt l v (w <| engine := e |>).
Proof. by intros []. Qed.
Lemma core_ism l v w m : CoreAt l v w -> injectedOK m -> CoreAt l v (w <| ism := m |>).
Proof. by intros []. Qed.
Lemma core_notifications l v w n : CoreAt l v w -> CoreAt l v (w <| notifications := n |>).
Proof. by intros []. Qed.

(** An update that keeps the view and establishes [agentOK] anew. *)
Lemma core_setAgentOK l v f w :
  CoreAt l v w -> m_frontend (f (agent w)) = m_frontend (agent w) -> m_state (f (agent w)) = m_state (agent w) ->
  m_pausedScriptState (f (agent w)) = m_pausedScriptState (agent w) -> agentOK l (f (agent w)) ->
  CoreAt l v (w <| agent := f (agent w) |>).
Proof.
  intros [Hv Ha Hc Hs Hf Hi Hk] E1 E2 E3 Ha'. constructor; [..|done|done|].
  - rewrite <- Hv. unfold view, stateProperties. cbn. by rewrite E1, E2, E3.
  - done.
  - unfold stateProperties in *. cbn. by rewrite E2.
  - done.
  - unfold statesOK in *. cbn. by rewrite E2.
Qed.

(** ** Rules for the primitive operations *)

Lemma wp_setAgent f Q (w : World E) : Q tt (w <| agent := f (agent w) |>) -> wp (setAgent f) Q w.
Proof. done. Qed.
Lemma wp_setVD f Q (w : World E) : Q tt (w <| vd := f (vd w) |>) -> wp (setVD f) Q w.
Proof. done. Qed.
Lemma wp_setEngine f Q (w : World E) : Q tt (w <| engine := f (engine w) |>) -> wp (setEngine f) Q w.
Proof. done. Qed.
Lemma wp_runEngine {A} (f : E -> A * E) Q (w : World E) :
  (forall a e, f (engine w) = (a, e) -> Q a (w <| engine := e |>)) -> wp (runEngine f) Q w.
Proof. unfold wp, runEngine. intros Hq. destruct (f (engine w)) as [a e] eqn:Ef. by apply Hq. Qed.

End WithEngine.

Abbreviation Core v := (CoreAt (idle (v_listener v)) v).

(** One step of symbolic execution. *)
Ltac wstep :=
  lazymatch goal with
  | |- wp (mret _) _ _ => apply wp_ret
  | |- wp (_ ≫= _) _ _ => apply wp_bind
  | |- wp (gets _) _ _ => apply wp_gets
  | |- wp (getAgent _) _ _ => apply wp_gets
  | |- wp (getVD _) _ _ => apply wp_gets
  | |- wp (modify _) _ _ => apply wp_modify
  | |- wp (setAgent _) _ _ => apply wp_setAgent
  | |- wp (setVD _) _ _ => apply wp_setVD
  | |- wp (setEngine _) _ _ => apply wp_setEngine
  | |- wp (runEngine _) _ _ => apply wp_runEngine; intros ? ? ?
  | |- wp (when _ _) _ _ => apply wp_when; intros ?
  | |- wp (if ?b then _ else _) _ _ => destruct b eqn:?
  | |- wp (match ?x with _ => _ end) _ _ => destruct x eqn:?
  | |- wp (let _ := _ in _) _ _ => cbv zeta
  end.

(** A call whose lemma [L] keeps the core. *)
Tactic Notation "wcall" uconstr(L) := eapply wp_mono; [eapply L; eauto|cbv beta; intros ? ? ?].

Section Operations.
Context {P : Platform} {R : RegExpEngine} {E : Type} `{V8Engine E} {L : ScriptsLoad E}.
Implicit Types w : World E.

Lemma core_listener v w : Core v w -> m_listener (wtd w) = v_listener v.
Proof. by intros [<-]. Qed.

Lemma send_core l v w m : CoreAt l v w -> v_frontend v = true -> wp (Frontend.send m) (fun _ => CoreAt l v) w.
Proof.
  intros Hc Hf. unfold Frontend.send. repeat wstep; [by apply core_notifications|done|].
  destruct Hc as [<-]. cbn in Hf. unfold getAgent, gets in *. congruence.
Qed.

Lemma script_core v w : Core v w -> v_listener v = true -> wp Debugger.debuggerScriptLocal (fun _ => Core v) w.
Proof.
  intros Hc Hl. unfold Debugger.debuggerScriptLocal. repeat wstep; [done|].
  destruct Hc as [_ _ _ Hs _]. unfold Debugger.enabled in Hs.
  destruct (m_debuggerScript (vd w)); congruence.
Qed.

Lemma dbgSetBreakpoint_core v w s b i :
  Core v w -> v_listener v = true -> wp (Debugger.setBreakpoint s b i) (fun _ => Core v) w.
Proof. intros Hc Hl. unfold Debugger.setBreakpoint. wstep. wcall script_core. wstep. by apply core_engine. Qed.

Lemma dbgRemoveBreakpoint_core v w id :
  Core v w -> v_listener v = true -> wp (Debugger.removeBreakpoint id) (fun _ => Core v) w.
Proof. intros Hc Hl. unfold Debugger.removeBreakpoint. wstep. wcall script_core. wstep. by apply core_engine. Qed.

Lemma setPauseOnNextStatement_core v w b : Core v w -> wp (Debugger.setPauseOnNextStatement b) (fun _ => Core v) w.
Proof. intros Hc. unfold Debugger.setPauseOnNextStatement. wstep. by apply core_engine. Qed.

Lemma clearStepping_core v w : Core v w -> v_listener v = true -> wp Debugger.clearStepping (fun _ => Core v) w.
Proof. intros Hc Hl. unfold Debugger.clearStepping. wstep. wcall script_core. wstep. by apply core_engine. Qed.

Lemma core_setVD v f w :
  Core v w -> m_runningNestedMessageLoop (f (vd w)) = m_runningNestedMessageLoop (vd w) ->
  vd_pausedScriptState (f (vd w)) = vd_pausedScriptState (vd w) ->
  m_executionState (f (vd w)) = m_executionState (vd w) -> Debugger.enabled (f (vd w)) = Debugger.enabled (vd w) ->
  Core v (w <| vd := f (vd w) |>).
Proof.
  intros [Hv Ha Hc Hs Hf Hi] E1 E2 E3 E4. constructor; [..|done|done|done].
  - rewrite <- Hv. unfold view. cbn. by rewrite E1, E2, E3.
  - done.
  - done.
  - cbn. by rewrite E4.
Qed.

Lemma setBreakpointsActivated_core v w b : Core v w -> wp (Debugger.setBreakpointsActivated b) (fun _ => Core v) w.
Proof.
  intros Hc. unfold Debugger.setBreakpointsActivated. repeat wstep; [|done].
  apply (core_setVD v (fun d => d <| m_breakpointsActivated := b |>)); [by apply core_engine|done..].
Qed.

Lemma pauseOnExceptionsState_core v w :
  Core v w -> v_listener v = true -> wp Debugger.pauseOnExceptionsState (fun _ => Core v) w.
Proof. intros Hc Hl. unfold Debugger.pauseOnExceptionsState. wstep. wcall script_core. by wstep. Qed.

Lemma setPauseOnExceptionsState_core v w n :
  Core v w -> v_listener v = true -> wp (Debugger.setPauseOnExceptionsState n) (fun _ => Core v) w.
Proof.
  intros Hc Hl. unfold Debugger.setPauseOnExceptionsState. wstep. wcall script_core. repeat wstep.
  apply (core_setVD v (fun d => d <| m_debuggerScript := Some _ |>)); [by apply core_engine|done..|].
  destruct H0 as [_ _ _ Hs _]. unfold Debugger.enabled in *. cbn. congruence.
Qed.

Lemma callFrameNoScopes_core v w i :
  Core v w -> v_listener v = true -> wp (Debugger.callFrameNoScopes i) (fun _ => Core v) w.
Proof. intros Hc Hl. unfold Debugger.callFrameNoScopes. repeat wstep; [done|]. wcall script_core. by wstep. Qed.

Lemma currentCallFramesInner_core v w d :
  Core v w -> v_listener v = true -> wp (Debugger.currentCallFramesInner d) (fun _ => Core v) w.
Proof.
  intros Hc Hl. unfold Debugger.currentCallFramesInner, Debugger.wrapCallFrames. repeat wstep; [done|].
  wcall script_core. repeat wstep; done.
Qed.

Lemma setManager_core v w f :
  Core v w -> injectedOK (f (ism w)) -> wp (Injected.setManager f) (fun _ => Core v) w.
Proof. intros Hc Hi. unfold Injected.setManager. wstep. by apply core_ism. Qed.

Lemma injectedScriptIdFor_core v w s : Core v w -> wp (Injected.injectedScriptIdFor s) (fun _ => Core v) w.
Proof.
  intros Hc. unfold Injected.injectedScriptIdFor. repeat wstep; [done|]. wcall setManager_core; [|by wstep]. by destruct Hc.
Qed.

Lemma setNative_core l v w i f : CoreAt l v w -> wp (Injected.setNative i f) (fun _ => CoreAt l v) w.
Proof. intros Hc. unfold Injected.setNative, Injected.setManager. wstep. apply core_ism; [done|]. by destruct Hc. Qed.

Lemma runJS_core {A} l v w i (t : JS (A * E)) : CoreAt l v w -> wp (Injected.runJS i t) (fun _ => CoreAt l v) w.
Proof.
  revert w. induction t as [[a e]|x g k IH|n k IH|n k IH]; intros w Hc; cbn [Injected.runJS].
  - repeat wstep. by apply core_engine.
  - do 2 wstep. destruct (Native.bind _ _ _) as [id n]. wstep. wcall setNative_core. by apply IH.
  - do 2 wstep. by apply IH.
  - do 2 wstep. by apply IH.
Qed.

Lemma callInjected_core {A} l v w s (f : E -> JS (A * E)) :
  CoreAt l v w -> wp (Injected.callInjected s f) (fun _ => CoreAt l v) w.
Proof. intros Hc. unfold Injected.callInjected. do 2 wstep. by apply runJS_core. Qed.

Lemma makeCall_core l v w s c : CoreAt l v w -> wp (Injected.makeCall s c) (fun _ => CoreAt l v) w.
Proof. intros Hc. unfold Injected.makeCall. wstep; [by wstep|]. wstep. wcall callInjected_core. by wstep. Qed.

Lemma injectedScriptFor_core v w s :
  Core v w -> wp (Injected.injectedScriptFor s) (fun r w' => Core v w' /\ is_empty r = false) w.
Proof.
  intros Hc. unfold Injected.injectedScriptFor. do 3 wstep.
  - wstep. split; [done|]. destruct Hc as [_ _ _ _ _ Hi]. apply bind_Some in Heqo as (id & _ & Hid). by apply (Hi id).
  - wstep. wcall injectedScriptIdFor_core. wstep. wcall setNative_core. do 2 wstep.
    match goal with Hx : createInjectedScript s ?i ?e = _ |- _ => pose proof (injectedScript_loads s i e) as Hl; rewrite Hx in Hl end.
    cbn in Hl. subst. cbv zeta. wstep. eapply (wp_mono _ (fun _ => Core v)).
    { wstep; [|by apply core_engine]. wstep. wcall makeCall_core; [by apply core_engine|by wstep]. }
    intros [] w1 Hc1. wstep. wcall setManager_core; [|by wstep].
    destruct Hc1 as [_ _ _ _ _ Hi]. by apply map_Forall_insert_2.
Qed.

Lemma injWrapObject_core v w i x g :
  Core v w -> is_empty i = false -> wp (Injected.wrapObject i x g) (fun _ => Core v) w.
Proof. intros Hc Hi. unfold Injected.wrapObject. rewrite Hi. by apply callInjected_core. Qed.

Lemma releaseScriptGroup_core v w s g :
  Core v w -> is_empty s = false -> wp (Injected.releaseScriptGroup s g) (fun _ => Core v) w.
Proof.
  intros Hc Hi. unfold Injected.releaseScriptGroup. wstep. wcall setNative_core. rewrite Hi.
  wstep; [|by wstep]. wstep. wcall callInjected_core. by wstep.
Qed.

Lemma releaseObjectGroup_core v w g : Core v w -> wp (Injected.releaseObjectGroup g) (fun _ => Core v) w.
Proof.
  intros Hc. unfold Injected.releaseObjectGroup. wstep. wstep. apply wp_forEach; [done|].
  intros key w' _ Hc'. do 3 wstep; [|by wstep]. apply releaseScriptGroup_core; [done|].
  destruct Hc' as [_ _ _ _ _ Hi]. by apply (Hi key).
Qed.

Lemma injWrapCallFrames_core v w i f o : Core v w -> wp (Injected.wrapCallFrames i f o) (fun _ => Core v) w.
Proof. intros Hc. unfold Injected.wrapCallFrames. wstep. wcall callInjected_core. by wstep. Qed.

(** ** The persistent state *)

Lemma statesOK_composite w c :
  statesOK w -> coherent c -> m_inspectorStateMap c = m_inspectorStateMap (composite w) ->
  statesOK (w <| composite := c |>).
Proof. intros (H1 & H2 & H3) Hc Em. unfold statesOK. cbn. by rewrite Em. Qed.

Lemma statesOK_insert w k a o :
  statesOK w -> (k, a) ∈ m_inspectorStateMap (composite w) ->
  statesOK (w <| composite := withObjects (<[a := o]> (objects (composite w))) (composite w) |>).
Proof. intros Hk Ha. apply statesOK_composite; [done| |done]. destruct Hk. apply coherent_insert; [done|]. by eapply agent_live. Qed.

Lemma statesOK_setProperty w k a name x :
  statesOK w -> (k, a) ∈ m_inspectorStateMap (composite w) ->
  statesOK (w <| composite := setProperty a name x (composite w) |>).
Proof.
  intros Hk Ha. apply statesOK_composite; [done| |].
  - apply coherent_updated. destruct Hk. apply coherent_insert; [done|]. by eapply agent_live.
  - unfold setProperty. by rewrite (proj1 (proj2 (updated_fields _))).
Qed.

Lemma stateProperties_set name x w :
  stateProperties (w <| composite := setProperty (m_state (agent w)) name x (composite w) |>)
    = setValue name x (stateProperties w).
Proof.
  unfold stateProperties. cbn. unfold setProperty, inspectorStateUpdated, properties.
  destruct (_ && _); cbn; by rewrite lookup_insert_eq.
Qed.

Lemma setStateValue_core v w name x :
  Core v w -> name <> DebuggerAgentState.debuggerEnabled ->
  (name = DebuggerAgentState.javaScriptBreakpoints -> exists o, x = JSONObject o /\ goodBreakpoints o) ->
  wp (setStateValue name x) (fun _ => Core v) w.
Proof.
  intros [Hv Ha Hc Hs Hf Hi Hk] Hn Hb. unfold setStateValue. wstep.
  constructor; [|done| |done|done|done|by eapply statesOK_setProperty, Hk].
  - rewrite <- Hv. unfold view. rewrite stateProperties_set. cbn. f_equal.
    unfold Properties.getBoolean. rewrite get_setValue. by destruct (decide _).
  - rewrite stateProperties_set. unfold cookieOK. rewrite get_setValue. destruct (decide _) as [E1|]; [auto|done].
Qed.

Lemma breakpointsCookie_core v w :
  Core v w -> wp breakpointsCookie (fun o w' => Core v w' /\ goodBreakpoints o) w.
Proof.
  intros [Hv Ha Hc Hs Hf Hi Hk]. unfold wp, breakpointsCookie, getObjectProperty.
  change (properties (m_state (agent w)) (composite w)) with (stateProperties w).
  destruct (Properties.getObject DebuggerAgentState.javaScriptBreakpoints (stateProperties w)) as [o p] eqn:Eo.
  assert (forall x, stateProperties (w <| composite := withObjects (<[m_state (agent w) := x]> (objects (composite w)))
                      (composite w) |>) = x) as Ep.
  { intros x. unfold stateProperties, properties. cbn. by rewrite lookup_insert_eq. }
  unfold Properties.getObject, cookieOK in *.
  destruct (get DebuggerAgentState.javaScriptBreakpoints (stateProperties w)) as [x|] eqn:Eg.
  - destruct Hc as (o' & -> & Hg). rewrite Eg in Eo. injection Eo as <- <-. cbn. split; [|done].
    constructor; [|done| |done|done|done|by eapply statesOK_insert, Hk].
    + rewrite <- Hv. unfold view. by rewrite Ep.
    + unfold cookieOK. rewrite Ep, Eg. eauto.
  - unfold setObject in Eo. rewrite get_setValue, decide_True in Eo by done. injection Eo as <- <-. cbn.
    split; [|constructor]. constructor; [|done| |done|done|done|by eapply statesOK_insert, Hk].
    + rewrite <- Hv. unfold view. rewrite Ep. f_equal. unfold Properties.getBoolean. by rewrite get_setValue.
    + unfold cookieOK. rewrite Ep, get_setValue, decide_True by done. eexists. split; [done|constructor].
Qed.

(** ** The agent's methods *)

(** While the agent listens, the core does not constrain its scripts and levels. *)
Lemma core_listening v f w :
  Core v w -> v_listener v = true ->
  (m_frontend (f (agent w)), m_state (f (agent w)), m_pausedScriptState (f (agent w)),
   m_asyncOperationNotifications (f (agent w)), m_asyncOperations (f (agent w)))
  = (m_frontend (agent w), m_state (agent w), m_pausedScriptState (agent w),
     m_asyncOperationNotifications (agent w), m_asyncOperations (agent w)) ->
  Core v (w <| agent := f (agent w) |>).
Proof.
  intros Hc Hl [= E1 E2 E3 E4 E5]. apply core_setAgentOK; [done..|].
  destruct Hc as [_ [_ Ha] _ _ _]. split; [congruence|]. unfold asyncOK in *. by rewrite E4, E5.
Qed.

Lemma clearBreakDetails_core l v w : CoreAt l v w -> wp clearBreakDetails (fun _ => CoreAt l v) w.
Proof. intros Hc. unfold clearBreakDetails. wstep. by apply core_setAgent. Qed.

Lemma clearStepIntoAsync_core l v w : CoreAt l v w -> wp clearStepIntoAsync (fun _ => CoreAt l v) w.
Proof. intros Hc. unfold clearStepIntoAsync. wstep. by apply core_setAgent. Qed.

Lemma setScript_core v w i s : Core v w -> v_listener v = true -> wp (setScript i s) (fun _ => Core v) w.
Proof.
  intros Hc Hl. unfold setScript. wstep. apply core_setAgentOK; [done..|].
  destruct Hc as [_ [_ Ha] _ _ _]. split; [congruence|done].
Qed.

Lemma isCallFrame_core v w f :
  Core v w -> v_listener v = true -> wp (isCallFrameWithUnknownScriptOrBlackboxed f) (fun _ => Core v) w.
Proof.
  intros Hc Hl. unfold isCallFrameWithUnknownScriptOrBlackboxed. repeat wstep; [|done..].
  wcall setScript_core. by wstep.
Qed.

Lemma isTopCallFrameBlackboxed_core v w :
  Core v w -> v_listener v = true -> wp isTopCallFrameBlackboxed (fun _ => Core v) w.
Proof. intros Hc Hl. unfold isTopCallFrameBlackboxed. wstep. wcall callFrameNoScopes_core. by apply isCallFrame_core. Qed.

Lemma shouldSkipExceptionPause_core v w :
  Core v w -> v_listener v = true -> wp shouldSkipExceptionPause (fun _ => Core v) w.
Proof.
  intros Hc Hl. unfold shouldSkipExceptionPause. repeat wstep; [done|]. wcall isTopCallFrameBlackboxed_core. by wstep.
Qed.

Lemma shouldSkipStepPause_core v w :
  Core v w -> v_listener v = true -> wp shouldSkipStepPause (fun _ => Core v) w.
Proof.
  intros Hc Hl. unfold shouldSkipStepPause. do 3 wstep; [by wstep|].
  wstep. eapply (wp_mono _ (fun _ => Core v)).
  { repeat wstep; [by apply core_setAgent|done]. }
  intros [] w1 Hc1. repeat wstep; [done|]. wcall isTopCallFrameBlackboxed_core. repeat wstep; [done|done| |].
  - apply (core_listening v (fun a => a <| m_skippedStepFrameCount := _ |>)); [|done..].
    by apply (core_listening v (fun a => a <| m_recursionLevelForStepFrame := 1 |>)).
  - by apply core_setAgent.
Qed.

Lemma setAgent_core l v f w :
  CoreAt l v w -> agentView (f (agent w)) = agentView (agent w) -> wp (setAgent f) (fun _ => CoreAt l v) w.
Proof. intros. wstep. by apply core_setAgent. Qed.

Lemma setAgent_listening v f w :
  Core v w -> v_listener v = true ->
  (m_frontend (f (agent w)), m_state (f (agent w)), m_pausedScriptState (f (agent w)),
   m_asyncOperationNotifications (f (agent w)), m_asyncOperations (f (agent w)))
  = (m_frontend (agent w), m_state (agent w), m_pausedScriptState (agent w),
     m_asyncOperationNotifications (agent w), m_asyncOperations (agent w)) ->
  wp (setAgent f) (fun _ => Core v) w.
Proof. intros. wstep. by apply core_listening. Qed.

Lemma recordBreakpoint_core v w d b s :
  Core v w -> v_listener v = true -> wp (recordBreakpoint d b s) (fun _ => Core v) w.
Proof. intros Hc Hl. unfold recordBreakpoint. by apply setAgent_listening. Qed.

(** Without a listener there are no scripts, and V8 is not asked. *)
Lemma resolveBreakpoint_core v w b i bp s : Core v w -> wp (resolveBreakpoint b i bp s) (fun _ => Core v) w.
Proof.
  intros Hc. unfold resolveBreakpoint. do 3 wstep; [|by wstep].
  assert (v_listener v = true) as Hl.
  { destruct (v_listener v) eqn:El; [done|]. exfalso. destruct Hc as [_ [Ha _] _ _ _].
    destruct Ha as [Hs _]; [done|]. rewrite Hs in Heqo. by rewrite lookup_empty in Heqo. }
  wstep; [by wstep|]. wstep. wcall dbgSetBreakpoint_core. repeat wstep; [|done].
  wcall recordBreakpoint_core. by wstep.
Qed.

Lemma resolveInScripts_core v w b bp url r l : Core v w -> wp (resolveInScripts b bp url r l) (fun _ => Core v) w.
Proof.
  revert w. induction l as [|[i s] l IH]; intros w Hc; cbn [resolveInScripts]; [by wstep|].
  wstep; [by apply IH|]. wstep. wcall resolveBreakpoint_core. wstep. wcall IH. by wstep.
Qed.

Lemma setBreakpointByUrl_core v w l url r c k : Core v w -> wp (setBreakpointByUrl l url r c k) (fun _ => Core v) w.
Proof.
  intros Hc. unfold setBreakpointByUrl. set (body := if _ <? 0 then _ else _).
  assert (wp body (fun _ => Core v) w) as Hb; [|destruct url, r; solve [done|by wstep]].
  subst body. wstep; [by wstep|]. cbv zeta. wstep. eapply wp_mono; [by apply breakpointsCookie_core|].
  intros o w1 [Hc1 Ho]. wstep; [by wstep|]. wstep. eapply wp_mono.
  { apply setStateValue_core; [done|done|]. intros _. eexists. split; [done|].
    apply setValue_Forall; [|done]. eexists _, _. split; [done|]. reflexivity. }
  intros [] w2 Hc2. wstep. wstep. wstep. wcall resolveInScripts_core. by wstep.
Qed.

Lemma setBreakpoint_core v w l k : Core v w -> wp (setBreakpoint l k) (fun _ => Core v) w.
Proof.
  intros Hc. unfold setBreakpoint. wstep; [by wstep|]. destruct outputs as [[i l'] c]. cbv zeta.
  repeat wstep; [done|]. wcall resolveBreakpoint_core. by wstep.
Qed.

Lemma removeBreakpointById_core v w b :
  Core v w -> v_listener v = true -> wp (removeBreakpointById b) (fun _ => Core v) w.
Proof.
  intros Hc Hl. unfold removeBreakpointById. repeat wstep; [|done].
  eapply wp_mono; [apply (wp_forEach _ (Core v)); [done|]|].
  - intros d w1 _ Hc1. wstep. wcall dbgRemoveBreakpoint_core. wstep. by apply core_setAgent.
  - intros [] w1 Hc1. by apply setAgent_listening.
Qed.

(** Without a listener there are no breakpoints to remove. *)
Lemma removeCommandBreakpoint_core v w s l c b :
  Core v w -> wp (removeCommandBreakpoint s l c b) (fun _ => Core v) w.
Proof.
  intros Hc. unfold removeCommandBreakpoint.
  destruct (decide (v_listener v = true)) as [Hl|Hl%not_true_is_false]; [by apply removeBreakpointById_core|].
  destruct (proj1 (core_agent _ _ _ Hc) Hl) as (_ & Hb & _).
  unfold removeBreakpointById. do 2 wstep. rewrite Hb, lookup_empty. by wstep.
Qed.

(** ** Asynchronous operations *)

Lemma elem_of_removeNotification id x l : x ∈ removeNotification id l <-> x ∈ l /\ x <> id.
Proof.
  unfold removeNotification. rewrite !list_elem_of_In, filter_In, negb_true_iff, Z.eqb_neq. done.
Qed.

Lemma elem_of_addNotification id x l : x ∈ addNotification id l <-> x ∈ l \/ x = id.
Proof.
  unfold addNotification. destruct (decide (id ∈ l)); [naive_solver|].
  rewrite elem_of_app, list_elem_of_singleton. done.
Qed.

Lemma send_agent l v w m :
  CoreAt l v w -> v_frontend v = true -> wp (Frontend.send m) (fun _ w' => CoreAt l v w' /\ agent w' = agent w) w.
Proof.
  intros Hc Hf. unfold Frontend.send. repeat wstep; [split; [by apply core_notifications|done]|done|].
  destruct Hc as [<-]. cbn in Hf. unfold getAgent, gets in *. congruence.
Qed.

Lemma flushAsyncOperationEvents_core l v w : CoreAt l v w -> wp flushAsyncOperationEvents (fun _ => CoreAt l v) w.
Proof.
  intros Hc. unfold flushAsyncOperationEvents. do 3 wstep; [by wstep|].
  assert (v_frontend v = true) as Hf.
  { destruct Hc as [<-]. cbn. by apply negb_false_iff. }
  do 3 wstep. eapply wp_mono; [apply (wp_forEach _ (fun w' => CoreAt l v w' /\ agent w' = agent w)); [done|]|].
  - intros id w1 Hid [Hc1 Ea]. do 2 wstep. rewrite Ea.
    destruct Hc as [_ [_ Ha] _ _ _]. destruct (Ha id Hid) as [chain ->].
    repeat wstep; [|done]. rewrite <- Ea. by apply send_agent.
  - intros [] w1 [Hc1 Ea]. wstep. apply core_setAgentOK; [done..|].
    destruct Hc1 as [_ [Ha1 _] _ _ _]. split; [done|]. by intros id ?%elem_of_nil.
Qed.

(** Removing operations with their notifications. *)
Lemma agentOK_sub l a a' :
  agentOK l a -> m_scripts a' = m_scripts a -> m_recursionLevelForStepFrame a' = m_recursionLevelForStepFrame a ->
  m_breakpointIdToDebuggerBreakpointIds a' = m_breakpointIdToDebuggerBreakpointIds a ->
  (forall id, id ∈ m_asyncOperationNotifications a' -> id ∈ m_asyncOperationNotifications a /\
     m_asyncOperations a' !! id = m_asyncOperations a !! id) ->
  agentOK l a'.
Proof.
  intros [Ha1 Ha2] E1 E2 E3 Hn. split; [by rewrite E1, E2, E3|].
  intros id [Hid ->]%Hn. by apply Ha2.
Qed.

Lemma traceAsyncOperationCompleted_core l v w i : CoreAt l v w -> wp (traceAsyncOperationCompleted i) (fun _ => CoreAt l v) w.
Proof.
  intros Hc. unfold traceAsyncOperationCompleted. do 3 wstep; [wstep; by apply core_setAgent|]. cbv zeta.
  wstep. eapply (wp_mono _ (fun _ => CoreAt l v)).
  { repeat wstep; [|done]. apply core_setAgentOK; [done|by destruct (_ =? _)..|].
    destruct Hc as [_ Ha _ _ _]. eapply agentOK_sub; [exact Ha|by destruct (_ =? _)..|].
    intros id. cbn. replace (m_asyncOperationNotifications _) with (m_asyncOperationNotifications (agent w)) by (by destruct (_ =? _)).
    replace (m_asyncOperations _) with (m_asyncOperations (agent w)) by (by destruct (_ =? _)).
    rewrite elem_of_removeNotification. intros [? Hne]. by rewrite lookup_delete_ne. }
  intros [] w1 Hc1. do 3 wstep. eapply (wp_mono _ (fun _ => CoreAt l v)).
  { wstep; [by apply clearStepIntoAsync_core|done]. }
  intros [] w2 Hc2. wstep; [|done]. apply send_core; [done|].
  apply andb_prop in H0 as [Hf _]. destruct Hc1 as [<-]. done.
Qed.

Lemma clearCurrentAsyncOperation_core l v w : CoreAt l v w -> wp clearCurrentAsyncOperation (fun _ => CoreAt l v) w.
Proof.
  intros Hc. unfold clearCurrentAsyncOperation. do 3 wstep. eapply (wp_mono _ (fun _ => CoreAt l v)).
  { wstep; [by apply traceAsyncOperationCompleted_core|done]. }
  intros [] w1 Hc1. wstep. by apply core_setAgent.
Qed.

Lemma resetAsyncCallTracker_core l v w : CoreAt l v w -> wp resetAsyncCallTracker (fun _ => CoreAt l v) w.
Proof.
  intros Hc. unfold resetAsyncCallTracker. wstep. wcall clearCurrentAsyncOperation_core. wstep.
  wcall clearStepIntoAsync_core. wstep. apply core_setAgentOK; [done..|].
  destruct H1 as [_ [Ha _] _ _ _]. split; [done|]. by intros id ?%elem_of_nil.
Qed.

Lemma internalSetAsyncCallStackDepth_core l v w d :
  CoreAt l v w -> wp (internalSetAsyncCallStackDepth d) (fun _ => CoreAt l v) w.
Proof.
  intros Hc. unfold internalSetAsyncCallStackDepth. repeat wstep.
  - apply resetAsyncCallTracker_core. by apply core_setAgent.
  - by apply core_setAgent.
Qed.

(** ** Fresh operation ids *)

Lemma nextOperationId_range id : 1 <= nextOperationId id <= int32_max.
Proof. unfold nextOperationId. pose proof (wrapS_bounds 32 (id + 1)). zcases; lia. Qed.

Lemma nextOperationId_step id :
  1 <= id <= int32_max -> nextOperationId id = (id mod int32_max) + 1.
Proof.
  intros Hid. unfold nextOperationId. destruct (Z.eq_dec id int32_max) as [->|]; [done|].
  rewrite wrapS_small by lia. rewrite Z.mod_small by lia. zcases; lia.
Qed.

(** The ids the loop tries: circular from the first one. *)
Lemma nextOperationId_iter id k :
  Nat.iter (S k) nextOperationId id = ((nextOperationId id - 1 + Z.of_nat k) mod int32_max) + 1.
Proof.
  induction k as [|k IH].
  - cbn [Nat.iter nat_rect]. pose proof (nextOperationId_range id). rewrite Z.add_0_r, Z.mod_small; lia.
  - rewrite Nat.iter_succ, IH.
    pose proof (Z.mod_pos_bound (nextOperationId id - 1 + Z.of_nat k) int32_max ltac:(lia)).
    rewrite nextOperationId_step by lia. f_equal. rewrite Zplus_mod_idemp_l. f_equal. lia.
Qed.

Lemma unusedOperationId_None fuel ops id :
  unusedOperationId fuel ops id = None ->
  forall k, (k < fuel)%nat -> is_Some (ops !! Nat.iter (S k) nextOperationId id).
Proof.
  revert id. induction fuel as [|fuel IH]; intros id Hu k Hk; [lia|]. cbn [unusedOperationId] in Hu.
  destruct (ops !! nextOperationId id) eqn:En; [|done].
  destruct k as [|k]; [cbn [Nat.iter nat_rect]; eauto|]. rewrite Nat.iter_succ_r. apply IH; [done|lia].
Qed.

Lemma unusedOperationId_total (ops : gmap Z (option AsyncCallChain)) id :
  Z.of_nat (size ops) < int32_max -> is_Some (unusedOperationId (S (size ops)) ops id).
Proof.
  intros Hs. destruct (unusedOperationId _ _ _) as [x|] eqn:En; [eauto|]. exfalso.
  pose proof (unusedOperationId_None _ _ _ En) as Hd.
  set (l := map (fun k => Nat.iter (S k) nextOperationId id) (seq 0 (S (size ops)))).
  assert (l ⊆+ elements (dom ops)) as Hsub.
  { apply NoDup_submseteq.
    - apply NoDup_fmap_2_strong; [|apply NoDup_seq]. intros i j Hi%elem_of_seq Hj%elem_of_seq.
      rewrite !nextOperationId_iter. intros Hij. apply Z.add_cancel_r in Hij.
      pose proof (Z.div_mod (nextOperationId id - 1 + Z.of_nat i) int32_max ltac:(lia)).
      pose proof (Z.div_mod (nextOperationId id - 1 + Z.of_nat j) int32_max ltac:(lia)). nia.
    - intros x [k [-> Hk%elem_of_seq]]%list_elem_of_fmap. apply elem_of_elements, elem_of_dom, Hd. lia. }
  apply submseteq_length in Hsub. unfold l in Hsub. rewrite length_map, length_seq in Hsub.
  change (length (elements (dom ops))) with (size (dom ops)) in Hsub. rewrite size_dom in Hsub. lia.
Qed.

Lemma unusedOperationId_fresh fuel ops id id' :
  unusedOperationId fuel ops id = Some id' -> ops !! id' = None /\ 1 <= id' <= int32_max.
Proof.
  revert id. induction fuel as [|fuel IH]; intros id Hu; [done|]. cbn [unusedOperationId] in Hu.
  destruct (ops !! nextOperationId id) eqn:En; [by eapply IH|]. injection Hu as <-.
  split; [done|apply nextOperationId_range].
Qed.

(** [Core] with a bound on the pending operations. *)
Definition roomy w : Prop := Z.of_nat (size (m_asyncOperations (agent w))) < int32_max.

Lemma currentCallFramesInner_same v w d :
  Core v w -> v_listener v = true -> wp (Debugger.currentCallFramesInner d) (fun _ w' => w' = w) w.
Proof.
  intros Hc Hl. unfold Debugger.currentCallFramesInner, Debugger.wrapCallFrames, Debugger.debuggerScriptLocal.
  repeat wstep; try done. destruct Hc as [_ _ _ Hs _]. unfold Debugger.enabled in Hs.
  destruct (m_debuggerScript (vd w)); congruence.
Qed.

Lemma traceAsyncOperationStarting_core v w d :
  Core v w -> v_listener v = true -> roomy w -> wp (traceAsyncOperationStarting d) (fun _ => Core v) w.
Proof.
  intros Hc Hl Hr. unfold traceAsyncOperationStarting. wstep.
  eapply wp_mono; [by eapply currentCallFramesInner_same|]. intros frames w' ->. do 2 wstep. cbv zeta.
  destruct (unusedOperationId_total _ (m_lastAsyncOperationId (agent w)) Hr) as [i Ei]. unfold id. rewrite Ei.
  destruct (unusedOperationId_fresh _ _ _ _ Ei) as [Hf _]. set (chain := match frames with Some _ => _ | None => _ end).
  do 2 wstep. set (w1 := w <| agent := _ |>). assert (Core v w1) as Hc1.
  { apply core_setAgentOK; [done..|]. destruct Hc as [_ [_ Ha] _ _ _]. split; [congruence|].
    intros j Hj. cbn in *. destruct (decide (j = i)) as [->|Hne].
    - rewrite lookup_insert_eq. destruct chain; [eauto|]. destruct (Ha i Hj) as [? ?]. congruence.
    - rewrite lookup_insert_ne by done. apply Ha.
      destruct chain; [apply elem_of_addNotification in Hj as [|]; done|done]. }
  clearbody w1. wstep. eapply (wp_mono _ (fun _ => Core v)).
  { repeat wstep; [|by apply core_setAgent|done]. apply clearStepping_core; [by apply core_setAgent|done]. }
  intros [] w2 Hc2. wstep. eapply (wp_mono _ (fun _ => Core v)).
  { repeat wstep; [by apply flushAsyncOperationEvents_core|done]. }
  intros [] w3 Hc3. by wstep.
Qed.

Lemma traceAsyncCallbackCompleted_core v w : Core v w -> wp traceAsyncCallbackCompleted (fun _ => Core v) w.
Proof.
  intros Hc. unfold traceAsyncCallbackCompleted. do 3 wstep; [by wstep|].
  do 3 wstep; [wstep; by apply core_setAgent|]. wstep.
  wcall clearCurrentAsyncOperation_core; [by apply core_setAgent|]. do 3 wstep; [by wstep|].
  do 3 wstep. wcall setPauseOnNextStatement_core; [by apply core_setAgent|].
  repeat wstep; [by apply clearStepIntoAsync_core|done].
Qed.

Lemma traceAsyncCallbackStarting_core v w i :
  Core v w -> v_listener v = true -> wp (traceAsyncCallbackStarting i) (fun _ => Core v) w.
Proof.
  intros Hc Hl. unfold traceAsyncCallbackStarting. do 4 wstep.
  assert (wp (match m_currentAsyncCallChain (agent w) with
              | Some _ => setAgent (fun a => a <| m_nestedAsyncCallCount := m_nestedAsyncCallCount a + 1 |>)
              | None => mret tt
              end) (fun _ => Core v) w) as Hn.
  { repeat wstep; [by apply core_setAgent|done]. }
  destruct (if 0 <? i then _ else _) as [[chain|]|]; [|apply Hn..].
  destruct (negb _); [apply Hn|]. wstep. eapply (wp_mono _ (fun _ => Core v)).
  { repeat wstep; [apply traceAsyncCallbackCompleted_core; by apply core_setAgent|done]. }
  intros [] w1 Hc1. wstep. wcall setAgent_core. do 3 wstep; [|done]. wstep.
  wcall setAgent_listening. by apply setPauseOnNextStatement_core.
Qed.

Lemma didReceiveV8AsyncTaskEvent_core v w c t n i :
  Core v w -> v_listener v = true -> roomy w -> wp (didReceiveV8AsyncTaskEvent c t n i) (fun _ => Core v) w.
Proof.
  intros Hc Hl Hr. unfold didReceiveV8AsyncTaskEvent. repeat case_decide; [..|by wstep].
  - unfold didEnqueueV8AsyncTask. wstep. wcall traceAsyncOperationStarting_core.
    repeat wstep; [by apply core_setAgent|done].
  - unfold willHandleV8AsyncTask. repeat wstep; [|by apply traceAsyncCallbackStarting_core].
    wcall traceAsyncCallbackStarting_core. do 2 wstep.
    match goal with |- wp _ _ ?w2 => assert (Core v w2) as Hc2 by (by apply core_setAgent) end.
    wstep; [by apply traceAsyncOperationCompleted_core|done].
  - by apply traceAsyncCallbackCompleted_core.
Qed.

(** ** Promises *)

Lemma setTracker_core l v w f : CoreAt l v w -> wp (setTracker f) (fun _ => CoreAt l v) w.
Proof. intros Hc. unfold setTracker. wstep. by apply core_setAgent. Qed.

Lemma didUpdatePromise_core l v w t o : CoreAt l v w -> wp (didUpdatePromise t o) (fun _ => CoreAt l v) w.
Proof.
  intros Hc. unfold didUpdatePromise. do 3 wstep; [|done]. apply send_core; [done|]. by destruct Hc as [<-].
Qed.

Lemma clearPromises_core l v w : CoreAt l v w -> wp clearPromises (fun _ => CoreAt l v) w.
Proof.
  intros Hc. unfold clearPromises. wstep. wcall setTracker_core. do 3 wstep. wcall setTracker_core.
  apply wp_forEach; [done|]. intros i w1 _ Hc1. by apply didUpdatePromise_core.
Qed.

Lemma setPromiseTracker_core l v w b c : CoreAt l v w -> wp (setPromiseTracker b c) (fun _ => CoreAt l v) w.
Proof.
  intros Hc. unfold setPromiseTracker. wstep. wcall setTracker_core. wstep; [by apply clearPromises_core|done].
Qed.

Lemma promiseId_core l v w p : CoreAt l v w -> wp (promiseId p) (fun _ => CoreAt l v) w.
Proof.
  intros Hc. unfold promiseId, circularSequentialId. do 3 wstep; [by wstep|]. do 2 wstep. wcall setTracker_core.
  do 4 wstep. wcall setTracker_core. do 3 wstep. wcall setTracker_core. wstep.
  eapply (wp_mono _ (fun _ => CoreAt l v)); [wstep; [by apply didUpdatePromise_core|by wstep]|].
  intros [] w1 Hc1. by wstep.
Qed.

Lemma promiseCollected_core l v w p : CoreAt l v w -> wp (promiseCollected p) (fun _ => CoreAt l v) w.
Proof.
  intros Hc. unfold promiseCollected. do 3 wstep; [|by wstep]. wstep. wcall setTracker_core.
  by apply didUpdatePromise_core.
Qed.

(** Reading the clock and the stack changes nothing. *)
Lemma promiseDetails_core l v w b o :
  CoreAt l v w -> wp (creationDetails b o) (fun _ => CoreAt l v) w /\ wp (settlementDetails b o) (fun _ => CoreAt l v) w.
Proof. intros Hc. unfold creationDetails, settlementDetails, captureStack. split; repeat wstep; done. Qed.

Lemma trackPromise_core l v w p q n : CoreAt l v w -> wp (trackPromise p q n) (fun _ => CoreAt l v) w.
Proof.
  intros Hc. unfold trackPromise. wstep. wcall promiseId_core. destruct a as [id new]. cbv zeta. do 3 wstep.
  eapply (wp_mono _ (fun _ => CoreAt l v)).
  - repeat wstep; [wcall promiseId_core; by wstep|by apply promiseDetails_core|done|by apply promiseDetails_core].
  - intros o w1 Hc1. by apply didUpdatePromise_core.
Qed.

Lemma didReceiveV8PromiseEvent_core l v w p q n :
  CoreAt l v w -> wp (didReceiveV8PromiseEvent p q n) (fun _ => CoreAt l v) w.
Proof. intros Hc. unfold didReceiveV8PromiseEvent. do 3 wstep; [by apply trackPromise_core|done]. Qed.
End Operations.
