(* ===== verification/PauseSafety.v ===== *)
(** * Pausing, enabling and connecting keep the invariant

    The methods of [Pausing] and [PauseLoop] keep the invariant of
    [PauseInvariant]. *)

From S2P Require Import Prelude Platform WTFString DecimalNumber JSONValues JSONParser StringSearch ContentSearch InspectorState Dispatcher InspectorStateFacts Engine NativeObjects World DebuggerOps InjectedScripts AgentState Breakpoints AsyncCalls Promises Pausing Evaluation RuntimeAgent PauseLoop Machine PauseInvariant.

Section Commands.
Context {P : Platform} {R : RegExpEngine} {E : Type} `{V8Engine E} {L : ScriptsLoad E}.
Implicit Types w : World E.

(** ** Methods that keep the view *)

Lemma checkEnabled_core {A} v w (m : M (World E) (Reply A)) :
  Core v w -> v_enabled v = v_listener v -> (v_listener v = true -> wp m (fun _ => Core v) w) ->
  wp (checkEnabled m) (fun _ => Core v) w.
Proof.
  intros Hc He Hm. unfold checkEnabled, enabled, getStateBoolean. repeat wstep; [|done].
  apply Hm. rewrite <- He. destruct Hc as [<-]. done.
Qed.

Lemma currentCallFrames_core v w : Core v w -> wp currentCallFrames (fun _ => Core v) w.
Proof.
  intros Hc. unfold currentCallFrames. repeat wstep; try done.
  wcall injectedScriptFor_core. destruct_and!. repeat wstep; [done|]. by apply injWrapCallFrames_core.
Qed.

Lemma asyncStackTraceLoop_core v w l n r : Core v w -> wp (asyncStackTraceLoop l n r) (fun _ => Core v) w.
Proof.
  revert w n r. induction l as [|s l IH]; intros w n r Hc; cbn [asyncStackTraceLoop]; [by wstep|].
  wstep. wcall injectedScriptFor_core. destruct_and!. wstep; [by apply IH|]. wstep. wcall injWrapCallFrames_core.
  cbv zeta. by apply IH.
Qed.

Lemma currentAsyncStackTrace_core v w : Core v w -> wp currentAsyncStackTrace (fun _ => Core v) w.
Proof.
  intros Hc. unfold currentAsyncStackTrace. repeat wstep; try done. by apply asyncStackTraceLoop_core.
Qed.

Lemma releaseBacktrace_core v w : Core v w -> wp releaseBacktrace (fun _ => Core v) w.
Proof. apply releaseObjectGroup_core. Qed.

Lemma pause_core v w : Core v w -> v_enabled v = v_listener v -> wp pause (fun _ => Core v) w.
Proof.
  intros Hc He. unfold pause, isPaused. apply checkEnabled_core; [done..|]. intros Hl.
  repeat wstep; [done|]. wcall clearBreakDetails_core. wstep. wcall clearStepIntoAsync_core. wstep.
  wcall setAgent_core. wstep. wcall setPauseOnNextStatement_core. by wstep.
Qed.

Lemma prepareStepFrom_core v w : Core v w -> v_listener v = true -> wp prepareStepFrom (fun _ => Core v) w.
Proof.
  intros Hc Hl. unfold prepareStepFrom. wstep. wcall isTopCallFrameBlackboxed_core. wstep.
  wcall setAgent_core. by apply releaseBacktrace_core.
Qed.

Lemma schedulePause_core v w r d : Core v w -> wp (schedulePauseOnNextStatement r d) (fun _ => Core v) w.
Proof.
  intros Hc. unfold schedulePauseOnNextStatement, isPaused. repeat wstep; [done|].
  apply setPauseOnNextStatement_core. by apply core_setAgent.
Qed.

Lemma scheduleSteppingInto_core v w : Core v w -> wp schedulePauseOnNextStatementIfSteppingInto (fun _ => Core v) w.
Proof.
  intros Hc. unfold schedulePauseOnNextStatementIfSteppingInto, isPaused. repeat wstep; [done|].
  wcall clearBreakDetails_core. wstep. eapply (wp_mono _ (fun _ => Core v)).
  { wstep. apply core_setAgentOK; [done..|]. destruct H0 as [_ [Ha Hn] _ _ _].
    split; [|done]. intros Hl. by destruct (Ha Hl) as (? & ? & _). }
  intros [] w1 Hc1. by apply setPauseOnNextStatement_core.
Qed.

Lemma cancelPause_core v w : Core v w -> wp cancelPauseOnNextStatement (fun _ => Core v) w.
Proof.
  intros Hc. unfold cancelPauseOnNextStatement, isPaused. repeat wstep; [done|].
  wcall clearBreakDetails_core. wstep. wcall setAgent_core. by apply setPauseOnNextStatement_core.
Qed.

Lemma changeRecursionLevel_core v w n : Core v w -> wp (changeJavaScriptRecursionLevel n) (fun _ => Core v) w.
Proof.
  intros Hc. unfold changeJavaScriptRecursionLevel, isPaused. do 5 wstep.
  eapply (wp_mono _ (fun _ w' => Core v w' /\ m_recursionLevelForStepFrame (agent w') = m_recursionLevelForStepFrame (agent w))).
  { wstep; [|done]. unfold Debugger.setPauseOnNextStatement. wstep. split; [by apply core_engine|done]. }
  intros [] w1 [Hc1 E1]. wstep.
  eapply (wp_mono _ (fun _ w' => Core v w' /\ m_recursionLevelForStepFrame (agent w') = m_recursionLevelForStepFrame (agent w))).
  { wstep; [|done]. wstep. eapply (wp_mono _ (fun _ w' => Core v w' /\ m_recursionLevelForStepFrame (agent w') = _)).
    { wstep. split; [by apply core_setAgent|exact E1]. }
    intros [] w2 [Hc2 E2]. repeat wstep; [|done]. split; [by apply core_setAgent|done]. }
  intros [] w2 [Hc2 E2]. wstep; [|done].
  assert (v_listener v = true) as Hl.
  { destruct (v_listener v) eqn:El; [done|]. destruct Hc as [_ [Ha _] _ _ _].
    destruct Ha as (_ & _ & Hz); [done|]. unfold id in H0. by rewrite Hz in H0. }
  wstep. wcall setAgent_listening. do 3 wstep; [|done]. wstep. wcall setAgent_core. do 2 wstep.
  wstep; [by apply clearStepping_core|by wstep|by wstep|wstep; by apply core_setAgent].
Qed.

Lemma willCallFunction_core v w i : Core v w -> wp (willCallFunction i) (fun _ => Core v) w.
Proof.
  intros Hc. unfold willCallFunction. wstep. wcall changeRecursionLevel_core. repeat wstep; [done| |done].
  by apply scheduleSteppingInto_core.
Qed.

Lemma willEvaluateScript_core v w : Core v w -> wp willEvaluateScript (fun _ => Core v) w.
Proof. intros Hc. unfold willEvaluateScript. wstep. wcall changeRecursionLevel_core. by apply scheduleSteppingInto_core. Qed.

(** ** Settings and queries *)

Lemma getBacktrace_core v w :
  Core v w -> (v_paused v <> None -> v_listener v = true) -> wp getBacktrace (fun _ => Core v) w.
Proof.
  intros Hc Hp. unfold getBacktrace, assertPaused. do 3 wstep; [|by wstep].
  assert (v_listener v = true) as Hl by (apply Hp; destruct Hc as [<-]; cbn; congruence).
  unfold Debugger.currentCallFrames. wstep. wcall currentCallFramesInner_core. wstep. wcall setAgent_core. wstep.
  wcall currentCallFrames_core. wstep. wcall currentAsyncStackTrace_core. by wstep.
Qed.

Lemma setBreakpointsActive_core v w b :
  Core v w -> v_enabled v = v_listener v -> wp (setBreakpointsActive b) (fun _ => Core v) w.
Proof.
  intros Hc He. apply checkEnabled_core; [done..|]. intros _. wstep. wcall setBreakpointsActivated_core. by wstep.
Qed.

Lemma goodBreakpoints_remove k o : goodBreakpoints o -> goodBreakpoints (remove k o).
Proof.
  induction 1 as [|[k' x] o Hx Ho IH]; cbn [remove]; [constructor|]. case_decide; [done|]. by constructor.
Qed.

Lemma removeBreakpoint_core v w i :
  Core v w -> v_enabled v = v_listener v -> wp (removeBreakpoint i) (fun _ => Core v) w.
Proof.
  intros Hc He. apply checkEnabled_core; [done..|]. intros Hl. wstep.
  eapply wp_mono; [by apply breakpointsCookie_core|]. intros o w1 [Hc1 Ho]. wstep.
  eapply wp_mono; [apply setStateValue_core; [done|done|]|].
  { intros _. eexists. split; [done|]. by apply goodBreakpoints_remove. }
  intros [] w2 Hc2. wstep. wcall removeBreakpointById_core. by wstep.
Qed.

(** A setting that is neither the enabled flag nor the breakpoints. *)
Lemma setSetting_core v w n x :
  Core v w -> n <> DebuggerAgentState.debuggerEnabled -> n <> DebuggerAgentState.javaScriptBreakpoints ->
  wp (setStateValue n x) (fun _ => Core v) w.
Proof. intros Hc H1 H2. by apply setStateValue_core. Qed.

Lemma setPauseOnExceptionsImpl_core v w n :
  Core v w -> v_listener v = true -> wp (setPauseOnExceptionsImpl n) (fun _ => Core v) w.
Proof.
  intros Hc Hl. unfold setPauseOnExceptionsImpl. wstep. wcall setPauseOnExceptionsState_core. wstep.
  wcall pauseOnExceptionsState_core. repeat wstep; [done|]. unfold setStateLong. wcall setSetting_core. by wstep.
Qed.

Lemma setPauseOnExceptions_core v w s :
  Core v w -> v_enabled v = v_listener v -> wp (setPauseOnExceptions s) (fun _ => Core v) w.
Proof.
  intros Hc He. apply checkEnabled_core; [done..|]. intros Hl. wstep; [|by wstep].
  by apply setPauseOnExceptionsImpl_core.
Qed.

Lemma setSkipAllPauses_core v w b : Core v w -> wp (setSkipAllPauses b) (fun _ => Core v) w.
Proof.
  intros Hc. unfold setSkipAllPauses, setStateBoolean. wstep. wcall setAgent_core. wstep. wcall setSetting_core. by wstep.
Qed.

Lemma skipStackFrames_core v w p b :
  Core v w -> v_enabled v = v_listener v -> wp (skipStackFrames p b) (fun _ => Core v) w.
Proof.
  intros Hc He. apply checkEnabled_core; [done..|]. intros _.
  unfold setStateString, setStateBoolean, increaseCachedSkipStackGeneration.
  cbv zeta. set (body := _ ≫= _). assert (wp body (fun _ => Core v) w) as Hb.
  { unfold body. wstep. wcall setSetting_core. wstep. wcall setAgent_core. wstep. wcall setAgent_core. wstep.
    wcall setAgent_core. wstep. wcall setSetting_core. by wstep. }
  clearbody body. repeat wstep; done.
Qed.

Lemma setAsyncCallStackDepth_core v w d :
  Core v w -> v_enabled v = v_listener v -> wp (setAsyncCallStackDepth d) (fun _ => Core v) w.
Proof.
  intros Hc He. apply checkEnabled_core; [done..|]. intros _. unfold setStateLong. wstep. wcall setSetting_core. wstep.
  wcall internalSetAsyncCallStackDepth_core. by wstep.
Qed.

Lemma enablePromiseTracker_core v w s :
  Core v w -> v_enabled v = v_listener v -> wp (enablePromiseTracker s) (fun _ => Core v) w.
Proof.
  intros Hc He. apply checkEnabled_core; [done..|]. intros _. unfold setStateBoolean. wstep. wcall setSetting_core.
  wstep. wcall setSetting_core. wstep. wcall setPromiseTracker_core. by wstep.
Qed.

Lemma disablePromiseTracker_core v w :
  Core v w -> v_enabled v = v_listener v -> wp disablePromiseTracker (fun _ => Core v) w.
Proof.
  intros Hc He. apply checkEnabled_core; [done..|]. intros _. unfold setStateBoolean. wstep. wcall setSetting_core.
  wstep. wcall setPromiseTracker_core. by wstep.
Qed.

Lemma getPromiseById_core v w i g :
  Core v w -> v_enabled v = v_listener v -> wp (getPromiseById i g) (fun _ => Core v) w.
Proof.
  intros Hc He. apply checkEnabled_core; [done..|]. intros _. repeat wstep; [done| |done].
  wcall injectedScriptFor_core. destruct_and!. wstep. wcall injWrapObject_core. by wstep.
Qed.

Lemma asyncBreakpoint_core v w i :
  Core v w ->
  wp (setAsyncOperationBreakpoint i) (fun _ => Core v) w /\ wp (removeAsyncOperationBreakpoint i) (fun _ => Core v) w.
Proof.
  intros Hc. unfold setAsyncOperationBreakpoint, removeAsyncOperationBreakpoint.
  split; repeat wstep; try done; by apply core_setAgent.
Qed.

(** ** Parsed scripts *)

Lemma resolveCookie_core v w i url kv :
  Core v w -> v_frontend v = true -> goodBreakpoint kv.2 -> wp (resolveCookie i url kv) (fun _ => Core v) w.
Proof.
  intros Hc Hf (o & b & Ho & Hb). unfold resolveCookie. rewrite Ho. cbn [asObject]. rewrite Hb.
  wstep; [by wstep|]. cbv zeta. wstep. wcall resolveBreakpoint_core. wstep; [by apply send_core|by wstep].
Qed.

Lemma didParseSource_core v w i s r : Core v w -> v_listener v = true -> wp (didParseSource i s r) (fun _ => Core v) w.
Proof.
  intros Hc Hl. assert (v_frontend v = true) as Hf by (destruct Hc as [_ _ _ _ Hf]; auto).
  unfold didParseSource. cbv zeta. wstep. wcall send_core. wstep. wcall setScript_core. wstep; [by wstep|]. wstep.
  eapply wp_mono; [by apply breakpointsCookie_core|]. intros o w1 [Hc1 Ho]. apply wp_forEach; [done|].
  intros kv w2 Hkv Hc2. apply resolveCookie_core; [done..|]. by eapply Forall_forall in Ho.
Qed.

Lemma reportCompiledScripts_core v w c :
  Core v w -> v_listener v = true -> wp (reportCompiledScripts c) (fun _ => Core v) w.
Proof.
  intros Hc Hl. unfold reportCompiledScripts. wstep. wcall script_core. do 2 wstep. apply wp_forEach; [done|].
  intros [i s] w1 _ Hc1. by apply didParseSource_core.
Qed.

(** ** Continuing and stepping *)

Definition continued (v : View) : View :=
  v <| v_quit := v_quit v || match v_vdPaused v with Some _ => true | None => false end |>
    <| v_vdPaused := None |> <| v_executionState := false |>.

Lemma continueProgram_core v w : Core v w -> wp Debugger.continueProgram (fun _ => Core (continued v)) w.
Proof.
  intros [Hv Ha Hc Hs Hf]. unfold Debugger.continueProgram, Debugger.clearPaused. do 3 wstep.
  destruct (Debugger.isPaused (vd w)) eqn:Ep; repeat wstep; try discriminate.
  all: constructor; try done; subst v; unfold view, continued; cbn; unfold Debugger.isPaused in Ep;
    destruct (vd_pausedScriptState (vd w)); try discriminate; rewrite ?orb_true_r, ?orb_false_r; done.
Qed.

Lemma settled_continued v : settled v -> evaluating (v_stack v) = false -> settled (continued v).
Proof.
  intros [Hp Hw Hi He Hk] Hev. constructor; try done; [|by eapply stackOK_quit].
  intros Hr [Hq Hn]%orb_false_elim. exfalso. destruct (Hw Hr Hq) as [Hx _].
  change (v_vdPaused v <> None) in Hx. by destruct (v_vdPaused v).
Qed.

(** A command that may end the pause. *)
Definition steps (v : View) (w : World E) : Prop := Core v w \/ Core (continued v) w.

Lemma callStep_core v w a :
  Core v w -> v_listener v = true -> v_executionState v = true -> wp (Debugger.callStep a) (fun _ => Core v) w.
Proof.
  intros Hc Hl Hx. unfold Debugger.callStep. wstep. wcall script_core. repeat wstep; [by apply core_engine|].
  destruct H0 as [Hv _ _ _ _]. subst v. cbn in Hx. congruence.
Qed.

(** What being paused gives to a command while the loop waits. *)
Definition waiting (v : View) : Prop := v_paused v <> None -> v_listener v = true /\ v_executionState v = true.

Lemma assertPaused_wp {A} v w (m : M (World E) (Reply A)) Q :
  Core v w -> v_paused v <> None -> wp m Q w -> wp (assertPaused m) Q w.
Proof. intros Hc Hp Hm. unfold assertPaused. do 3 wstep; [done|]. destruct Hc as [<-]. done. Qed.

(** The pause is over as far as the commands go: the loop is told to quit. *)
Definition ended (v : View) (r : Reply unit) (w : World E) : Prop := r = Answer tt /\ Core (continued v) w.

Lemma step_ended v w a :
  Core v w -> v_listener v = true -> v_executionState v = true ->
  wp (prepareStepFrom ;; (Debugger.callStep a ;; Debugger.continueProgram) ;; mret (Answer tt)) (ended v) w.
Proof.
  intros Hc Hl Hx. wstep. wcall prepareStepFrom_core. do 2 wstep. wcall callStep_core.
  wcall continueProgram_core. by wstep.
Qed.

Lemma resume_ended v w : Core v w -> v_paused v <> None -> wp resume (ended v) w.
Proof.
  intros Hc Hp. eapply assertPaused_wp; [done..|]. wstep. wcall setAgent_core. wstep.
  wcall releaseBacktrace_core. wstep. wcall continueProgram_core. by wstep.
Qed.

Lemma stepInto_ended v w : Core v w -> waiting v -> v_paused v <> None -> wp stepInto (ended v) w.
Proof.
  intros Hc Hw Hp. destruct (Hw Hp) as [Hl Hx]. eapply assertPaused_wp; [done..|]. wstep. wcall setAgent_core.
  by apply step_ended.
Qed.

Lemma stepOver_ended v w : Core v w -> waiting v -> v_paused v <> None -> wp stepOver (ended v) w.
Proof.
  intros Hc Hw Hp. destruct (Hw Hp) as [Hl Hx]. eapply assertPaused_wp; [done..|]. wstep. wcall callFrameNoScopes_core.
  set (b := match _ with Some _ => _ | None => _ end). clearbody b.
  wstep; [by apply stepInto_ended|]. wstep. wcall setAgent_core. by apply step_ended.
Qed.

Lemma stepOut_ended v w : Core v w -> waiting v -> v_paused v <> None -> wp stepOut (ended v) w.
Proof.
  intros Hc Hw Hp. destruct (Hw Hp) as [Hl Hx]. eapply assertPaused_wp; [done..|]. wstep. wcall setAgent_core.
  by apply step_ended.
Qed.

(** Without a pause such a command is refused. *)
Lemma assertPaused_steps {A} v w (m : M (World E) (Reply A)) :
  Core v w -> (v_paused v <> None -> wp (assertPaused m) (fun _ => steps v) w) ->
  wp (assertPaused m) (fun _ => steps v) w.
Proof.
  intros Hc Hm. destruct (v_paused v) eqn:Hp; [by apply Hm|]. unfold assertPaused. do 2 wstep.
  destruct Hc as [Hv]. rewrite <- Hv in Hp. cbn in Hp. rewrite Hp. wstep. by left.
Qed.

Lemma ended_steps v w (m : M (World E) (Reply unit)) : wp m (ended v) w -> wp m (fun _ => steps v) w.
Proof. intros Hm. eapply wp_mono; [exact Hm|]. intros r w1 [_ Hc]. by right. Qed.

Lemma resume_steps v w : Core v w -> wp resume (fun _ => steps v) w.
Proof. intros Hc. apply assertPaused_steps; [done|]. intros Hp. by apply ended_steps, resume_ended. Qed.
Lemma stepInto_steps v w : Core v w -> waiting v -> wp stepInto (fun _ => steps v) w.
Proof. intros Hc Hw. apply assertPaused_steps; [done|]. intros Hp. by apply ended_steps, stepInto_ended. Qed.
Lemma stepOver_steps v w : Core v w -> waiting v -> wp stepOver (fun _ => steps v) w.
Proof. intros Hc Hw. apply assertPaused_steps; [done|]. intros Hp. by apply ended_steps, stepOver_ended. Qed.
Lemma stepOut_steps v w : Core v w -> waiting v -> wp stepOut (fun _ => steps v) w.
Proof. intros Hc Hw. apply assertPaused_steps; [done|]. intros Hp. by apply ended_steps, stepOut_ended. Qed.

Lemma stepIntoAsync_steps v w : Core v w -> waiting v -> wp stepIntoAsync (fun _ => steps v) w.
Proof.
  intros Hc Hw. apply assertPaused_steps; [done|]. intros Hp. eapply assertPaused_wp; [done..|].
  do 3 wstep; [wstep; by left|]. wstep.
  wcall clearStepIntoAsync_core. wstep. wcall setAgent_core. by apply stepInto_steps.
Qed.

Lemma removeContinueToLocation_core v w :
  Core v w -> v_listener v = true -> wp removeContinueToLocation (fun _ => Core v) w.
Proof.
  intros Hc Hl. unfold removeContinueToLocation. do 3 wstep; [by wstep|]. wstep. wcall dbgRemoveBreakpoint_core.
  by apply setAgent_core.
Qed.

Lemma continueToLocation_steps v w l i :
  Core v w -> v_enabled v = v_listener v -> wp (continueToLocation l i) (fun _ => steps v) w.
Proof.
  intros Hc He. unfold continueToLocation, checkEnabled, enabled, getStateBoolean. do 3 wstep; [|wstep; by left].
  assert (v_listener v = true) as Hl by (rewrite <- He; by destruct Hc as [<-]). wstep.
  wcall removeContinueToLocation_core. wstep; [wstep; by left|]. destruct outputs as [[i' l'] c]. wstep.
  wcall dbgSetBreakpoint_core. wstep. wcall setAgent_core. by apply resume_steps.
Qed.

(** ** Pausing *)

Lemma skipRequest_core v w x l : Core v w -> v_listener v = true -> wp (skipRequest x l) (fun _ => Core v) w.
Proof.
  intros Hc Hl. unfold skipRequest. repeat wstep; try done.
  - by apply shouldSkipExceptionPause_core.
  - by apply shouldSkipStepPause_core.
Qed.

Lemma setBreakReason_core v w s x b : Core v w -> wp (setBreakReason s x b) (fun _ => Core v) w.
Proof.
  intros Hc. unfold setBreakReason. wstep.
  - wstep. wcall injectedScriptFor_core. destruct_and!. wstep; [by wstep|]. wstep. wcall setAgent_core. wstep.
    wcall injWrapObject_core. by apply setAgent_core.
  - repeat wstep; [by apply core_setAgent|done].
Qed.

Lemma hitBreakpointIds_core v w l : Core v w -> wp (hitBreakpointIds l) (fun _ => Core v) w.
Proof.
  revert w. induction l as [|x l IH]; intros w Hc; cbn [hitBreakpointIds]; [by wstep|].
  do 3 wstep; [|by apply IH]. destruct p as [i b]. wstep. eapply (wp_mono _ (fun _ => Core v)).
  { wstep; [by apply setAgent_core|done]. }
  intros [] w1 Hc1. wstep. wcall IH. by wstep.
Qed.

Lemma core_setPaused v f p w :
  Core v w -> m_pausedScriptState (f (agent w)) = p ->
  agentView ((f (agent w)) <| m_pausedScriptState := m_pausedScriptState (agent w) |>) = agentView (agent w) ->
  Core (v <| v_paused := p |>) (w <| agent := f (agent w) |>).
Proof.
  intros Hc <- Hv. pose proof (core_setAgent _ v (fun a => (f a) <| m_pausedScriptState := m_pausedScriptState a |>) w Hc Hv)
    as [Hv' Ha Hk Hs Hf]. constructor; [|done..]. rewrite <- Hv'. done.
Qed.

Lemma didPause_core v w s fr x l b :
  Core v w -> v_listener v = true ->
  wp (didPause s fr x l b)
    (fun r => match r with ScriptDebugListener.NoSkip => Core (v <| v_paused := Some s |>) | _ => Core v end) w.
Proof.
  intros Hc Hl. unfold didPause. wstep. wcall skipRequest_core. wstep. wcall setAgent_core.
  assert (v_frontend v = true) as Hf by (destruct Hc as [_ _ _ _ Hf]; auto).
  wstep; [|by wstep..]. wstep; [|by wstep]. wstep.
  eapply (wp_mono _ (fun _ => Core (v <| v_paused := Some s |>))); [wstep; by apply core_setPaused|].
  intros [] w2 Hc2. set (v' := v <| v_paused := Some s |>) in *.
  assert (v_listener v' = true /\ v_frontend v' = true) as [Hl' Hf'] by done. clearbody v'.
  wstep. wcall setBreakReason_core. wstep. wcall hitBreakpointIds_core. do 3 wstep.
  eapply (wp_mono _ (fun _ => Core v')); [wstep; [by wstep|by apply flushAsyncOperationEvents_core]|].
  intros [] w3 Hc3. wstep. wcall currentCallFrames_core. do 3 wstep. wcall currentAsyncStackTrace_core. wstep.
  wcall send_core. wstep. wcall setAgent_listening. wstep. wcall clearStepIntoAsync_core. wstep.
  wcall removeContinueToLocation_core. by wstep.
Qed.

Lemma didContinue_core v w :
  Core v w -> v_frontend v = true -> wp didContinue (fun _ => Core (v <| v_paused := None |>)) w.
Proof.
  intros Hc Hf. unfold didContinue. wstep.
  eapply (wp_mono _ (fun _ => Core (v <| v_paused := None |>))); [wstep; by apply core_setPaused|].
  intros [] w2 Hc2. wstep. wcall clearBreakDetails_core. by apply send_core.
Qed.

Lemma clearPaused_core v w :
  Core v w -> wp Debugger.clearPaused (fun _ => Core (v <| v_vdPaused := None |> <| v_executionState := false |>)) w.
Proof.
  intros [Hv Ha Hc Hs Hf]. unfold Debugger.clearPaused. wstep. constructor; [by rewrite <- Hv|done..].
Qed.

Lemma finishBreak_core v w r :
  Core v w -> v_listener v = true \/ skipAction r = None ->
  wp (finishBreak r) (fun _ => Core (v <| v_vdPaused := None |> <| v_executionState := false |>)) w.
Proof.
  intros Hc Hr. unfold finishBreak. wstep. wcall clearPaused_core. wstep; [|by wstep]. destruct Hr as [Hl|]; [|done].
  wstep. wcall script_core. wstep. by apply core_engine.
Qed.

Lemma inv_intro v w : Core v w -> settled v -> Inv w.
Proof. intros Hc Hs. destruct Hc as [Hv]. subst v. by split. Qed.

Lemma settled_keep v : settled v -> v_running v = false -> settled (v <| v_vdPaused := None |> <| v_executionState := false |>).
Proof. intros [Hp Hw Hi He] Hr. constructor; try done. intros Hr'. cbn in Hr'. congruence. Qed.

Lemma settled_broken v s :
  settled v -> v_listener v = true -> v_running v = false ->
  settled (v <| v_vdPaused := Some s |> <| v_executionState := true |> <| v_paused := Some s |> <| v_running := true |>
             <| v_quit := false |> <| v_stack := PauseMessageLoop :: v_stack v |>).
Proof. intros [Hp Hw Hi He Hk] Hl Hr. rewrite Hr in Hk. constructor; try done. by eapply stackOK_loop. Qed.

Lemma handleProgramBreak_inv v w s x l b :
  Core v w -> settled v -> wp (handleProgramBreak s x l b) (fun _ => Inv) w.
Proof.
  intros Hc Hs. unfold handleProgramBreak. do 4 wstep.
  destruct (m_runningNestedMessageLoop (vd w) || negb (m_listener (wtd w))) eqn:Eg; [wstep; by eapply inv_intro|].
  apply orb_false_elim in Eg as [Er El%negb_false_iff].
  assert (v_running v = false /\ v_listener v = true) as [Hr Hl] by (by destruct Hc as [<-]).
  wstep. set (v1 := v <| v_vdPaused := Some s |> <| v_executionState := true |>).
  eapply (wp_mono _ (fun _ => Core v1)).
  { wstep. destruct Hc as [Hv Ha Hk He Hf]. constructor; [by subst v1 v|done..]. }
  intros [] w1 Hc1. unfold Debugger.currentCallFrames. wstep. wcall currentCallFramesInner_core. wstep.
  wcall didPause_core. destruct a0.
  2-5: by wcall finishBreak_core; eapply inv_intro; [done|apply (settled_keep v)].
  wstep. eapply (wp_mono _ (fun _ => Core (v1 <| v_paused := Some s |> <| v_running := true |>))).
  { unfold setRunning. wstep. destruct H1 as [Hv Ha Hk He Hf]. constructor; [by rewrite <- Hv|done..]. }
  intros [] w3 [Hv Ha Hk He Hf]. unfold pushActivation. repeat wstep. eapply inv_intro; [|by apply (settled_broken v s)].
  assert (activations w3 = v_stack v) as Ek by exact (f_equal v_stack Hv).
  constructor; [|done..]. rewrite <- Ek. by subst v1; rewrite <- Hv.
Qed.

Lemma leaveProgramBreak_inv v w :
  Core v w -> settled v -> v_running v = true -> evaluating (v_stack v) = false -> wp leaveProgramBreak (fun _ => Inv) w.
Proof.
  intros Hc [Hp Hw Hi He Hk] Hr Hev. rewrite Hr in Hk. unfold leaveProgramBreak, popActivation. do 2 wstep.
  set (v1 := v <| v_stack := tl (v_stack v) |>).
  assert (Core v1 (w <| activations := tl (activations w) |>)) as Hc1.
  { destruct Hc as [Hv Ha Hc' Hs Hf Hj]. constructor; [by subst v1; rewrite <- Hv|done..]. }
  do 3 wstep. eapply (wp_mono _ (fun _ => Core (v1 <| v_paused := None |>))).
  { wstep; [apply didContinue_core; [done|]; destruct Hc as [<- _ _ _ Hf]; auto|].
    replace (v1 <| v_paused := None |>) with v1; [done|]. subst v1. destruct v as [p]. cbn in *. f_equal.
    destruct p; [|done]. destruct Hc as [[=] _ _ _ _]. destruct Hp as [Hp _]. destruct Hp as [_ Hp]; [done|]. congruence. }
  intros [] w1 Hc2. wstep. eapply (wp_mono _ (fun _ => Core (v1 <| v_paused := None |> <| v_running := false |>))).
  { unfold setRunning. wstep. destruct Hc2 as [Hv Ha Hc' Hs Hf]. constructor; [by rewrite <- Hv|done..]. }
  intros [] w2 Hc3. wcall finishBreak_core. eapply inv_intro; [done|].
  constructor; cbn; [|done..|by eapply stackOK_leave]. split; [done|]. by intros [].
Qed.

(** ** Breaking the program *)

(** The walk over the frames ends: looking at a frame does not run the program,
    and there is none from [length] on. *)
Lemma callFrameNoScopes_same v w n :
  Core v w -> v_listener v = true ->
  wp (Debugger.callFrameNoScopes n)
    (fun f w' => w' = w /\ (f <> None -> n < Z.of_nat (length (execFrames (engine w))))) w.
Proof.
  intros Hc Hl. unfold Debugger.callFrameNoScopes, Debugger.debuggerScriptLocal. repeat wstep; [done| |].
  - split; [done|]. unfold DebuggerScriptJS.currentCallFrameByIndex. zcases; intros ?; solve [done|lia].
  - destruct Hc as [_ _ _ Hs _]. unfold Debugger.enabled in Hs. destruct (m_debuggerScript (vd w)); congruence.
Qed.

Lemma isCallFrame_engine v w f :
  Core v w -> v_listener v = true ->
  wp (isCallFrameWithUnknownScriptOrBlackboxed f) (fun _ w' => Core v w' /\ engine w' = engine w) w.
Proof.
  intros Hc Hl. unfold isCallFrameWithUnknownScriptOrBlackboxed, setScript. repeat wstep; try done.
  split; [|done]. by apply core_listening.
Qed.

Lemma allBlackboxedFrom_core v w fuel n :
  Core v w -> v_listener v = true -> n <= Z.of_nat (length (execFrames (engine w))) < n + Z.of_nat fuel ->
  wp (allBlackboxedFrom fuel n) (fun _ => Core v) w.
Proof.
  revert w n. induction fuel as [|fuel IH]; intros w n Hc Hl Hn; cbn [allBlackboxedFrom]; [lia|].
  wstep. eapply wp_mono; [by eapply callFrameNoScopes_same|]. intros f w' [-> Hf]. wstep; [|by wstep]. wstep.
  eapply wp_mono; [by eapply isCallFrame_engine|]. intros b w1 [Hc1 He]. wstep; [|by wstep].
  apply IH; [done..|]. rewrite He. specialize (Hf ltac:(done)). lia.
Qed.

Lemma breakDebuggerProgram_inv v w : Core v w -> settled v -> wp breakDebuggerProgram (fun _ => Inv) w.
Proof.
  intros Hc Hs. unfold breakDebuggerProgram. do 3 wstep; [by eapply handleProgramBreak_inv|].
  unfold Debugger.canBreakProgram. repeat wstep; [by eapply handleProgramBreak_inv|by eapply inv_intro].
Qed.

Lemma breakProgram_inv v w r d :
  Core v w -> settled v -> v_listener v = true -> wp (breakProgram r d) (fun _ => Inv) w.
Proof.
  intros Hc Hs Hl. unfold breakProgram, isCallStackEmptyOrBlackboxed. do 3 wstep; [wstep; by eapply inv_intro|].
  do 3 wstep. wcall allBlackboxedFrom_core; [lia..|]. wstep; [wstep; by eapply inv_intro|]. wstep.
  wcall setAgent_core. wstep. wcall clearStepIntoAsync_core. by eapply breakDebuggerProgram_inv.
Qed.

(** ** Enabling and disabling *)

Lemma setEnabled_core v w b :
  Core v w -> wp (setStateBoolean DebuggerAgentState.debuggerEnabled b) (fun _ => Core (v <| v_enabled := b |>)) w.
Proof.
  intros [Hv Ha Hc Hs Hf Hi Hk]. unfold setStateBoolean, setStateValue. wstep.
  constructor; [|done| |done|done|done|by eapply statesOK_setProperty, Hk].
  - rewrite <- Hv. unfold view. rewrite stateProperties_set. cbn. unfold Properties.getBoolean.
    rewrite get_setValue, decide_True by done. done.
  - rewrite stateProperties_set. unfold cookieOK. rewrite get_setValue. done.
Qed.

Lemma enableAgent_core v w :
  Core v w -> v_listener v = false -> v_frontend v = true ->
  wp enableAgent (fun _ => Core (v <| v_listener := true |> <| v_enabled := true |>)) w.
Proof.
  intros Hc Hl Hf. unfold enableAgent, startListeningV8Debugger, Debugger.enable, Debugger.compileDebuggerScript.
  assert (Debugger.enabled (vd w) = false) as He by (destruct Hc as [_ _ _ Hs _]; congruence).
  do 4 wstep. rewrite He. do 2 wstep. rewrite debuggerScript_loads. wstep; [|done]. do 4 wstep.
  set (v1 := v <| v_listener := true |>). eapply (wp_mono _ (fun _ => Core v1)).
  { unfold setListener. wstep. destruct Hc as [Hv [_ Ha] Hc Hs _]. constructor; [by subst v1 v|done..]. }
  intros [] w1 Hc1. wcall reportCompiledScripts_core. wstep. wcall setBreakpointsActivated_core.
  by apply (setEnabled_core v1).
Qed.

Lemma enable_inv v w :
  Core v w -> settled v -> v_frontend v = true ->
  v_running v && v_quit v = false -> wp enable (fun _ => Inv) w.
Proof.
  intros Hc Hs Hf Hq. unfold enable, enabled, getStateBoolean. do 3 wstep.
  assert (v_enabled v = Properties.getBoolean DebuggerAgentState.debuggerEnabled (stateProperties w)) as <- by (by destruct Hc as [<-]).
  destruct Hs as [Hp Hw Hi He Hk]. wstep; [|wstep; by eapply inv_intro].
  assert (v_listener v = false) as Hl by (by rewrite <- He; apply negb_true_iff). wcall enableAgent_core. wstep.
  eapply inv_intro; [done|]. destruct (v_running v) eqn:Er.
  - cbn in Hq. destruct (Hw eq_refl Hq) as (_ & _ & ?). congruence.
  - constructor; cbn; rewrite ?Er; [|done..]. rewrite Hp. naive_solver.
Qed.

(** When the agent stops listening, the debugger script goes before the agent's
    scripts do. *)
Lemma clear_core v w :
  CoreAt (fun _ _ _ => True) v w -> v_listener v = false -> wp clear (fun _ => Core (v <| v_paused := None |>)) w.
Proof.
  intros Hc Hl. unfold clear. wstep. set (J := (fun scripts breakpoints _ => scripts = ∅ /\ breakpoints = ∅) : Idleness).
  eapply (wp_mono _ (fun _ => CoreAt J (v <| v_paused := None |>))).
  { wstep. destruct Hc as [Hv [_ Ha] Hc Hs Hf]. constructor; [by rewrite <- Hv|done..]. }
  intros [] w1 Hc1. wstep. wcall internalSetAsyncCallStackDepth_core. wstep. wcall clearPromises_core. wstep. wcall setAgent_core. wstep.
  wcall clearBreakDetails_core. wstep. eapply (wp_mono _ (fun _ => Core (v <| v_paused := None |>))).
  { wstep. match goal with Hx : CoreAt J _ ?w1 |- context [?w1] => destruct Hx as [Hv [[? ?] Ha] Hk Hs Hf] end.
    constructor; [by rewrite <- Hv| |done..]. split; [done|].
    by intros id ?%elem_of_nil. }
  intros [] w2 Hc2. by apply clearStepIntoAsync_core.
Qed.

Lemma stopListening_core v w :
  Core v w -> v_listener v = true ->
  wp stopListeningV8Debugger (fun _ => CoreAt (fun _ _ _ => True) ((continued v) <| v_listener := false |>)) w.
Proof.
  intros Hc Hl. unfold stopListeningV8Debugger. wstep. wcall continueProgram_core. wstep. unfold setListener. wstep.
  unfold Debugger.disable, Debugger.clearBreakpoints, Debugger.debuggerScriptLocal.
  destruct H0 as [Hv [_ Ha] Hc0 Hs Hf]. change (v_listener (continued v)) with (v_listener v) in *.
  do 5 wstep.
  - repeat wstep. constructor; [|done..]. rewrite <- Hv. done.
  - unfold Debugger.enabled in Hs. cbn in Heqo. rewrite Heqo in Hs. congruence.
Qed.

Lemma disableAgent_core v w :
  Core v w -> v_listener v = true ->
  wp disableAgent (fun _ => Core ((continued v) <| v_listener := false |> <| v_paused := None |>)) w.
Proof.
  intros Hc Hl. unfold disableAgent, setStateObject, setStateLong, setStateString, setStateBoolean. wstep.
  eapply wp_mono; [apply setStateValue_core; [done..|]; intros _; eexists; split; [done|constructor]|].
  intros [] w1 Hc1. do 5 (wstep; wcall setSetting_core). wstep. wcall stopListening_core. wstep. wcall clear_core.
  by apply setAgent_core.
Qed.

Lemma disable_inv v w :
  Core v w -> settled v -> evaluating (v_stack v) = false -> wp disable (fun _ w' => Inv w' /\ m_listener (wtd w') = false) w.
Proof.
  intros Hc Hs Hev. unfold disable, enabled, getStateBoolean. do 3 wstep.
  assert (v_enabled v = Properties.getBoolean DebuggerAgentState.debuggerEnabled (stateProperties w)) as <- by (by destruct Hc as [<-]).
  destruct (settled_continued v Hs Hev) as [Hp Hw Hi He Hk]. wstep.
  2:{ wstep. split; [by eapply inv_intro|]. rewrite (core_listener v) by done. by rewrite <- (settled_enabled v Hs). }
  wstep.
  assert (v_listener v = true) as Hl by (by rewrite <- (settled_enabled v Hs)).
  wcall disableAgent_core. eapply wp_mono; [by apply setEnabled_core|]. intros [] w1 Hc1. wstep.
  split; [|by rewrite (core_listener _ _ Hc1)]. eapply inv_intro; [done|]. constructor; [naive_solver| |done..].
  intros Hr Hq. exfalso. destruct (Hw Hr Hq) as [[] _]. done.
Qed.

(** ** Connecting *)

Lemma core_frontend_set v w b :
  Core v w -> (v_listener v = true -> b = true) ->
  Core (v <| v_frontend := b |>) (w <| agent := (agent w) <| m_frontend := b |> |>).
Proof. intros [Hv Ha Hc Hs Hf] Hb. constructor; [by rewrite <- Hv|done..]. Qed.

Lemma setChannel_core v w b : Core v w -> wp (setChannel b) (fun _ => Core v) w.
Proof. intros []. unfold setChannel. wstep. done. Qed.

Lemma setMuted_core v w b : Core v w -> wp (setComposite (withMuted b)) (fun _ => Core v) w.
Proof.
  intros [Hv Ha Hc Hs Hf Hi Hk]. unfold setComposite. wstep. constructor; [done..|].
  apply statesOK_composite; [done| |done]. by eapply coherent_same; [apply Hk|..].
Qed.

Lemma connectFrontend_core v w b : Core v w -> wp (connectFrontend b) (fun _ => Core (v <| v_frontend := true |>)) w.
Proof.
  intros Hc. unfold connectFrontend, setFrontend, unmute. wstep. wcall setMuted_core. wstep. wcall setChannel_core.
  wstep. by apply core_frontend_set.
Qed.

Lemma settled_frontend v b : settled v -> settled (v <| v_frontend := b |>).
Proof. by intros []. Qed.

(** The runtime agent's state is not the debugger agent's. *)
Lemma setRuntimeEnabled_core v w b : Core v w -> wp (Runtime.setRuntimeEnabled b) (fun _ => Core v) w.
Proof.
  intros [Hv Ha Hc Hs Hf Hi Hk]. unfold Runtime.setRuntimeEnabled. wstep.
  assert (stateProperties (w <| composite := setProperty (rt_state (runtime w)) Runtime.runtimeEnabled (JSONBoolean b) (composite w) |>)
          = stateProperties w) as Es.
  { destruct Hk as ([Hst _ Hsh] & Hr%Hsh & Hd%Hsh). unfold stateProperties, properties, setProperty. cbn.
    rewrite (proj1 (proj2 (proj2 (updated_fields _)))). cbn. rewrite lookup_insert_ne; [done|].
    intros En. rewrite En in Hr. by pose proof (shared_inj _ Hst _ _ _ Hr Hd). }
  constructor; [|done|by rewrite Es|done|done|done|by eapply statesOK_setProperty, Hk].
  rewrite <- Hv. unfold view. by rewrite Es.
Qed.

Lemma setRuntime_core v w f :
  Core v w -> rt_state (f (runtime w)) = rt_state (runtime w) -> wp (Runtime.setRuntime f) (fun _ => Core v) w.
Proof.
  intros [Hv Ha Hc Hs Hf Hi Hk] Er. unfold Runtime.setRuntime. wstep. constructor; [done..|]. unfold statesOK in *. cbn. by rewrite Er.
Qed.

Lemma runtimeEnable_core v w : Core v w -> v_frontend v = true -> wp Runtime.enable (fun _ => Core v) w.
Proof.
  intros Hc Hf. unfold Runtime.enable, Runtime.addExecutionContextToFrontend. do 3 wstep; [by wstep|]. wstep.
  wcall setRuntime_core. wstep. wcall setRuntimeEnabled_core. do 3 wstep. wcall injectedScriptIdFor_core. wstep.
  wcall setRuntime_core. by apply send_core.
Qed.

Lemma runtimeDisable_core v w : Core v w -> wp Runtime.disable (fun _ => Core v) w.
Proof.
  intros Hc. unfold Runtime.disable. do 3 wstep; [by wstep|]. wstep. wcall setRuntime_core. by apply setRuntimeEnabled_core.
Qed.

Lemma runtimeRestore_core v w : Core v w -> v_frontend v = true -> wp Runtime.restore (fun _ => Core v) w.
Proof.
  intros Hc Hf. unfold Runtime.restore. do 3 wstep; [|done]. wstep. wcall setRuntime_core. wstep. wcall send_core.
  by apply runtimeEnable_core.
Qed.

Lemma disconnectFrontend_inv v w :
  Core v w -> settled v -> evaluating (v_stack v) = false -> wp disconnectFrontend (fun _ => Inv) w.
Proof.
  intros Hc Hs Hev. unfold disconnectFrontend, clearFrontend, mute. do 3 wstep; [wstep; by eapply inv_intro|]. wstep.
  wcall setMuted_core. do 2 wstep. wcall runtimeDisable_core. wstep. eapply wp_mono; [by eapply disable_inv|]. intros _ w1 [[Hc1 Hs1] Hl].
  eapply (wp_mono _ (fun _ => Core ((view w1) <| v_frontend := false |>))); [|intros [] w2 Hc2].
  - wstep. apply core_frontend_set; [done|]. cbn. congruence.
  - wcall setChannel_core. eapply inv_intro; [done|]. by apply settled_frontend.
Qed.

Lemma wellFormed_cookieOK p : wellFormedBreakpoints p = true -> cookieOK p.
Proof.
  unfold wellFormedBreakpoints, cookieOK. destruct (get _ p) as [[]|]; try done. intros Hw. eexists. split; [done|].
  apply Forall_forall. intros kv Hkv. rewrite forallb_forall in Hw. specialize (Hw kv ltac:(by apply list_elem_of_In)).
  unfold wellFormedBreakpoint, goodBreakpoint in *. destruct kv.2; try done. destruct (getBoolean _ _) eqn:?; [|done]. eauto.
Qed.

Lemma agentState_elem k m a : agentState k m = Some a -> (k, a) ∈ m.
Proof.
  induction m as [|[k' a'] m IH]; cbn; [done|]. destruct (decide (k' = k)) as [->|]; [intros [= ->]; apply list_elem_of_here|].
  intros Ha. by apply list_elem_of_further, IH.
Qed.

Lemma agentState_some k m : k ∈ m.*1 -> is_Some (agentState k m).
Proof.
  induction m as [|[k' a'] m IH]; cbn; [by intros ?%elem_of_nil|]. destruct (decide (k' = k)); [eauto|].
  rewrite elem_of_cons. intros [|]; [congruence|auto].
Qed.

Lemma loadState_core v w cookie c p :
  Core v w -> restoredProperties cookie c = Some p -> composite w = unmute c -> wellFormedBreakpoints p = true ->
  wp (loadState cookie)
    (fun _ => Core (v <| v_enabled := Properties.getBoolean DebuggerAgentState.debuggerEnabled p |>)) w.
Proof.
  intros [Hv Ha Hc Hs Hf Hi (Hk & Hr0 & _)] Hr Hu Hw%wellFormed_cookieOK. unfold loadState, setComposite, Runtime.setRuntime.
  unfold restoredProperties in Hr. rewrite <- Hu in Hr. cbv zeta in Hr.
  destruct (loadFromCookie_spec cookie _ Hk) as (Hk' & Em & _).
  destruct (agentState_some (u "Runtime") (m_inspectorStateMap (loadFromCookie cookie (composite w)))) as [ar Er].
  { rewrite Em. by apply (list_elem_of_fmap_2 fst) in Hr0. }
  do 4 wstep.
  match goal with |- context [agentState (u "Runtime") ?m] => change m with (m_inspectorStateMap (loadFromCookie cookie (composite w))) end.
  rewrite Er. do 2 wstep.
  destruct (agentState (u "Debugger") (m_inspectorStateMap (loadFromCookie cookie (composite w)))) as [a|] eqn:Ed; [|done].
  injection Hr as Hr. wstep. constructor; [|done| |done|done|done|].
  - rewrite <- Hv. unfold view, stateProperties. cbn. by rewrite Hr.
  - unfold stateProperties. cbn. by rewrite Hr.
  - split; [done|]. cbn. split; by apply agentState_elem.
Qed.

Lemma restore_inv v w :
  Core v w -> settled (v <| v_enabled := false |>) ->
  v_running v = false -> v_frontend v = true -> wp restore (fun _ => Inv) w.
Proof.
  intros Hc [Hp Hw Hi He Hk] Hr Hf. cbn in He. unfold restore, enabled, getStateBoolean. do 2 wstep.
  assert (v_enabled v = Properties.getBoolean DebuggerAgentState.debuggerEnabled (stateProperties w)) as Hen by (by destruct Hc as [<-]).
  wstep; [|eapply inv_intro; [done|]; constructor; [done..|congruence|done]].
  set (v1 := v <| v_listener := true |> <| v_enabled := true |>). wstep. wcall send_core. wstep.
  eapply wp_mono; [by eapply enableAgent_core|]. intros [] w1 Hc1. change (Core v1 w1) in Hc1. assert (v_listener v1 = true) as Hl1 by done. assert (settled v1) as Hs1.
  { constructor; cbn in *; [rewrite Hp, Hr; naive_solver|congruence|done..]. }
  clearbody v1. unfold getStateLong, getStateString. do 3 wstep. wcall setPauseOnExceptionsImpl_core. do 3 wstep.
  wcall setAgent_core. unfold increaseCachedSkipStackGeneration. wstep. wcall setAgent_core. do 5 wstep.
  wcall setAgent_core. do 3 wstep. wcall internalSetAsyncCallStackDepth_core. do 4 wstep. wcall setPromiseTracker_core.
  by eapply inv_intro.
Qed.

Lemma restoreInspectorState_inv v w cookie p :
  Core v w -> settled v -> v_running v = false -> v_frontend v = false ->
  restoredProperties cookie (composite w) = Some p -> wellFormedBreakpoints p = true ->
  wp (restoreInspectorStateFromCookie cookie) (fun _ => Inv) w.
Proof.
  intros Hc Hs Hr Hf Hp Hw. unfold restoreInspectorStateFromCookie. wstep.
  eapply (wp_mono _ (fun _ w' => Core (v <| v_frontend := true |>) w' /\ composite w' = unmute (composite w))).
  { unfold connectFrontend, setComposite, setChannel, setFrontend. repeat wstep. split; [|done].
    apply core_frontend_set; [|done]. destruct Hc as [Hv Ha Hc' Hs' Hf' Hi' Hk']. constructor; [done..|].
    apply statesOK_composite; [done| |done]. by eapply coherent_same; [apply Hk'|..]. }
  intros [] w1 [Hc1 Hp1]. wstep. eapply wp_mono; [by eapply loadState_core|]. intros [] w2 Hc2.
  wstep. wcall runtimeRestore_core. eapply restore_inv; [done| |done|done].
  destruct Hs as [H1 H2 H3 H4 H5]. constructor; [done..| |done]. cbn. destruct Hc as [_ _ _ _ Hl].
  destruct (v_listener v); [|done]. rewrite Hl in Hf by done. done.
Qed.

Lemma handleV8AsyncTaskEvent_inv v w s t n i :
  Core v w -> settled v -> v_listener v = true -> v_running v = false -> roomy w ->
  wp (handleV8AsyncTaskEvent s t n i) (fun _ => Inv) w.
Proof.
  intros Hc Hs Hl Hr Hroom. unfold handleV8AsyncTaskEvent. do 2 wstep.
  set (v1 := v <| v_vdPaused := Some s |> <| v_executionState := true |>).
  match goal with |- wp _ _ ?w1 => assert (Core v1 w1 /\ roomy w1) as [Hc1 Hroom1] end.
  { split; [|done]. destruct Hc as [Hv Ha Hk He Hf]. constructor; [by subst v1; rewrite <- Hv|done..]. }
  generalize dependent (w <| vd := (vd w) <| vd_pausedScriptState := Some s |> <| m_executionState := true |> |>).
  intros w1 Hc1 Hroom1. wstep. wcall didReceiveV8AsyncTaskEvent_core.
  wcall clearPaused_core. eapply inv_intro; [done|by apply (settled_keep v)].
Qed.

Lemma handleV8PromiseEvent_inv v w s p q n :
  Core v w -> settled v -> v_listener v = true -> v_running v = false ->
  wp (handleV8PromiseEvent s p q n) (fun _ => Inv) w.
Proof.
  intros Hc Hs Hl Hr. unfold handleV8PromiseEvent. wstep. wcall script_core. wstep.
  set (v1 := v <| v_vdPaused := Some s |> <| v_executionState := true |>). eapply (wp_mono _ (fun _ => Core v1)).
  { wstep. match goal with Hx : Core v ?w1 |- context [?w1] => destruct Hx as [Hv Ha Hk He Hf] end.
    constructor; [by subst v1; rewrite <- Hv|done..]. }
  intros [] w2 Hc2. wstep. wcall didReceiveV8PromiseEvent_core.
  wcall clearPaused_core. eapply inv_intro; [done|by apply (settled_keep v)].
Qed.

End Commands.
