(* ===== verification/EvaluationSafety.v ===== *)
(** * Evaluation keeps the invariant

    The methods of [Evaluation] and [RuntimeAgent] keep the invariant of
    [PauseInvariant], up to the calls that wait. *)

From S2P Require Import Prelude Platform WTFString DecimalNumber JSONValues JSONParser StringSearch ContentSearch InspectorState Dispatcher InspectorStateFacts Engine NativeObjects World DebuggerOps InjectedScripts AgentState Breakpoints AsyncCalls Promises Pausing Evaluation RuntimeAgent PauseLoop Machine PauseInvariant PauseSafety.

Section Evaluation.
Context {P : Platform} {R : RegExpEngine} {E : Type} `{V8Engine E} {L : ScriptsLoad E}.
Implicit Types w : World E.

(** ** Methods that ask the injected script *)

Lemma withScript_core {A} v w id error (m : InjectedScript -> M (World E) (Reply A)) :
  Core v w -> (forall s, is_empty s = false -> wp (m s) (fun _ => Core v) w) ->
  wp (withScript id error m) (fun _ => Core v) w.
Proof.
  intros Hc Hm. unfold withScript, Injected.injectedScriptForObjectId. do 4 wstep.
  destruct (present _) as [s|] eqn:Es; [|by wstep]. apply Hm. unfold present in Es.
  apply bind_Some in Es as (s' & _ & Hs). destruct (is_empty s') eqn:Ee; [done|]. by injection Hs as <-.
Qed.

Lemma withCallStack_core {A} v w (m : CallFrames -> M (World E) (Reply A)) :
  Core v w -> (v_vdPaused v <> None -> forall frames, wp (m frames) (fun _ => Core v) w) ->
  wp (withCallStack m) (fun _ => Core v) w.
Proof.
  intros Hc Hm. unfold withCallStack, isPaused. do 5 wstep; [|by wstep]. apply Hm.
  destruct Hc as [<-]. cbn. unfold Debugger.isPaused in *. by destruct (vd_pausedScriptState (vd w)).
Qed.

Lemma makeCall_ret_core {A} v w s c (f : JSONValue -> A) :
  Core v w -> wp (r ← Injected.makeCall s c; mret (f r)) (fun _ => Core v) w.
Proof. intros Hc. wstep. wcall makeCall_core. by wstep. Qed.

Lemma getStepInPositions_core v w i : Core v w -> wp (getStepInPositions i) (fun _ => Core v) w.
Proof. intros Hc. apply withCallStack_core; [done|]. intros _ fr. apply withScript_core; [done|]. intros s _. by apply makeCall_ret_core. Qed.

Lemma details_core v w i :
  Core v w -> v_enabled v = v_listener v ->
  wp (getFunctionDetails i) (fun _ => Core v) w /\ wp (getGeneratorObjectDetails i) (fun _ => Core v) w /\
  wp (getCollectionEntries i) (fun _ => Core v) w.
Proof.
  intros Hc He. repeat split; (apply checkEnabled_core; [done..|]); intros _; (apply withScript_core; [done|]); intros s _;
    by apply makeCall_ret_core.
Qed.

Lemma setVariableValue_core v w n x o i j :
  Core v w -> v_enabled v = v_listener v -> wp (setVariableValue n x o i j) (fun _ => Core v) w.
Proof.
  intros Hc He. apply checkEnabled_core; [done..|]. intros _. destruct i as [i|]; [|destruct j as [j|]; [|by wstep]].
  - apply withCallStack_core; [done|]. intros _ fr. apply withScript_core; [done|]. intros s _. by apply makeCall_ret_core.
  - apply withScript_core; [done|]. intros s _. by apply makeCall_ret_core.
Qed.

(** ** Changing the program *)

Lemma newStacks_core v w : Core v w -> wp newStacks (fun _ => Core v) w.
Proof. intros Hc. unfold newStacks. wstep. wcall currentCallFrames_core. wstep. wcall currentAsyncStackTrace_core. by wstep. Qed.

Lemma refreshCallStack_core v w : Core v w -> v_listener v = true -> wp refreshCallStack (fun _ => Core v) w.
Proof.
  intros Hc Hl. unfold refreshCallStack, Debugger.currentCallFrames. wstep. wcall currentCallFramesInner_core.
  by apply setAgent_core.
Qed.

Lemma restartFrame_core v w i :
  Core v w -> (v_vdPaused v <> None -> v_listener v = true) -> wp (restartFrame i) (fun _ => Core v) w.
Proof.
  intros Hc Hp. apply withCallStack_core; [done|]. intros Hv fr. apply withScript_core; [done|]. intros s _. wstep.
  wcall makeCall_core. wstep. wcall refreshCallStack_core. wstep. wcall newStacks_core.
  destruct a1 as [frames trace]. by wstep.
Qed.

Lemma debuggerSetScriptSource_core v w i c p :
  Core v w -> v_listener v = true -> wp (debuggerSetScriptSource i c p) (fun _ => Core v) w.
Proof.
  intros Hc Hl. unfold debuggerSetScriptSource. wstep. wcall script_core. do 2 wstep.
  match goal with |- wp _ _ ?w1 => assert (Core v w1) as Hc1 by (by apply core_engine) end.
  wstep; [|by wstep..]. do 3 wstep. eapply (wp_mono _ (fun _ => Core v)); [|intros [] w3 Hc3; by wstep].
  wstep; [by apply refreshCallStack_core|done].
Qed.

Lemma setScriptSource_core v w i c p :
  Core v w -> v_enabled v = v_listener v -> wp (setScriptSource i c p) (fun _ => Core v) w.
Proof.
  intros Hc He. unfold setScriptSource, enabled, getStateBoolean. do 3 wstep; [by wstep|].
  assert (v_listener v = true) as Hl by (rewrite <- He; destruct Hc as [<-]; by apply negb_false_iff).
  wstep. wcall debuggerSetScriptSource_core. wstep; [|wstep; by wstep]. wstep. wcall newStacks_core.
  destruct a0 as [frames trace]. do 3 wstep. eapply (wp_mono _ (fun _ => Core v)); [|intros [] w3 Hc3; by wstep].
  destruct (_ ≫= m_url) as [[|x url]|]; [by wstep|by apply setAgent_core|by wstep].
Qed.

(** ** Methods that run JavaScript *)

(** The method has returned, or its call is on the stack. *)
Definition begun {A} (v : View) (r : Progress A) (w : World E) : Prop :=
  match r with
  | Returned _ => Core v w
  | Waiting => exists a, Core (v <| v_stack := a :: v_stack v |>) w /\ isLoop a = false /\ activationOK a /\
                 (onFrame a = true -> v_vdPaused v <> None)
  end.

Lemma pushActivation_core v w a :
  Core v w -> wp (pushActivation a) (fun _ => Core (v <| v_stack := a :: v_stack v |>)) w.
Proof. intros [<- Ha Hc Hs Hf Hi Hk]. unfold pushActivation. wstep. constructor; done. Qed.

Lemma push_begun {A} v w a :
  Core v w -> isLoop a = false -> activationOK a -> (onFrame a = true -> v_vdPaused v <> None) ->
  wp (pushActivation a ;; mret (Waiting : Progress A)) (begun v) w.
Proof. intros Hc Hl Ha Hf. wstep. wcall pushActivation_core. wstep. exists a. done. Qed.

Lemma injectedScriptForId_core v w i : Core v w -> wp (Injected.injectedScriptForId i) (fun _ => Core v) w.
Proof.
  intros Hc. unfold Injected.injectedScriptForId. do 3 wstep; [by wstep|]. wstep; [|by wstep]. destruct p as [s j].
  wstep. wcall injectedScriptFor_core. destruct_and!. by wstep.
Qed.

Lemma injectedScriptForEval_core v w i : Core v w -> wp (injectedScriptForEval i) (fun _ => Core v) w.
Proof.
  intros Hc. unfold injectedScriptForEval. wstep; [by apply injectedScriptForId_core|]. do 3 wstep.
  wcall injectedScriptFor_core. destruct_and!. by wstep.
Qed.

Lemma present_nonempty x s : present x = Some s -> is_empty s = false.
Proof. unfold present. intros (s' & _ & Hs)%bind_Some. destruct (is_empty s') eqn:Ee; [done|]. by injection Hs as <-. Qed.

Lemma mutePauses_core v w b : Core v w -> v_listener v = true -> wp (mutePauses b) (fun _ => Core v) w.
Proof.
  intros Hc Hl. unfold mutePauses. wstep. wcall pauseOnExceptionsState_core. wstep.
  eapply (wp_mono _ (fun _ => Core v)); [|intros [] w1 Hc1; by wstep].
  wstep; [by apply setPauseOnExceptionsState_core|done].
Qed.

Lemma unmutePauses_core v w n b : Core v w -> (b = true -> v_listener v = true) -> wp (unmutePauses n b) (fun _ => Core v) w.
Proof.
  intros Hc Hl. unfold unmutePauses. wstep; [|done]. wstep. wcall pauseOnExceptionsState_core.
  wstep; [apply setPauseOnExceptionsState_core; auto|done].
Qed.

Lemma evaluateOnCallFrame_begun v w i e g b1 b2 b3 b4 :
  Core v w -> (v_vdPaused v <> None -> v_listener v = true) ->
  wp (evaluateOnCallFrame i e g b1 b2 b3 b4) (begun v) w.
Proof.
  intros Hc Hp. unfold evaluateOnCallFrame, isPaused, Injected.injectedScriptForObjectId. do 4 wstep.
  destruct (Debugger.isPaused (vd w)) eqn:Ep; [|by wstep].
  assert (v_vdPaused v <> None) as Hv by (destruct Hc as [<-]; cbn; unfold Debugger.isPaused in Ep; by destruct (vd_pausedScriptState (vd w))).
  wstep; [|by wstep]. do 4 wstep. wstep; [|by wstep]. cbv zeta. wstep. wcall mutePauses_core. by apply push_begun.
Qed.

Lemma compileScript_begun v w e s b i : Core v w -> wp (compileScript e s b i) (begun v) w.
Proof.
  intros Hc. unfold compileScript, enabled, getStateBoolean. do 3 wstep; [by wstep|]. wstep. wcall injectedScriptForEval_core.
  do 3 wstep; [|by wstep]. wstep; [|by wstep]. by apply push_begun.
Qed.

Lemma runScript_begun v w i c g b :
  Core v w -> v_enabled v = v_listener v -> wp (runScript i c g b) (begun v) w.
Proof.
  intros Hc He. unfold runScript, enabled, getStateBoolean. do 3 wstep; [by wstep|].
  assert (v_listener v = true) as Hl by (rewrite <- He; destruct Hc as [<-]; by apply negb_false_iff).
  wstep. wcall injectedScriptForEval_core. wstep; [|by wstep]. cbv zeta. wstep. wcall mutePauses_core. do 3 wstep; [|by wstep].
  wstep. wcall setAgent_core. do 3 wstep; [|by wstep]. apply push_begun; [done..| |done]. by eapply present_nonempty.
Qed.

(** The runtime agent looks whether the debugger is enabled. *)
Lemma scopePauseState_core v w n : Core v w -> wp (Runtime.setPauseOnExceptionsState n) (fun _ => Core v) w.
Proof.
  intros Hc. unfold Runtime.setPauseOnExceptionsState. do 3 wstep; [by wstep|].
  assert (v_listener v = true) as Hl by (destruct Hc as [_ _ _ Hs _]; rewrite <- Hs; by apply negb_false_iff).
  wstep. wcall pauseOnExceptionsState_core. wstep. eapply (wp_mono _ (fun _ => Core v)); [|intros [] w1 Hc1; by wstep].
  wstep; [by apply setPauseOnExceptionsState_core|done].
Qed.

Lemma enterCallScope_core v w b : Core v w -> wp (Runtime.enterCallScope b) (fun _ => Core v) w.
Proof. intros Hc. unfold Runtime.enterCallScope. wstep; [by apply scopePauseState_core|by wstep]. Qed.

Lemma leaveCallScope_core v w n b : Core v w -> wp (Runtime.leaveCallScope n b) (fun _ => Core v) w.
Proof. intros Hc. unfold Runtime.leaveCallScope. wstep; [|done]. wstep. wcall scopePauseState_core. by wstep. Qed.

Lemma evaluate_begun v w e g b1 b2 i b3 b4 : Core v w -> wp (Runtime.evaluate e g b1 b2 i b3 b4) (begun v) w.
Proof.
  intros Hc. unfold Runtime.evaluate. wstep. wcall injectedScriptForEval_core. wstep; [|wstep; by wstep].
  cbv zeta. wstep. wcall enterCallScope_core. by apply push_begun.
Qed.

Lemma callFunctionOn_begun v w i e a b1 b2 b3 : Core v w -> wp (Runtime.callFunctionOn i e a b1 b2 b3) (begun v) w.
Proof.
  intros Hc. unfold Runtime.callFunctionOn, Injected.injectedScriptForObjectId. do 4 wstep. wstep; [|by wstep].
  cbv zeta. wstep. wcall enterCallScope_core. by apply push_begun.
Qed.

(** ** Objects *)

Lemma makeCallWithDetails_core v w s c : Core v w -> wp (Runtime.makeCallWithExceptionDetails s c) (fun _ => Core v) w.
Proof. intros Hc. unfold Runtime.makeCallWithExceptionDetails. wstep. wcall callInjected_core. by wstep. Qed.

Lemma getInternalProperties_core v w s i l : Core v w -> wp (Runtime.getInternalProperties s i l) (fun _ => Core v) w.
Proof. intros Hc. unfold Runtime.getInternalProperties. wstep. wcall makeCallWithDetails_core. by wstep. Qed.

Lemma getProperties_core v w i b1 b2 b3 : Core v w -> wp (Runtime.getProperties i b1 b2 b3) (fun _ => Core v) w.
Proof.
  intros Hc. apply withScript_core; [done|]. intros s _. wstep. wcall enterCallScope_core. cbv zeta. wstep.
  wcall makeCallWithDetails_core. wstep. eapply (wp_mono _ (fun _ => Core v)).
  - destruct a0 as [[]|d]; try by wstep.
    all: try (wstep; eapply (wp_mono _ (fun _ => Core v)); [|intros [] w3 Hc3; by wstep];
              wstep; [|done]; wstep; wcall getInternalProperties_core; by wstep).
    wstep; [by wstep|by apply getInternalProperties_core].
  - intros r w3 Hc3. wstep. wcall leaveCallScope_core. by wstep.
Qed.

Lemma withoutPause_core v w (m : M (World E) unit) :
  Core v w -> (forall w', Core v w' -> wp m (fun _ => Core v) w') -> wp (Runtime.withoutPause m) (fun _ => Core v) w.
Proof.
  intros Hc Hm. unfold Runtime.withoutPause, Debugger.pausingOnNextStatement. do 3 wstep.
  eapply (wp_mono _ (fun _ => Core v)); [wstep; [by apply setPauseOnNextStatement_core|done]|].
  intros [] w1 Hc1. wstep. eapply wp_mono; [by apply Hm|]. cbv beta. intros [] w2 Hc2.
  wstep; [by apply setPauseOnNextStatement_core|done].
Qed.

Lemma runtimeReleaseObject_core v w i : Core v w -> wp (Runtime.releaseObject i) (fun _ => Core v) w.
Proof.
  intros Hc. unfold Runtime.releaseObject, Injected.injectedScriptForObjectId. do 4 wstep. wstep; [|by wstep].
  apply withoutPause_core; [done|]. intros w' Hc'. unfold Injected.releaseObject. wstep; [by apply setNative_core|by wstep].
Qed.

Lemma setFormatter_core v w b : Core v w -> wp (Injected.setCustomObjectFormatterEnabled b) (fun _ => Core v) w.
Proof.
  intros Hc. unfold Injected.setCustomObjectFormatterEnabled. wstep. wcall setManager_core; [by destruct Hc|]. do 2 wstep.
  apply wp_forEach; [done|]. intros s w1 _ Hc1. wstep; [by wstep|]. wstep. wcall makeCall_core. by wstep.
Qed.

End Evaluation.
