(* ===== verification/MachineSafety.v ===== *)
(** * Every input is handled

    The invariant of [PauseInvariant] holds in every state that the inspector can
    reach; what can arrive in it is handled to the end, but for one return of
    [runScript] ([orphaned]). *)

From S2P Require Import Prelude Platform WTFString DecimalNumber JSONValues JSONParser StringSearch ContentSearch InspectorState InspectorStateFacts Dispatcher Engine NativeObjects World Triples DebuggerOps InjectedScripts AgentState Breakpoints AsyncCalls Promises Pausing Evaluation RuntimeAgent PauseLoop Machine PauseInvariant PauseSafety EvaluationSafety.

(** [runScript] restores the pause on exceptions state through the debugger
    script; while the script ran in a nested pause the debugger was disabled. *)
Definition orphaned {E} (i : Input) (w : World E) : bool :=
  match i, activations w with
  | JSReturns (ScriptEnds _ | ScriptThrows (Some _) _), RunningScript _ _ _ _ true :: _ => negb (m_listener (wtd w))
  | _, _ => false
  end.

Section Commands.
Context {P : Platform} {R : RegExpEngine} {E : Type} `{V8Engine E} {L : ScriptsLoad E}.
Implicit Types w : World E.

(** ** Answers *)

Lemma drop_inv {A} v w (m : M (World E) A) :
  settled v -> wp m (fun _ => Core v) w -> wp (drop_ m) (fun _ => Inv) w.
Proof. intros Hs Hm. unfold drop_. wstep. eapply wp_mono; [exact Hm|]. cbv beta. intros a w1 Hc. wstep. by eapply inv_intro. Qed.

Lemma drop_post {A} (Q : World E -> Prop) w (m : M (World E) A) :
  wp m (fun _ => Q) w -> wp (drop_ m) (fun _ => Q) w.
Proof. intros Hm. unfold drop_. wstep. eapply wp_mono; [exact Hm|]. cbv beta. intros a w1 Hc. by wstep. Qed.

Lemma replies_post {A} (Q : World E -> Prop) w o (m : M (World E) (Reply A)) :
  wp m (fun _ => Q) w -> wp (replies o m) (fun _ => Q) w.
Proof. intros Hm. unfold replies. wstep. eapply wp_mono; [exact Hm|]. cbv beta. intros a w1 Hc. by wstep. Qed.

Lemma acts_post (Q : World E -> Prop) w (m : M (World E) unit) : wp m (fun _ => Q) w -> wp (acts m) (fun _ => Q) w.
Proof. intros Hm. apply replies_post. wstep. eapply wp_mono; [exact Hm|]. cbv beta. intros a w1 Hc. by wstep. Qed.

Lemma repliesLater_begun {A} v w o (m : M (World E) (Progress (Reply A))) :
  wp m (begun v) w -> wp (repliesLater o m) (begun v) w.
Proof. intros Hm. unfold repliesLater. wstep. eapply wp_mono; [exact Hm|]. intros [r|] w1 Hc; by wstep. Qed.

(** What a command leaves: the view as it was, the pause ended, a call that waits,
    or a state with the invariant. *)
Definition handled (v : View) (r : Progress AgentResult) w : Prop := begun v r w \/ steps v w \/ Inv w.

Lemma handled_keep v w (m : M (World E) (Progress AgentResult)) : wp m (fun _ => Core v) w -> wp m (handled v) w.
Proof. intros Hm. eapply wp_mono; [exact Hm|]. intros r w1 Hc. right. left. by left. Qed.
Lemma handled_steps v w (m : M (World E) (Progress AgentResult)) : wp m (fun _ => steps v) w -> wp m (handled v) w.
Proof. intros Hm. eapply wp_mono; [exact Hm|]. intros r w1 Hc. right. by left. Qed.
Lemma handled_inv v w (m : M (World E) (Progress AgentResult)) : wp m (fun _ => Inv) w -> wp m (handled v) w.
Proof. intros Hm. eapply wp_mono; [exact Hm|]. intros r w1 Hc. by do 2 right. Qed.
Lemma handled_begun v w (m : M (World E) (Progress AgentResult)) : wp m (begun v) w -> wp m (handled v) w.
Proof. intros Hm. eapply wp_mono; [exact Hm|]. intros r w1 Hc. by left. Qed.

Lemma settled_pushed v a :
  settled v -> evaluating (v_stack v) = false -> isLoop a = false -> activationOK a ->
  (onFrame a = true -> v_running v = true /\ v_quit v = false) -> settled (v <| v_stack := a :: v_stack v |>).
Proof. intros [H1 H2 H3 H4 H5] He Hl Ha Hf. constructor; [done..|]. by apply stackOK_push. Qed.

Lemma handled_drop v w (m : M (World E) (Progress AgentResult)) :
  settled v -> evaluating (v_stack v) = false -> v_running v && v_quit v = false ->
  wp m (handled v) w -> wp (drop_ m) (fun _ => Inv) w.
Proof.
  intros Hs He Hq Hm. apply drop_post. eapply wp_mono; [exact Hm|]. intros r w1 [Hb|[[Hc|Hc]|Hi]]; [|by eapply inv_intro| |done].
  - destruct r as [r|]; [by eapply inv_intro|]. destruct Hb as (a & Hc & Hl & Ha & Hf).
    eapply inv_intro; [exact Hc|]. apply settled_pushed; [done..|]. intros Hv%Hf. destruct (v_running v) eqn:Er; [done|].
    exfalso. by apply Hv, (settled_idle v Hs).
  - eapply inv_intro; [exact Hc|]. by apply settled_continued.
Qed.

Lemma keep_inv v w (m : M (World E) unit) : settled v -> wp m (fun _ => Core v) w -> wp m (fun _ => Inv) w.
Proof. intros Hs Hm. eapply wp_mono; [exact Hm|]. cbv beta. intros a w1 Hc. by eapply inv_intro. Qed.

Lemma waiting_allowed v : settled v -> v_running v && v_quit v = false -> waiting v.
Proof.
  intros [Hp Hw Hi He] Hq [Hr Hl]%Hp. split; [done|]. rewrite Hr in Hq. cbn in Hq. by destruct (Hw Hr Hq) as (_ & ? & _).
Qed.

Lemma event_inv v w event :
  Core v w -> settled v -> allowed (Event event) w = true -> wp (handleV8DebugEvent event) (fun _ => Inv) w.
Proof.
  intros Hc Hs Ha. unfold handleV8DebugEvent. do 4 wstep.
  destruct (negb (Debugger.enabled (vd w)) || negb (m_listener (wtd w))) eqn:Eg; [wstep; by eapply inv_intro|].
  apply orb_false_elim in Eg as [_ El%negb_false_iff].
  assert (v_listener v = true) as Hl by (by destruct Hc as [<-]). wstep.
  - eapply keep_inv; [done|]. by apply didParseSource_core.
  - eapply keep_inv; [done|]. by apply didParseSource_core.
  - by eapply handleProgramBreak_inv.
  - by eapply handleProgramBreak_inv.
  - cbn in Ha. apply andb_prop in Ha as [Hr%negb_true_iff Hn%Z.ltb_lt]. repeat wstep; [|by eapply inv_intro].
    eapply handleV8AsyncTaskEvent_inv; [done..| |done]. by destruct Hc as [<-].
  - cbn in Ha. apply negb_true_iff in Ha. do 3 wstep; [|by eapply inv_intro].
    eapply handleV8PromiseEvent_inv; [done..|]. by destruct Hc as [<-].
Qed.

(** ** Commands *)

Lemma perform_handled r v w :
  Core v w -> settled v -> evaluating (v_stack v) = false -> v_frontend v = true -> v_running v && v_quit v = false ->
  wp (perform r) (handled v) w.
Proof.
  intros Hc Hs Hev Hf Hq.
  assert (v_enabled v = v_listener v) as He by (by destruct Hs).
  assert (v_paused v <> None -> v_listener v = true) as Hp by (destruct Hs as [Hp _ _ _]; naive_solver).
  assert (v_vdPaused v <> None -> v_listener v = true) as Hvd.
  { intros Hv. destruct (v_running v) eqn:Er; [by apply (settled_waiting v Hs Er Hq)|]. by rewrite (settled_idle v Hs Er) in Hv. }
  pose proof (waiting_allowed v Hs Hq) as Hw.
  destruct r; cbn [perform].
  - by eapply handled_inv, replies_post, enable_inv.
  - apply handled_inv, replies_post. eapply wp_mono; [by eapply disable_inv|]. by intros _ ? [].
  - apply handled_keep, replies_post. by apply setBreakpointsActive_core.
  - apply handled_keep, replies_post. by apply setSkipAllPauses_core.
  - apply handled_keep, replies_post. by apply setBreakpointByUrl_core.
  - apply handled_keep, replies_post. by apply setBreakpoint_core.
  - apply handled_keep, replies_post. by apply removeBreakpoint_core.
  - apply handled_steps, replies_post. by apply continueToLocation_steps.
  - apply handled_steps, replies_post. by apply stepOver_steps.
  - apply handled_steps, replies_post. by apply stepInto_steps.
  - apply handled_steps, replies_post. by apply stepOut_steps.
  - apply handled_keep, replies_post. by apply pause_core.
  - apply handled_steps, replies_post. by apply resume_steps.
  - apply handled_steps, replies_post. by apply stepIntoAsync_steps.
  - apply handled_keep, replies_post. by repeat wstep.
  - apply handled_keep. by wstep.
  - apply handled_keep. wstep. wcall setScriptSource_core. by wstep.
  - apply handled_keep, replies_post. by apply restartFrame_core.
  - apply handled_keep, replies_post. apply checkEnabled_core; [done..|]. intros _. by repeat wstep.
  - apply handled_keep, replies_post. apply (proj1 (details_core v w _ Hc He)).
  - apply handled_keep, replies_post. apply (proj1 (proj2 (details_core v w _ Hc He))).
  - apply handled_keep, replies_post. apply (proj2 (proj2 (details_core v w _ Hc He))).
  - apply handled_keep, replies_post. by apply setPauseOnExceptions_core.
  - by apply handled_begun, repliesLater_begun, evaluateOnCallFrame_begun.
  - by apply handled_begun, repliesLater_begun, compileScript_begun.
  - by apply handled_begun, repliesLater_begun, runScript_begun.
  - apply handled_keep, replies_post. by apply setVariableValue_core.
  - apply handled_keep, replies_post. by apply getStepInPositions_core.
  - apply handled_keep, replies_post. by apply getBacktrace_core.
  - apply handled_keep, replies_post. by apply skipStackFrames_core.
  - apply handled_keep, replies_post. by apply setAsyncCallStackDepth_core.
  - apply handled_keep, replies_post. by apply enablePromiseTracker_core.
  - apply handled_keep, replies_post. by apply disablePromiseTracker_core.
  - apply handled_keep, replies_post. by apply getPromiseById_core.
  - apply handled_keep, acts_post. by apply flushAsyncOperationEvents_core.
  - apply handled_keep, replies_post. by apply asyncBreakpoint_core.
  - apply handled_keep, replies_post. by apply asyncBreakpoint_core.
  - by apply handled_begun, repliesLater_begun, evaluate_begun.
  - by apply handled_begun, repliesLater_begun, callFunctionOn_begun.
  - apply handled_keep, replies_post. by apply getProperties_core.
  - apply handled_keep, acts_post. by apply runtimeReleaseObject_core.
  - apply handled_keep, acts_post. apply withoutPause_core; [done|]. intros. by apply releaseObjectGroup_core.
  - apply handled_keep, acts_post. unfold Runtime.runProgram. wstep. by destruct Hc.
  - apply handled_keep, acts_post. by apply runtimeEnable_core.
  - apply handled_keep, acts_post. by apply runtimeDisable_core.
  - apply handled_keep. unfold Runtime.isRunRequired. by repeat wstep.
  - apply handled_keep, acts_post. by apply setFormatter_core.
Qed.

(** ** JavaScript returns *)

Lemma lift_core {A} (Q : A -> World E -> Prop) (o : outcome A) w : (forall a, o = Done a -> Q a w) -> o <> Crash -> wp (lift o) Q w.
Proof. intros Hq Hn. unfold wp, lift. destruct o; [auto|done]. Qed.

Lemma wellFormed_result call r : wellFormedResult call r = true -> makeEvalCall (hasExceptionDetails call) (Injected.callResult r) <> Crash.
Proof. unfold wellFormedResult. by destruct (makeEvalCall _ _). Qed.

Lemma finish_core v w a o :
  Core v w -> activationOK a -> awaits a o = true -> (onFrame a = true -> v_listener v = true) ->
  orphaned (JSReturns o) (w <| activations := [a] |>) = false -> wp (finish a o) (fun _ => Core v) w.
Proof.
  intros Hc Ha Hw Hl Ho. assert (m_listener (wtd w) = v_listener v) as El by (by apply core_listener).
  destruct a, o; try discriminate Hw; cbn [finish awaits] in *.
  - wstep. unfold finishEvaluateOnCallFrame. wstep. apply lift_core; [|by apply wellFormed_result]. intros r _.
    wstep. wcall unmutePauses_core. do 2 wstep. done.
  - unfold finishCompileScript. do 3 wstep; [|by repeat wstep]. wcall setAgent_core. by repeat wstep.
  - unfold finishCompileScript. wstep. wstep; by repeat wstep.
  - wstep. unfold finishRunScript. wstep. wcall injWrapObject_core. wstep. wcall unmutePauses_core.
    { intros ->. cbn in Ho. rewrite El in Ho. by apply negb_false_iff. }
    by repeat wstep.
  - wstep. unfold finishRunScript. destruct exception as [value|]; [|by repeat wstep]. wstep. wcall injWrapObject_core. wstep.
    wcall unmutePauses_core. { intros ->. cbn in Ho. rewrite El in Ho. by apply negb_false_iff. }
    by repeat wstep.
  - wstep. unfold Runtime.finishEvaluate. wstep. apply lift_core; [|by apply wellFormed_result]. intros r _.
    wstep. wcall leaveCallScope_core. do 2 wstep. done.
Qed.

Lemma settled_popped v a stack : settled v -> v_stack v = a :: stack -> isLoop a = false -> settled (v <| v_stack := stack |>).
Proof. intros [H1 H2 H3 H4 H5] Ea Hl. rewrite Ea in H5. constructor; [done..|]. by eapply stackOK_return. Qed.

Lemma awaits_evaluates a o : awaits a o = true -> isLoop a = false.
Proof. by destruct a. Qed.

Lemma jsReturns_inv v w o :
  Core v w -> settled v -> allowed (JSReturns o) w = true -> orphaned (JSReturns o) w = false ->
  wp (jsReturns o) (fun _ => Inv) w.
Proof.
  intros Hc Hs Ha Ho. cbn in Ha. unfold jsReturns. do 2 wstep. destruct (activations w) as [|a stack] eqn:Ea; [done|].
  assert (v_stack v = a :: stack) as Ev by (by destruct Hc as [<-]).
  set (v1 := v <| v_stack := stack |>). unfold popActivation. do 2 wstep.
  match goal with |- wp _ _ ?w1 => assert (Core v1 w1) as Hc1 end.
  { destruct Hc as [Hv Hc2 Hc3 Hc4 Hc5 Hc6 Hc7]. constructor; [|done..]. subst v1. rewrite <- Hv. unfold view. cbn. by rewrite Ea. }
  pose proof (settled_stack v Hs) as [_ Hok Htop _]. rewrite Ev in Hok, Htop. inversion_clear Hok.
  eapply wp_mono; [apply (finish_core v1)|]; [done..| | |].
  - intros Hf. cbn in Htop. rewrite Hf in Htop. destruct Htop as [Hr Hq]; [done|]. by apply (settled_waiting v Hs Hr Hq).
  - unfold orphaned in *. cbn. by rewrite Ea in Ho.
  - cbv beta. intros r w2 Hc2. eapply inv_intro; [exact Hc2|]. eapply settled_popped; [done..|]. by eapply awaits_evaluates.
Qed.

Lemma hostCall_core v w c : Core v w -> wp (hostCall c) (fun _ => Core v) w.
Proof.
  intros Hc. destruct c; cbn [hostCall]; [by apply setNative_core| |by apply removeCommandBreakpoint_core| |by apply removeCommandBreakpoint_core].
  all: unfold setCommandBreakpoint; wstep; wcall resolveBreakpoint_core; by wstep.
Qed.

(** ** Every input *)

Lemma run_inv i w :
  Inv w -> allowed i w = true -> orphaned i w = false -> wp (run i) (fun _ => Inv) w.
Proof.
  intros [Hc Hs] Ha Ho. change (Core (view w) w) in Hc.
  destruct i; cbn [run].
  - cbn in Ha. apply andb_prop in Ha as [Hf [Hq%negb_true_iff Hev%negb_true_iff]%andb_prop].
    eapply (handled_drop (view w)); [done..|]. by apply perform_handled.
  - by eapply event_inv.
  - eapply keep_inv; [done|]. by apply promiseCollected_core.
  - cbn in Ha. apply andb_prop in Ha as [[Hr Hq]%andb_prop Hev%negb_true_iff]. by eapply leaveProgramBreak_inv.
  - by eapply drop_post, jsReturns_inv.
  - eapply keep_inv; [done|]. by apply hostCall_core.
  - eapply keep_inv; [done|]. by apply willCallFunction_core.
  - eapply keep_inv; [done|]. by apply changeRecursionLevel_core.
  - eapply keep_inv; [done|]. by apply willEvaluateScript_core.
  - eapply keep_inv; [done|]. by apply changeRecursionLevel_core.
  - eapply keep_inv; [done|]. by apply schedulePause_core.
  - eapply keep_inv; [done|]. by apply cancelPause_core.
  - eapply breakProgram_inv; [done..|]. cbn in Ha. by apply andb_prop in Ha as [_ ?].
  - eapply keep_inv; [done|]. unfold Runtime.pauseOnStart. wstep. by destruct Hc.
  - eapply wp_mono; [by eapply connectFrontend_core|]. intros [] w1 Hc1. eapply inv_intro; [done|].
    by apply settled_frontend.
  - cbn in Ha. apply andb_prop in Ha as [_ [_ Hev%negb_true_iff]%andb_prop]. by eapply disconnectFrontend_inv.
  - cbn in Ha. apply andb_prop in Ha as [[[Hf%negb_true_iff Hr%negb_true_iff]%andb_prop _]%andb_prop Hw].
    destruct (restoredProperties cookie (composite w)) as [p|] eqn:Ep; [|done]. by eapply restoreInspectorState_inv.
Qed.

Lemma newInspector_states (e : E) : statesOK (newInspector e).
Proof.
  split; [|split].
  - apply coherent_updated, coherent_insert; [|by eexists].
    apply (createAgentState_coherent (u "Debugger") (createAgentState (u "Runtime") (create true)).2); [|done].
    apply createAgentState_coherent; [apply coherent_create|done].
  - apply list_elem_of_here.
  - apply list_elem_of_further, list_elem_of_here.
Qed.

Lemma newInspector_inv (e : E) : Inv (newInspector e).
Proof.
  split; [constructor; try done|constructor; try done].
  - split; [done|]. by intros id ?%elem_of_nil.
  - apply newInspector_states.
  - cbn. split; [done|]. by intros [].
Qed.

(** The one input that is not handled. *)
Definition disabled w : Prop := m_debuggerScript (vd w) = None.

Lemma wrapObject_disabled s x g : triple disabled (Injected.wrapObject s x g) disabled.
Proof.
  unfold Injected.wrapObject, Injected.callInjected. destruct (is_empty s); [apply triple_crash|].
  apply (triple_bind _ disabled); [apply triple_gets|]. intros e.
  induction (injectedWrapObject _ _ _ _) as [[a e']|y g' k IH|n k IH|n k IH]; cbn [Injected.runJS]; keeps done.
Qed.

Lemma finishRunScript_disabled s g n x m w : disabled w -> finishRunScript s g n true (Some x) m w = Crash.
Proof.
  intros Hd. unfold finishRunScript, mbind, M_bind. destruct (Injected.wrapObject s x g w) as [[r w1]|] eqn:Ew; [|done].
  apply wrapObject_disabled in Ew; [|done]. unfold unmutePauses, when, Debugger.pauseOnExceptionsState, Debugger.debuggerScriptLocal,
    getVD, gets, mbind, M_bind. by rewrite Ew.
Qed.

Lemma run_orphaned i w : Inv w -> orphaned i w = true -> run i w = Crash.
Proof.
  intros [Hc Hs] Ho. change (Core (view w) w) in Hc.
  destruct i as [| | | |o| | | | | | | | | | | |]; try done. unfold orphaned in Ho.
  destruct (activations w) as [|a stack] eqn:Ea; [by destruct o as [| | | |[]]|].
  assert (exists s i g n x m, a = RunningScript s i g n true /\ (o = ScriptEnds x \/ o = ScriptThrows (Some x) m) /\
          m_listener (wtd w) = false) as (s & i & g & n & x & m & -> & Hox & Hl).
  { destruct o as [| | |x|[x|] m]; try done; destruct a as [| | |s i g n []|]; try done; apply negb_true_iff in Ho.
    - exists s, i, g, n, x, None. auto.
    - exists s, i, g, n, x, m. auto. }
  assert (disabled w) as Hd.
  { pose proof (core_script _ _ _ Hc) as Hd. cbn in Hd. rewrite Hl in Hd. unfold disabled, Debugger.enabled in *. by destruct (m_debuggerScript (vd w)). }
  cbn [run]. unfold drop_, jsReturns, popActivation, modify, gets, mbind, M_bind. rewrite Ea.
  destruct Hox as [-> | ->]; cbn [finish]; unfold mbind, M_bind; by rewrite finishRunScript_disabled.
Qed.

Lemma run_Done i w w' : Inv w -> allowed i w = true -> run i w = Done (tt, w') -> Inv w'.
Proof.
  intros Hi Ha Hr. destruct (orphaned i w) eqn:Ho; [by rewrite (run_orphaned i w Hi Ho) in Hr|].
  pose proof (run_inv i w Hi Ha Ho) as Hw. unfold wp in Hw. by rewrite Hr in Hw.
Qed.

(** ** Runs of the inspector

    JavaScript runs between the inputs: the engine may change. *)

Inductive reachable : World E -> Prop :=
  | reachable_new (e : E) : reachable (newInspector e)
  | reachable_engine w e : reachable w -> reachable (w <| engine := e |>)
  | reachable_input w i w' : reachable w -> allowed i w = true -> run i w = Done (tt, w') -> reachable w'.

Lemma reachable_inv w : reachable w -> Inv w.
Proof.
  induction 1 as [e|w e _ IH|w i w' _ IH Ha Hr]; [apply newInspector_inv| |].
  - destruct IH as [[] Hs]. by split.
  - by eapply run_Done.
Qed.

End Commands.
