(* ===== verification/Answers.v ===== *)
(** * The agents assign their outputs

    A handler sends the outputs of the agent's method when the method has reported
    no error, and dereferences those that the protocol requires.  Here: each method
    either reports an error with a text or assigns the outputs of its command. *)

From S2P Require Import Prelude Platform WTFString JSONValues JSONParser StringSearch ContentSearch InspectorState Dispatcher Engine NativeObjects World Triples DebuggerOps InjectedScripts AgentState Breakpoints AsyncCalls Promises Pausing Evaluation RuntimeAgent PauseLoop Machine PauseInvariant PauseSafety EvaluationSafety MachineSafety.

(** ** Outputs and their shape *)

(** [true] for an output that has a value. *)
Fixpoint assigned (shape : list bool) (values : list (option JSONValue)) : bool :=
  match shape with
  | [] => true
  | b :: shape' => (negb b || match hd None values with Some _ => true | None => false end) && assigned shape' (tl values)
  end.

Fixpoint covers (shape : list bool) (outs : list Out) : bool :=
  match outs with
  | [] => true
  | o :: outs' => (o_optional o || hd false shape) && covers (tl shape) outs'
  end.

Lemma assemble_assigned shape outs values result :
  assigned shape values = true -> covers shape outs = true -> is_Some (assemble outs values result).
Proof.
  revert shape values result. induction outs as [|o outs IH]; intros shape values result Ha Hc; [by eexists|].
  cbn in Hc |- *. apply andb_prop in Hc as [Ho Hc]. destruct shape as [|b shape]; cbn in Ha, Ho, Hc.
  - rewrite orb_false_r in Ho. rewrite Ho. destruct (hd None values); by apply (IH []).
  - apply andb_prop in Ha as [Hb Ha]. destruct (hd None values); [by eapply IH|].
    rewrite orb_false_r in Hb. apply negb_true_iff in Hb as ->. rewrite orb_false_r in Ho. rewrite Ho. by eapply IH.
Qed.

(** The outputs of a command, and of a call that waits. *)
Definition requestShape (r : Request) : list bool :=
  match r with
  | SetBreakpointByUrl _ _ _ _ _ | SetBreakpoint _ _ | RestartFrame _ => [true; true]
  | SearchInContent _ _ _ _ | CanSetScriptSource | GetScriptSource _ | GetFunctionDetails _ | GetGeneratorObjectDetails _
  | GetCollectionEntries _ | EvaluateOnCallFrame _ _ _ _ _ _ _ | RunScript _ _ _ _ | GetBacktrace | GetPromiseById _ _
  | Evaluate _ _ _ _ _ _ _ | CallFunctionOnObject _ _ _ _ _ _ | GetProperties _ _ _ _ | IsRunRequired => [true]
  | _ => []
  end.

Definition activationShape (a : Activation) : list bool :=
  match a with
  | EvaluatingOnCallFrame _ _ _ _ | RunningScript _ _ _ _ _ | RuntimeEvaluating _ _ _ _ => [true]
  | PauseMessageLoop | CompilingScript _ _ _ _ => []
  end.

(** A reply that can be sent. *)
Definition informs {A} (outputs : A -> list (option JSONValue)) (shape : list bool) (r : Reply A) : Prop :=
  match r with ErrorReply e => e <> [] | Answer a => assigned shape (outputs a) = true end.

Definition complete (shape : list bool) (r : AgentResult) : Prop := r_error r = [] -> assigned shape (r_outs r) = true.

Lemma replyResult_complete {A} (outputs : A -> list (option JSONValue)) shape data r :
  informs outputs shape r -> complete shape (replyResult outputs data r).
Proof. destruct r; intros Hr He; [by destruct Hr|exact Hr]. Qed.

Lemma complete_nil r : complete [] r.
Proof. done. Qed.

(** ** Results of the methods *)

Section Results.
Context {W : Type}.

(** What [m] returns has [Q]. *)
Definition gives {A} (m : M W A) (Q : A -> Prop) : Prop := forall w r w', m w = Done (r, w') -> Q r.

Lemma gives_ret {A} (a : A) (Q : A -> Prop) : Q a -> gives (mret a) Q.
Proof. intros Ha w r w' [= <- _]. done. Qed.

Lemma gives_bind {A B} (m : M W A) (k : A -> M W B) Q : (forall a, gives (k a) Q) -> gives (m ≫= k) Q.
Proof. intros Hk w r w' (a & w1 & _ & Hr)%bind_Done. by eapply Hk. Qed.

Lemma gives_bind_from {A B} (m : M W A) (k : A -> M W B) P Q :
  gives m P -> (forall a, P a -> gives (k a) Q) -> gives (m ≫= k) Q.
Proof. intros Hm Hk w r w' (a & w1 & Ha & Hr)%bind_Done. eapply Hk; [|done]. by eapply Hm. Qed.

Lemma gives_crash {A} (Q : A -> Prop) : gives (crash : M W A) Q.
Proof. done. Qed.
End Results.

Create HintDb gives discriminated.

(** Follows a method to its returns; the results of the methods in the database
    [gives] are known. *)
Ltac gives_step :=
  lazymatch goal with
  | |- gives (mret _) _ => apply gives_ret
  | |- gives (_ ≫= _) _ =>
      first [eapply gives_bind_from; [solve [eauto with gives nocore]|intros ? ?] | apply gives_bind; intros ?]
  | |- gives crash _ => apply gives_crash
  | |- gives (match ?x with _ => _ end) _ => destruct x eqn:?
  | |- gives (let _ := _ in _) _ => cbv zeta
  | |- gives ?m _ => let h := head m in unfold h; cbv beta
  end.
Ltac gives := repeat gives_step.

Section Methods.
Context {P : Platform} {R : RegExpEngine} {E : Type} `{V8Engine E} {L : ScriptsLoad E} {A : ScriptAnswers E}.
Implicit Types w : World E.

Lemma runJS_gives {B} native (t : JS (B * E)) (Q : B -> Prop) :
  JSall (fun r => Q r.1) t -> gives (Injected.runJS native t) Q.
Proof.
  induction t as [[a e]|v g k IH|i k IH|i k IH]; intros Ht; cbn [Injected.runJS].
  - apply gives_bind. intros _. by apply gives_ret.
  - apply gives_bind. intros m. destruct (Native.bind _ _ _). apply gives_bind. intros _. apply IH, Ht.
  - apply gives_bind. intros m. apply IH, Ht.
  - apply gives_bind. intros m. apply IH, Ht.
Qed.

Lemma callInjected_gives s c : definite c = true ->
  gives (Injected.callInjected s (injectedCall (is_scriptState s) c)) (fun r => r <> CallReturned (Some (JSONString []))).
Proof. intros Hc. apply gives_bind. intros e. by apply runJS_gives, call_answers. Qed.
#[local] Hint Resolve callInjected_gives : gives.
#[local] Hint Extern 0 (definite _ = true) => done : gives.

Lemma makeCall_gives s c : definite c = true -> gives (Injected.makeCall s c) (fun r => r <> JSONString []).
Proof. intros Hc. unfold Injected.makeCall. gives; [done|]. destruct a as [[v|]|]; cbn; [|done..]. by intros ->. Qed.

Lemma wrapObject_gives s v g : gives (Injected.wrapObject s v g) is_Some.
Proof. unfold Injected.wrapObject. gives. apply runJS_gives, wrapObject_answers. Qed.
#[local] Hint Resolve makeCall_gives wrapObject_gives : gives.

Ltac informs := gives; repeat case_match; simplify_eq; try done; try (by intros ->).

Definition completed (shape : list bool) (p : Progress AgentResult) : Prop :=
  match p with Returned a => complete shape a | Waiting => True end.

Lemma replies_complete {B} outputs shape (m : M (World E) (Reply B)) :
  gives m (informs outputs shape) -> gives (replies outputs m) (completed shape).
Proof. intros Hm. eapply gives_bind_from; [exact Hm|]. intros r Hr. by apply gives_ret, replyResult_complete. Qed.

Lemma repliesLater_complete {B} outputs shape (m : M (World E) (Progress (Reply B))) :
  gives m (fun p => match p with Returned r => informs outputs shape r | Waiting => True end) ->
  gives (repliesLater outputs m) (completed shape).
Proof.
  intros Hm. eapply gives_bind_from; [exact Hm|]. intros [r|] Hr; apply gives_ret; [|done]. by apply replyResult_complete.
Qed.

Lemma parseLocation_informs o :
  match parseLocation o with ErrorReply e => e <> [] | Answer _ => True end.
Proof. unfold parseLocation. repeat case_match; simplify_eq; done. Qed.

Lemma setBreakpoint_informs o c :
  gives (setBreakpoint o c) (informs (fun o => [Some (JSONString o.1); Some (JSONObject o.2)]) [true; true]).
Proof. unfold setBreakpoint. pose proof (parseLocation_informs o). informs. Qed.

Lemma getInternalProperties_informs s i l :
  gives (Runtime.getInternalProperties s i l)
    (informs (fun o => [Some (JSONArray o.1.1); JSONArray <$> o.1.2; JSONObject <$> o.2]) [true]).
Proof. unfold Runtime.getInternalProperties. informs. Qed.
#[local] Hint Resolve getInternalProperties_informs : gives.

Lemma getProperties_informs i b1 b2 b3 :
  gives (Runtime.getProperties i b1 b2 b3)
    (informs (fun o => [Some (JSONArray o.1.1); JSONArray <$> o.1.2; JSONObject <$> o.2]) [true]).
Proof.
  unfold Runtime.getProperties, withScript. apply gives_bind. intros s. destruct (present s) as [s'|]; [|by apply gives_ret].
  do 2 (apply gives_bind; intros ?). eapply gives_bind_from; [|intros r Hr; apply gives_bind; intros _; by apply gives_ret].
  informs.
Qed.

(** Every method but [evaluate], whose outputs depend on the state. *)
Lemma perform_complete r :
  match r with Evaluate _ _ _ _ _ _ _ => False | _ => True end -> gives (perform r) (completed (requestShape r)).
Proof.
  destruct r; intros Hr; try done; cbn [perform requestShape].
  all: try (intros w [] w' _; [apply complete_nil|done]).
  all: try (apply replies_complete; first [apply setBreakpoint_informs | apply getProperties_informs | informs]).
  all: try (apply repliesLater_complete; informs).
  - by apply gives_ret.
  - match goal with Ho : is_Some _ |- _ => by destruct Ho as [? ->] end.
  - apply gives_bind. intros b. by apply gives_ret.
Qed.

(** The injected script of the inspected context is there. *)
Lemma evaluate_answers v w e g b1 b2 i b3 b4 :
  Core v w -> wp (Runtime.evaluate e g b1 b2 i b3 b4)
    (fun p _ => match p with Returned r => informs evaluateOutputs [true] r | Waiting => True end) w.
Proof.
  intros Hc. unfold Runtime.evaluate, injectedScriptForEval. wstep. destruct i as [i|].
  - wcall injectedScriptForId_core. wstep; [|by wstep]. cbv zeta. wstep. wcall enterCallScope_core. wstep. wcall pushActivation_core. by wstep.
  - do 3 wstep. wcall injectedScriptFor_core. destruct_and!. wstep. unfold present. cbn.
    match goal with Hp : is_empty _ = false |- _ => rewrite Hp end. cbv zeta. wstep. wcall enterCallScope_core. wstep. wcall pushActivation_core. by wstep.
Qed.

Lemma perform_completed r p w w' :
  Inv w -> perform r w = Done (p, w') -> completed (requestShape r) p.
Proof.
  intros [Hc _] Hp. destruct r; try (by eapply perform_complete; [|exact Hp]). cbn [perform] in Hp.
  apply bind_Done in Hp as (q & w1 & Hq & [= <- _]).
  pose proof (evaluate_answers (view w) w expression objectGroup includeCommandLineAPI doNotPauseOnExceptionsAndMuteConsole
                executionContextId returnByValue generatePreview Hc) as He.
  unfold wp in He. rewrite Hq in He. destruct q as [a|]; [|done]. by apply replyResult_complete.
Qed.

(** The call that a method which waits leaves on the stack. *)
Definition pushes {B} (shape : list bool) (m : M (World E) (Progress B)) : Prop :=
  forall w w', m w = Done (Waiting, w') ->
    exists a, head (activations w') = Some a /\ isLoop a = false /\ activationShape a = shape.

Lemma pushes_bind {B C} shape (m : M (World E) C) (k : C -> M (World E) (Progress B)) :
  (forall c, pushes shape (k c)) -> pushes shape (m ≫= k).
Proof. intros Hk w w' (c & w1 & _ & Hr)%bind_Done. by eapply Hk. Qed.

Lemma pushes_ret {B} shape (b : B) : pushes shape (mret (Returned b)).
Proof. by intros w w' [= ]. Qed.

Lemma pushes_push {B} shape a :
  isLoop a = false -> activationShape a = shape -> pushes shape (pushActivation a ;; mret (Waiting : Progress B)).
Proof. intros Hl Ha w w' ([] & w1 & [= <-] & [= <-])%bind_Done. eauto. Qed.

Lemma pushes_later {B} shape outputs (m : M (World E) (Progress (Reply B))) :
  pushes shape m -> pushes shape (repliesLater outputs m).
Proof. intros Hm w w' ([r|] & w1 & Hr & [= ])%bind_Done. subst. by eapply Hm. Qed.

Ltac pushes :=
  repeat lazymatch goal with
    | |- pushes _ (mret _) => apply pushes_ret
    | |- pushes _ (pushActivation _ ≫= _) => by apply pushes_push
    | |- pushes _ (_ ≫= _) => apply pushes_bind; intros ?
    | |- pushes _ (match ?x with _ => _ end) => destruct x
    | |- pushes _ (let _ := _ in _) => cbv zeta
    | |- pushes _ ?m => let h := head m in unfold h; cbv beta
    end.

Lemma perform_pushes r : pushes (requestShape r) (perform r).
Proof. destruct r; cbn [perform requestShape]; try apply pushes_later; pushes. Qed.

(** ** Results of JavaScript *)

Lemma makeEvalCall_complete call result :
  wellFormedResult call result = true ->
  gives (lift (E := E) (makeEvalCall (hasExceptionDetails call) (Injected.callResult result)))
    (fun r => match r with ErrorReply e => e <> [] | Answer _ => True end).
Proof.
  unfold wellFormedResult, lift. intros Hw w r w' Hr. destruct (makeEvalCall _ _) as [a|]; [|done].
  injection Hr as <- _. by destruct a as [[|]|].
Qed.

Lemma finish_complete a o r w w' :
  awaits a o = true -> finish a o w = Done (r, w') -> exists a', r = Some a' /\ complete (activationShape a) a'.
Proof.
  intros Ho. revert w r w'. change (gives (finish a o) (fun r => exists a', r = Some a' /\ complete (activationShape a) a')).
  destruct a, o; try done; cbn [finish activationShape]; cbn in Ho.
  - eapply gives_bind_from. 2: intros r Hr; apply gives_ret; eexists; split; [done|by apply replyResult_complete].
    eapply gives_bind_from; [by apply makeEvalCall_complete|]. intros [] Hr; gives; done.
  - apply gives_bind. intros r. apply gives_ret. eexists. split; [done|apply complete_nil].
  - apply gives_bind. intros r. apply gives_ret. eexists. split; [done|apply complete_nil].
  - eapply gives_bind_from. 2: intros r Hr; apply gives_ret; eexists; split; [done|by apply replyResult_complete].
    informs. by destruct H0 as [? ->].
  - eapply gives_bind_from. 2: intros r Hr; apply gives_ret; eexists; split; [done|by apply replyResult_complete].
    informs. by destruct H0 as [? ->].
  - eapply gives_bind_from. 2: intros r Hr; apply gives_ret; eexists; split; [done|by apply replyResult_complete].
    eapply gives_bind_from; [by apply makeEvalCall_complete|]. intros [] Hr; gives; done.
Qed.
End Methods.
