(* ===== verification/SessionFacts.v ===== *)
(** * Every request is answered

    The composition of the dispatcher with the agents ([Session]): the arguments
    that pass the dispatcher's checks are those of the agents' methods, and each
    request is answered once, at the latest when the JavaScript it runs returns. *)

From S2P Require Import Prelude Platform WTFString DecimalNumber JSONValues JSONParser StringSearch ContentSearch ContentSearchFacts InspectorState InspectorStateFacts Dispatcher Commands DispatcherFacts Engine NativeObjects ModelEngine World Triples DebuggerOps InjectedScripts AgentState Breakpoints AsyncCalls Promises Pausing Evaluation RuntimeAgent PauseLoop Machine PauseInvariant PauseSafety EvaluationSafety MachineSafety Answers Session.

(** ** Arguments *)

(** An argument of the type of its parameter. *)
Definition typedArg (p : Param) (a : option Arg) : Prop :=
  match a with
  | None => p_optional p = true
  | Some a =>
      match p_type p, a with
      | PInt, ArgInt _ | PDouble, ArgDouble _ | PString, ArgString _ | PBoolean, ArgBoolean _
      | PObject, ArgObject (Some _) | PArray, ArgArray (Some _) => True
      | _, _ => False
      end
  end.

Section Arguments.
Context {P : Platform}.

Lemma getPropertyValue_found {A} object name optional errors (initial : A) as_method t :
  let '(v, found, errors') := getPropertyValueImpl object name optional errors initial as_method t in
  errors' = errors -> found = true \/ optional = true.
Proof.
  unfold getPropertyValueImpl. destruct object as [o|]; [destruct (get (u name) o) as [x|]; [destruct (as_method x)|]|].
  all: try destruct optional; auto; intros E%(f_equal (@length _)); rewrite length_app in E; cbn in E; lia.
Qed.

Lemma getParam_typed object p errors :
  let '(v, found, errors') := getParam object p errors in
  errors' = errors -> typedArg p (if p_optional p && negb found then None else Some v).
Proof.
  destruct p as [name t optional]. unfold getParam. cbn [p_name p_type p_optional]. destruct t.
  all: match goal with |- context [getPropertyValueImpl ?o ?n ?b ?e ?i ?f ?tn] =>
    pose proof (getPropertyValue_found o n b e i f tn) as Hf; unfold getPropertyValueImpl in * end.
  all: destruct object as [o|]; [destruct (get (u name) o) as [x|]; [destruct x; cbn in *|]|].
  all: try (destruct optional; cbn in *; try done; intros E%(f_equal (@length _)); rewrite length_app in E; cbn in E; lia).
Qed.

Lemma getParams_typed object params errors :
  (getParams object params errors).2 = errors -> Forall2 typedArg params (getParams object params errors).1.
Proof.
  revert errors. induction params as [|p params IH]; intros errors; cbn [getParams]; [intros _; constructor|].
  pose proof (getParam_typed object p errors) as Hp. pose proof (getParam_errors object p errors) as He.
  destruct (getParam object p errors) as [[v found] es]. cbn in He. specialize (IH es).
  pose proof (getParams_errors object params es) as Hes. destruct (getParams object params es) as [args es']. cbn in *.
  intros ->. subst es. rewrite <- app_assoc in Hes.
  assert (option_list (JSONString <$> paramError object p) = [] /\ map JSONString (omap (paramError object) params) = []) as [E1 E2].
  { apply app_nil. apply (f_equal (@length _)) in Hes. rewrite length_app in Hes. apply nil_length_inv. lia. }
  rewrite E1, app_nil_r in *. constructor; [by apply Hp|by apply IH].
Qed.

End Arguments.

(** The commands of the two agents. *)
Definition agentCommands : list Command :=
  List.filter (fun c => match agentMethods (c_domain c) with Some _ => true | None => false end) handlers.

(** The arguments that pass the checks are those of a method, and the method assigns
    the required outputs. *)
Definition accepts (c : Command) : Prop :=
  c_async c = false /\
  (forall args, match c_params c with Some params => Forall2 typedArg params args | None => args = [] end ->
    is_Some (request c args)) /\
  forall args r, request c args = Some r -> covers (requestShape r) (c_outs c) = true.

(** A required argument has its value. *)
Lemma typedArg_required n t a :
  typedArg (mkParam n t false) a ->
  match t with
  | PInt => is_Some (argInt a) | PString => is_Some (argString a) | PBoolean => is_Some (argBoolean a)
  | PObject => is_Some (argObject a) | PArray => is_Some (argArray a) | PDouble => True
  end.
Proof. destruct a as [a|]; [|done]. destruct t, a as [| | | |[]|[]]; cbn; try done; eauto. Qed.

Ltac read_arguments :=
  repeat match goal with
    | Ha : Forall2 _ (_ :: _) _ |- _ => apply Forall2_cons_inv_l in Ha as (? & ? & ? & Ha & ->)
    | Ha : Forall2 _ [] _ |- _ => apply Forall2_nil_inv_l in Ha as ->
    | Ha : typedArg (mkParam _ _ false) _ |- _ => apply typedArg_required in Ha; cbv iota in Ha; destruct Ha as [? Ha]
    end.

Lemma agentCommands_accept : Forall accepts agentCommands.
Proof.
  unfold agentCommands. set (l := List.filter _ _). vm_compute in l. subst l.
  repeat (apply Forall_cons; split; [split; [done|split]; cbn [c_params]; intros args; [intros Ha|intros r]|]); [..|apply Forall_nil_2].
  all: unfold request; cbn -[argString argInt argBoolean argObject argArray].
  all: try (intros Hr; repeat case_match; simplify_option_eq; done).
  all: read_arguments; cbn -[argString argInt argBoolean argObject argArray];
    repeat match goal with Ha : _ = Some _ |- _ => rewrite Ha; clear Ha end; by eexists.
Qed.

(** ** What an input does to the calls that wait and to the connection *)

(** The calls that wait for JavaScript. *)
Definition calls (stack : list Activation) : list Activation := List.filter (fun a => negb (isLoop a)) stack.

Definition waits (r : Request) : bool :=
  match r with
  | EvaluateOnCallFrame _ _ _ _ _ _ _ | CompileScript _ _ _ _ | RunScript _ _ _ _ | Evaluate _ _ _ _ _ _ _
  | CallFunctionOnObject _ _ _ _ _ _ => true
  | _ => false
  end.

Section Frames.
Context {P : Platform} {R : RegExpEngine} {E : Type} `{V8Engine E} {L : ScriptsLoad E} {SA : ScriptAnswers E}.
Implicit Types w : World E.

(** What a session depends on: the connection and the calls that wait. *)
Definition link w := (channelOpen w, m_frontend (agent w), calls (activations w)).

Class Linked (I : World E -> Prop) : Prop := linked : forall w w', link w' = link w -> I w -> I w'.

Ltac untied :=
  idtac;
  match goal with
  | Hw : ?I ?w |- ?I _ =>
      apply (linked w); [|exact Hw]; first [reflexivity | unfold link; cbn; repeat case_match; reflexivity]
  end.

Section Untied.
Context (I : World E -> Prop) `{!Linked I}.

Lemma callInjected_linked {A} s (f : E -> JS (A * E)) : triple I (Injected.callInjected s f) I.
Proof.
  unfold Injected.callInjected. apply (triple_bind _ I); [apply triple_gets|]. intros e. generalize (f e).
  intros t. induction t as [[a e']|x g k IH|n' k IH|n' k IH]; cbn [Injected.runJS]; keeps untied.
Qed.
#[local] Hint Resolve callInjected_linked : keeps.

Lemma lift_linked {A} (o : outcome A) : triple I (lift o) I.
Proof. intros w r w' Hi. unfold lift. destruct o; [|done]. by intros [= _ <-]. Qed.

Lemma breakpointsCookie_linked : triple I breakpointsCookie I.
Proof.
  intros w r w' Hw. unfold breakpointsCookie. destruct (getObjectProperty _ _ _) as [[o|] c]; [|done].
  intros [= _ <-]. untied.
Qed.

Lemma allBlackboxedFrom_linked fuel n : triple I (allBlackboxedFrom fuel n) I.
Proof. revert n. induction fuel as [|fuel IH]; intros n; cbn [allBlackboxedFrom]; keeps untied; apply IH. Qed.

Lemma asyncStackTraceLoop_linked l n r : triple I (asyncStackTraceLoop l n r) I.
Proof. revert n r. induction l as [|s l IH]; intros n r; cbn [asyncStackTraceLoop]; keeps untied; apply IH. Qed.

Lemma hitBreakpointIds_linked l : triple I (hitBreakpointIds l) I.
Proof. induction l as [|s l IH]; cbn [hitBreakpointIds]; keeps untied; apply IH. Qed.

Lemma resolveInScripts_linked b bp url rx l : triple I (resolveInScripts b bp url rx l) I.
Proof. induction l as [|[i s] l IH]; cbn [resolveInScripts]; keeps untied; apply IH. Qed.

#[local] Hint Resolve lift_linked breakpointsCookie_linked allBlackboxedFrom_linked asyncStackTraceLoop_linked
  hitBreakpointIds_linked resolveInScripts_linked : keeps.

(** A command that does not run JavaScript. *)
Lemma perform_linked r : waits r = false -> triple I (perform r) I.
Proof. destruct r; try discriminate; intros _; cbn [perform]; keeps untied. Qed.

Lemma finish_linked a o : triple I (finish a o) I.
Proof. destruct a, o; cbn [finish]; keeps untied. Qed.

(** Inputs that neither connect, nor start or end a call. *)
Definition passing (i : Input) : bool :=
  match i with
  | Receives _ | LoopExit | JSReturns _ | Connect _ | Disconnect | Restore _ => false
  | _ => true
  end.

Lemma run_linked i : passing i = true -> triple I (run i) I.
Proof. destruct i; try discriminate; intros _; cbn [run]; unfold pushActivation; keeps untied. Qed.

End Untied.

Definition linkIs k w : Prop := link w = k.
Definition callsAre l w : Prop := calls (activations w) = l.
Definition connection c f w : Prop := channelOpen w = c /\ m_frontend (agent w) = f.

#[export] Instance linkIs_linked k : Linked (linkIs k).
Proof. intros w w' El Hk. unfold linkIs in *. congruence. Qed.
#[local] Instance callsAre_linked l : Linked (callsAre l).
Proof. intros w w' [= _ _ El] Hk. unfold callsAre in *. congruence. Qed.
#[local] Instance connection_linked c f : Linked (connection c f).
Proof. intros w w' [= El Ef _] [? ?]. split; congruence. Qed.

#[local] Hint Extern 0 (Linked _) => apply _ : keeps.
#[local] Hint Resolve callInjected_linked lift_linked breakpointsCookie_linked allBlackboxedFrom_linked
  asyncStackTraceLoop_linked hitBreakpointIds_linked resolveInScripts_linked : keeps.

(** No command changes the connection. *)
Lemma perform_connection c f r :
  triple (connection c f) (perform r) (connection c f).
Proof.
  destruct (waits r) eqn:Hr; [|by apply perform_linked; [apply _|]].
  destruct r; try discriminate; cbn [perform]; keeps ltac:(first [untied|done]).
Qed.

Lemma perform_begun r v w :
  Core v w -> settled v -> v_running v && v_quit v = false -> waits r = true -> wp (perform r) (begun v) w.
Proof.
  intros Hc Hs Hq Hr. assert (v_vdPaused v <> None -> v_listener v = true) as Hvd.
  { intros Hv. destruct (v_running v) eqn:Er; [by apply (settled_waiting v Hs Er Hq)|]. by rewrite (settled_idle v Hs Er) in Hv. }
  destruct r; try discriminate; cbn [perform]; apply repliesLater_begun.
  - by apply evaluateOnCallFrame_begun.
  - by apply compileScript_begun.
  - apply runScript_begun; [done|]. by destruct Hs.
  - by apply evaluate_begun.
  - by apply callFunctionOn_begun.
Qed.

Lemma perform_returned r w p w' : waits r = false -> perform r w = Done (p, w') -> p <> Waiting.
Proof.
  destruct r; try discriminate; intros _; cbn [perform]; unfold acts, replies.
  all: first [intros (? & ? & _ & [= <- _])%bind_Done; done | intros [= <- _]; done].
Qed.

(** A command that can arrive: the invariant, and the calls that wait after it. *)
Lemma perform_calls r w p w' :
  Inv w -> allowed (Receives r) w = true -> perform r w = Done (p, w') ->
  Inv w' /\
  match p with
  | Returned _ => calls (activations w') = calls (activations w)
  | Waiting => exists a, calls (activations w') = a :: calls (activations w) /\ activationShape a = requestShape r
  end.
Proof.
  intros Hi Ha Hp. assert (run (Receives r) w = Done (tt, w')) as Hr.
  { cbn [run]. unfold drop_, mbind, M_bind. by rewrite Hp. }
  pose proof (run_inv _ w Hi Ha eq_refl) as Hw. unfold wp in Hw. rewrite Hr in Hw. split; [done|].
  destruct (waits r) eqn:Ew.
  - destruct Hi as [Hc Hs]. cbn in Ha. apply andb_prop in Ha as [_ [Hq%negb_true_iff _]%andb_prop].
    pose proof (perform_begun r (view w) w Hc Hs Hq Ew) as Hb. unfold wp in Hb. rewrite Hp in Hb.
    destruct p as [a|]; [|destruct Hb as (a & Hb & Hl & _)]; apply core_view in Hb; apply (f_equal v_stack) in Hb; cbn in Hb;
      [by rewrite Hb|].
    destruct (perform_pushes r w w' Hp) as (a' & Ha' & _ & Es). rewrite Hb in Ha' |- *. injection Ha' as <-.
    exists a. split; [|done]. unfold calls. cbn [List.filter]. by rewrite Hl.
  - pose proof (perform_linked (callsAre _) r Ew w p w' eq_refl Hp) as El. unfold callsAre in El.
    apply perform_returned in Hp; [|done]. by destruct p.
Qed.

Lemma perform_total r w :
  Inv w -> allowed (Receives r) w = true -> exists p w', perform r w = Done (p, w').
Proof.
  intros Hi Ha. pose proof (run_inv (Receives r) w Hi Ha eq_refl) as Hw. cbn [run] in Hw.
  unfold wp, drop_, mbind, M_bind in Hw. destruct (perform r w) as [[p w']|]; [eauto|done].
Qed.

(** The other inputs. *)
Lemma loopExit_link w w' :
  allowed LoopExit w = true -> Inv w -> run LoopExit w = Done (tt, w') -> link w' = link w.
Proof.
  intros Ha [_ Hs] Hr. cbn in Ha. apply andb_prop in Ha as [[Hrun _]%andb_prop Hev%negb_true_iff].
  destruct (settled_stack _ Hs) as [Hl _ _ _]. cbn in Hl. rewrite Hrun in Hl.
  destruct (activations w) as [|a stack] eqn:Es; [done|]. cbn in Hev. apply negb_false_iff in Hev.
  cbn [run] in Hr. unfold leaveProgramBreak in Hr. apply bind_Done in Hr as ([] & w1 & [= <-] & Hr).
  assert (link (w <| activations := tl (activations w) |>) = link w) as El by (unfold link; cbn; rewrite Es; cbn; by rewrite Hev).
  revert Hr El. generalize (w <| activations := tl (activations w) |>). intros w1 Hr El.
  refine ((_ : triple (linkIs (link w)) _ (linkIs (link w))) w1 tt w' El Hr). keeps untied.
Qed.

Lemma connecting_calls l i :
  match i with Connect _ | Disconnect | Restore _ => True | _ => False end ->
  triple (callsAre l) (run i) (callsAre l).
Proof. destruct i; try done; intros _; cbn [run]; keeps ltac:(first [untied|done]). Qed.

Lemma jsReturns_calls o w r w' :
  allowed (JSReturns o) w = true -> jsReturns o w = Done (r, w') ->
  connection (channelOpen w) (m_frontend (agent w)) w' /\
  exists a a', r = Some a' /\ complete (activationShape a) a' /\ calls (activations w) = a :: calls (activations w').
Proof.
  intros Ha Hr. cbn in Ha. unfold jsReturns in Hr. apply bind_Done in Hr as (st & w0 & [= <- <-] & Hr).
  destruct (activations w) as [|a stack] eqn:Es; [done|]. apply bind_Done in Hr as ([] & w1 & [= <-] & Hr).
  pose proof (finish_linked (linkIs (link (w <| activations := tl (activations w) |>))) _ _ _ _ _ eq_refl Hr) as [= El1 El2 El3].
  split; [by split|]. destruct (finish_complete _ _ _ _ _ Ha Hr) as (a' & -> & Hc). exists a, a'. split_and!; [done..|].
  rewrite El3. cbn. rewrite Es. cbn. by rewrite (awaits_evaluates _ _ Ha).
Qed.
End Frames.

(** ** Sessions *)

Definition activeIds (l : list Pending) : list Z := map pd_callId (List.filter pd_active l).

Section Sessions.
Context {P : Platform} {R : RegExpEngine} {E : Type} `{V8Engine E} {L : ScriptsLoad E} {SA : ScriptAnswers E}.
Implicit Types s : Session E.

(** The ids of the requests that arrive through the channel of a frontend, and of
    those that lose it. *)
Definition receivedBy (i : SessionInput) s : list Z :=
  match i with
  | Message m => if channelOpen (s_world s) then option_list (requestId m) else []
  | Other _ => []
  end.

Definition droppedBy (i : SessionInput) s : list Z :=
  match i with Other Disconnect => activeIds (s_pending s) | _ => [] end.

(** The sessions that can be reached, with the ids received and dropped so far. *)
Inductive sessionRuns : Session E -> list Z -> list Z -> Prop :=
  | runs_new (e : E) : sessionRuns (mkSession (newInspector e) [] []) [] []
  | runs_engine s e received dropped :
      sessionRuns s received dropped -> sessionRuns (s <| s_world := (s_world s) <| engine := e |> |>) received dropped
  | runs_step s i s' received dropped :
      sessionRuns s received dropped -> sessionAllowed i s = true -> sessionStep i s = Done s' ->
      sessionRuns s' (received ++ receivedBy i s) (dropped ++ droppedBy i s).

(** A handler and the call of the agent that it waits for. *)
Definition waitsFor (p : Pending) (a : Activation) : Prop :=
  c_async (pd_command p) = false /\ covers (activationShape a) (c_outs (pd_command p)) = true.

Record SessionInv s (received dropped : list Z) : Prop := {
  session_world : Inv (s_world s);
  session_calls : Forall2 waitsFor (s_pending s) (calls (activations (s_world s)));
  session_active : existsb pd_active (s_pending s) = true -> connection true true (s_world s);
  session_ids : received ≡ₚ (s_sent s).*1 ++ dropped ++ activeIds (s_pending s);
  session_answers : Forall (fun r => answers r.1 r.2) (s_sent s);
}.

(** What is sent, and to whom. *)
Definition sends (id : Z) s s' : Prop :=
  exists l, s' = s <| s_sent := s_sent s ++ l |> /\ l.*1 = (if channelOpen (s_world s) then [id] else []) /\
    Forall (fun r => answers r.1 r.2) l.

Lemma report_sends id code message data s : sends id s (reportProtocolError id code message data s).
Proof.
  unfold reportProtocolError, sends. cbn [channel sessionBackend]. destruct (channelOpen (s_world s)).
  - eexists. split; [reflexivity|]. split; [done|]. constructor; [|done]. apply protocolError_answers.
  - exists []. rewrite app_nil_r. by destruct s.
Qed.

Lemma sendResponse_sends id error data result s :
  (error = [] -> is_Some result) -> exists s', sendResponse id error data result s = Done s' /\ sends id s s'.
Proof.
  unfold sendResponse, sends. intros Hr. destruct error; [|eexists; split; [done|apply report_sends]].
  destruct Hr as [o ->]; [done|]. cbn [channel sessionBackend].
  destruct (channelOpen (s_world s)); eexists; (split; [reflexivity|]).
  - eexists. split; [reflexivity|]. split; [done|]. constructor; [|done]. apply responseMessage_answers.
  - exists []. rewrite app_nil_r. by destruct s.
Qed.

Lemma sends_inv id s s' received dropped :
  SessionInv s received dropped -> sends id s s' ->
  SessionInv s' (received ++ if channelOpen (s_world s) then [id] else []) dropped.
Proof.
  intros [Hi Hc Ha Hids Hans] (l & -> & Hl & Hal). constructor; cbn; try done; [|by apply Forall_app].
  rewrite fmap_app, Hl, Hids. solve_Permutation.
Qed.

(** A handler that is found belongs to the table. *)
Lemma lookupCommand_elem method m c : lookupCommand method m = Some c -> c ∈ m.*2.
Proof.
  induction m as [|[k c'] m IH]; [done|]. cbn. case_decide; [intros [= ->]; apply list_elem_of_here|].
  intros Hm. apply list_elem_of_further. by apply IH.
Qed.

Lemma dispatchMap_handlers method c : m_dispatchMap method = Some c -> c ∈ handlers.
Proof.
  intros ([k c'] & -> & Hc)%lookupCommand_elem%list_elem_of_fmap. unfold dispatchMap in Hc.
  apply list_elem_of_In. by apply list_elem_of_In, in_combine_r in Hc.
Qed.

Lemma agent_accepts c s : c ∈ handlers -> available (c_domain c) s = true -> accepts c.
Proof.
  intros Hc Hr. assert (c ∈ agentCommands) as Ha.
  { apply list_elem_of_In, filter_In. split; [by apply list_elem_of_In|done]. }
  pose proof agentCommands_accept as Hall. rewrite Forall_forall in Hall. by apply Hall.
Qed.

(** A request without errors has the arguments of a method. *)
Lemma accepted_request c o s :
  c ∈ handlers -> requestErrors c o s = [] ->
  accepts c /\ is_Some (request c (match c_params c with
                                   | None => []
                                   | Some params => (getParams (getObject (u "params") o) params []).1
                                   end)).
Proof.
  unfold requestErrors. intros Hc He. destruct (available (c_domain c) s) eqn:Ea; [|done]. cbn [app] in He.
  assert (accepts c) as Hacc by (by eapply agent_accepts). split; [done|]. apply Hacc.
  destruct (c_params c) as [params|]; [|done]. apply getParams_typed. rewrite getParams_errors. cbn [default from_option id] in He. by rewrite He.
Qed.

(** The end of a handler whose agent has answered. *)
Lemma respond_session c id shape r s received dropped :
  SessionInv s received dropped -> c_async c = false -> covers shape (c_outs c) = true -> complete shape r ->
  exists s', respond c id r s = Done s' /\ SessionInv s' (received ++ if channelOpen (s_world s) then [id] else []) dropped.
Proof.
  intros Hs Hsync Hcov Hr. unfold respond. rewrite Hsync.
  edestruct (sendResponse_sends id (r_error r)) as (s' & -> & Hsend); [|exists s'; split; [done|by eapply sends_inv]].
  intros He. rewrite He. by eapply assemble_assigned; [apply Hr|].
Qed.

(** The agents are called. *)
Lemma perform_session s q p w' received dropped :
  SessionInv s received dropped -> allowed (Receives q) (s_world s) = true -> perform q (s_world s) = Done (p, w') ->
  connection (channelOpen (s_world s)) true w' /\
  match p with
  | Returned _ => SessionInv (s <| s_world := w' |>) received dropped
  | Waiting => forall id c, c_async c = false -> covers (requestShape q) (c_outs c) = true ->
      SessionInv (wait id c (s <| s_world := w' |>)) (received ++ if channelOpen (s_world s) then [id] else []) dropped
  end.
Proof.
  intros [Hi Hc Ha Hids Hans] Hq Hp. destruct (perform_calls _ _ _ _ Hi Hq Hp) as [Hi' Hc'].
  cbn in Hq. apply andb_prop in Hq as [Hf _].
  destruct (perform_connection _ _ q _ _ _ (conj eq_refl Hf) Hp) as [E1 E2]. split; [done|].
  destruct p as [r|]; [|destruct Hc' as (a & Hc' & Es); intros id c Hsync Hcov]; constructor; cbn; try done.
  - by rewrite Hc'.
  - intros [E3 _]%Ha. split; congruence.
  - rewrite Hc'. constructor; [|done]. split; [done|]. by rewrite Es.
  - rewrite E1. intros [E3|[E3 _]%Ha]%orb_prop; split; congruence.
  - rewrite E1, Hids. unfold activeIds. destruct (channelOpen (s_world s)); cbn; solve_Permutation.
Qed.

Lemma handler_session c id o s received dropped :
  SessionInv s received dropped -> allowed (Receives IsRunRequired) (s_world s) = true -> c ∈ handlers ->
  exists s', handler commandName c id o s = Done s' /\
    SessionInv s' (received ++ if channelOpen (s_world s) then [id] else []) dropped.
Proof.
  intros Hs Ha Hc. rewrite handler_errors. destruct (requestErrors c o s) as [|? ?] eqn:He.
  2: { eexists. split; [done|]. eapply sends_inv; [done|]. apply report_sends. }
  destruct (accepted_request c o s Hc He) as [(Hsync & _ & Hcov) [q Hq]]. cbn [invoke sessionBackend]. rewrite Hq.
  specialize (Hcov _ _ Hq). pose proof (session_world _ _ _ Hs) as Hi.
  destruct (perform_total q (s_world s) Hi Ha) as (p & w' & Ep). rewrite Ep.
  destruct (perform_session s q p w' _ _ Hs Ha Ep) as [[Hch _] Hp]. pose proof (perform_completed _ _ _ _ Hi Ep) as Hr.
  destruct p as [r|]; [|eauto]. rewrite <- Hch. by eapply (respond_session c id).
Qed.

Lemma message_session m s received dropped :
  SessionInv s received dropped -> sessionAllowed (Message m) s = true ->
  exists s', sessionStep (Message m) s = Done s' /\ SessionInv s' (received ++ receivedBy (Message m) s) dropped.
Proof.
  intros Hs [Hm%bool_decide_eq_true Ha]%andb_prop. cbn [sessionStep receivedBy].
  assert (m_frontend (agent (s_world s)) = true) as -> by (by cbn in Ha; apply andb_prop in Ha as [-> _]).
  unfold dispatch, requestId in *. destruct (parseJSON m) as [[| | | |o|]|]; try by destruct Hm. cbn [asObject].
  destruct (get (u "id") o) as [i|]; [|by destruct Hm]. destruct (get (u "method") o) as [[| | |method| |]|]; try by destruct Hm.
  cbn [mbind option_bind asString option_list]. destruct (m_dispatchMap method) as [c|] eqn:Ec.
  - apply handler_session; [done|done|]. by apply dispatchMap_handlers in Ec.
  - eexists. split; [done|]. eapply sends_inv; [done|]. apply report_sends.
Qed.

(** JavaScript returns: the handler on top of those that wait answers. *)
Lemma jsReturns_session o s received dropped :
  SessionInv s received dropped -> allowed (JSReturns o) (s_world s) = true -> orphaned (JSReturns o) (s_world s) = false ->
  exists s', sessionStep (Other (JSReturns o)) s = Done s' /\ SessionInv s' received dropped.
Proof.
  intros [Hi Hc Ha Hids Hans] Hal Ho. cbn [sessionStep].
  pose proof (run_inv (JSReturns o) (s_world s) Hi Hal Ho) as Hi'. cbn [run] in Hi'. unfold wp, drop_, mbind, M_bind in Hi'.
  destruct (jsReturns o (s_world s)) as [[r w']|] eqn:Ej; [|done].
  destruct (jsReturns_calls _ _ _ _ Hal Ej) as ([E1 E2] & a & a' & -> & Hr & E3). rewrite E3 in Hc.
  destruct (s_pending s) as [|p pending]; [by apply Forall2_nil_inv_l in Hc|].
  apply Forall2_cons in Hc as [[Hsync Hcov] Hc]. unfold activeIds in Hids. cbn in Ha, Hids.
  assert (SessionInv (s <| s_world := w' |> <| s_pending := pending |>)
            (if pd_active p then (s_sent s).*1 ++ dropped ++ activeIds pending else received) dropped) as Hi2.
  { constructor; cbn; try done.
    - intros Hp. destruct Ha as [? ?]; [by rewrite Hp, orb_true_r|]. split; congruence.
    - by destruct (pd_active p). }
  destruct (pd_active p) eqn:Ep; [|by eexists].
  destruct (respond_session _ (pd_callId p) _ _ _ _ _ Hi2 Hsync Hcov Hr) as (s' & -> & Hs'). exists s'. split; [done|].
  destruct Ha as [Hch _]; [done|]. cbn in Hs'. rewrite E1, Hch in Hs'.
  destruct Hs' as [J1 J2 J3 J4 J5]. constructor; try done. rewrite <- J4, Hids. cbn. solve_Permutation.
Qed.

(** The inputs between frontend and agents that are not messages. *)
Lemma link_session s w' received dropped :
  SessionInv s received dropped -> Inv w' -> link w' = link (s_world s) -> SessionInv (s <| s_world := w' |>) received dropped.
Proof.
  intros [Hi Hc Ha Hids Hans] Hi' [= E1 E2 E3]. constructor; cbn; try done; [by rewrite E3|].
  intros [? ?]%Ha. split; congruence.
Qed.

Lemma activeIds_disconnect l : activeIds (disconnectHandlers l) = [].
Proof. induction l; [done|]. exact IHl. Qed.

(** An input that is none of the above is run. *)
Lemma other_session i s :
  Inv (s_world s) -> allowed i (s_world s) = true ->
  match i with Receives _ | JSReturns _ => False | _ => True end ->
  exists w', run i (s_world s) = Done (tt, w') /\ Inv w' /\
    sessionStep (Other i) s =
      Done (s <| s_world := w' |>
              <| s_pending := match i with Disconnect => disconnectHandlers (s_pending s) | _ => s_pending s end |>).
Proof.
  intros Hi Ha Hn. assert (orphaned i (s_world s) = false) as Ho by (by destruct i).
  pose proof (run_inv i _ Hi Ha Ho) as Hw. unfold wp in Hw. destruct (run i (s_world s)) as [[[] w']|] eqn:Er; [|done].
  exists w'. split_and!; [done..|]. destruct i; try done; cbn [sessionStep]; by rewrite Er.
Qed.

Lemma disconnect_session s received dropped :
  SessionInv s received dropped -> allowed Disconnect (s_world s) = true ->
  exists s', sessionStep (Other Disconnect) s = Done s' /\ SessionInv s' received (dropped ++ activeIds (s_pending s)).
Proof.
  intros [Hi Hc Ha Hids Hans] Hal. destruct (other_session Disconnect s Hi Hal I) as (w' & Er & Hi' & ->).
  eexists. split; [done|]. pose proof (connecting_calls _ Disconnect I (s_world s) tt w' eq_refl Er) as El. unfold callsAre in El.
  constructor; cbn; try done.
  - rewrite El. apply Forall2_fmap_l. eapply Forall2_impl; [exact Hc|]. done.
  - intros Hp. exfalso. clear -Hp. induction (s_pending s); [done|]. by apply IHl.
  - pose proof (activeIds_disconnect (s_pending s)) as Hn. unfold activeIds in Hn at 1.
    by rewrite Hn, app_nil_r, Hids.
Qed.

(** No handler that can answer waits when a frontend connects. *)
Lemma connecting_session i s received dropped :
  match i with Connect _ | Restore _ => True | _ => False end ->
  SessionInv s received dropped -> allowed i (s_world s) = true ->
  exists s', sessionStep (Other i) s = Done s' /\ SessionInv s' received dropped.
Proof.
  intros Hci [Hi Hc Ha Hids Hans] Hal.
  assert (m_frontend (agent (s_world s)) = false) as Hf.
  { destruct i; try done; cbn in Hal; repeat (apply andb_prop in Hal as [Hal _]); by apply negb_true_iff. }
  destruct (other_session i s Hi Hal) as (w' & Er & Hi' & ->); [by destruct i|]. eexists. split; [done|].
  assert (callsAre (calls (activations (s_world s))) w') as El.
  { by eapply (connecting_calls _ i); [destruct i|..|exact Er]. }
  unfold callsAre in El. constructor; cbn; try done; [rewrite El; by destruct i|..|by destruct i].
  replace (match i with Disconnect => _ | _ => _ end) with (s_pending s) by (by destruct i). intros [_ Hf']%Ha. congruence.
Qed.

Lemma passing_session i s received dropped :
  passing i = true \/ i = LoopExit ->
  SessionInv s received dropped -> allowed i (s_world s) = true ->
  exists s', sessionStep (Other i) s = Done s' /\ SessionInv s' received dropped.
Proof.
  intros Hp Hs Hal. destruct (other_session i s (session_world _ _ _ Hs) Hal) as (w' & Er & Hi' & ->).
  { destruct i; try done; by destruct Hp. }
  eexists. split; [done|]. replace (match i with Disconnect => _ | _ => _ end) with (s_pending s) by (by destruct i; try done; destruct Hp).
  apply (link_session s w'); [done..|].
  destruct Hp as [Hp| ->]; [|apply loopExit_link; try done; by destruct Hs].
  by apply (run_linked (linkIs _) i Hp (s_world s) tt).
Qed.

(** JavaScript that returns to a script whose debugger is gone. *)
Definition sessionOrphaned (i : SessionInput) s : bool :=
  match i with Message _ => false | Other i => orphaned i (s_world s) end.

Lemma step_session i s received dropped :
  SessionInv s received dropped -> sessionAllowed i s = true -> sessionOrphaned i s = false ->
  exists s', sessionStep i s = Done s' /\ SessionInv s' (received ++ receivedBy i s) (dropped ++ droppedBy i s).
Proof.
  intros Hs Ha Ho. destruct i as [m|i].
  { cbn [droppedBy]. rewrite app_nil_r. by apply message_session. }
  cbn [receivedBy droppedBy]. rewrite app_nil_r.
  destruct i; try discriminate Ha; cbn [sessionAllowed] in Ha; rewrite ?app_nil_r.
  all: first [exact (jsReturns_session _ _ _ _ Hs Ha Ho) | exact (disconnect_session _ _ _ Hs Ha)
    | by refine (connecting_session _ _ _ _ _ Hs Ha)
    | refine (passing_session _ _ _ _ _ Hs Ha); first [by left|by right]].
Qed.

Lemma step_orphaned i s : Inv (s_world s) -> sessionOrphaned i s = true -> sessionStep i s = Crash.
Proof.
  intros Hi Ho. destruct i as [m|i]; [done|]. pose proof (run_orphaned i _ Hi Ho) as Hr. destruct i; try done.
  cbn [run sessionStep] in *. unfold drop_, mbind, M_bind in Hr. by destruct (jsReturns o (s_world s)) as [[]|].
Qed.

Lemma sessionRuns_inv s received dropped : sessionRuns s received dropped -> SessionInv s received dropped.
Proof.
  induction 1 as [e|s e received dropped _ IH|s i s' received dropped _ IH Ha Hst].
  - constructor; cbn; try done. apply newInspector_inv.
  - apply link_session; [done| |done]. destruct IH as [[[] Hs] _ _ _ _]. by split.
  - destruct (sessionOrphaned i s) eqn:Ho.
    + rewrite (step_orphaned i s) in Hst; [done| |done]. by destruct IH.
    + destruct (step_session i s _ _ IH Ha Ho) as (s1 & Hs1 & Hinv). rewrite Hst in Hs1. by injection Hs1 as ->.
Qed.
End Sessions.
