(* ===== verification/DebuggerTheorems.v ===== *)
(** * The debugger's behaviour

    What holds of the inspector's debugger in every state it can reach: it
    handles every input, it is paused when and only when its message loop runs,
    hitting a breakpoint pauses and resuming ends the pause, and commands that do
    not apply are refused without an effect. *)

From S2P Require Import Prelude Platform WTFString DecimalNumber JSONValues JSONParser StringSearch ContentSearch ContentSearchFacts InspectorState InspectorStateFacts Dispatcher Engine NativeObjects ModelEngine World Triples DebuggerOps InjectedScripts AgentState Breakpoints AsyncCalls Promises Pausing Evaluation RuntimeAgent PauseLoop Machine PauseInvariant PauseSafety EvaluationSafety MachineSafety.

(** ** A run for the witnesses *)

Section Runs.
Context {P : Platform} {R : RegExpEngine} {E : Type} `{V8Engine E}.

(** The inputs one after the other, as long as they can arrive and are handled. *)
Fixpoint runAll (inputs : list Input) (w : World E) : World E :=
  match inputs with
  | [] => w
  | i :: inputs' =>
      if allowed i w
      then match run i w with Done (_, w') => runAll inputs' w' | Crash => w end
      else w
  end.

Lemma runAll_reachable inputs w : reachable w -> reachable (runAll inputs w).
Proof.
  revert w. induction inputs as [|i inputs IH]; intros w Hw; cbn [runAll]; [done|].
  destruct (allowed i w) eqn:Ha; [|done]. destruct (run i w) as [[[] w']|] eqn:Er; [|done].
  apply IH. by eapply reachable_input.
Qed.

End Runs.

Definition exampleScript : V8Script :=
  mkV8Script 7 (Some (u "a.js")) None None (u "f();") [4] 0 0 (u "[worker]") false.

(** Stopped in a function of the script. *)
Definition exampleIsolate : Isolate := mkIsolate ∅ ∅ [mkFrame 7 0 0 (u "f") (u "a.js") false] [exampleScript] false.

#[local] Existing Instance IntegerPlatform.platform.
#[local] Existing Instance literalEngine.
#[local] Existing Instances modelEngine modelLoads.

Definition connected : list Input := [Connect true; Receives Enable; Receives (SetBreakpointByUrl 0 (Some (u "a.js")) None None None)].
Definition exampleWorld : World Isolate := runAll connected (newInspector exampleIsolate).
Definition examplePaused : World Isolate := runAll (connected ++ [Event (BreakEvent 1 [1])]) (newInspector exampleIsolate).

Lemma exampleWorld_reachable : reachable exampleWorld.
Proof. exact (runAll_reachable _ _ (reachable_new _)). Qed.
Lemma examplePaused_reachable : reachable examplePaused.
Proof. exact (runAll_reachable _ _ (reachable_new _)). Qed.

(** ** The claims *)

Section Claims.
Context {P : Platform} {R : RegExpEngine} {E : Type} `{V8Engine E} {L : ScriptsLoad E}.
Implicit Types w : World E.


(** C4 Between inputs the agent considers the program paused exactly while the
    message loop of a pause runs and the agent listens; while that loop has not
    been told to quit V8's execution state is at hand; without a loop the debugger
    is not paused; and the agent listens exactly when its persistent state says
    the debugger is enabled. *)
Theorem debugger_pause_consistent w :
  reachable w ->
  (m_pausedScriptState (agent w) <> None <-> m_runningNestedMessageLoop (vd w) = true /\ m_listener (wtd w) = true) /\
  (m_runningNestedMessageLoop (vd w) = true -> m_quit (wtd w) = false ->
     Debugger.isPaused (vd w) = true /\ m_executionState (vd w) = true) /\
  (m_runningNestedMessageLoop (vd w) = false -> Debugger.isPaused (vd w) = false) /\
  Properties.getBoolean DebuggerAgentState.debuggerEnabled (stateProperties w) = m_listener (wtd w) /\
  Debugger.enabled (vd w) = m_listener (wtd w).
Proof.
  intros Hw. destruct (reachable_inv w Hw) as [[_ _ _ Hs _] [Hp Hq Hi He]]. cbn in *.
  unfold Debugger.isPaused. split; [exact Hp|]. split; [|split; [|done]].
  - intros Hr Hq'. destruct (Hq Hr Hq') as (Hx & Hy & _). split; [|done]. by destruct (vd_pausedScriptState (vd w)).
  - intros Hr. by rewrite Hi.
Qed.

Lemma ended_core v w (m : M (World E) (Reply unit)) : wp m (ended v) w -> wp m (fun _ => Core (continued v)) w.
Proof. intros Hm. eapply wp_mono; [exact Hm|]. by intros r w1 [_ ?]. Qed.

(** What follows the message loop. *)
Lemma leaveProgramBreak_wp v w :
  Core v w -> v_listener v = true ->
  wp leaveProgramBreak (fun _ w' =>
    m_runningNestedMessageLoop (vd w') = false /\ m_pausedScriptState (agent w') = None /\
    Debugger.isPaused (vd w') = false /\ (channelOpen w = true -> last (notifications w') = Some Frontend.resumed)) w.
Proof.
  intros Hc Hl. assert (v_frontend v = true) as Hf by (destruct Hc as [_ _ _ _ Hf]; auto).
  destruct Hc as [<-]. cbn in Hl, Hf.
  unfold leaveProgramBreak, popActivation, didContinue, clearBreakDetails, Frontend.send, setRunning, finishBreak, Debugger.clearPaused.
  do 4 wstep. cbn. rewrite Hl. repeat wstep; cbn [skipAction] in *; try done.
  - repeat split. intros _. cbn. by rewrite last_snoc.
  - repeat split. intros Ho. cbn in *. congruence.
  - cbn in *. congruence.
Qed.

(** C5 When the program is paused and a command can arrive, resuming or stepping
    makes the message loop quit; and when it has quit the program is not paused any
    more, for the agent and for the debugger, and the frontend has been told so. *)
Theorem resuming_ends_pause w i :
  reachable w -> m_pausedScriptState (agent w) <> None -> allowed (Receives i) w = true ->
  i ∈ [CommandResume; CommandStepInto; CommandStepOver; CommandStepOut] ->
  exists w1 w2, run (Receives i) w = Done (tt, w1) /\ allowed LoopExit w1 = true /\ run LoopExit w1 = Done (tt, w2) /\
    m_runningNestedMessageLoop (vd w2) = false /\ m_pausedScriptState (agent w2) = None /\
    Debugger.isPaused (vd w2) = false /\ (channelOpen w1 = true -> last (notifications w2) = Some Frontend.resumed).
Proof.
  intros Hw Hp Ha Hi. destruct (reachable_inv w Hw) as [Hc Hs]. change (Core (view w) w) in Hc.
  cbn in Ha. apply andb_prop in Ha as [_ [Hq%negb_true_iff Hev%negb_true_iff]%andb_prop].
  set (v := view w) in *. change (v_paused v <> None) in Hp. change (v_running v && v_quit v = false) in Hq.
  change (evaluating (v_stack v) = false) in Hev.
  destruct (proj1 (settled_paused v Hs) Hp) as [Hr Hl]. rewrite Hr in Hq. destruct (settled_waiting v Hs Hr Hq) as (Hvd & Hx & _).
  assert (waiting v) as Hwait by done. clearbody v.
  assert (wp (run (Receives i)) (fun _ => Core (continued v)) w) as Hrun.
  { rewrite !elem_of_cons, elem_of_nil in Hi. cbn [run]. apply drop_post.
    destruct Hi as [->|[->|[->|[->|[]]]]]; cbn [perform]; apply replies_post, ended_core.
    - by apply resume_ended.
    - by apply stepInto_ended.
    - by apply stepOver_ended.
    - by apply stepOut_ended. }
  unfold wp in Hrun. destruct (run (Receives i) w) as [[[] w1]|]; [|done].
  pose proof (leaveProgramBreak_wp (continued v) w1 Hrun Hl) as Hout. unfold wp in Hout.
  destruct (leaveProgramBreak w1) as [[[] w2]|] eqn:Ew2; [|done]. exists w1, w2. split; [done|]. split; [|done].
  destruct Hrun as [Hv]. change (v_running (view w1) && v_quit (view w1) && negb (evaluating (v_stack (view w1))) = true).
  rewrite Hv. cbn. rewrite Hr, Hev. destruct (v_vdPaused v); [|done]. by rewrite orb_true_r.
Qed.

(** What the rest of a pause does not touch. *)
Definition unchanged (c : bool) (sb : gmap ustring (ustring * BreakpointSource)) w : Prop :=
  channelOpen w = c /\ m_serverBreakpoints (agent w) = sb.

Lemma callInjected_unchanged {A} c sb s (f : E -> JS (A * E)) :
  triple (unchanged c sb) (Injected.callInjected s f) (unchanged c sb).
Proof.
  unfold Injected.callInjected. apply (triple_bind _ (unchanged c sb)); [apply triple_gets|]. intros e. generalize (f e).
  intros t. induction t as [[a e']|x g k IH|n' k IH|n' k IH]; cbn [Injected.runJS]; keeps done.
Qed.
#[local] Hint Resolve callInjected_unchanged : keeps.

Lemma setBreakReason_unchanged c sb s x b : triple (unchanged c sb) (setBreakReason s x b) (unchanged c sb).
Proof. keeps done. Qed.

Lemma flush_unchanged c sb : triple (unchanged c sb) flushAsyncOperationEvents (unchanged c sb).
Proof. keeps done. Qed.

Lemma currentCallFrames_unchanged c sb : triple (unchanged c sb) currentCallFrames (unchanged c sb).
Proof. keeps done. Qed.

Lemma asyncStackTraceLoop_unchanged c sb l n r : triple (unchanged c sb) (asyncStackTraceLoop l n r) (unchanged c sb).
Proof. revert n r. induction l as [|s l IH]; intros n r; cbn [asyncStackTraceLoop]; keeps done; apply IH. Qed.

Lemma currentAsyncStackTrace_unchanged c sb : triple (unchanged c sb) currentAsyncStackTrace (unchanged c sb).
Proof. keeps done; apply asyncStackTraceLoop_unchanged. Qed.

(** The breakpoints of the protocol among those that V8 reports. *)
Definition protocolIds (sb : gmap ustring (ustring * BreakpointSource)) (hit : list ustring) : list ustring :=
  omap (fun d => fst <$> sb !! d) hit.

Lemma hitBreakpointIds_wp v c sb l w :
  Core v w -> unchanged c sb w ->
  wp (hitBreakpointIds l) (fun ids w' => Core v w' /\ unchanged c sb w' /\ ids = protocolIds sb l) w.
Proof.
  revert w. induction l as [|d l IH]; intros w Hc Hu; cbn [hitBreakpointIds protocolIds omap list_omap]; [by wstep|].
  do 2 wstep. unfold id. rewrite (proj2 Hu). destruct (sb !! d) as [[b src]|]; cbn; [|by apply IH]. wstep.
  eapply (wp_mono _ (fun _ w' => Core v w' /\ unchanged c sb w')).
  { wstep; [|done]. wstep. split; [by apply core_setAgent|done]. }
  intros [] w1 [Hc1 Hu1]. wstep. eapply wp_mono; [by apply IH|]. intros ids w2 (Hc2 & Hu2 & ->). by wstep.
Qed.

(** A call that keeps the core by [L] and leaves the rest unchanged by [U]. *)
Tactic Notation "wboth" uconstr(L) uconstr(U) :=
  eapply wp_mono; [eapply wp_triple; [eapply L; eauto|eapply U|eassumption]|cbv beta; intros ? ? [? ?]].

Lemma setAgent_unchanged c sb f :
  (forall a, m_serverBreakpoints (f a) = m_serverBreakpoints a) ->
  triple (unchanged c sb) (setAgent (E:=E) f) (unchanged c sb).
Proof. intros Hf. apply triple_modify. intros w [<- <-]. split; [done|]. apply Hf. Qed.

Definition sent (c : bool) (m : jobject) w : Prop := c = true -> last (notifications w) = Some m.

Lemma send_last c sb m : triple (unchanged c sb) (Frontend.send m) (sent c m).
Proof.
  intros w r w' [<- _]. unfold Frontend.send, getAgent, gets, when, modify, crash, mbind, M_bind.
  destruct (m_frontend (agent w)); [|done]. destruct (channelOpen w) eqn:Ec; intros [= _ <-]; [|done].
  intros _. cbn. by rewrite last_snoc.
Qed.

(** After the notification nothing else is sent. *)
Lemma setAgent_sent c m f : triple (sent c m) (setAgent f) (sent c m).
Proof. by apply triple_modify. Qed.
Lemma removeContinue_sent c m : triple (sent c m) removeContinueToLocation (sent c m).
Proof. keeps done. Qed.

Lemma didPause_notifies v w s fr l :
  Core v w -> v_listener v = true -> m_skipAllPauses (agent w) = false -> l <> [] ->
  wp (didPause s (Some fr) None l false) (fun r w' => r = ScriptDebugListener.NoSkip /\
    exists frames reason data trace, sent (channelOpen w)
      (Frontend.paused frames reason data (protocolIds (m_serverBreakpoints (agent w)) l) trace) w') w.
Proof.
  intros Hc Hl Hskip Hne. assert (v_frontend v = true) as Hf by (destruct Hc as [_ _ _ _ Hf]; auto).
  unfold didPause, skipRequest. do 3 wstep. unfold id. rewrite Hskip. destruct l as [|d l]; [done|]. do 2 wstep.
  set (sb := m_serverBreakpoints (agent w)). set (c := channelOpen w). assert (unchanged c sb w) as Hu by done.
  clearbody sb c. wboth setAgent_core setAgent_unchanged; [done|]. wstep.
  eapply (wp_mono _ (fun _ w' => Core (v <| v_paused := Some s |>) w' /\ unchanged c sb w')).
  { wstep. split; [by apply core_setPaused|done]. }
  intros [] w2 [Hc2 Hu2]. set (v' := v <| v_paused := Some s |>) in *.
  assert (v_listener v' = true /\ v_frontend v' = true) as [Hl' Hf'] by done. clearbody v'.
  wstep. wboth setBreakReason_core setBreakReason_unchanged. wstep.
  eapply wp_mono; [by eapply hitBreakpointIds_wp|]. intros ids w3 (Hc3 & Hu3 & ->). do 3 wstep.
  eapply (wp_mono _ (fun _ w' => Core v' w' /\ unchanged c sb w')).
  { wstep; [by wstep|]. eapply wp_triple; [by apply flushAsyncOperationEvents_core|apply flush_unchanged|done]. }
  intros [] w4 [Hc4 Hu4]. wstep. wboth currentCallFrames_core currentCallFrames_unchanged. do 3 wstep.
  wboth currentAsyncStackTrace_core currentAsyncStackTrace_unchanged. wstep.
  wboth send_core send_last. wstep. wboth setAgent_listening setAgent_sent. wstep.
  wboth clearStepIntoAsync_core setAgent_sent. wstep. wboth removeContinueToLocation_core removeContinue_sent.
  wstep. split; [done|]. do 4 eexists. eassumption.
Qed.
(** The program is in a JavaScript function. *)
Definition inFunction w : Prop :=
  inContext (engine w) = true /\ hasStackTrace (engine w) = true /\ execFrames (engine w) <> [].

Lemma currentCallFrames_some v w :
  Core v w -> v_listener v = true -> inFunction w ->
  wp Debugger.currentCallFrames (fun r w' => w' = w /\ is_Some r) w.
Proof.
  intros Hc Hl (H1 & H2 & H3). unfold Debugger.currentCallFrames, Debugger.currentCallFramesInner, Debugger.wrapCallFrames,
    Debugger.debuggerScriptLocal. do 2 wstep. rewrite H1, H2. cbn [andb negb]. do 4 wstep. 
  destruct (m_debuggerScript (vd w)) eqn:Es.
  - do 3 wstep; [|repeat wstep; eauto]. exfalso.
    change (take (Z.to_nat (Z.of_nat (length (execFrames (engine w))))) (execFrames (engine w)) = []) in Heql.
    rewrite Nat2Z.id, firstn_all in Heql. done.
  - destruct Hc as [_ _ _ Hs _]. unfold Debugger.enabled in Hs. rewrite Es in Hs. congruence.
Qed.

(** A break that is not skipped. *)
Definition stopped w context hit w' : Prop :=
  exists frames reason data trace,
    m_runningNestedMessageLoop (vd w') = true /\ m_quit (wtd w') = false /\ m_pausedScriptState (agent w') = Some context /\
    sent (channelOpen w) (Frontend.paused frames reason data (protocolIds (m_serverBreakpoints (agent w)) hit) trace) w'.

Lemma handleProgramBreak_hit v w context n ns :
  Core v w -> v_listener v = true -> v_running v = false -> m_skipAllPauses (agent w) = false -> inFunction w ->
  wp (handleProgramBreak context None (n :: ns) false) (fun _ => stopped w context (map String_number (n :: ns))) w.
Proof.
  intros Hc Hl Hr Hskip Hin. unfold handleProgramBreak. do 4 wstep.
  rewrite (core_listener v) by done. destruct Hc as [Hv Ha Hk He Hf].
  assert (m_runningNestedMessageLoop (vd w) = false) as -> by (by rewrite <- Hr, <- Hv). rewrite Hl. cbn [negb orb].
  set (v1 := v <| v_vdPaused := Some context |> <| v_executionState := true |>). do 3 wstep.
  match goal with |- wp _ _ ?w1 => set (w1' := w1); assert (Core v1 w1') as Hc1 by (constructor; [by subst v1; rewrite <- Hv|done..]) end.
  eapply wp_mono; [by eapply currentCallFrames_some|]. intros fr w2 [-> [fr' ->]]. wstep.
  eapply wp_mono; [apply wp_and; [by eapply didPause_core|by eapply didPause_notifies]|].
  intros r w2 [Hc2 (-> & f & rs & d & t & Hsent)]. unfold setRunning, pushActivation. repeat wstep.
  exists f, rs, d, t. split; [done|]. split; [done|]. split; [|exact Hsent].
  destruct Hc2 as [Hv2]. change (v_paused (view w2) = Some context). by rewrite Hv2.
Qed.

End Claims.

(** ** Witnesses *)


Lemma debugger_pause_consistent_witness :
  m_pausedScriptState (agent examplePaused) = Some 1 /\ m_runningNestedMessageLoop (vd examplePaused) = true.
Proof.
  assert (m_pausedScriptState (agent examplePaused) = Some 1) as Hp by (vm_compute; reflexivity).
  split; [exact Hp|]. destruct (debugger_pause_consistent examplePaused examplePaused_reachable) as [Hc _].
  apply Hc. rewrite Hp. discriminate.
Defined.

Lemma resuming_ends_pause_witness :
  exists w1 w2, run (Receives CommandResume) examplePaused = Done (tt, w1) /\ run LoopExit w1 = Done (tt, w2) /\
    m_pausedScriptState (agent w2) = None.
Proof.
  destruct (resuming_ends_pause examplePaused CommandResume) as (w1 & w2 & H1 & _ & H2 & _ & H3 & _).
  - apply examplePaused_reachable.
  - vm_compute. discriminate.
  - vm_compute. reflexivity.
  - apply list_elem_of_here.
  - exists w1, w2. auto.
Defined.

