(* ===== verification/SessionTheorems.v ===== *)
(** * Sessions: what the frontend can rely on

    The dispatcher and the agents together: every message of the frontend is
    handled, every request is answered once, and what happens to the pauses on
    exceptions around the JavaScript that a request runs. *)

From S2P Require Import Prelude Platform WTFString DecimalNumber JSONValues JSONParser StringSearch ContentSearch ContentSearchFacts InspectorState InspectorStateFacts Dispatcher Commands DispatcherFacts Engine NativeObjects ModelEngine World Triples DebuggerOps InjectedScripts AgentState Breakpoints AsyncCalls Promises Pausing Evaluation RuntimeAgent PauseLoop Machine PauseInvariant PauseSafety EvaluationSafety MachineSafety Answers Session SessionFacts DebuggerTheorems.

(** ** A session for the witnesses *)

Section Runs.
Context {P : Platform} {R : RegExpEngine} {E : Type} `{V8Engine E}.

(** The inputs one after the other, as long as they can arrive and are handled, with
    the ids of the requests received and dropped. *)
Fixpoint sessionRunAll (inputs : list SessionInput) (s : Session E) (received dropped : list Z)
    : Session E * list Z * list Z :=
  match inputs with
  | [] => (s, received, dropped)
  | i :: inputs' =>
      if sessionAllowed i s
      then match sessionStep i s with
           | Done s' => sessionRunAll inputs' s' (received ++ receivedBy i s) (dropped ++ droppedBy i s)
           | Crash => (s, received, dropped)
           end
      else (s, received, dropped)
  end.

Lemma sessionRunAll_runs inputs s received dropped :
  sessionRuns s received dropped ->
  let '(s', received', dropped') := sessionRunAll inputs s received dropped in sessionRuns s' received' dropped'.
Proof.
  revert s received dropped. induction inputs as [|i inputs IH]; intros s received dropped Hs; cbn [sessionRunAll]; [done|].
  destruct (sessionAllowed i s) eqn:Ha; [|done]. destruct (sessionStep i s) as [s'|] eqn:Er; [|done].
  apply IH. by eapply runs_step.
Qed.
End Runs.

#[local] Existing Instance IntegerPlatform.platform.
#[local] Existing Instance literalEngine.
#[local] Existing Instances modelEngine modelLoads modelAnswers.

Definition requestText (id : Z) (method : string) (params : jobject) : ustring :=
  toJSONString (JSONObject (setObject (u "params") params (setString (u "method") (u method) (setInt (u "id") id [])))).

(** A script is compiled and run without pausing on exceptions; in it the program
    stops. *)
Definition exampleInputs : list SessionInput :=
  [Other (Connect true); Message (requestText 1 "Debugger.enable" []);
   Message (requestText 2 "Debugger.compileScript"
     (setBoolean (u "persistScript") true (setString (u "sourceURL") (u "b.js") (setString (u "expression") (u "f()") []))));
   Other (JSReturns (CompileEnds 9));
   Message (requestText 3 "Debugger.runScript"
     (setBoolean (u "doNotPauseOnExceptionsAndMuteConsole") true (setString (u "scriptId") (u "9") [])));
   Other (Event (BreakEvent 1 []));
   Message (requestText 4 "DOM.enable" []); Message (requestText 5 "Debugger.nothing" [])].

Definition exampleSession (inputs : list SessionInput) : Session Isolate * list Z * list Z :=
  sessionRunAll inputs (mkSession (newInspector exampleIsolate) [] []) [] [].

Lemma exampleSession_runs inputs :
  sessionRuns (exampleSession inputs).1.1 (exampleSession inputs).1.2 (exampleSession inputs).2.
Proof.
  pose proof (sessionRunAll_runs inputs (mkSession (newInspector exampleIsolate) [] []) [] [] (runs_new _)) as Hr.
  unfold exampleSession. by destruct (sessionRunAll inputs _ _ _) as [[s r] d].
Qed.

(** ** Pauses on exceptions *)

Section Muting.
Context {P : Platform} {R : RegExpEngine} {E : Type} `{V8Engine E} {L : ScriptsLoad E}.
Implicit Types w : World E.

Definition pauseState w : option Z := _pauseOnExceptionsState <$> m_debuggerScript (vd w).
Definition pauseIs n w : Prop := pauseState w = Some n.

(** With the scripts that [compileScript] has kept. *)
Definition quiet n c w : Prop := pauseIs n w /\ m_compiledScripts (agent w) = c.

Lemma callInjected_quiet {A} I s (f : E -> JS (A * E)) :
  (forall w w', vd w' = vd w -> agent w' = agent w -> I w -> I w') -> triple I (Injected.callInjected s f) I.
Proof.
  intros Hi. unfold Injected.callInjected. apply (triple_bind _ I); [apply triple_gets|]. intros e. generalize (f e).
  intros t. induction t as [[a e']|x g k IH|n' k IH|n' k IH]; cbn [Injected.runJS]; keeps ltac:(idtac; match goal with Hw : I ?w |- _ => by apply (Hi w) end).
Qed.

Lemma callInjected_pause {A} n s (f : E -> JS (A * E)) : triple (pauseIs n) (Injected.callInjected s f) (pauseIs n).
Proof. apply callInjected_quiet. unfold pauseIs, pauseState. congruence. Qed.

Lemma callInjected_compiled {A} n c s (f : E -> JS (A * E)) : triple (quiet n c) (Injected.callInjected s f) (quiet n c).
Proof. apply callInjected_quiet. unfold quiet, pauseIs, pauseState. intros w w' -> ->. done. Qed.
#[local] Hint Resolve callInjected_pause callInjected_compiled : keeps.

Lemma injectedScriptFor_quiet n c i : triple (quiet n c) (Injected.injectedScriptFor i) (quiet n c).
Proof. keeps done. Qed.

Lemma injectedScriptForEval_pause n i : triple (pauseIs n) (injectedScriptForEval i) (pauseIs n).
Proof. keeps done. Qed.

Lemma wrapObject_pause n s v g : triple (pauseIs n) (Injected.wrapObject s v g) (pauseIs n).
Proof. keeps done. Qed.

(** Turning the pauses off and on again. *)
Lemma getPause_wp n w : pauseIs n w -> wp Debugger.pauseOnExceptionsState (fun r w' => r = n /\ w' = w) w.
Proof.
  unfold pauseIs, pauseState, wp, Debugger.pauseOnExceptionsState, Debugger.debuggerScriptLocal, getVD, gets, mbind, M_bind. intros Hn.
  destruct (m_debuggerScript (vd w)) as [d|]; [|done]. by injection Hn as <-.
Qed.

Lemma setPause_wp n m w : pauseIs n w -> wp (Debugger.setPauseOnExceptionsState m) (fun _ => pauseIs m) w.
Proof.
  unfold pauseIs, pauseState, wp, Debugger.setPauseOnExceptionsState, Debugger.debuggerScriptLocal, getVD, gets, mbind, M_bind.
  intros Hn. destruct (m_debuggerScript (vd w)) as [d|]; done.
Qed.

Lemma changePause_wp n m w :
  pauseIs n w -> wp (when (negb (n =? m)) (Debugger.setPauseOnExceptionsState m)) (fun _ => pauseIs m) w.
Proof.
  intros Hn. destruct (n =? m) eqn:Em; [|by eapply setPause_wp]. apply Z.eqb_eq in Em as ->. done.
Qed.

Lemma mutePauses_wp n w :
  pauseIs n w -> wp (mutePauses true) (fun r w' => r = n /\ pauseIs DebuggerScriptJS.DontPauseOnExceptions w') w.
Proof.
  intros Hn. unfold mutePauses. wstep. wcall getPause_wp. destruct_and!. subst. wstep. cbn [andb].
  wcall changePause_wp. by wstep.
Qed.

Lemma unmutePauses_wp n m w : pauseIs n w -> wp (unmutePauses m true) (fun _ => pauseIs m) w.
Proof. intros Hn. unfold unmutePauses. cbn [when]. wstep. wcall getPause_wp. destruct_and!. subst. by apply changePause_wp. Qed.

Lemma scopePause_wp n m w :
  pauseIs n w -> wp (Runtime.setPauseOnExceptionsState m) (fun r w' => r = n /\ pauseIs m w') w.
Proof.
  intros Hn. unfold Runtime.setPauseOnExceptionsState. do 2 wstep.
  assert (Debugger.enabled (vd w) = true) as ->.
  { unfold pauseIs, pauseState in Hn. unfold Debugger.enabled. by destruct (m_debuggerScript (vd w)). }
  cbn [negb]. wstep. wcall getPause_wp. destruct_and!. subst. wstep. wcall changePause_wp. by wstep.
Qed.
(** A script that is not there. *)
Definition compiledAre c w : Prop := m_compiledScripts (agent w) = c.

Lemma runScript_absent n c w scriptId group :
  Core (view w) w -> v_enabled (view w) = true -> quiet n c w -> scriptId ∉ c ->
  wp (runScript scriptId None group (Some true)) (fun p w' =>
    p = Returned (ErrorReply executionFailed) /\ pauseIs DebuggerScriptJS.DontPauseOnExceptions w') w.
Proof.
  intros Hc He Hq Hn. unfold runScript, enabled, getStateBoolean, injectedScriptForEval. do 2 wstep.
  change (Properties.getBoolean _ _) with (v_enabled (view w)). rewrite He. cbn [negb]. do 4 wstep.
  eapply wp_mono; [eapply wp_triple; [by apply (injectedScriptFor_core _ _ _ Hc)|by apply (injectedScriptFor_quiet n c)|done]|].
  intros script w1 [[_ Hs] [Hp Hk]]. wstep. cbn [present mbind option_bind]. unfold present. cbn. rewrite Hs. wstep.
  eapply wp_mono; [eapply (wp_triple _ _ (compiledAre c) (compiledAre c)); [by apply (mutePauses_wp n)|keeps done|done]|].
  intros previous w2 [[_ Hp2] Hk2]. do 2 wstep. rewrite Hk2. destruct (decide (scriptId ∈ c)); [done|]. by wstep.
Qed.

(** The commands that run JavaScript and are told not to pause on exceptions. *)
Definition muted (r : Request) : bool :=
  match r with
  | EvaluateOnCallFrame _ _ _ _ mute _ _ | RunScript _ _ _ mute | Evaluate _ _ _ mute _ _ _
  | CallFunctionOnObject _ _ _ mute _ _ => default false mute
  | _ => false
  end.

(** The call remembers the state before. *)
Definition remembers (n : Z) (a : Activation) : Prop :=
  match a with
  | EvaluatingOnCallFrame _ _ previous mute | RunningScript _ _ _ previous mute | RuntimeEvaluating _ _ previous mute =>
      previous = n /\ mute = true
  | _ => False
  end.

(** From a state with [n] the method [m] gets to a call that remembers [k]. *)
Definition mutes {B} (n k : Z) (m : M (World E) (Progress B)) : Prop :=
  forall w w', pauseIs n w -> m w = Done (Waiting, w') ->
    pauseIs DebuggerScriptJS.DontPauseOnExceptions w' /\ exists a, head (activations w') = Some a /\ remembers k a.

Lemma mutes_bind {B C} n k (m : M (World E) C) (f : C -> M (World E) (Progress B)) :
  triple (pauseIs n) m (pauseIs n) -> (forall c, mutes n k (f c)) -> mutes n k (m ≫= f).
Proof. intros Hm Hf w w' Hn (c & w1 & Hc & Hr)%bind_Done. eapply Hf; [|done]. by eapply Hm. Qed.

Lemma mutes_ret {B} n k (b : B) : mutes n k (mret (Returned b)).
Proof. by intros w w' _ [= ]. Qed.

Lemma mutes_push {B} k a :
  remembers k a -> mutes DebuggerScriptJS.DontPauseOnExceptions k (pushActivation a ;; mret (Waiting : Progress B)).
Proof. intros Ha w w' Hn ([] & w1 & [= <-] & [= <-])%bind_Done. split; [done|]. by exists a. Qed.

Lemma mutes_later {B} n k outputs (m : M (World E) (Progress (Reply B))) : mutes n k m -> mutes n k (repliesLater outputs m).
Proof. intros Hm w w' Hn ([r|] & w1 & Hr & [= ])%bind_Done. subst. by eapply Hm. Qed.

Lemma mutes_mute {B} n (f : Z -> M (World E) (Progress B)) :
  mutes DebuggerScriptJS.DontPauseOnExceptions n (f n) -> mutes n n (mutePauses true ≫= f).
Proof.
  intros Hf w w' Hn (r & w1 & Hm & Hr)%bind_Done. pose proof (mutePauses_wp n w Hn) as Hw. unfold wp in Hw. rewrite Hm in Hw.
  destruct Hw as [-> Hw]. by eapply Hf.
Qed.

Lemma mutes_enter {B} n (f : Z -> M (World E) (Progress B)) :
  mutes DebuggerScriptJS.DontPauseOnExceptions n (f n) -> mutes n n (Runtime.enterCallScope true ≫= f).
Proof.
  intros Hf w w' Hn (r & w1 & Hm & Hr)%bind_Done. pose proof (scopePause_wp n DebuggerScriptJS.DontPauseOnExceptions w Hn) as Hw.
  unfold wp in Hw. cbn [Runtime.enterCallScope] in Hm. rewrite Hm in Hw. destruct Hw as [-> Hw]. by eapply Hf.
Qed.

Ltac mutes :=
  repeat lazymatch goal with
    | |- mutes _ _ (mret _) => apply mutes_ret
    | |- mutes _ _ (pushActivation _ ≫= _) => by apply mutes_push
    | |- mutes _ _ (mutePauses _ ≫= _) => apply mutes_mute
    | |- mutes _ _ (Runtime.enterCallScope _ ≫= _) => apply mutes_enter
    | |- mutes _ _ (_ ≫= _) => apply mutes_bind; [keeps done|intros ?]
    | |- mutes _ _ (match ?x with _ => _ end) => destruct x
    | |- mutes _ _ (let _ := _ in _) => cbv zeta
    | |- mutes _ _ ?m => let h := head m in unfold h; cbv beta
    end.

Lemma perform_mutes n r : muted r = true -> mutes n n (perform r).
Proof.
  destruct r; try done; cbn [muted perform]; match goal with |- default false ?b = _ -> _ => destruct b as [[]|] end; try done; intros _.
  all: apply mutes_later; mutes.
Qed.

(** JavaScript returns. *)
Lemma wp_to_triple {B} I J (m : M (World E) B) : (forall w, I w -> wp m (fun _ => J) w) -> triple I m J.
Proof. intros Hm w r w' Hi Hr. specialize (Hm w Hi). unfold wp in Hm. by rewrite Hr in Hm. Qed.

Lemma unmutePauses_pause n k : triple (pauseIs n) (unmutePauses k true) (pauseIs k).
Proof. apply wp_to_triple. intros w Hn. by eapply unmutePauses_wp. Qed.

Lemma leaveCallScope_pause n k : triple (pauseIs n) (Runtime.leaveCallScope k true) (pauseIs k).
Proof.
  apply wp_to_triple. intros w Hn. unfold Runtime.leaveCallScope. cbn [when]. wstep.
  eapply wp_mono; [by apply (scopePause_wp n)|]. intros r w1 [_ Hk]. by wstep.
Qed.

Lemma lift_pause {B} n (o : outcome B) : triple (pauseIs n) (lift o) (pauseIs n).
Proof. intros w r w' Hn. unfold lift. destruct o; [|done]. by intros [= _ <-]. Qed.

(** The outcome leads to the end of the method, and not to an early return. *)
Definition succeeds (o : JSOutcome) : bool := match o with ScriptThrows None _ => false | _ => true end.

Lemma finish_pause n k a o : remembers k a -> succeeds o = true -> awaits a o = true -> triple (pauseIs n) (finish a o) (pauseIs k).
Proof.
  intros Hk Ho Ha. destruct a; try done; destruct Hk as [-> ->]; destruct o as [c| | |v|[v|] msg]; try done; cbn [finish].
  all: apply (triple_bind _ (pauseIs k)); [|intros ?; apply triple_ret].
  all: apply (triple_bind _ (pauseIs n)); [first [apply lift_pause | apply wrapObject_pause]|intros ?].
  all: apply (triple_bind _ (pauseIs k)); [first [apply unmutePauses_pause | apply leaveCallScope_pause]|intros ?; apply triple_ret].
Qed.

Lemma enabled_pause w : Debugger.enabled (vd w) = true -> exists n, pauseIs n w.
Proof. unfold Debugger.enabled, pauseIs, pauseState. destruct (m_debuggerScript (vd w)); [by eexists|done]. Qed.

Lemma enabled_not_orphaned i w : Inv w -> Debugger.enabled (vd w) = true -> orphaned i w = false.
Proof.
  intros [[_ _ _ Hl _] _] He. rewrite He in Hl. cbn in Hl. unfold orphaned.
  by destruct i as [| | | |[| | | |[]]| | | | | | | | | | | |]; try done; destruct (activations w) as [|[| | |? ? ? ? []|] ?]; rewrite <- ?Hl.
Qed.

Lemma jsReturns_pause n k a o w w' :
  pauseIs n w -> head (activations w) = Some a -> remembers k a -> succeeds o = true -> allowed (JSReturns o) w = true ->
  run (JSReturns o) w = Done (tt, w') -> pauseIs k w'.
Proof.
  intros Hn Hhd Hk Ho Ha (x & w1 & Hr & [= <-])%bind_Done. cbn in Ha. unfold jsReturns in Hr.
  apply bind_Done in Hr as (st & w2 & [= <- <-] & Hr). destruct (activations w) as [|b stack] eqn:Es; [done|]. injection Hhd as ->.
  apply bind_Done in Hr as ([] & w2 & [= <-] & Hr). by eapply (finish_pause n k a o) in Hr.
Qed.
End Muting.

(** ** The claims *)

Section Claims.
Context {P : Platform} {R : RegExpEngine} {E : Type} `{V8Engine E} {L : ScriptsLoad E} {SA : ScriptAnswers E}.
Implicit Types s : Session E.


(** C1 The requests that the frontend has sent are those that were answered, once
    each, those that wait for JavaScript to return, and those that waited when the
    frontend disconnected; there is a handler that waits for each call that runs
    JavaScript.  A response has the id of its request and either a result or an
    error. *)
Theorem session_answers_requests s received dropped :
  sessionRuns s received dropped ->
  received ≡ₚ (s_sent s).*1 ++ dropped ++ activeIds (s_pending s) /\
  length (s_pending s) = length (calls (activations (s_world s))) /\
  Forall (fun r => answers r.1 r.2) (s_sent s).
Proof. intros [_ Hc _ Hids Hans]%sessionRuns_inv. split_and!; [done|by eapply Forall2_length|done]. Qed.


(** C10 [runScript], told not to pause on exceptions, for a script that was not
    compiled before: it reports an error, and leaves the pauses on exceptions off. *)
Theorem runScript_leaves_muted (w : World E) scriptId group :
  reachable w -> allowed (Receives (RunScript scriptId None group (Some true))) w = true ->
  Debugger.enabled (vd w) = true -> scriptId ∉ m_compiledScripts (agent w) ->
  exists w', perform (RunScript scriptId None group (Some true)) w = Done (Returned (mkResult executionFailed None []), w') /\
    pauseState w' = Some DebuggerScriptJS.DontPauseOnExceptions.
Proof.
  intros [Hc Hs]%reachable_inv Ha He Hn. change (Core (view w) w) in Hc. destruct (enabled_pause w He) as [n Hp].
  assert (v_enabled (view w) = true) as Hv.
  { rewrite (settled_enabled _ Hs), <- (core_script _ _ _ Hc). done. }
  pose proof (runScript_absent n _ w scriptId group Hc Hv (conj Hp eq_refl) Hn) as Hw. unfold wp in Hw.
  cbn [perform]. unfold repliesLater, mbind, M_bind. destruct (runScript _ _ _ _ w) as [[p w']|]; [|done].
  destruct Hw as [-> Hw]. by exists w'.
Qed.
End Claims.

(** ** Witnesses *)

(** In the pause the frontend is answered; when it disables the debugger there, and
    the loop has returned, the script returns into nothing. *)
Definition orphaningInputs : list SessionInput :=
  exampleInputs ++ [Message (requestText 6 "Debugger.disable" []); Other LoopExit].


Lemma session_answers_requests_witness :
  [1; 2; 3; 4; 5] ≡ₚ (s_sent (exampleSession exampleInputs).1.1).*1 ++ activeIds (s_pending (exampleSession exampleInputs).1.1) /\
  activeIds (s_pending (exampleSession exampleInputs).1.1) = [3].
Proof.
  split; [|vm_compute; reflexivity].
  destruct (session_answers_requests _ _ _ (exampleSession_runs exampleInputs)) as [Hr _].
  assert ((exampleSession exampleInputs).1.2 = [1; 2; 3; 4; 5]) as E1 by (vm_compute; reflexivity).
  assert ((exampleSession exampleInputs).2 = []) as E2 by (vm_compute; reflexivity).
  rewrite E1, E2, app_nil_l in Hr. exact Hr.
Defined.

(** With pauses on all exceptions: the evaluation of an expression in a paused frame. *)
Definition pausingInputs : list Input :=
  connected ++ [Receives (SetPauseOnExceptions (u "all")); Event (BreakEvent 1 [1])].
Definition examplePausing : World Isolate := runAll pausingInputs (newInspector exampleIsolate).
Definition exampleEvaluation : Request := Evaluate (u "x") None None (Some true) None None None.
Definition exampleEvaluating : World Isolate := runAll (pausingInputs ++ [Receives exampleEvaluation]) (newInspector exampleIsolate).
Definition exampleOutcome : JSOutcome :=
  CallEnds (CallReturned (Some (JSONObject (setBoolean (u "wasThrown") false (setObject (u "result") [] []))))).


Lemma runScript_leaves_muted_witness :
  exists w', perform (RunScript (u "9") None None (Some true)) examplePausing =
      Done (Returned (mkResult executionFailed None []), w') /\
    pauseState examplePausing = Some DebuggerScriptJS.PauseOnAllExceptions /\
    pauseState w' = Some DebuggerScriptJS.DontPauseOnExceptions.
Proof.
  destruct (runScript_leaves_muted examplePausing (u "9") None) as (w' & H1 & H2).
  - exact (runAll_reachable _ _ (reachable_new _)).
  - vm_compute. reflexivity.
  - vm_compute. reflexivity.
  - apply (bool_decide_unpack _). vm_compute. exact I.
  - exists w'. split; [exact H1|]. split; [vm_compute; reflexivity|exact H2].
Defined.
