(* ===== verification/ServerFacts.v ===== *)
(** * The server drives a session

    Runs of the server with one client at a time: its queues, the inputs that its
    tasks are for the inspector, and the texts on their way to the client. *)

From S2P Require Import Prelude Platform UTF8 UTF8Facts UTF8Theorems DecimalNumber JSONValues JSONParser NumberText JSONRoundTrip StringSearch ContentSearch InspectorState Dispatcher Commands DispatcherFacts Engine NativeObjects World Triples DebuggerOps InjectedScripts AgentState Breakpoints AsyncCalls Promises Pausing Evaluation RuntimeAgent PauseLoop Machine PauseInvariant PauseSafety EvaluationSafety MachineSafety Answers Session SessionFacts Server.

(** ** Texts *)

Section Texts.
Context {P : Platform} {E : Type}.
Context (placement : list Z -> Z).
Implicit Types sv : Server E.

Definition text (m : jobject) : bytes := toJSONString (JSONObject m).

Lemma text_ascii m : Forall byte (text m) /\ forallb ascii (text m) = true.
Proof.
  pose proof (writeJSON_printable (JSONObject m)) as Hp. unfold text, toJSONString. induction Hp as [|c l Hc _ [IH1 IH2]]; [done|].
  unfold printable in Hc. split; [constructor; [unfold byte; lia|done]|]. cbn. rewrite IH2. unfold ascii. rewrite (proj2 (Z.ltb_lt _ _)) by lia. done.
Qed.

Lemma serializeAndSend_text m sv : serializeAndSend placement m sv = Done (sv <| io_tasks := io_tasks sv ++ [text m] |>).
Proof.
  unfold serializeAndSend, wtfToStdString, StringUTF8Adaptor. cbn [characters is8Bit address]. fold (text m).
  destruct (text_ascii m) as [Hb Ha]. rewrite charactersAreAllASCII_forall, Ha by done. by destruct (text m).
Qed.

Lemma serializeAll_texts ms sv : serializeAll placement ms sv = Done (sv <| io_tasks := io_tasks sv ++ map text ms |>).
Proof.
  revert sv. induction ms as [|m ms IH]; intros sv; cbn [serializeAll map].
  - rewrite app_nil_r. by destruct sv.
  - rewrite serializeAndSend_text, IH. cbn. by rewrite <- app_assoc.
Qed.
End Texts.

(** ** The connection in a session *)

Section Frontend.
Context {P : Platform} {R : RegExpEngine} {E : Type} `{V8Engine E} {L : ScriptsLoad E} {SA : ScriptAnswers E}.
Implicit Types s : Session E.

Definition connected s : bool := m_frontend (agent (s_world s)).

(** What answering leaves as it is. *)
Definition onlyAnswers s s' : Prop := s_world s' = s_world s /\ s_sent s `prefix_of` s_sent s'.

Lemma onlyAnswers_refl s : onlyAnswers s s.
Proof. done. Qed.

Lemma report_onlyAnswers id code message data s : onlyAnswers s (reportProtocolError id code message data s).
Proof.
  unfold reportProtocolError. cbn [channel sessionBackend]. destruct (channelOpen (s_world s)); [|done]. split; [done|].
  cbn. by apply prefix_app_r.
Qed.

Lemma respond_answers c id r s s' : respond c id r s = Done s' -> onlyAnswers s s'.
Proof.
  unfold respond, sendResponse. intros Hr. repeat case_match; simplify_eq; try apply report_onlyAnswers; try apply onlyAnswers_refl.
  all: split; [done|]; cbn; by apply prefix_app_r.
Qed.

Lemma message_connected m s s' : sessionStep (Message m) s = Done s' -> connected s' = connected s.
Proof.
  cbn [sessionStep]. destruct (m_frontend (agent (s_world s))) eqn:Ef; [|by intros [= <-]]. unfold dispatch, connected. intros Hd.
  destruct (parseJSON m) as [v|]; [|done]. destruct (asObject v) as [o|]; [|done]. repeat (case_match; try done).
  - rewrite handler_errors in Hd. destruct (requestErrors _ _ _); [|injection Hd as <-; by rewrite (proj1 (report_onlyAnswers _ _ _ _ _))].
    cbn [invoke sessionBackend] in Hd. destruct (request _ _) as [q|]; [|done].
    destruct (perform q (s_world s)) as [[p w]|] eqn:Ep; [|done].
    destruct (perform_connection _ _ q _ _ _ (conj eq_refl eq_refl) Ep) as [_ E2].
    destruct p; [|by injection Hd as <-]. apply respond_answers in Hd as [Hd _]. by rewrite Hd.
  - injection Hd as <-. by rewrite (proj1 (report_onlyAnswers _ _ _ _ _)).
Qed.

(** What becomes of the connection. *)
Lemma step_connected i s s' :
  Inv (s_world s) -> sessionAllowed i s = true -> sessionStep i s = Done s' -> match i with Other (Restore _) => False | _ => True end ->
  connected s' = match i with Other (Connect _) => true | Other Disconnect => false | _ => connected s end.
Proof.
  intros Hi Ha Hst Hre. destruct i as [m|i]; [by apply message_connected in Hst|]. cbn [sessionAllowed] in Ha.
  assert (match i with Receives _ | JSReturns _ => False | _ => True end -> exists w', run i (s_world s) = Done (tt, w') /\ s_world s' = w') as Hrun.
  { intros Hn. destruct i; try done; cbn [sessionStep] in Hst; (destruct (run _ _) as [[[] w']|] eqn:Er; [|done]); injection Hst as <-; eauto. }
  unfold connected. destruct i; try done; try (destruct Hrun as (w' & Er & ->); [done|]).
  all: try match type of Er with run ?i _ = _ =>
    pose proof (run_linked (linkIs (link (s_world s))) i eq_refl (s_world s) tt w' eq_refl Er) as El; by injection El end.
  - by pose proof (loopExit_link (s_world s) w' Ha Hi Er) as El; injection El.
  - cbn [sessionStep] in Hst. destruct (jsReturns o (s_world s)) as [[r w']|] eqn:Ej; [|done].
    destruct (jsReturns_calls _ _ _ _ Ha Ej) as ([_ E2] & _). destruct r as [r|]; [|by injection Hst as <-].
    destruct (s_pending s) as [|p pending]; [by injection Hst as <-|].
    destruct (pd_active p); [apply respond_answers in Hst as [Hst _]; by rewrite Hst|by injection Hst as <-].
  - cbn [run] in Er. unfold connectFrontend in Er. apply bind_Done in Er as ([] & w1 & _ & Er). apply bind_Done in Er as ([] & w2 & _ & Er).
    by injection Er as <-.
  - cbn [run] in Er. unfold disconnectFrontend in Er. apply bind_Done in Er as (f & w1 & [= <- <-] & Er).
    cbn in Ha. apply andb_prop in Ha as [Hf _]. rewrite Hf in Er. cbn [negb] in Er.
    apply bind_Done in Er as ([] & w1 & _ & Er). apply bind_Done in Er as ([] & w2 & E2 & Er). injection Er as <-.
    unfold clearFrontend in E2. apply bind_Done in E2 as (? & w3 & _ & E2). apply bind_Done in E2 as (? & w4 & _ & E2). by injection E2 as <-.
Qed.
End Frontend.

(** ** The inspector takes nothing back *)

Section Logs.
Context {P : Platform} {R : RegExpEngine} {E : Type} `{V8Engine E}.

Definition grows (l : list jobject) (w : World E) : Prop := l `prefix_of` notifications w.

Ltac unsaid := idtac; match goal with Hw : grows ?l _ |- grows ?l _ => first [exact Hw | unfold grows in *; cbn; repeat case_match; exact Hw] end.

Lemma send_grows l m : triple (grows l) (Frontend.send m) (grows l).
Proof. unfold Frontend.send. keeps ltac:(idtac; match goal with Hw : grows _ _ |- _ => unfold grows in *; cbn; by apply prefix_app_r end). Qed.
#[local] Hint Resolve send_grows : keeps.

Lemma callInjected_grows {A} l s (f : E -> JS (A * E)) : triple (grows l) (Injected.callInjected s f) (grows l).
Proof.
  unfold Injected.callInjected. apply (triple_bind _ (grows l)); [apply triple_gets|]. intros e. generalize (f e).
  intros t. induction t as [[a e']|x g k IH|n' k IH|n' k IH]; cbn [Injected.runJS]; keeps unsaid.
Qed.
#[local] Hint Resolve callInjected_grows : keeps.

Lemma lift_grows {A} l (o : outcome A) : triple (grows l) (lift o) (grows l).
Proof. intros w r w' Hi. unfold lift. destruct o; [|done]. by intros [= _ <-]. Qed.

Lemma breakpointsCookie_grows l : triple (grows l) breakpointsCookie (grows l).
Proof.
  intros w r w' Hw. unfold breakpointsCookie. destruct (getObjectProperty _ _ _) as [[o|] c]; [|done].
  intros [= _ <-]. exact Hw.
Qed.

Lemma allBlackboxedFrom_grows l fuel n : triple (grows l) (allBlackboxedFrom fuel n) (grows l).
Proof. revert n. induction fuel as [|fuel IH]; intros n; cbn [allBlackboxedFrom]; keeps unsaid; apply IH. Qed.

Lemma asyncStackTraceLoop_grows k l n r : triple (grows k) (asyncStackTraceLoop l n r) (grows k).
Proof. revert n r. induction l as [|s l IH]; intros n r; cbn [asyncStackTraceLoop]; keeps unsaid; apply IH. Qed.

Lemma hitBreakpointIds_grows k l : triple (grows k) (hitBreakpointIds l) (grows k).
Proof. induction l as [|s l IH]; cbn [hitBreakpointIds]; keeps unsaid; apply IH. Qed.

Lemma resolveInScripts_grows k b bp url rx l : triple (grows k) (resolveInScripts b bp url rx l) (grows k).
Proof. induction l as [|[i s] l IH]; cbn [resolveInScripts]; keeps unsaid; apply IH. Qed.

#[local] Hint Resolve lift_grows breakpointsCookie_grows allBlackboxedFrom_grows asyncStackTraceLoop_grows
  hitBreakpointIds_grows resolveInScripts_grows : keeps.

Lemma perform_grows l r : triple (grows l) (perform r) (grows l).
Proof. destruct r; cbn [perform]; keeps unsaid. Qed.

Lemma finish_grows l a o : triple (grows l) (finish a o) (grows l).
Proof. destruct a, o; cbn [finish]; keeps unsaid. Qed.

Lemma run_grows l i : triple (grows l) (run i) (grows l).
Proof.
  destruct i; cbn [run]; unfold pushActivation; try (unfold jsReturns); keeps ltac:(first [unsaid]); auto using perform_grows, finish_grows.
Qed.

Lemma onlyAnswers_logs (s s1 s' : Session E) w :
  notifications (s_world s) `prefix_of` notifications w -> s_world s1 = w -> s_sent s1 = s_sent s -> onlyAnswers s1 s' ->
  notifications (s_world s) `prefix_of` notifications (s_world s') /\ s_sent s `prefix_of` s_sent s'.
Proof. intros Hw <- Hs [Hw' Hs']. rewrite Hw'. split; [done|]. by rewrite <- Hs. Qed.

Lemma step_logs i (s s' : Session E) :
  sessionStep i s = Done s' -> notifications (s_world s) `prefix_of` notifications (s_world s') /\ s_sent s `prefix_of` s_sent s'.
Proof.
  destruct i as [m|i]; intros Hst.
  - cbn [sessionStep] in Hst. destruct (m_frontend (agent (s_world s))); [|by injection Hst as <-]. unfold dispatch in Hst.
    destruct (parseJSON m) as [v|]; [|done]. destruct (asObject v) as [o|]; [|done]. repeat (case_match; try done).
    + rewrite handler_errors in Hst. destruct (requestErrors _ _ _);
        [|injection Hst as <-; by eapply onlyAnswers_logs; [..|apply report_onlyAnswers]].
      cbn [invoke sessionBackend] in Hst. destruct (request _ _) as [q|]; [|done].
      destruct (perform q (s_world s)) as [[p w]|] eqn:Ep; [|done].
      pose proof (perform_grows (notifications (s_world s)) q _ _ _ (reflexivity _) Ep) as Hw.
      destruct p; [|by injection Hst as <-]. by eapply onlyAnswers_logs; [exact Hw|..|by eapply respond_answers].
    + injection Hst as <-. by eapply onlyAnswers_logs; [..|apply report_onlyAnswers].
  - assert (forall r w', jsReturns r (s_world s) = Done w' -> grows (notifications (s_world s)) w'.2) as Hjs.
    { intros o [r w'] Hj. apply (run_grows (notifications (s_world s)) (JSReturns o) (s_world s) tt w'); [unfold grows; reflexivity|].
      cbn [run]. unfold drop_, mbind, M_bind. by rewrite Hj. }
    destruct i; cbn [sessionStep] in Hst;
      try (destruct (run _ _) as [[[] w']|] eqn:Er; [|done]; injection Hst as <-; split; [|done]; by apply (run_grows _ _ _ _ _ (reflexivity _) Er)).
    destruct (jsReturns o (s_world s)) as [[r w']|] eqn:Ej; [|done]. specialize (Hjs o _ Ej). cbn in Hjs.
    destruct r as [r|]; [|by injection Hst as <-]. destruct (s_pending s) as [|p pending]; [by injection Hst as <-|].
    destruct (pd_active p); [|by injection Hst as <-]. by eapply onlyAnswers_logs; [exact Hjs|..|by eapply respond_answers].
Qed.

(** Everything that the inspector sends is posted, once. *)
Lemma sentBetween_all i (s s' : Session E) :
  sessionStep i s = Done s' ->
  notifications (s_world s') ++ (s_sent s').*2 ≡ₚ (notifications (s_world s) ++ (s_sent s).*2) ++ sentBetween s s'.
Proof.
  intros [[k1 E1] [k2 E2]]%step_logs. unfold sentBetween. rewrite E1, E2, fmap_app, !drop_app_length. solve_Permutation.
Qed.
End Logs.
