(* ===== verification/BreakpointRegistry.v ===== *)
(** * The registry of breakpoints

    The agent keeps, for each breakpoint of the protocol, the V8 breakpoints set
    for it, and for each of those the way back.  The registry agrees with V8 in
    every reachable state, given what V8 documents about breakpoint numbers
    ([V8Laws]). *)

From S2P Require Import Prelude Platform WTFString DecimalNumber JSONValues JSONParser StringSearch ContentSearch ContentSearchFacts InspectorState InspectorStateFacts Dispatcher Engine NativeObjects ModelEngine World Triples DebuggerOps InjectedScripts AgentState Breakpoints AsyncCalls Promises Pausing Evaluation RuntimeAgent PauseLoop Machine PauseInvariant PauseSafety EvaluationSafety MachineSafety DebuggerTheorems.

Lemma String_number_nonempty n : String_number n <> [].
Proof.
  unfold String_number, numberToStringSigned. destruct (Z.ltb_spec n 0); [done|].
  destruct (numberToStringUnsigned_spec n) as (_ & _ & Hl & _); [lia|]. intros E1.
  change (numberToStringUnsigned n = []) in E1. rewrite E1 in Hl. cbn in Hl. lia.
Qed.

Section Registry.
Context {P : Platform} {R : RegExpEngine} {E : Type} `{V8E : V8Engine E} `{L : !V8Laws E} `{!ScriptsLoad E}.
Implicit Types w : World E.

(** ** The invariant *)

(** The V8 breakpoints of the breakpoint [b]: distinct, in use, and known to be
    for [b]. *)
Definition registered w (b : ustring) (ids : list ustring) : Prop :=
  NoDup ids /\ forall d, d ∈ ids -> exists n source, d = String_number n /\ n ∈ inUse (engine w) /\
    m_serverBreakpoints (agent w) !! d = Some (b, source).

(** The numbers in the way back were given out by V8. *)
Definition serverIssued w : Prop :=
  forall d x, m_serverBreakpoints (agent w) !! d = Some x -> exists n, d = String_number n /\ n ∈ issued (engine w).

(** The breakpoint of [continueToLocation] is not one of the protocol's. *)
Definition continueOK w : Prop :=
  m_continueToLocationBreakpointId (agent w) = [] \/
  exists n, m_continueToLocationBreakpointId (agent w) = String_number n /\ n ∈ issued (engine w) /\
    m_serverBreakpoints (agent w) !! m_continueToLocationBreakpointId (agent w) = None.

Record Registry w : Prop := {
  registry_registered : forall b ids, m_breakpointIdToDebuggerBreakpointIds (agent w) !! b = Some ids -> registered w b ids;
  registry_issued : serverIssued w;
  registry_continue : continueOK w;
}.

(** What the invariant reads. *)
Definition registryView w :=
  (m_breakpointIdToDebuggerBreakpointIds (agent w), m_serverBreakpoints (agent w),
   m_continueToLocationBreakpointId (agent w), inUse (engine w), issued (engine w)).

(** A predicate on what the invariant reads. *)
Class Viewed (I : World E -> Prop) : Prop :=
  viewed : forall w w', registryView w' = registryView w -> I w -> I w'.

#[local] Instance serverIssued_viewed : Viewed serverIssued.
Proof. intros w w' [= E1 E2 E3 E4 E5]. unfold serverIssued. by rewrite E2, E5. Qed.

#[local] Instance registry_viewed : Viewed Registry.
Proof.
  intros w w' [= E1 E2 E3 E4 E5] [H1 H2 H3]. unfold registered, serverIssued, continueOK in *.
  constructor; unfold registered, serverIssued, continueOK; rewrite ?E1, ?E2, ?E3, ?E4, ?E5; auto.
Qed.

Lemma registryView_engine w e : keep (engine w) e -> registryView (w <| engine := e |>) = registryView w.
Proof. intros [H1 H2]. unfold registryView. cbn. by rewrite H1, H2. Qed.

Lemma keep_trans (e1 e2 e3 : E) : keep e1 e2 -> keep e2 e3 -> keep e1 e3.
Proof. unfold keep. intros [-> ->] [-> ->]. done. Qed.

(** ** Writes that the registry does not see *)

Lemma keep_initialize e : keep e (DebuggerScriptJS.initialize e).2.
Proof. eapply keep_trans; [apply keep_exception|apply keep_uncaught]. Qed.
Lemma keep_pauseState n e : keep e (DebuggerScriptJS.setPauseOnExceptionsState n e).2.
Proof. eapply keep_trans; [apply keep_exception|apply keep_uncaught]. Qed.

Create HintDb laws discriminated.
#[local] Hint Resolve keep_active keep_exception keep_uncaught keep_break keep_step keep_clearStep keep_create
  keep_wrapFrames keep_wrapObject keep_call keep_liveEdit keep_initialize keep_pauseState : laws.

Ltac unseen :=
  idtac;
  match goal with
  | Hw : ?I ?w |- ?I _ =>
      apply (viewed w); [|exact Hw];
      first [reflexivity | apply registryView_engine; solve [eauto with laws nocore]
            | unfold registryView; cbn; repeat case_match; reflexivity]
  end.

Section Unseen.
Context (I : World E -> Prop) `{!Viewed I}.

(** A call of the injected script that keeps the breakpoints. *)
Lemma runJS_keeps {A} e i (t : JS (A * E)) :
  JSall (fun r => keep e r.2) t -> triple (fun w => I w /\ engine w = e) (Injected.runJS i t) I.
Proof.
  induction t as [[a e']|x g k IH|n k IH|n k IH]; intros Ht w r w' [Hi He]; cbn [Injected.runJS].
  - intros [= _ <-]. apply (viewed w); [|done]. apply registryView_engine. by rewrite He.
  - intros (m & w1 & [= <- <-] & Hr)%bind_Done. destruct (Native.bind _ _ _) as [id n].
    apply (IH id (Ht id) _ _ _) in Hr; [done|]. split; [by apply (viewed w)|done].
  - intros (m & w1 & [= <- <-] & Hr)%bind_Done. by apply (IH _ (Ht _) _ _ _) in Hr.
  - intros (m & w1 & [= <- <-] & Hr)%bind_Done. by apply (IH _ (Ht _) _ _ _) in Hr.
Qed.

Lemma callInjected_keeps {A} s (f : E -> JS (A * E)) :
  (forall e, JSall (fun r => keep e r.2) (f e)) -> triple I (Injected.callInjected s f) I.
Proof. intros Hf w r w' Hi. by apply (runJS_keeps (engine w)). Qed.

#[local] Hint Extern 1 (triple _ (Injected.callInjected _ _) _) => apply callInjected_keeps; eauto with laws nocore : keeps.

Lemma breakpointsCookie_keeps : triple I breakpointsCookie I.
Proof.
  intros w r w' Hw. unfold breakpointsCookie. destruct (getObjectProperty _ _ _) as [[o|] c]; [|done].
  intros [= _ <-]. unseen.
Qed.

Lemma isTopCallFrameBlackboxed_keeps : triple I isTopCallFrameBlackboxed I.
Proof. keeps unseen. Qed.

Lemma allBlackboxedFrom_keeps fuel n : triple I (allBlackboxedFrom fuel n) I.
Proof. revert n. induction fuel as [|fuel IH]; intros n; cbn [allBlackboxedFrom]; keeps unseen; apply IH. Qed.

Lemma asyncStackTraceLoop_keeps l n r : triple I (asyncStackTraceLoop l n r) I.
Proof. revert n r. induction l as [|s l IH]; intros n r; cbn [asyncStackTraceLoop]; keeps unseen; apply IH. Qed.

Lemma hitBreakpointIds_keeps l : triple I (hitBreakpointIds l) I.
Proof. induction l as [|s l IH]; cbn [hitBreakpointIds]; keeps unseen; apply IH. Qed.

Lemma internalSetAsyncCallStackDepth_keeps d : triple I (internalSetAsyncCallStackDepth d) I.
Proof. keeps unseen. Qed.

Lemma didReceiveV8AsyncTaskEvent_keeps s t n i : triple I (didReceiveV8AsyncTaskEvent s t n i) I.
Proof. keeps unseen. Qed.

Lemma clearPromises_keeps : triple I clearPromises I.
Proof. keeps unseen. Qed.

Lemma didReceiveV8PromiseEvent_keeps p q n : triple I (didReceiveV8PromiseEvent p q n) I.
Proof. keeps unseen. Qed.

Lemma setPauseOnExceptionsImpl_keeps n : triple I (setPauseOnExceptionsImpl n) I.
Proof. keeps unseen. Qed.

Lemma releaseBacktrace_keeps : triple I releaseBacktrace I.
Proof. keeps unseen. Qed.

Lemma resume_keeps : triple I resume I.
Proof. keeps unseen. Qed.

Lemma changeRecursionLevel_keeps n : triple I (changeJavaScriptRecursionLevel n) I.
Proof. keeps unseen. Qed.

End Unseen.

#[local] Hint Extern 1 (triple _ (Injected.callInjected _ _) _) => apply callInjected_keeps; eauto with laws typeclass_instances nocore : keeps.

(** ** Setting *)

Lemma registered_mono w w' b ids :
  registered w b ids ->
  (forall n source, String_number n ∈ ids -> n ∈ inUse (engine w) ->
     m_serverBreakpoints (agent w) !! String_number n = Some (b, source) ->
     n ∈ inUse (engine w') /\ m_serverBreakpoints (agent w') !! String_number n = Some (b, source)) ->
  registered w' b ids.
Proof.
  intros [Hnd Hd] Hm. split; [done|]. intros d Hin. destruct (Hd d Hin) as (n & src & -> & Hn & Hs).
  exists n, src. split; [done|]. by apply Hm.
Qed.

(** V8 has one more breakpoint. *)
Lemma registry_set w n e' :
  inUse e' = {[n]} ∪ inUse (engine w) -> issued e' = {[n]} ∪ issued (engine w) ->
  Registry w -> Registry (w <| engine := e' |>).
Proof.
  intros E1 E2 [H1 H2 H3]. constructor.
  - intros b ids Hb. eapply registered_mono; [by apply H1|]. cbn. rewrite E1. set_solver.
  - intros d x (m & -> & Hm)%H2. exists m. split; [done|]. cbn. rewrite E2. set_solver.
  - destruct H3 as [H3|(m & Hc & Hm & Hs)]; [by left|right]. exists m. split; [done|]. split; [cbn; rewrite E2; set_solver|done].
Qed.

(** A number that V8 has not given out is new to the agent. *)
Lemma registry_new w n :
  Registry w -> n ∉ issued (engine w) ->
  m_serverBreakpoints (agent w) !! String_number n = None /\ m_continueToLocationBreakpointId (agent w) <> String_number n.
Proof.
  intros [_ H2 H3] Hf. split.
  - destruct (_ !! _) eqn:En; [|done]. apply H2 in En as (m & <-%String_number_inj & Hm). done.
  - intros Hc. destruct H3 as [H3|(m & Hc' & Hm & _)].
    + apply (String_number_nonempty n). congruence.
    + rewrite Hc in Hc'. apply String_number_inj in Hc' as ->. done.
Qed.

Definition recorded (d b : ustring) (source : BreakpointSource) (a : Agent) : Agent :=
  a <| m_serverBreakpoints := <[d := (b, source)]> (m_serverBreakpoints a) |>
    <| m_breakpointIdToDebuggerBreakpointIds :=
         <[b := default [] (m_breakpointIdToDebuggerBreakpointIds a !! b) ++ [d]]>
           (m_breakpointIdToDebuggerBreakpointIds a) |>.

Lemma registry_record w n b source :
  Registry w -> n ∈ inUse (engine w) -> m_serverBreakpoints (agent w) !! String_number n = None ->
  m_continueToLocationBreakpointId (agent w) <> String_number n ->
  Registry (w <| agent := recorded (String_number n) b source (agent w) |>).
Proof.
  intros [H1 H2 H3] Hn Hs Hc. set (w' := w <| agent := _ |>).
  assert (forall b' ids, registered w b' ids -> registered w' b' ids) as Hold.
  { intros b' ids Hr. eapply registered_mono; [done|]. intros m src _ Hm Hms. split; [done|]. cbn.
    rewrite lookup_insert_ne by congruence. done. }
  constructor.
  - intros b' ids. cbn. destruct (decide (b = b')) as [<-|Hb]; [|rewrite lookup_insert_ne by done; auto].
    rewrite lookup_insert_eq. intros [= <-]. set (old := default [] _).
    assert (registered w b old) as Ho.
    { subst old. destruct (_ !! b) eqn:Eb; [by apply H1|]. split; [constructor|]. by intros d ?%elem_of_nil. }
    split; [|intros d [Hd| ->%list_elem_of_singleton]%elem_of_app].
    + apply NoDup_app. split; [apply Ho|]. split; [|apply NoDup_singleton].
      intros d Hd ->%list_elem_of_singleton. destruct (proj2 Ho _ Hd) as (m & src & _ & _ & Hs'). congruence.
    + by apply (Hold b old Ho).
    + exists n, source. split; [done|]. split; [done|]. cbn. by rewrite lookup_insert_eq.
  - intros d x. cbn. destruct (decide (String_number n = d)) as [<-|Hd]; [|rewrite lookup_insert_ne by done; apply H2].
    intros _. exists n. split; [done|]. by apply inUse_issued.
  - destruct H3 as [H3|(m & Hm & Hi & Hms)]; [by left|right]. exists m. cbn. split; [done|]. split; [done|].
    rewrite lookup_insert_ne by congruence. done.
Qed.

(** A call of V8 that sets a breakpoint: the number is new. *)
Lemma dbgSetBreakpoint_registry sid bp b w r w' :
  Registry w -> Debugger.setBreakpoint sid bp b w = Done (r, w') ->
  Registry w' /\ agent w' = agent w /\
  forall d l c, r = Some (d, l, c) -> exists n, d = String_number n /\ n ∈ inUse (engine w') /\
    m_serverBreakpoints (agent w') !! d = None /\ m_continueToLocationBreakpointId (agent w') <> d.
Proof.
  intros Hw. unfold Debugger.setBreakpoint, Debugger.debuggerScriptLocal, getVD, gets, runEngine, mbind, M_bind.
  destruct (m_debuggerScript (vd w)) as [script|]; [|done]. cbn. unfold DebuggerScriptJS.setBreakpoint.
  destruct (setScriptBreakPointById _ _ _ _ _ _) as [n e'] eqn:En.
  destruct (set_fresh _ _ _ _ _ _ _ _ En) as (Hf & E1 & E2). pose proof (registry_set w n e' E1 E2 Hw) as Hw'.
  destruct (registry_new w n Hw Hf) as [Hs Hc].
  destruct (findBreakPointActualLocations n e') as [|[l c] locations]; intros [= <- <-]; (split; [done|]; split; [done|]).
  - done.
  - intros d l' c' [= <- <- <-]. exists n. split; [done|]. split; [cbn; rewrite E1; set_solver|done].
Qed.

Lemma resolveBreakpoint_keeps b i bp source : triple Registry (resolveBreakpoint b i bp source) Registry.
Proof.
  intros w r w' Hw. unfold resolveBreakpoint, getAgent, gets. unfold mbind at 1, M_bind at 1.
  destruct (_ !! i) as [script|]; [|by intros [= _ <-]]. destruct (_ || _); [by intros [= _ <-]|].
  unfold mbind, M_bind. destruct (Debugger.setBreakpoint i bp false w) as [[r1 w1]|] eqn:Es; [|done].
  destruct (dbgSetBreakpoint_registry _ _ _ _ _ _ Hw Es) as (Hw1 & Ea & Hr).
  destruct r1 as [[[d l] c]|]; [|by intros [= _ <-]]. destruct (Hr d l c eq_refl) as (n & -> & Hn & Hs & Hc).
  intros [= _ <-]. by apply (registry_record w1).
Qed.

#[local] Hint Extern 0 (Viewed _) => apply _ : keeps.
#[local] Hint Resolve breakpointsCookie_keeps isTopCallFrameBlackboxed_keeps allBlackboxedFrom_keeps
  asyncStackTraceLoop_keeps hitBreakpointIds_keeps internalSetAsyncCallStackDepth_keeps
  didReceiveV8AsyncTaskEvent_keeps clearPromises_keeps didReceiveV8PromiseEvent_keeps setPauseOnExceptionsImpl_keeps releaseBacktrace_keeps resume_keeps
  changeRecursionLevel_keeps resolveBreakpoint_keeps : keeps.

Lemma resolveInScripts_keeps b bp url rx l : triple Registry (resolveInScripts b bp url rx l) Registry.
Proof.
  induction l as [|[i s] l IH]; cbn [resolveInScripts]; keeps unseen; apply IH.
Qed.

(** ** Removing *)

Lemma dbgRemoveBreakpoint_effect n w r w' :
  Debugger.removeBreakpoint (String_number n) w = Done (r, w') ->
  agent w' = agent w /\ inUse (engine w') = inUse (engine w) ∖ {[n]} /\ issued (engine w') = issued (engine w).
Proof.
  unfold Debugger.removeBreakpoint, Debugger.debuggerScriptLocal, getVD, gets, setEngine, modify, mbind, M_bind.
  destruct (m_debuggerScript (vd w)) as [script|]; [|done]. intros [= _ <-]. split; [done|]. apply remove_number.
Qed.

(** A removed number that is nobody's. *)
Lemma registry_remove w w' n :
  Registry w -> m_serverBreakpoints (agent w) !! String_number n = None -> agent w' = agent w ->
  inUse (engine w') = inUse (engine w) ∖ {[n]} -> issued (engine w') = issued (engine w) -> Registry w'.
Proof.
  intros [H1 H2 H3] Hs Ea E1 E2. constructor.
  - rewrite Ea. intros b ids Hb. eapply registered_mono; [by apply H1|]. intros m src _ Hm Hms. rewrite Ea, E1.
    split; [|done]. apply elem_of_difference. split; [done|]. intros ->%elem_of_singleton. congruence.
  - unfold serverIssued. by rewrite Ea, E2.
  - unfold continueOK. by rewrite Ea, E2.
Qed.

Lemma removeContinue_keeps : triple Registry removeContinueToLocation Registry.
Proof.
  intros w r w' Hw. unfold removeContinueToLocation, getAgent, gets. unfold mbind at 1, M_bind at 1.
  destruct (registry_continue w Hw) as [->|(n & Ec & Hn & Hs)]; [by intros [= _ <-]|]. rewrite Ec in *.
  destruct (String_number n) as [|x l] eqn:En; [by apply String_number_nonempty in En|]. rewrite <- En in *. clear En.
  unfold mbind, M_bind. destruct (Debugger.removeBreakpoint (String_number n) w) as [[r1 w1]|] eqn:Er; [|done].
  intros [= _ <-]. destruct (dbgRemoveBreakpoint_effect n w r1 w1 Er) as (Ea & E1 & E2).
  destruct (registry_remove w w1 n Hw Hs Ea E1 E2) as [H1 H2 H3]. constructor; [exact H1|exact H2|by left].
Qed.

Lemma setContinue_keeps sid bp b :
  triple Registry
    (r ← Debugger.setBreakpoint sid bp b;
     setAgent (fun a => a <| m_continueToLocationBreakpointId := match r with Some (id, _, _) => id | None => [] end |>) ;;
     resume) Registry.
Proof.
  intros w r w' Hw. unfold mbind at 1, M_bind at 1.
  destruct (Debugger.setBreakpoint sid bp b w) as [[r1 w1]|] eqn:Es; [|done].
  destruct (dbgSetBreakpoint_registry _ _ _ _ _ _ Hw Es) as ([H1 H2 _] & Ea & Hr). clear Es.
  eapply (triple_bind (fun w' => w' = w1) Registry); [|intros _; by apply resume_keeps, _|done].
  apply triple_modify. intros ? ->. constructor; [exact H1|exact H2|].
  destruct r1 as [[[d l] c]|]; [|by left]. destruct (Hr d l c eq_refl) as (n & -> & Hn & Hs & _).
  right. exists n. split; [done|]. split; [|done]. by apply inUse_issued.
Qed.

#[local] Hint Resolve removeContinue_keeps setContinue_keeps resolveInScripts_keeps : keeps.

Lemma continueToLocation_keeps l i : triple Registry (continueToLocation l i) Registry.
Proof.
  unfold continueToLocation, checkEnabled. keeps_step unseen; [keeps unseen|]. destruct a; [|keeps unseen].
  keeps_step unseen; [apply removeContinue_keeps|]. destruct (parseLocation l) as [e|[[sid line] column]]; [keeps unseen|].
  apply setContinue_keeps.
Qed.

(** What the loop over the V8 breakpoints of one breakpoint does. *)
Definition removed (ids : list ustring) w w' : Prop :=
  agent w' = (agent w) <| m_serverBreakpoints := m_serverBreakpoints (agent w') |> /\
  (forall d, m_serverBreakpoints (agent w') !! d = if decide (d ∈ ids) then None else m_serverBreakpoints (agent w) !! d) /\
  (forall n, n ∈ inUse (engine w') <-> n ∈ inUse (engine w) /\ String_number n ∉ ids) /\
  issued (engine w') = issued (engine w).

Definition removeOne (d : ustring) : M (World E) unit :=
  Debugger.removeBreakpoint d ;;
  setAgent (fun a => a <| m_serverBreakpoints := delete d (m_serverBreakpoints a) |>).

Lemma removeLoop_effect ids w r w' :
  Forall (fun d => exists n, d = String_number n) ids -> forEach removeOne ids w = Done (r, w') -> removed ids w w'.
Proof.
  intros Hids. revert w. induction Hids as [|d ids [n ->] Hids IH]; intros w; cbn [forEach].
  - intros [= _ <-]. split_and!; [by destruct (agent w)| |set_solver|done].
    intros d. by rewrite decide_False by apply not_elem_of_nil.
  - intros (r1 & w2 & (r0 & w1 & Er & [= _ <-])%bind_Done & (F1 & F2 & F3 & F4)%IH)%bind_Done.
    destruct (dbgRemoveBreakpoint_effect n w r0 w1 Er) as (Ea & E1 & E2). cbn in *. split; [rewrite F1; cbn; by rewrite Ea|].
    split; [|split; [|congruence]].
    + intros d. rewrite F2, Ea. destruct (decide (d = String_number n)) as [->|Hd].
      * rewrite lookup_delete_eq. destruct (decide (_ ∈ ids)), (decide (_ ∈ _ :: ids)); set_solver.
      * rewrite lookup_delete_ne by done. destruct (decide (_ ∈ ids)), (decide (_ ∈ _ :: ids)); set_solver.
    + intros m. rewrite F3, E1, elem_of_difference, elem_of_singleton, not_elem_of_cons.
      split.
      * intros [[H1 H2] H3]. split; [done|]. split; [|done]. by intros ?%String_number_inj.
      * intros (H1 & H2 & H3). split; [|done]. split; [done|]. congruence.
Qed.

(** Removing the V8 breakpoints of [b] leaves those of the others. *)
Lemma removeBreakpointById_effect b w r w' :
  Registry w -> removeBreakpointById b w = Done (r, w') ->
  let ids := default [] (m_breakpointIdToDebuggerBreakpointIds (agent w) !! b) in
  Registry w' /\
  m_breakpointIdToDebuggerBreakpointIds (agent w') = delete b (m_breakpointIdToDebuggerBreakpointIds (agent w)) /\
  (forall n, n ∈ inUse (engine w') <-> n ∈ inUse (engine w) /\ String_number n ∉ ids).
Proof.
  intros Hw. pose proof Hw as [H1 H2 H3].
  intros (ids' & w0 & [= <- <-] & Hr)%bind_Done. revert Hr.
  destruct (m_breakpointIdToDebuggerBreakpointIds (agent w) !! b) as [ids|] eqn:Eb.
  2:{ intros [= _ <-]. rewrite delete_id by done. split; [done|]. split; [done|]. set_solver. }
  destruct (H1 b ids Eb) as [Hnd Hd]. intros (r1 & w1 & (F1 & F2 & F3 & F4)%removeLoop_effect & [= _ <-])%bind_Done.
  2:{ apply Forall_forall. intros d Hin. destruct (Hd d Hin) as (n & _ & -> & _). eauto. }
  assert (m_breakpointIdToDebuggerBreakpointIds (agent w1) = m_breakpointIdToDebuggerBreakpointIds (agent w)
          /\ m_continueToLocationBreakpointId (agent w1) = m_continueToLocationBreakpointId (agent w)) as [G1 G2] by (by rewrite F1).
  split; [|cbn; by rewrite G1]. constructor.
  - intros b' ids'. cbn. rewrite G1. intros [Hne Hb']%lookup_delete_Some. eapply registered_mono; [by apply H1|].
    intros n src Hin Hn Hs. assert (String_number n ∉ ids) as Hnot.
    { intros Hin'. destruct (Hd _ Hin') as (m & src' & _ & _ & Hs'). congruence. }
    cbn. rewrite F3, F2, decide_False by done. done.
  - intros d x. cbn. rewrite F2, F4. destruct (decide _); [done|]. apply H2.
  - unfold continueOK. cbn. rewrite G2, F4, F2. destruct H3 as [H3|(n & Hn & Hi & Hs)]; [by left|right].
    exists n. split; [done|]. split; [done|]. by destruct (decide _).
Qed.

Lemma removeBreakpointById_keeps b : triple Registry (removeBreakpointById b) Registry.
Proof. intros w r w' Hw Hr. by apply (removeBreakpointById_effect b w r w'). Qed.

#[local] Hint Resolve continueToLocation_keeps removeBreakpointById_keeps : keeps.

(** ** Disabling: V8 forgets its breakpoints before the agent does *)

Definition forgotten w : Prop := serverIssued w /\ m_breakpointIdToDebuggerBreakpointIds (agent w) = ∅.

#[local] Instance forgotten_viewed : Viewed forgotten.
Proof. intros w w' Hv [H1 H2]. split; [by eapply serverIssued_viewed|]. injection Hv as E1 _ _ _ _. congruence. Qed.

Lemma clear_forgets : triple serverIssued clear Registry.
Proof.
  unfold clear. eapply (triple_bind _ forgotten); [by apply triple_modify|]. intros _.
  eapply (triple_bind _ forgotten); [apply internalSetAsyncCallStackDepth_keeps, _|]. intros _.
  eapply (triple_bind _ forgotten); [apply clearPromises_keeps, _|]. intros _.
  eapply (triple_bind _ Registry); [|intros _; keeps unseen]. apply triple_modify. intros w [H1 H2].
  constructor; [|done|by left]. intros b ids. cbn. rewrite H2. by rewrite lookup_empty.
Qed.

Lemma disableAgent_keeps : triple Registry disableAgent Registry.
Proof.
  unfold disableAgent, stopListeningV8Debugger, Debugger.disable, Debugger.clearBreakpoints.
  do 6 (eapply (triple_bind _ Registry); [keeps unseen|intros _]).
  eapply (triple_bind _ serverIssued); [|intros _; eapply triple_bind; [apply clear_forgets|intros _; keeps unseen]].
  apply (triple_pre _ serverIssued); [|apply registry_issued]. keeps unseen.
  apply triple_modify. intros w Hw d x (n & -> & Hn)%Hw. exists n. split; [done|]. cbn. by rewrite (proj2 (clear_all _)).
Qed.

#[local] Hint Resolve disableAgent_keeps : keeps.

(** ** Every input *)

Lemma loadState_keeps cookie : triple Registry (loadState cookie) Registry.
Proof. keeps unseen. Qed.

Lemma lift_keeps {A} (o : outcome A) : triple Registry (lift o) Registry.
Proof. intros w r w' Hi. unfold lift. destruct o; [|done]. by intros [= _ <-]. Qed.
#[local] Hint Resolve lift_keeps : keeps.

Lemma perform_keeps r : triple Registry (perform r) Registry.
Proof. destruct r; cbn [perform]; keeps unseen. Qed.

Lemma finish_keeps a o : triple Registry (finish a o) Registry.
Proof. destruct a, o; cbn [finish]; keeps unseen. Qed.
#[local] Hint Resolve perform_keeps finish_keeps : keeps.

Lemma run_keeps i : triple Registry (run i) Registry.
Proof.
  destruct i; cbn [run]; unfold drop_.
  all: keeps unseen.
Qed.

(** The runs in which, between the inputs, nobody else changes V8's breakpoints. *)
Inductive tracked : World E -> Prop :=
  | tracked_new (e : E) : tracked (newInspector e)
  | tracked_engine w e : tracked w -> keep (engine w) e -> tracked (w <| engine := e |>)
  | tracked_input w i w' : tracked w -> allowed i w = true -> run i w = Done (tt, w') -> tracked w'.

Lemma tracked_registry w : tracked w -> Registry w.
Proof.
  induction 1 as [e|w e _ IH Hk|w i w' _ IH _ Hr].
  - constructor; [by intros b ids; cbn; rewrite lookup_empty|by intros d x; cbn; rewrite lookup_empty|by left].
  - apply (registry_viewed w); [by apply registryView_engine|done].
  - by eapply run_keeps.
Qed.

Lemma tracked_reachable w : tracked w -> reachable w.
Proof. induction 1; [constructor|by constructor|by eapply reachable_input]. Qed.

Lemma runAll_tracked inputs w : tracked w -> tracked (runAll inputs w).
Proof.
  revert w. induction inputs as [|i inputs IH]; intros w Hw; cbn [runAll]; [done|].
  destruct (allowed i w) eqn:Ha; [|done]. destruct (run i w) as [[[] w']|] eqn:Er; [|done].
  apply IH. by eapply tracked_input.
Qed.

(** ** The claims *)

(** C6 The registry of breakpoints agrees with V8: the V8 breakpoints recorded for a
    breakpoint of the protocol are distinct, are in use in V8, and lead back to
    it; so no V8 breakpoint belongs to two breakpoints of the protocol, and the one
    of [continueToLocation] belongs to none. *)
Theorem registry_consistent w :
  tracked w ->
  (forall b ids, m_breakpointIdToDebuggerBreakpointIds (agent w) !! b = Some ids -> registered w b ids) /\
  (forall b1 b2 ids1 ids2 d, m_breakpointIdToDebuggerBreakpointIds (agent w) !! b1 = Some ids1 ->
     m_breakpointIdToDebuggerBreakpointIds (agent w) !! b2 = Some ids2 -> d ∈ ids1 -> d ∈ ids2 -> b1 = b2) /\
  (forall b ids, m_breakpointIdToDebuggerBreakpointIds (agent w) !! b = Some ids ->
     m_continueToLocationBreakpointId (agent w) ∉ ids).
Proof.
  intros [H1 H2 H3]%tracked_registry. split; [done|]. split.
  - intros b1 b2 ids1 ids2 d Hb1 Hb2 Hd1 Hd2. destruct (proj2 (H1 _ _ Hb1) d Hd1) as (? & ? & _ & _ & Hs1).
    destruct (proj2 (H1 _ _ Hb2) d Hd2) as (? & ? & _ & _ & Hs2). congruence.
  - intros b ids Hb Hc. destruct (proj2 (H1 _ _ Hb) _ Hc) as (n & ? & En & _ & Hs).
    destruct H3 as [H3|(m & _ & _ & Hn)]; [|congruence]. rewrite H3 in En. by destruct (String_number_nonempty n).
Qed.

Lemma removeBreakpointById_state p b :
  triple (fun w => stateProperties w = p) (removeBreakpointById b) (fun w => stateProperties w = p).
Proof. keeps done. Qed.

Lemma breakpointsCookie_value w o w' :
  breakpointsCookie w = Done (o, w') ->
  engine w' = engine w /\ agent w' = agent w /\
  (Properties.getObject DebuggerAgentState.javaScriptBreakpoints (stateProperties w)).1 = Some o /\
  stateProperties w' = (Properties.getObject DebuggerAgentState.javaScriptBreakpoints (stateProperties w)).2.
Proof.
  unfold breakpointsCookie, getObjectProperty, stateProperties.
  destruct (Properties.getObject _ _) as [[o'|] p]; [|done]. intros [= <- <-]. split_and!; try done.
  unfold properties. cbn. by rewrite lookup_insert_eq.
Qed.

(** C7 Removing a breakpoint removes from V8 exactly the V8 breakpoints that were set
    for it, forgets it in the registry and leaves the other breakpoints there, and
    deletes it from the persistent state. *)
Theorem removeBreakpoint_exact w b :
  tracked w -> m_listener (wtd w) = true ->
  let ids := default [] (m_breakpointIdToDebuggerBreakpointIds (agent w) !! b) in
  exists w' o, removeBreakpoint b w = Done (Answer tt, w') /\
    m_breakpointIdToDebuggerBreakpointIds (agent w') = delete b (m_breakpointIdToDebuggerBreakpointIds (agent w)) /\
    (forall n, n ∈ inUse (engine w') <-> n ∈ inUse (engine w) /\ String_number n ∉ ids) /\
    (Properties.getObject DebuggerAgentState.javaScriptBreakpoints (stateProperties w)).1 = Some o /\
    get DebuggerAgentState.javaScriptBreakpoints (stateProperties w') = Some (JSONObject (remove b o)).
Proof.
  intros Hw Hl. pose proof (tracked_registry w Hw) as Hreg.
  destruct (reachable_inv w (tracked_reachable w Hw)) as [Hc Hs]. change (Core (view w) w) in Hc.
  pose proof (settled_enabled _ Hs) as He. pose proof (removeBreakpoint_core _ w b Hc He) as Hr. unfold wp in Hr.
  destruct (removeBreakpoint b w) as [[r w']|] eqn:Er; [clear Hr|done]. unfold removeBreakpoint, checkEnabled in Er.
  apply bind_Done in Er as (e & w0 & Een & Er). assert (e = true /\ w0 = w) as [-> ->].
  { rewrite <- Hl. change (e = v_listener (view w) /\ w0 = w). rewrite <- He. by injection Een as <- <-. }
  apply bind_Done in Er as (o & w1 & Eo & Er). apply bind_Done in Er as ([] & w2 & E2 & Er).
  apply bind_Done in Er as ([] & w3 & E3 & [= <- <-]). exists w3, o.
  destruct (breakpointsCookie_value _ _ _ Eo) as (Ev & Ea & Ho & _). unfold setStateObject, setStateValue, modify in E2.
  injection E2 as <-. set (w2 := w1 <| composite := _ |>) in *.
  assert (Registry w2) as H2 by (apply (viewed (I := Registry) w); [|done]; by unfold registryView, w2; cbn; rewrite Ea, Ev).
  destruct (removeBreakpointById_effect b w2 tt w3 H2 E3) as (_ & F1 & F2). cbn in F1, F2. rewrite Ea in F1, F2. rewrite Ev in F2.
  split; [done|]. split; [done|]. split; [done|]. split; [done|].
  rewrite (removeBreakpointById_state (stateProperties w2) b w2 tt w3 eq_refl E3). subst w2.
  rewrite stateProperties_set, get_setValue. by rewrite decide_True.
Qed.

End Registry.

(** ** Witnesses *)

#[local] Existing Instance IntegerPlatform.platform.
#[local] Existing Instance literalEngine.
#[local] Existing Instances modelEngine modelLoads.
#[local] Existing Instance modelLaws.

Lemma exampleWorld_tracked : tracked exampleWorld.
Proof. exact (runAll_tracked _ _ (tracked_new _)). Qed.

Definition exampleId : ustring := u "a.js:0:0".

Lemma registry_consistent_witness :
  m_breakpointIdToDebuggerBreakpointIds (agent exampleWorld) !! exampleId = Some [u "1"] /\
  registered exampleWorld exampleId [u "1"].
Proof.
  assert (m_breakpointIdToDebuggerBreakpointIds (agent exampleWorld) !! exampleId = Some [u "1"]) as Hb
    by (vm_compute; reflexivity).
  split; [exact Hb|]. exact (proj1 (registry_consistent exampleWorld exampleWorld_tracked) _ _ Hb).
Defined.

Lemma removeBreakpoint_exact_witness :
  exists w', removeBreakpoint exampleId exampleWorld = Done (Answer tt, w') /\ (1 ∈ inUse (engine w') -> False).
Proof.
  destruct (removeBreakpoint_exact exampleWorld exampleId) as (w' & o & H1 & _ & H2 & _).
  - apply exampleWorld_tracked.
  - vm_compute. reflexivity.
  - exists w'. split; [exact H1|]. intros [_ Hn]%H2. apply Hn.
    replace (m_breakpointIdToDebuggerBreakpointIds (agent exampleWorld) !! exampleId) with (Some [u "1"])
      by (vm_compute; reflexivity).
    apply list_elem_of_here.
Defined.
