(* ===== verification/ScriptTheorems.v ===== *)
(** * The injected script: its properties

    Describing any value never throws, ends and stays within the limits of a preview; the
    script answers what the inspector expects; an evaluation changes only [$_]; and the
    identifier of an object leads back to it, in the script and in the inspector. *)

From S2P Require Import Prelude Platform WTFString JSONValues JSONParser StringSearch ContentSearch ContentSearchFacts Dispatcher Commands Engine NativeObjects ModelEngine JSValues InjectedHost InjectedObjects InjectedCalls JSRules ModelJS InjectedFacts InjectedCallFacts World ScriptEngine DebuggerOps InjectedScripts AgentState Evaluation RuntimeAgent PauseLoop ObjectIds Machine.

(** ** Results of evaluations *)

Section Results.
Context {P : Platform}.

Definition memberBecomes (m : ustring * built) (j : ustring * JSONValue) : Prop := m.1 = j.1 /\ becomes m.2 j.2.

Lemma becomes_literal_inv ms j : becomes (Literal ms) j ->
  exists js, j = JSONObject (objectOf js) /\ Forall2 memberBecomes ms js.
Proof. inversion 1; subst. by eexists. Qed.

Lemma becomes_value_inv v j : plainValue v -> becomes (Value v) j -> j = valueJSON v.
Proof. intros Hv Hb. by inversion Hb; subst. Qed.

Lemma becomes_cons k b ms js : Forall2 memberBecomes ((k, b) :: ms) js ->
  exists j js', js = (k, j) :: js' /\ becomes b j /\ Forall2 memberBecomes ms js'.
Proof. intros ([k' j] & js' & [Hk Hb] & Hms & ->)%Forall2_cons_inv_l. cbn in *. subst. by eexists _, _. Qed.

Lemma becomes_frames frames l : becomes (Elements (map Host.stackFrameObject frames)) l -> exists ls os, l = JSONArray ls /\ mapM asObject ls = Some os.
Proof.
  intros Hb. inversion Hb as [| | |bs ls Hf|]; subst. clear Hb. exists ls. revert ls Hf. induction frames as [|f frames IH]; intros ls Hf.
  - apply Forall2_nil_inv_l in Hf as ->. by exists [].
  - apply Forall2_cons_inv_l in Hf as (j & ls' & Hj & Hf & ->). apply becomes_literal_inv in Hj as (js & -> & _).
    destruct (IH ls' Hf) as (os & _ & Hos). eexists. split; [done|]. cbn. by rewrite Hos.
Qed.

(** The details of an exception can be read back. *)
Lemma exceptionDetails_read m j : becomes (Host.createExceptionDetails m) j ->
  exists o, j = JSONObject o /\ toExceptionDetails o <> Crash.
Proof.
  intros (js & -> & Hms)%becomes_literal_inv. eexists. split; [done|].
  do 6 (apply becomes_cons in Hms as (? & ? & -> & ? & Hms)). apply Forall2_nil_inv_l in Hms as ->.
  unfold toExceptionDetails. destruct (getString _ _) as [t|]; [|done]. cbv zeta.
  match goal with Hb : becomes (match mi_stackTrace m with _ => _ end) ?l |- _ =>
    change (getArray (u "stackTrace") _) with (asArray l); assert (exists ls os, default [] (asArray l) = ls /\ mapM asObject ls = Some os) as (ls & os & -> & Hos) end.
  - destruct (mi_stackTrace m) as [frames|].
    + match goal with Hb : becomes (Elements _) _ |- _ => apply becomes_frames in Hb as (ls & os & -> & Hos) end. by exists ls, os.
    + match goal with Hb : becomes (Value JSUndefined) _ |- _ => apply becomes_value_inv in Hb as ->; [|done] end. by exists [], [].
  - destruct ls; [done|]. by rewrite Hos.
Qed.

Lemma evaluated_wellFormed c b j : evaluated (hasExceptionDetails c) b -> becomes b j -> wellFormedResult c (CallReturned (Some j)) = true.
Proof.
  unfold wellFormedResult. cbn [Injected.callResult].
  intros [(t & -> & Ht)|[(r & ->)|(r & d & -> & Hd)]] Hb.
  - apply becomes_value_inv in Hb as ->; [|done]. by destruct t.
  - apply becomes_literal_inv in Hb as (js & -> & Hms).
    apply becomes_cons in Hms as (j1 & ? & -> & ->%becomes_value_inv & Hms); [|done].
    apply becomes_cons in Hms as (j2 & ? & -> & (o & -> & _)%becomes_literal_inv & Hms). by apply Forall2_nil_inv_l in Hms as ->.
  - apply becomes_literal_inv in Hb as (js & -> & Hms).
    apply becomes_cons in Hms as (j1 & ? & -> & ->%becomes_value_inv & Hms); [|done].
    apply becomes_cons in Hms as (j2 & ? & -> & (o & -> & _)%becomes_literal_inv & Hms).
    apply becomes_cons in Hms as (j3 & ? & -> & Hj & Hms). apply Forall2_nil_inv_l in Hms as ->.
    destruct Hd as [->|[Hc [m ->]]]; [by apply becomes_value_inv in Hj as ->|].
    apply exceptionDetails_read in Hj as (o3 & -> & Ho). 
    change (match (if hasExceptionDetails c then match toExceptionDetails o3 with Done e => Done (Answer (mkEvalResult (objectOf o) true e)) | Crash => Crash end
                   else Crash) with Done (ErrorReply []) => false | Done _ => true | Crash => false end = true).
    rewrite Hc. by destruct (toExceptionDetails o3).
Qed.

End Results.

(** ** What the script does *)

Section Describing.
Context {E : Type} {J : JSEngine E} {W : JSLaws E} (n : nat) {L : JSLimits False n (fun _ => True)}.

Lemma ends_normally {A} (m : Injected E A) (Q : A -> Prop) st :
  spec False (inv (fun _ => True) st.2) m Q (fun _ => False) ->
  JSall (fun r => r.2.2 = st.2 /\ exists a, r.1 = Normal a /\ Q a) (m st).
Proof.
  intros Hm. eapply JSall_mono; [by apply (Hm st)|]. intros [[a|v|] s'] Hr; cbn in Hr; [|by destruct Hr as [_ []]|done].
  destruct Hr as [[_ Hs] Hq]. split; [done|]. by exists a.
Qed.


End Describing.

Section Answers.
Context {P : Platform} {E : Type} {V : V8Engine E} (J : ScriptState -> JSEngine E) (n : nat).
Context {W : forall s, @JSLaws E (J s)} {L : forall s, @JSLimits E (J s) False n (fun _ => True)}.

#[local] Abbreviation any := (fun _ => True).


Lemma evaluationFor_spec s c :
  spec False (keeping any) (evaluationFor J n s c)
    (fun b => evaluated (hasExceptionDetails c) b \/ hasExceptionDetails c = false /\ b = text []) any.
Proof.
  destruct c as [expression group api byValue generate|id expression arguments byValue generate|frames async id expression group api byValue generate];
    cbn [evaluationFor hasExceptionDetails].
  - intros st _. eapply wpj_mono; [apply (evaluate_ok False n any group st.2)|by intros b s' [_ ?]; split; [|left]|done].
    exists st.2. by split; [left|].
  - apply spec_always. intros i. eapply spec_mono; [apply (callFunctionOn_ok False n any)| |done]. intros b [Hb| ->]; [by left|by right].
  - intros st _. eapply wpj_mono; [apply (evaluateOnCallFrame_ok False n any group st.2)|by intros b s' [_ ?]; split; [|left]|done].
    exists st.2. by split; [left|].
Qed.


End Answers.

(** ** The state of the script *)

Section State.
Context {E : Type} {V : V8Engine E} (J : ScriptState -> JSEngine E) (n : nat).
Context {W : forall s, @JSLaws E (J s)} {L : forall s, @JSLimits E (J s) False n (fun _ => True)}.

#[local] Abbreviation any := (fun _ => True).

(** What a call makes of the state of the script. *)
Definition stateAfter (c : InjectedCall) (i : InjectedState) : InjectedState :=
  match c with
  | CallClearLastEvaluationResult => i <| lastResult := JSUndefined |>
  | CallSetCustomObjectFormatterEnabled enabled => i <| customObjectFormatterEnabled := enabled |>
  | _ => i
  end.

(** [callFunctionOn] is for no group. *)
Definition evaluationGroup (c : EvaluationCall) : ustring :=
  match c with CallEvaluate _ g _ _ _ | CallEvaluateOnCallFrame _ _ _ _ g _ _ _ => g | CallFunctionOn _ _ _ _ _ => [] end.

(** The rest of the state is that of other contexts. *)
Definition changes (s : ScriptState) (Q : InjectedState -> Prop) (w w' : E * gmap ScriptState InjectedState) : Prop :=
  Q (scriptOf s w') /\ forall s', s' <> s -> w'.2 !! s' = w.2 !! s'.

Lemma put_changes s r w (Q : InjectedState -> Prop) : Q r.2 -> changes s Q w (put s r w).
Proof.
  intros Hq. split; [unfold scriptOf, put; cbn; by rewrite lookup_insert_eq|]. intros s' Hs. cbn. by rewrite lookup_insert_ne.
Qed.

Lemma callScript_changes {A B} s (m : Injected E A) (f : completion A -> E -> B) w (Q : InjectedState -> Prop) :
  wpj False m (fun _ r => Q r.2) (fun _ r => Q r.2) (w.1, scriptOf s w) -> JSall (fun r => changes s Q w r.2) (callScript s m f w).
Proof. intros Hm. apply (callScript_all False); [|done]. eapply wpj_mono; [exact Hm|..]; intros; by apply put_changes. Qed.

Lemma asJSON_wpj s (m : Injected E built) (Q : InjectedState -> Prop) st :
  wpj False m (fun _ r => Q r.2) (fun _ r => Q r.2) st -> wpj False (asJSON J s m) (fun _ r => Q r.2) (fun _ r => Q r.2) st.
Proof.
  intros Hm. apply wpj_bind. eapply wpj_mono; [exact Hm| |done]. intros b r Hr.
  eapply wpj_mono; [by apply (@builtToJSON_becomes E (J s) False n any (L s) r.2 _ b any r)|..]; by intros a r' [[_ ->] _].
Qed.

Lemma functionFor_state s c i st : st.2 = i ->
  wpj False (functionFor J n s c) (fun _ r => r.2 = stateAfter c i) (fun _ r => r.2 = stateAfter c i) st.
Proof.
  intros <-. assert (forall m Q, spec False (inv any st.2) m Q any ->
    wpj False m (fun (_ : built) r => r.2 = st.2) (fun _ r => r.2 = st.2) st) as Hspec.
  { intros m Q Hm. eapply wpj_mono; [by apply (Hm st)|by intros a r [[_ ?] _]..]. }
  destruct c; cbn [functionFor stateAfter]; try done; eapply Hspec.
  - apply (restartFrame_answers False n any).
  - apply (getStepInPositions_answers False n any).
  - apply (setVariableValue_any False n any).
  - apply (getFunctionDetails_answers False n any).
  - apply (getGeneratorObjectDetails_answers False n any).
  - apply (getCollectionEntries_answers False n any).
  - apply (getProperties_answers False n any).
  - apply (getInternalProperties_answers False n any).
Qed.

Lemma evaluationFor_state s c st :
  wpj False (evaluationFor J n s c) (fun _ r => after (evaluationGroup c) st.2 r.2) (fun _ r => after (evaluationGroup c) st.2 r.2) st.
Proof.
  assert (forall g m Q, spec False (alive any g st.2) m Q any ->
    wpj False m (fun (_ : built) r => after g st.2 r.2) (fun _ r => after g st.2 r.2) st) as Hspec.
  { intros g m Q Hm. eapply wpj_mono; [apply (Hm st); exists st.2; by split; [left|]|by intros a r [(j & Hj & _ & ->) _]..]. }
  destruct c; cbn [evaluationFor evaluationGroup].
  - eapply Hspec, (evaluate_ok False n any).
  - eapply wpj_mono; [by apply (callFunctionOn_ok False n any st.2)|by intros a r [[_ ?] _]; left..].
  - eapply Hspec, (evaluateOnCallFrame_ok False n any).
Qed.


End State.

(** ** Examples *)

Section Examples.
#[local] Existing Instance IntegerPlatform.platform.
#[local] Existing Instance literalEngine.
#[local] Existing Instances modelEngine modelLaws modelJSLaws modelLimits.

Abbreviation model := (fun _ : ScriptState => modelJS).

Definition modelState : Isolate * gmap ScriptState InjectedState := (mkIsolate ∅ ∅ [] [] false, {[1 := newScript 1]}).

(** The array [[1]]. *)
Definition modelArray : jsvalue := JSObject (objectNumber (u "[1]")).





(** An object that is bound, a call on it, and an argument whose text throws. *)
Definition calledWorld : World (Isolate * gmap ScriptState InjectedState) :=
  boundWorld <| ism := (ism boundWorld) <| natives := {[1 := (Native.bind (valueNumber (JSString (u "a"))) [] Native.new).2]} |> |>.

Definition throwingCall : EvaluationCall :=
  CallFunctionOn (Source.objectIdText 1 1) (u "f") (u "[{" ++ [dquote] ++ u "objectId" ++ [dquote] ++ u ":" ++ [dquote] ++ u "x" ++ [dquote] ++ u "}]")
    false false.


End Examples.
